(* ===== verification/_CoqProject ===== *)
-Q . S2P
Prelude.v
GoFloat.v
GoLib.v
Json.v
JsonWrite.v
GoDecimal.v
FloatText.v
FloatExact.v
GoTime.v
Sha256.v
Protocol.v
ProtocolProps.v
Transport.v
TransportProps.v
Capture.v
Events.v
EventsProps.v
Logging.v
Config.v
Discovery.v
GoFlag.v
Cli.v
Bridge.v
BridgeProps.v
BridgeRun.v
BridgeRunProps.v
BridgeClaims.v
Session.v
BridgeTraffic.v
Shutdown.v
BridgeEvents.v
SessionClaims.v
Main.v
MainProps.v
Composition.v
