(* ===== verification/Prelude.v ===== *)
(** * xbslink-ng: a verification library

    xbslink-ng bridges the System Link traffic of two Xbox consoles over UDP.
    A process captures the console's Ethernet frames with libpcap, sends them
    to its peer, and injects the frames it receives.  This library models the
    Go code under src/ as functions and step relations, and proves what makes
    it correct; where the code does not do what it means to, it proves that.

    ** Parts, files and correspondence

    - [Prelude]: machine integers ([wrap], [swrap]), bytes, big-endian
      integers, slices with Go's bounds checks, the outcome of a fallible call
      ([outcome]: value, error or panic), the state monad [prog], [loop] for
      loops that wait for the outside world, and the shared tactics.
    - [Sha256]: SHA-256 and HMAC as executable functions, checked on published
      test vectors; the class [Mac] is what the protocol needs of them (a
      keyed function with 32-byte results), and [hmac_sha256] its instance.
    - [GoFloat], [GoLib], [Json], [JsonWrite], [GoDecimal], [FloatText],
      [FloatExact], [GoTime], [GoFlag]: the float64 operations, and the parts
      of Go's strings, strconv, fmt, net, time, encoding/json and flag packages
      the program uses: reading and writing JSON, decimal integers, the
      shortest text of a float64, RFC 3339 times and durations, and flags.
    - [Protocol], [ProtocolProps]: internal/protocol/protocol.go.  [Codec] is
      the Go struct; [encode], [decode], [Decode], the [Encode...] functions
      and [VerifyChallengeResponse] are the methods of the same names.
    - [Transport], [TransportProps]: internal/transport/transport.go.  The
      socket is open, closed or nil, with a log of what was sent; the loops of
      [WaitForPeer], [Connect] and [attemptHandshake] run on lists of what the
      network, the clock and the context answer, one element per iteration.
    - [Capture]: internal/capture/capture.go, over a record [Pcap] of what
      libpcap answers.
    - [Events], [EventsProps]: internal/events.  An event becomes the text of a
      JSON line; the asynchronous writer is a state machine of producers, the
      writer goroutine and [Close], and a write may fail after any byte.
    - [Bridge], [BridgeProps]: internal/bridge/bridge.go, the statistics and
      each handler as a function on the bridge's state.
    - [BridgeRun], [BridgeRunProps], [BridgeClaims]: [Bridge.Run] and its seven
      goroutines as program counters and labelled steps that interleave
      freely; [reachable] is the closure of the steps from [start], and [Run]
      is the method from its call to its return under a schedule.
    - [Shutdown]: the same goroutines after the context is cancelled, and the
      states from which [Run] cannot return ([doomed]).  [BridgeTraffic]: the
      frames sent and accepted, and the counters.  [BridgeEvents]: the numbers
      in the events and in the statistics line, as they are read from the text.
    - [Session], [SessionClaims]: two such bridges and the network between
      them, which may drop, repeat and reorder datagrams and add any that have
      no valid HMAC.
    - [Logging]: internal/logging/logging.go, with the lines written so far as
      the logger's output.
    - [Config]: internal/config/config.go, over a file system ([files], from
      paths to contents) and a record [Host] of what its calls answer.
    - [Discovery]: internal/discovery/discovery.go, over [Pcap] and a list of
      what the handle reads.
    - [Cli]: [main], [runListen], [runConnect] and [runInterfaces] of
      cmd/xbslink-ng/main.go, from the arguments to the call of [runBridge],
      with what the other commands print.
    - [Main], [MainProps]: [runBridge] and its helpers in the same file.
      [setup] and [discoverFirst] are what precedes the reconnection loop and
      [iterate] is its body, which calls [Transport.New], [Bridge.New],
      [runBackgroundDiscovery] and [BridgeRun.Run]; [World] is the machine it
      runs on and [iter_in] what one round is given.
    - [Composition]: two such processes, from start-up over the handshake to
      the exchange of frames, and one from a signal to its end.  [Process] is
      a process with all its inputs, [launched] what precedes its loop, and
      [running] the system of goroutines inside it, with the capture that
      background discovery hands over.

    The bridge and its transport hold the same codec object, so the codec is a
    field of the transport's state.  The frames queued for injection are
    slices of one receive buffer, as in the code, not copies.

    A step of a goroutine is one channel operation, one critical section, one
    atomic read or one call of the codec, the transport or the capture: a ping
    goroutine that gives up does so in four steps, and the six values of a
    statistics line are read one by one.  Two steps are larger: the counting
    of an accepted frame with the channel send that follows it ([handleFrame]),
    and the sending of a frame with its two counters ([countTx]).  Only the
    goroutine that takes the step writes those counters; a statistics line of
    the program may also read between the two.

    ** What the theorems show

    - Codec: every message is read back as it was sent; a secure stream is
      accepted whole under loss; nothing is accepted twice, as long as no
      message with nonce zero is accepted, which resets the window and which
      [encode] makes only after 2^64 - 1 messages; a datagram is accepted only
      if it is what [encode] makes with the key; no input makes the decoder
      panic; messages are well-formed; nonces and lengths are in bounds.
      After a reset of the window everything recorded is accepted.
    - Transport: the handshake completes on both sides, and a connecting side
      succeeds only on an authenticated answer to its own challenge; retries
      follow the schedule; the life cycle has an invariant; a recorded HELLO
      makes a listener connect again.
    - Bridge handlers: the moving average, the exactness of the floating-point
      spike test, keep-alive as a refinement of a counter of unanswered pings,
      state events, connection, number formatting.
    - Running bridge, in every schedule: queues and slices stay in bounds,
      captured frames go out in order, unchanged and at most once; the four
      counters are the numbers of frames and bytes sent and accepted; [Run]
      returns only after its context is cancelled, and then can return from
      every state that is not doomed, and from no other.  And the schedules
      that go wrong: an overwritten frame, reordered nonces, a channel closed
      twice, a call on a nil handle.
    - Capture: MAC addresses, the choice of the interface, the filter.
    - Events: what is read from the lines written, and the queue, is what was
      emitted, in order, whatever writes fail; the queue is bounded and
      [Close] drains it, while an event emitted after the writer goroutine has
      returned is queued and lost.  The counters and round trips in the file
      are the bridge's, to the nanosecond.
    - Two bridges: under any schedules and a network that makes no HMACs and
      sends the receiver nothing of its own back, what the receiver accepts is
      a subsequence of what the sender captured; and from two connected
      bridges any list of frames gets through, whole and in order.  A bridge
      made by [New] with a key satisfies the first theorem's hypotheses once
      its connection phase succeeded.
    - Two processes: a listening and a connecting one, started with the same
      key and knowing their consoles, can connect and forward frames both ways;
      under any inputs and schedules the subsequence property above holds
      between them; one that is told to stop ends with its capture released
      once [Run] returns, and can do so from exactly the states that are not
      doomed.  And what goes wrong: a bridge accepts its own datagrams when
      they are sent back to it.
    - Configuration: a saved address is loaded again, and a save that fails at
      any point never leaves a file that is read as another configuration.
      Discovery: exactly when it succeeds and with which address.  Logging:
      the level filter is monotone, level names are read back.
    - Program: the arguments arrive as given and within their ranges; start-up
      chooses the address, the filter and the codec as documented; a
      discovered address saves the next start from discovery; the capture is
      released at the end.  And what goes wrong: the loop never reconnects, a
      port is cut to 16 bits, an interval overflows, a long saved address
      blocks start-up, Enter prints nothing when the interval is zero.

    ** Bounds and fuel

    Two functions use fuel.  For the JSON parser [enough], twice the length of
    the text and two, suffices: any more gives the same result ([parse_fuel]).
    The search for the shortest decimal of a float64 tries each position from
    the first to the last that can be needed, and finds one
    ([shortestFrom_total]).  Loops that wait for input are structural in the
    list of inputs, of any length; the goroutines are given by single steps,
    and schedules are lists of labels of any length.  The round-trip average
    is bounded for round trips below 2^58 ns, the spike test is exact below
    2^53 ns and the text of a round trip below 2^52 ns (52 days), because of
    64-bit sums and 53-bit mantissas. After a cancellation 39 steps end [Run]:
    [remaining] counts them.  The theorems on streams and sessions need the
    nonces sent to stay below 2^64.

    ** Not modelled

    The texts of log messages other than the statistics line (output only) and
    of the flag package's own messages; gopacket and libpcap, whose answers are
    inputs, and what gopacket does with a nil handle, which ends a run; the
    Unicode tables of case mapping, which are an argument; the Go memory model
    below the steps of the goroutines; the time of read deadlines and socket
    buffer sizes; file paths on Windows; tools.go, which has imports only, and
    the simulators and helpers of the tests under src/test. *)

From Stdlib Require Export ZArith Lia.
From Stdlib Require Export Init.Byte Strings.Byte.
From stdpp Require Export base tactics numbers list strings option relations.

Open Scope Z_scope.

(** ** Machine integers

    Go's fixed-width integers are integers in [Z] together with the reduction
    the hardware applies after each arithmetic operation. *)

Definition wrap (w : Z) (z : Z) : Z := z mod 2 ^ w.
Definition swrap (w : Z) (z : Z) : Z := (z + 2 ^ (w - 1)) mod 2 ^ w - 2 ^ (w - 1).

Abbreviation u16 := (wrap 16).
Abbreviation u32 := (wrap 32).
Abbreviation u64 := (wrap 64).
Abbreviation i32 := (swrap 32).
Abbreviation i64 := (swrap 64).

Definition is_u64 (z : Z) : Prop := 0 <= z < 2 ^ 64.
Definition is_i64 (z : Z) : Prop := - 2 ^ 63 <= z < 2 ^ 63.

Lemma wrap_bound w z : 0 <= w -> 0 <= wrap w z < 2 ^ w.
Proof. intros. apply Z.mod_pos_bound. lia. Qed.

Lemma wrap_small w z : 0 <= z < 2 ^ w -> wrap w z = z.
Proof. apply Z.mod_small. Qed.

Lemma swrap_bound w z : 0 < w -> - 2 ^ (w - 1) <= swrap w z < 2 ^ (w - 1).
Proof.
  intros. unfold swrap.
  assert (2 ^ w = 2 * 2 ^ (w - 1)) as E by (rewrite <- Z.pow_succ_r by lia; f_equal; lia).
  pose proof (Z.mod_pos_bound (z + 2 ^ (w - 1)) (2 ^ w)). lia.
Qed.

Lemma swrap_small w z : 0 < w -> - 2 ^ (w - 1) <= z < 2 ^ (w - 1) -> swrap w z = z.
Proof.
  intros. unfold swrap.
  assert (2 ^ w = 2 * 2 ^ (w - 1)) as E by (rewrite <- Z.pow_succ_r by lia; f_equal; lia).
  rewrite Z.mod_small; lia.
Qed.

Lemma swrap_wrap w z : 0 < w -> swrap w (wrap w z) = swrap w z.
Proof. intros. unfold swrap, wrap. by rewrite Zplus_mod_idemp_l. Qed.

Lemma wrap_wrap w z : wrap w (wrap w z) = wrap w z.
Proof. apply Zmod_mod. Qed.

(** ** Bytes *)

#[export] Instance byte_eq_dec : EqDecision byte := Byte.byte_eq_dec.

Definition b2z (b : byte) : Z := Z.of_N (Byte.to_N b).
Definition z2b (z : Z) : byte := default x00 (Byte.of_N (Z.to_N (z mod 256))).

Lemma b2z_bound b : 0 <= b2z b < 256.
Proof. unfold b2z. pose proof (Byte.to_N_bounded b). lia. Qed.

Lemma b2z_z2b z : b2z (z2b z) = z mod 256.
Proof.
  unfold b2z, z2b. pose proof (Z.mod_pos_bound z 256).
  destruct (Byte.of_N (Z.to_N (z mod 256))) eqn:E; simpl.
  - apply Byte.to_of_N in E. lia.
  - apply Byte.of_N_None_iff in E. lia.
Qed.

Lemma z2b_b2z b : z2b (b2z b) = b.
Proof.
  unfold b2z, z2b. pose proof (Byte.to_N_bounded b).
  rewrite Z.mod_small by lia. by rewrite N2Z.id, Byte.of_to_N.
Qed.

Lemma b2z_inj a b : b2z a = b2z b -> a = b.
Proof. intros E. by rewrite <- (z2b_b2z a), E, z2b_b2z. Qed.

(** ** Big-endian integers: [encoding/binary].BigEndian

    [be_put n v] is what [PutUint16], [PutUint32] and [PutUint64] store for
    [n] = 2, 4, 8 (the most significant byte first); [be_get] is the value
    [Uint16], [Uint32] and [Uint64] read back. *)

Fixpoint be_put (n : nat) (v : Z) : list byte :=
  match n with
  | O => []
  | S m => z2b (v ≫ (8 * Z.of_nat m)) :: be_put m v
  end.

Definition be_get (l : list byte) : Z := foldl (fun acc b => acc * 256 + b2z b) 0 l.

Lemma length_be_put n v : length (be_put n v) = n.
Proof. induction n; simpl; congruence. Qed.

Lemma be_get_acc_put n : forall acc v,
  foldl (fun acc b => acc * 256 + b2z b) acc (be_put n v)
  = acc * 2 ^ (8 * Z.of_nat n) + v mod 2 ^ (8 * Z.of_nat n).
Proof.
  induction n as [|n IH]; intros acc v; cbn [be_put foldl].
  - change (2 ^ (8 * Z.of_nat 0)) with 1. rewrite Z.mod_1_r. lia.
  - rewrite IH, b2z_z2b, Z.shiftr_div_pow2 by lia.
    set (k := 8 * Z.of_nat n).
    replace (8 * Z.of_nat (S n)) with (k + 8) by lia.
    rewrite Z.pow_add_r by lia. change (2 ^ 8) with 256.
    assert (2 ^ k > 0) by (apply Z.lt_gt, Z.pow_pos_nonneg; lia).
    rewrite (Z.rem_mul_r v (2 ^ k) 256) by lia. ring.
Qed.

Lemma be_get_put n v : be_get (be_put n v) = v mod 2 ^ (8 * Z.of_nat n).
Proof. unfold be_get. rewrite be_get_acc_put. lia. Qed.

Lemma be_get_acc_bound l : forall acc k, 0 <= acc < 2 ^ k -> 0 <= k ->
  0 <= foldl (fun acc b => acc * 256 + b2z b) acc l < 2 ^ (k + 8 * Z.of_nat (length l)).
Proof.
  induction l as [|b l IH]; intros acc k Hacc Hk; simpl foldl.
  - simpl length. replace (k + 8 * Z.of_nat 0) with k by lia. done.
  - replace (k + 8 * Z.of_nat (length (b :: l)))
      with ((k + 8) + 8 * Z.of_nat (length l)) by (simpl length; lia).
    apply IH; [|lia].
    rewrite Z.pow_add_r by lia. change (2 ^ 8) with 256.
    pose proof (b2z_bound b). nia.
Qed.

Lemma be_get_bound l : 0 <= be_get l < 2 ^ (8 * Z.of_nat (length l)).
Proof. apply (be_get_acc_bound l 0 0); lia. Qed.

Lemma be_get_acc_inj l : forall l' acc acc', length l = length l' ->
  foldl (fun acc b => acc * 256 + b2z b) acc l = foldl (fun acc b => acc * 256 + b2z b) acc' l' ->
  acc = acc' /\ l = l'.
Proof.
  induction l as [|b l IH]; intros [|b' l'] acc acc' Hl E; simplify_eq/=; [done|].
  apply IH in E as [E ->]; [|done].
  pose proof (b2z_bound b). pose proof (b2z_bound b').
  assert (acc = acc') as -> by lia. assert (b2z b = b2z b') as ->%b2z_inj by lia. done.
Qed.

Lemma be_put_get l : be_put (length l) (be_get l) = l.
Proof.
  eapply (be_get_acc_inj _ _ 0 0); [apply length_be_put|].
  change (be_get (be_put (length l) (be_get l)) = be_get l).
  rewrite be_get_put. apply Z.mod_small, be_get_bound.
Qed.

(** ** Slices

    [slice lo hi l] is the value of Go's [l[lo:hi]] when the bounds are in
    range; [go_copy dst lo hi src] is [dst] after [copy(dst[lo:hi], src)]. *)

Definition slice {A} (lo hi : nat) (l : list A) : list A := take (hi - lo) (drop lo l).

Definition go_copy {A} (dst : list A) (lo hi : nat) (src : list A) : list A :=
  let n := Nat.min (hi - lo) (length src) in
  take lo dst ++ take n src ++ drop (lo + n) dst.

(** [make([]byte, n)]. *)
Definition make_bytes (n : nat) : list byte := replicate n x00.

Lemma length_slice {A} lo hi (l : list A) :
  (hi <= length l)%nat -> length (slice lo hi l) = (hi - lo)%nat.
Proof. intros. unfold slice. rewrite length_take, length_drop. lia. Qed.

Lemma slice_app_mid {A} (a b c : list A) lo hi :
  lo = length a -> hi = (length a + length b)%nat -> slice lo hi (a ++ b ++ c) = b.
Proof.
  intros -> ->. unfold slice. rewrite drop_app_length.
  replace (_ + _ - _)%nat with (length b) by lia. apply take_app_length.
Qed.

Lemma slice_split {A} lo hi (l : list A) : (lo <= hi)%nat ->
  l = take lo l ++ slice lo hi l ++ drop hi l.
Proof.
  intros. unfold slice. replace (drop hi l) with (drop (hi - lo) (drop lo l)).
  - by rewrite take_drop, take_drop.
  - rewrite drop_drop. f_equal. lia.
Qed.

Lemma go_copy_app {A} (a b c src : list A) lo hi :
  lo = length a -> length src = length b -> hi = (length a + length b)%nat ->
  go_copy (a ++ b ++ c) lo hi src = a ++ src ++ c.
Proof.
  intros -> E ->. unfold go_copy.
  rewrite take_app_length. f_equal.
  replace (Nat.min (length a + length b - length a) (length src)) with (length src) by lia.
  rewrite firstn_all. f_equal.
  rewrite app_assoc, E, <- length_app. apply drop_app_length.
Qed.

Lemma go_copy_tail {A} (a b src : list A) lo hi :
  lo = length a -> hi = (length a + length b)%nat -> length src = length b ->
  go_copy (a ++ b) lo hi src = a ++ src.
Proof.
  intros. rewrite <- (app_nil_r b). rewrite (go_copy_app a b []) by done. by rewrite app_nil_r.
Qed.

Lemma go_copy_full {A} (dst src : list A) hi :
  hi = length dst -> length src = length dst -> go_copy dst 0 hi src = src.
Proof. intros -> ?. by apply (go_copy_tail [] dst src). Qed.

Lemma slice_prefix {A} (a b : list A) hi : hi = length a -> slice 0 hi (a ++ b) = a.
Proof. intros ->. by apply (slice_app_mid [] a b). Qed.

Lemma slice_suffix {A} (a b : list A) lo hi :
  lo = length a -> hi = (length a + length b)%nat -> slice lo hi (a ++ b) = b.
Proof. intros. rewrite <- (app_nil_r b) at 1. by apply slice_app_mid. Qed.

Lemma slice_all {A} (l : list A) hi : hi = length l -> slice 0 hi l = l.
Proof. intros ->. unfold slice. by rewrite drop_0, Nat.sub_0_r, firstn_all. Qed.

Lemma sublist_app_cancel {A} (k l1 l2 : list A) : (k ++ l1) `sublist_of` (k ++ l2) -> l1 `sublist_of` l2.
Proof.
  induction k as [|x k IH]; [done|]. cbn. intros [H|(l & [= <-] & H)]%sublist_cons_r; [|by auto].
  apply IH. etrans; [by apply (sublist_cons x)|exact H].
Qed.

Lemma length_go_copy {A} (dst : list A) lo hi src :
  (lo <= hi <= length dst)%nat -> length (go_copy dst lo hi src) = length dst.
Proof.
  intros. unfold go_copy. rewrite !length_app, !length_take, length_drop. lia.
Qed.

(** ** Outcomes

    A Go function that returns [(T, error)] and may hit a run-time check ends
    in one of three ways: a value, an error value, or a run-time panic. *)

Inductive outcome (E A : Type) : Type :=
| Ok (a : A)
| Err (e : E)
| Panic.
Arguments Ok {E A} a.
Arguments Err {E A} e.
Arguments Panic {E A}.

#[export] Instance outcome_ret E : MRet (outcome E) := fun A a => Ok a.
#[export] Instance outcome_bind E : MBind (outcome E) := fun A B k m =>
  match m with
  | Ok a => k a
  | Err e => Err e
  | Panic => Panic
  end.
#[export] Instance outcome_fmap E : FMap (outcome E) := fun A B f m =>
  match m with
  | Ok a => Ok (f a)
  | Err e => Err e
  | Panic => Panic
  end.

#[export] Instance outcome_eq_dec {E A} `{EqDecision E, EqDecision A} :
  EqDecision (outcome E A).
Proof. solve_decision. Defined.

(** Checked indexing [l[i]] and slicing [l[lo:hi]], [l[lo:]], [l[:hi]]. *)
Definition go_index {E A} (l : list A) (i : nat) : outcome E A :=
  match l !! i with Some a => Ok a | None => Panic end.

Definition go_slice {E A} (l : list A) (lo hi : nat) : outcome E (list A) :=
  if (lo <=? hi)%nat && (hi <=? length l)%nat then Ok (slice lo hi l) else Panic.

Definition no_panic {E A} (o : outcome E A) : Prop := o <> Panic.

Lemma go_slice_ok {E A} (l : list A) lo hi :
  (lo <= hi)%nat -> (hi <= length l)%nat -> go_slice (E := E) l lo hi = Ok (slice lo hi l).
Proof.
  intros. unfold go_slice.
  by rewrite (proj2 (Nat.leb_le _ _)), (proj2 (Nat.leb_le _ _)) by lia.
Qed.

Lemma go_index_cons {E A} (a : A) l : go_index (E := E) (a :: l) 0 = Ok a.
Proof. done. Qed.

(** ** Stateful computations

    A method with a pointer receiver is a computation that threads the
    receiver's state; an early [return err] keeps the state reached so far. *)

Definition prog (S E A : Type) : Type := S -> S * outcome E A.

#[export] Instance prog_ret S E : MRet (prog S E) := fun A a s => (s, Ok a).
#[export] Instance prog_bind S E : MBind (prog S E) := fun A B k m s =>
  match m s with
  | (s', Ok a) => k a s'
  | (s', Err e) => (s', Err e)
  | (s', Panic) => (s', Panic)
  end.

Definition get {S E} : prog S E S := fun s => (s, Ok s).
Definition modify {S E} (f : S -> S) : prog S E unit := fun s => (f s, Ok tt).
Definition throw {S E A} (e : E) : prog S E A := fun s => (s, Err e).
Definition lift {S E A} (o : outcome E A) : prog S E A := fun s => (s, o).

Ltac unfold_prog :=
  unfold mbind, prog_bind, mret, prog_ret, get, modify, throw, lift in *.

(** ** Loops

    A [for] loop whose body waits for the outside world is run on the list of
    what the world answers, one input per iteration.  A body goes to the next
    iteration, returns, or is itself still waiting when its inputs end. *)

Inductive ctl (R : Type) : Type :=
| Next
| Return (r : R)
| Waiting.
Arguments Next {R}.
Arguments Return {R} r.
Arguments Waiting {R}.

Fixpoint loop {I S R} (body : I -> S -> S * ctl R) (ins : list I) (s : S) : S * option R :=
  match ins with
  | [] => (s, None)
  | i :: ins' =>
      match body i s with
      | (s1, Next) => loop body ins' s1
      | (s1, Return r) => (s1, Some r)
      | (s1, Waiting) => (s1, None)
      end
  end.

(** An invariant of the body is an invariant of the loop. *)
Lemma loop_inv {I S R} (P : S -> Prop) (body : I -> S -> S * ctl R) ins : forall s,
  (forall i s, P s -> P (body i s).1) -> P s -> P (loop body ins s).1.
Proof.
  induction ins as [|i ins IH]; intros s Hb Hs; [done|]. simpl.
  specialize (Hb i s Hs) as Hb'. destruct (body i s) as [s1 [|r|]]; simpl in *; auto.
Qed.

(** If the loop returned, some iteration did, from a state the invariant holds in. *)
Lemma loop_return {I S R} (P : S -> Prop) (body : I -> S -> S * ctl R) ins : forall s s' r,
  (forall i s, P s -> P (body i s).1) -> P s ->
  loop body ins s = (s', Some r) ->
  exists i s0, i ∈ ins /\ P s0 /\ body i s0 = (s', Return r).
Proof.
  induction ins as [|i ins IH]; intros s s' r Hb Hs E; [done|]. simpl in E.
  specialize (Hb i s Hs) as Hb'. destruct (body i s) as [s1 [|r1|]] eqn:Ebody; simplify_eq/=.
  - destruct (IH _ _ _ Hb Hb' E) as (j & s0 & Hj & Hs0 & Ej).
    exists j, s0. split; [by apply list_elem_of_further|done].
  - exists i, s. split; [by apply list_elem_of_here|done].
Qed.

(** ** Automation shared by the components *)

(** Case analysis on every [if] and [match] of the goal and hypotheses. *)
Ltac go_cases := repeat (case_match; simplify_eq/=).

(** The same, stopping each branch as soon as [tac] closes it. *)
Ltac go_crush tac := repeat (first [solve [tac] | case_match; simplify_eq/=]).

(** Boolean tests become propositions. *)
Ltac reflect_all :=
  repeat match goal with
  | H : (_ && _) = true |- _ => apply andb_true_iff in H as [? ?]
  | H : (_ && _) = false |- _ => apply andb_false_iff in H
  | H : (_ || _) = true |- _ => apply orb_true_iff in H
  | H : (_ || _) = false |- _ => apply orb_false_iff in H as [? ?]
  | H : negb _ = true |- _ => apply negb_true_iff in H
  | H : negb _ = false |- _ => apply negb_false_iff in H
  | H : bool_decide _ = true |- _ => apply bool_decide_eq_true in H
  | H : bool_decide _ = false |- _ => apply bool_decide_eq_false in H
  | H : (_ =? _)%Z = true |- _ => apply Z.eqb_eq in H
  | H : (_ =? _)%Z = false |- _ => apply Z.eqb_neq in H
  | H : (_ <? _)%Z = true |- _ => apply Z.ltb_lt in H
  | H : (_ <? _)%Z = false |- _ => apply Z.ltb_ge in H
  | H : (_ <=? _)%Z = true |- _ => apply Z.leb_le in H
  | H : (_ <=? _)%Z = false |- _ => apply Z.leb_gt in H
  | H : (_ =? _)%nat = true |- _ => apply Nat.eqb_eq in H
  | H : (_ =? _)%nat = false |- _ => apply Nat.eqb_neq in H
  | H : (_ <? _)%nat = true |- _ => apply Nat.ltb_lt in H
  | H : (_ <? _)%nat = false |- _ => apply Nat.ltb_ge in H
  | H : (_ <=? _)%nat = true |- _ => apply Nat.leb_le in H
  | H : (_ <=? _)%nat = false |- _ => apply Nat.leb_gt in H
  end.

(** Evaluate the closed decisions of the goal. *)
Ltac eval_decisions :=
  repeat match goal with
  | |- context [bool_decide ?P] =>
      let b := eval vm_compute in (bool_decide P) in
      lazymatch b with
      | true => change (bool_decide P) with true
      | false => change (bool_decide P) with false
      end
  end; cbv beta iota zeta.

(** Lengths of the byte strings the protocol builds. *)
Create Rewrite HintDb golen.
#[export] Hint Rewrite @length_app @length_take @length_drop @length_replicate
  @length_insert length_be_put @length_cons @length_nil : golen.

Ltac len := autorewrite with golen in *; simpl length in *; lia.
