(* ===== verification/GoFloat.v ===== *)
(** * float64

    Go's [float64] conversions, product, quotient and order on the IEEE 754
    binary64 reference model of the Standard Library ([SpecFloat]), and when
    the comparison the bridge makes with them is the integer one. *)

From Stdlib Require Import SpecFloat.
From S2P Require Import Prelude.

Module GoFloat.

Definition float64 : Type := spec_float.

(** [float64(z)] for an integer [z]: rounding to nearest, ties to even. *)
Definition f64_of_Z (z : Z) : float64 := binary_normalize 53 1024 z 0 false.
Definition f64_mul : float64 -> float64 -> float64 := SFmul 53 1024.
Definition f64_div : float64 -> float64 -> float64 := SFdiv 53 1024.
Definition f64_ltb : float64 -> float64 -> bool := SFltb.

(** The literal [0.5]. *)
Definition f64_half : float64 := binary_normalize 53 1024 1 (-1) false.

(** ** Digits and shifts *)

Lemma digits2_bound m :
  2 ^ (Zpos (digits2_pos m) - 1) <= Zpos m < 2 ^ (Zpos (digits2_pos m)).
Proof.
  induction m as [m IH|m IH|]; simpl digits2_pos; [| |done];
    rewrite Pos2Z.inj_succ, <- Z.add_1_r, Z.add_simpl_r, Z.pow_add_r by lia;
    (assert (2 ^ Zpos (digits2_pos m) = 2 * 2 ^ (Zpos (digits2_pos m) - 1)) as E
      by (rewrite <- Z.pow_succ_r by lia; f_equal; lia)); lia.
Qed.

Lemma digits2_unique m d : 2 ^ (d - 1) <= Zpos m < 2 ^ d -> Zpos (digits2_pos m) = d.
Proof.
  intros [H1 H2]. pose proof (digits2_bound m) as [B1 B2].
  assert (0 <= d) by (destruct (Z.neg_nonneg_cases d); [rewrite Z.pow_neg_r in H2; lia|done]).
  destruct (Z.lt_trichotomy (Zpos (digits2_pos m)) d) as [Hl|[|Hg]]; [|done|].
  - assert (2 ^ Zpos (digits2_pos m) <= 2 ^ (d - 1)) by (apply Z.pow_le_mono_r; lia). lia.
  - assert (2 ^ d <= 2 ^ (Zpos (digits2_pos m) - 1)) by (apply Z.pow_le_mono_r; lia). lia.
Qed.

Lemma iter_xO m n : Zpos (Pos.iter xO m n) = Zpos m * 2 ^ Zpos n.
Proof.
  induction n as [|n IH] using Pos.peano_ind; [simpl; lia|].
  rewrite Pos.iter_succ, Pos2Z.inj_succ, Z.pow_succ_r by lia. lia.
Qed.

Lemma iter_pos_iter {A} (f : A -> A) n : forall x, SpecFloat.iter_pos f n x = Pos.iter f x n.
Proof.
  induction n as [n IH|n IH|]; intros x; simpl; [| |done].
  - by rewrite !IH, Pos.iter_swap, (Pos.iter_swap n), <- Pos.iter_swap.
  - by rewrite !IH.
Qed.

Lemma shr_iter m n :
  SpecFloat.iter_pos shr_1 n (Build_shr_record (Zpos (Pos.iter xO m n)) false false)
  = Build_shr_record (Zpos m) false false.
Proof.
  rewrite iter_pos_iter. induction n as [|n IH] using Pos.peano_ind; [done|].
  rewrite Pos.iter_succ_r, Pos.iter_succ. simpl. exact IH.
Qed.

(** ** Exact rounding *)

Lemma round_aux_exact s m e :
  Zpos (digits2_pos m) = 53 -> -1074 <= e <= 971 ->
  binary_round_aux 53 1024 s (Zpos m) e loc_Exact = S754_finite s m e.
Proof.
  intros Hd He.
  assert (fexp 53 1024 (53 + e) - e = 0) as Hf by (unfold fexp, emin; lia).
  unfold binary_round_aux, shr_fexp. simpl Zdigits2. rewrite Hd, Hf. simpl shr.
  simpl. rewrite Hd, Hf. simpl. by rewrite (proj2 (Z.leb_le _ _)) by lia.
Qed.

Lemma round_exact s m : Zpos m < 2 ^ 53 ->
  exists m', binary_round 53 1024 s m 0 = S754_finite s m' (Zpos (digits2_pos m) - 53) /\
    Zpos m' = Zpos m * 2 ^ (53 - Zpos (digits2_pos m)) /\ 2 ^ 52 <= Zpos m' < 2 ^ 53.
Proof.
  intros Hm. pose proof (digits2_bound m) as [B1 B2].
  assert (Zpos (digits2_pos m) <= 53) as Hd.
  { destruct (Z.le_gt_cases (Zpos (digits2_pos m)) 53); [done|].
    assert (2 ^ 53 <= 2 ^ (Zpos (digits2_pos m) - 1)) by (apply Z.pow_le_mono_r; lia). lia. }
  set (d := Zpos (digits2_pos m)) in *.
  assert (exists m', shl_align m 0 (fexp 53 1024 (d + 0)) = (m', d - 53) /\
            Zpos m' = Zpos m * 2 ^ (53 - d)) as (m' & Es & Em).
  { assert (fexp 53 1024 (d + 0) = d - 53) as -> by (unfold fexp, emin; lia).
    unfold shl_align. destruct (d - 53 - 0) as [|q|q] eqn:Eq; [|lia|].
    - exists m. replace (53 - d) with 0 by lia. split; [f_equal|]; lia.
    - exists (Pos.iter xO m q). split; [done|]. rewrite iter_xO. f_equal. f_equal. lia. }
  assert (2 ^ 52 = 2 ^ (d - 1) * 2 ^ (53 - d)) as P1 by (rewrite <- Z.pow_add_r by lia; f_equal; lia).
  assert (2 ^ 53 = 2 ^ d * 2 ^ (53 - d)) as P2 by (rewrite <- Z.pow_add_r by lia; f_equal; lia).
  assert (0 < 2 ^ (53 - d)) by (apply Z.pow_pos_nonneg; lia).
  assert (2 ^ 52 <= Zpos m' < 2 ^ 53) as Hb by (rewrite Em, P1, P2; nia).
  exists m'. split_and!; [|done|apply Hb|apply Hb].
  unfold binary_round. fold d. rewrite Es. apply round_aux_exact; [|lia].
  by apply digits2_unique.
Qed.

Lemma f64_mul_half m e :
  2 ^ 52 <= Zpos m < 2 ^ 53 -> -1000 <= e <= 900 ->
  f64_mul (S754_finite false m e) f64_half = S754_finite false m (e - 1).
Proof.
  intros Hm He. unfold f64_mul, f64_half.
  change (binary_normalize 53 1024 1 (-1) false) with (S754_finite false (Pos.iter xO xH 52) (-53)).
  unfold SFmul. change (xorb false false) with false.
  assert (Pos.mul m (Pos.iter xO xH 52) = Pos.iter xO m 52) as ->.
  { apply Pos2Z.inj. rewrite Pos2Z.inj_mul, !iter_xO. lia. }
  assert (Zpos (digits2_pos (Pos.iter xO m 52)) = 105) as Hd.
  { apply digits2_unique. rewrite iter_xO.
    change (2 ^ (105 - 1)) with (2 ^ 52 * 2 ^ 52). change (2 ^ 105) with (2 ^ 53 * 2 ^ 52). nia. }
  unfold binary_round_aux at 1, shr_fexp at 1. change (Zdigits2 (Zpos ?x)) with (Zpos (digits2_pos x)).
  rewrite Hd.
  assert (fexp 53 1024 (105 + (e + -53)) - (e + -53) = 52) as -> by (unfold fexp, emin; lia).
  unfold shr. change (shr_record_of_loc ?x loc_Exact) with (Build_shr_record x false false).
  rewrite shr_iter. cbn [shr_m loc_of_shr_record round_nearest_even].
  replace (e + -53 + 52) with (e - 1) by lia.
  assert (Zpos (digits2_pos m) = 53) as Hdm by (by apply digits2_unique).
  unfold shr_fexp. change (Zdigits2 (Zpos m)) with (Zpos (digits2_pos m)). rewrite Hdm.
  assert (fexp 53 1024 (53 + (e - 1)) - (e - 1) = 0) as -> by (unfold fexp, emin; lia).
  simpl. by rewrite (proj2 (Z.leb_le _ _)) by lia.
Qed.

(** The comparison [float64(p)*0.5 < float64(d)] is exact for integers that fit
    the 53-bit mantissa. *)
Lemma half_lt_exact p d : 0 < p < 2 ^ 53 -> - 2 ^ 53 < d < 2 ^ 53 ->
  f64_ltb (f64_mul (f64_of_Z p) f64_half) (f64_of_Z d) = (p <? 2 * d).
Proof.
  intros Hp Hd. destruct p as [|p|p]; [lia| |lia].
  destruct (round_exact false p) as (mp & Hmp & Ep & Bp); [lia|].
  change (f64_of_Z (Zpos p)) with (binary_round 53 1024 false p 0). rewrite Hmp.
  pose proof (digits2_bound p) as Dp.
  assert (Zpos (digits2_pos p) <= 53) as Lp.
  { destruct (Z.le_gt_cases (Zpos (digits2_pos p)) 53); [done|].
    assert (2 ^ 53 <= 2 ^ (Zpos (digits2_pos p) - 1)) by (apply Z.pow_le_mono_r; lia). lia. }
  rewrite f64_mul_half by lia.
  destruct d as [|d|d].
  - simpl. symmetry. apply Z.ltb_ge. lia.
  - destruct (round_exact false d) as (md & Hmd & Ed & Bd); [lia|].
    change (f64_of_Z (Zpos d)) with (binary_round 53 1024 false d 0). rewrite Hmd.
    pose proof (digits2_bound d) as Dd.
    set (dp := Zpos (digits2_pos p)) in *. set (dd := Zpos (digits2_pos d)) in *.
    unfold f64_ltb, SFltb, SFcompare.
    destruct (Z.compare_spec (dp - 53 - 1) (dd - 53)) as [E|Hl|Hg].
    + change (Pos.compare_cont Eq mp md) with (mp ?= md)%positive.
      replace (53 - dd) with (1 + (53 - dp)) in Ed by lia.
      assert (0 < 2 ^ (53 - dp)) by (apply Z.pow_pos_nonneg; lia).
      rewrite Z.pow_add_r in Ed by lia.
      destruct (Pos.compare_spec mp md); symmetry; [apply Z.ltb_ge|apply Z.ltb_lt|apply Z.ltb_ge]; nia.
    + symmetry. apply Z.ltb_lt.
      assert (2 ^ dp <= 2 * 2 ^ (dd - 1)) by (rewrite <- Z.pow_succ_r by lia; apply Z.pow_le_mono_r; lia). lia.
    + symmetry. apply Z.ltb_ge.
      assert (2 * 2 ^ dd <= 2 ^ (dp - 1)) by (rewrite <- Z.pow_succ_r by lia; apply Z.pow_le_mono_r; lia). lia.
  - destruct (round_exact true d) as (md & Hmd & _); [lia|].
    change (f64_of_Z (Zneg d)) with (binary_round 53 1024 true d 0). rewrite Hmd.
    symmetry. apply Z.ltb_ge. lia.
Qed.

End GoFloat.
