(* ===== verification/GoLib.v ===== *)
(** * Strings, formatting and hardware addresses

    The parts of Go's [strings], [fmt] and [net] the program uses, on byte
    strings.  Case mapping and trimming of non-ASCII text follow the Unicode
    tables of Go's [unicode] package, which are an argument ([Unicode]). *)

From stdpp Require Import pretty.
From Stdlib Require Import Ascii SpecFloat.
From S2P Require Import Prelude GoFloat.

Module GoLib.

(** ** strings *)

Class Unicode := {
  unicodeToLower : string -> string;
  unicodeTrimSpace : string -> string;
}.

Definition isASCII (s : string) : bool :=
  forallb (fun c => (N_of_ascii c <? 128)%N) (String.list_ascii_of_string s).

Definition map_string (f : ascii -> ascii) (s : string) : string :=
  String.string_of_list_ascii (f <$> String.list_ascii_of_string s).

Definition lowerASCII (c : ascii) : ascii :=
  let n := N_of_ascii c in
  if ((65 <=? n) && (n <=? 90))%N then ascii_of_N (n + 32) else c.

Definition spaceASCII (c : ascii) : bool :=
  let n := N_of_ascii c in ((9 <=? n) && (n <=? 13) || (n =? 32))%N.

Fixpoint trimLeft (l : list ascii) : list ascii :=
  match l with
  | c :: l' => if spaceASCII c then trimLeft l' else l
  | [] => []
  end.

Definition ToLower `{Unicode} (s : string) : string :=
  if isASCII s then map_string lowerASCII s else unicodeToLower s.

Definition TrimSpace `{Unicode} (s : string) : string :=
  if isASCII s
  then String.string_of_list_ascii
         (reverse (trimLeft (reverse (trimLeft (String.list_ascii_of_string s)))))
  else unicodeTrimSpace s.

Fixpoint Contains (s sub : string) : bool :=
  String.prefix sub s ||
  match s with
  | String _ s' => Contains s' sub
  | EmptyString => false
  end.

(** [ReplaceAll(s, old, new)] for one-character strings. *)
Definition ReplaceAllChar (s : string) (old new : ascii) : string :=
  map_string (fun c => if bool_decide (c = old) then new else c) s.

(** ** fmt *)

(** [%d], and [%0wd] of a non-negative integer: zero padding to width [w]. *)
Definition fmt_d (n : Z) : string :=
  if n <? 0 then String "-" (pretty (Z.to_N (- n))) else pretty (Z.to_N n).

Definition pad_zero (w : nat) (s : string) : string :=
  String.append (String.string_of_list_ascii (replicate (w - String.length s) "0"%char)) s.

Definition fmt_0d (w : nat) (n : Z) : string := pad_zero w (fmt_d n).

(** The quotient [num / den] rounded to the nearest integer, ties to even. *)
Definition divRoundEven (num den : Z) : Z :=
  let q := num / den in
  let r := num mod den in
  if (den <? 2 * r) || ((2 * r =? den) && Z.odd q) then q + 1 else q.

(** [%.1f] of a float64: the exact value rounded to a multiple of 0.1. *)
Definition fmt_f1 (f : GoFloat.float64) : string :=
  match f with
  | S754_zero s => if s then "-0.0" else "0.0"
  | S754_infinity s => if s then "-Inf" else "+Inf"
  | S754_nan => "NaN"
  | S754_finite s m e =>
      let tenths := if 0 <=? e then Zpos m * 2 ^ e * 10 else divRoundEven (Zpos m * 10) (2 ^ (- e)) in
      String.concat EmptyString
        [if s then "-" else EmptyString; fmt_d (tenths / 10); "."; fmt_d (tenths mod 10)]%string
  end.

Definition hexdigit (upper : bool) (n : Z) : ascii :=
  ascii_of_N (Z.to_N (if n <? 10 then 48 + n else (if upper then 55 else 87) + n)).

(** [%0wx] and [%0wX] of a value below [16 ^ w]. *)
Fixpoint fmt_hex (upper : bool) (w : nat) (n : Z) : list ascii :=
  match w with
  | O => []
  | S w' => hexdigit upper ((n / 16 ^ Z.of_nat w') mod 16) :: fmt_hex upper w' n
  end.

Definition fmt_0x (upper : bool) (w : nat) (n : Z) : string :=
  String.string_of_list_ascii (fmt_hex upper w n).

(** ** net.HardwareAddr *)

Definition HardwareAddr : Type := list byte.

Definition hexByte (b : byte) : list ascii := fmt_hex false 2 (b2z b).

Fixpoint macChars (a : HardwareAddr) : list ascii :=
  match a with
  | [] => []
  | [b] => hexByte b
  | b :: a' => hexByte b ++ ":"%char :: macChars a'
  end.

(** [HardwareAddr.String]: lower-case hex bytes joined by colons. *)
Definition mac_String (a : HardwareAddr) : string := String.string_of_list_ascii (macChars a).

Definition hexval (c : ascii) : option Z :=
  let n := Z.of_N (N_of_ascii c) in
  if (48 <=? n) && (n <=? 57) then Some (n - 48) else
  if (97 <=? n) && (n <=? 102) then Some (n - 87) else
  if (65 <=? n) && (n <=? 70) then Some (n - 55) else None.

(** [xtoi2]: two hex digits, followed by the separator [e] unless the string ends. *)
Definition xtoi2 (l : list ascii) (e : ascii) : option byte :=
  match l with
  | a :: b :: rest =>
      match rest with
      | c :: _ => if bool_decide (c ≠ e) then None else
                  x ← hexval a; y ← hexval b; Some (z2b (16 * x + y))
      | [] => x ← hexval a; y ← hexval b; Some (z2b (16 * x + y))
      end
  | _ => None
  end.

Fixpoint macGroups (n : nat) (sep : ascii) (l : list ascii) : option HardwareAddr :=
  match n with
  | O => Some []
  | S n' => b ← xtoi2 l sep; rest ← macGroups n' sep (drop 3 l); Some (b :: rest)
  end.

Fixpoint macDotGroups (n : nat) (sep : ascii) (l : list ascii) : option HardwareAddr :=
  match n with
  | O => Some []
  | S n' =>
      hi ← xtoi2 (take 2 l) "000"%char; lo ← xtoi2 (drop 2 l) sep;
      rest ← macDotGroups n' sep (drop 5 l); Some (hi :: lo :: rest)
  end.

Definition macLen (n : nat) : bool := (n =? 6)%nat || (n =? 8)%nat || (n =? 20)%nat.

(** [net.ParseMAC]: colon, hyphen or dotted groups, 6, 8 or 20 bytes. *)
Definition net_ParseMAC (s : string) : option HardwareAddr :=
  let l := String.list_ascii_of_string s in
  let len := length l in
  if (len <? 14)%nat then None else
  match l !! 2%nat, l !! 4%nat with
  | Some c2, Some c4 =>
      if bool_decide (c2 = ":"%char) || bool_decide (c2 = "-"%char) then
        if negb ((len + 1) mod 3 =? 0)%nat then None else
        let n := ((len + 1) / 3)%nat in
        if negb (macLen n) then None else macGroups n c2 l
      else if bool_decide (c4 = "."%char) then
        if negb ((len + 1) mod 5 =? 0)%nat then None else
        let n := (2 * (len + 1) / 5)%nat in
        if negb (macLen n) then None else macDotGroups (n / 2) c4 l
      else None
  | _, _ => None
  end.

(** ** net.IP and net.UDPAddr *)

(** The zero run of at least two groups that is longest, the first of these. *)
Fixpoint zeroRun (l : list Z) : nat :=
  match l with
  | 0 :: l' => S (zeroRun l')
  | _ => O
  end.

Fixpoint bestRun (i : nat) (l : list Z) (best : nat * nat) : nat * nat :=
  match l with
  | [] => best
  | _ :: l' =>
      let n := zeroRun l in
      bestRun (S i) l' (if (2 <=? n)%nat && (snd best <? n)%nat then (i, n) else best)
  end.

(** The 16-bit groups of an IPv6 address. *)
Fixpoint groups (ip : list byte) : list Z :=
  match ip with
  | a :: b :: ip' => (256 * b2z a + b2z b) :: groups ip'
  | _ => []
  end.

(** [%x] of a value below [16 ^ 4]: no leading zeros. *)
Definition fmt_x (n : Z) : string :=
  let w := if n <? 16 then 1%nat else if n <? 256 then 2%nat else if n <? 4096 then 3%nat else 4%nat in
  fmt_0x false w n.

Definition joinHex (l : list Z) : string := String.concat ":" (fmt_x <$> l).

Definition ipv6String (ip : list byte) : string :=
  let g := groups ip in
  let '(start, n) := bestRun 0 g (0%nat, 0%nat) in
  if (n =? 0)%nat then joinHex g
  else String.append (joinHex (take start g)) (String.append "::" (joinHex (drop (start + n) g))).

Definition ipv4String (ip : list byte) : string := String.concat "." ((fun b => fmt_d (b2z b)) <$> ip).

(** [IP.To4]. *)
Definition To4 (ip : list byte) : option (list byte) :=
  if (length ip =? 4)%nat then Some ip else
  if (length ip =? 16)%nat && bool_decide (take 12 ip = replicate 10 x00 ++ [xff; xff])
  then Some (drop 12 ip) else None.

(** [IP.String]. *)
Definition ip_String (ip : list byte) : string :=
  if (length ip =? 0)%nat then "<nil>" else
  if negb (length ip =? 4)%nat && negb (length ip =? 16)%nat
  then String.append "?" (String.string_of_list_ascii (ip ≫= hexByte)) else
  match To4 ip with
  | Some ip4 => ipv4String ip4
  | None => ipv6String ip
  end.

Definition JoinHostPort (host port : string) : string :=
  if Contains host ":" then String.concat EmptyString ["["; host; "]:"; port]%string
  else String.concat ":" [host; port].

(** [UDPAddr.String] of a non-nil address. *)
Definition udp_String (ip : list byte) (port : Z) (zone : string) : string :=
  let host := if (length ip =? 0)%nat then EmptyString else ip_String ip in
  JoinHostPort (if bool_decide (zone = EmptyString) then host else String.concat "%" [host; zone])
    (fmt_d port).

(** ** Lemmas *)

Example ip_String_v4 : ip_String [xc0; xa8; x01; x0a] = "192.168.1.10"%string.
Proof. reflexivity. Qed.

Example udp_String_v6 :
  udp_String ([xfe; x80] ++ replicate 13 x00 ++ [x01]) 31415 "eth0" = "[fe80::1%eth0]:31415"%string.
Proof. reflexivity. Qed.

Lemma hexval_hexdigit n : 0 <= n < 16 -> hexval (hexdigit false n) = Some n.
Proof.
  intros H. assert (n ∈ seqZ 0 16) as Hin by (apply elem_of_seqZ; lia).
  clear H. revert n Hin. apply Forall_forall.
  repeat (constructor; [reflexivity|]). constructor.
Qed.

Lemma xtoi2_hexByte b rest sep :
  (forall c rest', rest = c :: rest' -> c = sep) -> xtoi2 (hexByte b ++ rest) sep = Some b.
Proof.
  intros Hsep. pose proof (b2z_bound b) as Hb. unfold hexByte. cbn [fmt_hex app xtoi2].
  change (16 ^ Z.of_nat 1) with 16. change (16 ^ Z.of_nat 0) with 1.
  rewrite Z.div_1_r, (Z.mod_small (b2z b / 16)) by
    (split; [apply Z.div_pos; lia|apply Z.div_lt_upper_bound; lia]).
  assert (hexval (hexdigit false (b2z b / 16)) = Some (b2z b / 16)) as E1
    by (apply hexval_hexdigit; split; [apply Z.div_pos; lia|apply Z.div_lt_upper_bound; lia]).
  assert (hexval (hexdigit false (b2z b mod 16)) = Some (b2z b mod 16)) as E2
    by (apply hexval_hexdigit; apply Z.mod_pos_bound; lia).
  assert (z2b (16 * (b2z b / 16) + b2z b mod 16) = b) as E3
    by (rewrite <- Z.div_mod by lia; apply z2b_b2z).
  destruct rest as [|c rest']; [|rewrite bool_decide_eq_false_2 by (rewrite (Hsep c rest'); auto)];
    rewrite E1, E2; cbn [mbind option_bind]; by rewrite E3.
Qed.

Lemma length_macChars a : length (macChars a) = (3 * length a - 1)%nat.
Proof.
  induction a as [|b [|b' a] IH]; [done..|].
  change (macChars (b :: b' :: a)) with (hexByte b ++ ":"%char :: macChars (b' :: a)).
  rewrite length_app, length_cons, IH. unfold hexByte. simpl. lia.
Qed.

Lemma macGroups_chars a : macGroups (length a) ":"%char (macChars a) = Some a.
Proof.
  induction a as [|b [|b' a] IH]; [done| |].
  - cbn [macChars length macGroups]. rewrite <- (app_nil_r (hexByte b)).
    by rewrite xtoi2_hexByte.
  - change (macChars (b :: b' :: a)) with (hexByte b ++ ":"%char :: macChars (b' :: a)).
    cbn [length macGroups]. rewrite xtoi2_hexByte by naive_solver.
    change (drop 3 (hexByte b ++ ":"%char :: macChars (b' :: a))) with (macChars (b' :: a)).
    cbn [mbind option_bind]. cbn [length macGroups] in IH. by rewrite IH.
Qed.

(** Printing and parsing a hardware address of a standard length. *)
Lemma ParseMAC_String a : macLen (length a) = true -> net_ParseMAC (mac_String a) = Some a.
Proof.
  intros Hl. unfold net_ParseMAC, mac_String.
  rewrite String.list_ascii_of_string_of_list_ascii, length_macChars.
  assert (length a = 6 \/ length a = 8 \/ length a = 20)%nat as Hn.
  { unfold macLen in Hl. apply orb_true_iff in Hl as [Hl|Hl];
      [apply orb_true_iff in Hl as [Hl|Hl]|]; apply Nat.eqb_eq in Hl; lia. }
  pose proof (macGroups_chars a) as Hg.
  destruct a as [|b0 [|b1 a]]; [simpl in Hn; lia..|].
  assert (macChars (b0 :: b1 :: a) !! 2%nat = Some ":"%char) as H2 by done.
  destruct (macChars (b0 :: b1 :: a) !! 4%nat) as [c4|] eqn:H4;
    [|apply lookup_ge_None in H4; rewrite length_macChars in H4; lia].
  rewrite H2. cbn [bool_decide]. rewrite bool_decide_eq_true_2 by done. cbn [orb].
  destruct Hn as [Hn|[Hn|Hn]]; rewrite Hn in Hg |- *; exact Hg.
Qed.

End GoLib.
