(* ===== verification/Json.v ===== *)
(** * JSON text: the part of Go's encoding/json the program uses

    Strings are written with the escapes of [json.Marshal], with HTML escaping
    or without, and read with those of [json.Unmarshal]; the reader checks the
    whole grammar of RFC 8259, with Go's bound on the nesting depth, before
    any value is used.  Text is a list of bytes. *)

From Stdlib Require Import Ascii.
From S2P Require Import Prelude GoLib.
Import GoLib.

Module Json.

Abbreviation text := (list ascii).

Definition code (c : ascii) : N := N_of_ascii c.
Definition chr (n : N) : ascii := ascii_of_N n.

Definition chars (s : string) : text := String.list_ascii_of_string s.

Definition quote : ascii := chr 34.
Definition backslash : ascii := chr 92.

Definition between (lo hi n : N) : bool := ((lo <=? n) && (n <=? hi))%N.

(** ** UTF-8 *)

Definition runeError : N := 65533.

(** [utf8.DecodeRune]: a rune and its width; an ill-formed sequence is
    [runeError] of width 1. *)
Definition decodeRune (l : text) : N * nat :=
  let cont c := between 128 191 (code c) in
  let bits c := (code c - 128)%N in
  let bad := (runeError, 1%nat) in
  match l with
  | [] => (runeError, 0%nat)
  | c0 :: l1 =>
      let n := code c0 in
      if (n <? 128)%N then (n, 1%nat) else
      if between 194 223 n then
        match l1 with
        | c1 :: _ => if cont c1 then ((n - 192) * 64 + bits c1, 2%nat)%N else bad
        | _ => bad
        end else
      if between 224 239 n then
        match l1 with
        | c1 :: c2 :: _ =>
            if between (if (n =? 224)%N then 160 else 128) (if (n =? 237)%N then 159 else 191) (code c1)
               && cont c2
            then ((n - 224) * 4096 + bits c1 * 64 + bits c2, 3%nat)%N else bad
        | _ => bad
        end else
      if between 240 244 n then
        match l1 with
        | c1 :: c2 :: c3 :: _ =>
            if between (if (n =? 240)%N then 144 else 128) (if (n =? 244)%N then 143 else 191) (code c1)
               && cont c2 && cont c3
            then ((n - 240) * 262144 + bits c1 * 4096 + bits c2 * 64 + bits c3, 4%nat)%N else bad
        | _ => bad
        end else bad
  end.

(** [utf8.EncodeRune] of a rune below 0x110000; surrogates are [runeError]. *)
Definition encodeRune (r : N) : text :=
  let r := if between 55296 57343 r then runeError else r in
  if (r <? 128)%N then [chr r] else
  if (r <? 2048)%N then [chr (192 + r / 64); chr (128 + r mod 64)]%N else
  if (r <? 65536)%N then [chr (224 + r / 4096); chr (128 + r / 64 mod 64); chr (128 + r mod 64)]%N else
  [chr (240 + r / 262144); chr (128 + r / 4096 mod 64); chr (128 + r / 64 mod 64); chr (128 + r mod 64)]%N.

(** ** Writing strings *)

(** [appendString] on one ASCII byte; [html] is the encoder's EscapeHTML. *)
Definition escapeASCII (html : bool) (c : ascii) : text :=
  let n := code c in
  if (n =? 34)%N || (n =? 92)%N then [backslash; c] else
  if (n =? 8)%N then [backslash; "b"%char] else
  if (n =? 12)%N then [backslash; "f"%char] else
  if (n =? 10)%N then [backslash; "n"%char] else
  if (n =? 13)%N then [backslash; "r"%char] else
  if (n =? 9)%N then [backslash; "t"%char] else
  if (n <? 32)%N || html && ((n =? 38)%N || (n =? 60)%N || (n =? 62)%N)
  then backslash :: chars "u00" ++ fmt_hex false 2 (Z.of_N n)
  else [c].

(** One step of [appendString]: what is written, and how many bytes are read. *)
Definition escapeStep (html : bool) (c : ascii) (l : text) : text * nat :=
  if (code c <? 128)%N then (escapeASCII html c, 1%nat) else
  let '(r, n) := decodeRune (c :: l) in
  if (r =? runeError)%N && (n =? 1)%nat then (backslash :: chars "ufffd", 1%nat) else
  if (r =? 8232)%N || (r =? 8233)%N
  then (backslash :: chars "u202" ++ fmt_hex false 1 (Z.of_N (N.land r 15)), n)
  else (take n (c :: l), n).

(** The bytes [skip] counts belong to the rune before. *)
Fixpoint escapeFrom (html : bool) (skip : nat) (l : text) : text :=
  match l with
  | [] => []
  | c :: l' =>
      match skip with
      | S k => escapeFrom html k l'
      | O => let '(out, n) := escapeStep html c l' in out ++ escapeFrom html (n - 1) l'
      end
  end.

Definition writeString (html : bool) (l : text) : text := quote :: escapeFrom html 0 l ++ [quote].

(** ** Reading strings *)

Definition isSome {A} (o : option A) : bool := match o with Some _ => true | None => false end.

Definition isHex (c : ascii) : bool := isSome (hexval c).

Definition simpleEscape (c : ascii) : option ascii :=
  let n := code c in
  if (n =? 34)%N || (n =? 92)%N || (n =? 47)%N then Some c else
  if (n =? 98)%N then Some (chr 8) else
  if (n =? 102)%N then Some (chr 12) else
  if (n =? 110)%N then Some (chr 10) else
  if (n =? 114)%N then Some (chr 13) else
  if (n =? 116)%N then Some (chr 9) else None.

(** The scanner of a string, after the opening quote: the raw contents and
    what follows the closing quote. *)
Fixpoint scanString (l : text) : option (text * text) :=
  match l with
  | [] => None
  | c :: l1 =>
      if (code c =? 34)%N then Some ([], l1) else
      if (code c =? 92)%N then
        match l1 with
        | [] => None
        | e :: l2 =>
            if isSome (simpleEscape e) then '(raw, r) ← scanString l2; Some (c :: e :: raw, r) else
            if (code e =? 117)%N then
              match l2 with
              | a :: b :: d :: f :: l3 =>
                  if isHex a && isHex b && isHex d && isHex f
                  then '(raw, r) ← scanString l3; Some (c :: e :: a :: b :: d :: f :: raw, r) else None
              | _ => None
              end
            else None
        end else
      if (code c <? 32)%N then None else
      '(raw, r) ← scanString l1; Some (c :: raw, r)
  end.

(** [getu4]: the value of [\uXXXX] at the start of a text. *)
Definition getu4 (l : text) : option N :=
  match l with
  | s :: u :: a :: b :: d :: f :: _ =>
      if (code s =? 92)%N && (code u =? 117)%N then
        x ← hexval a; y ← hexval b; z ← hexval d; w ← hexval f;
        Some (Z.to_N (4096 * x + 256 * y + 16 * z + w))
      else None
  | _ => None
  end.

(** [utf16.DecodeRune] of a surrogate pair. *)
Definition surrogatePair (r1 r2 : N) : option N :=
  if between 55296 56319 r1 && between 56320 57343 r2
  then Some ((r1 - 55296) * 1024 + (r2 - 56320) + 65536)%N else None.

(** One step of [unquoteBytes] on raw contents [c :: l]. *)
Definition unquoteStep (c : ascii) (l : text) : text * nat :=
  if (code c =? 92)%N then
    match l with
    | [] => ([], 1%nat)
    | e :: l' =>
        match simpleEscape e with
        | Some x => ([x], 2%nat)
        | None =>
            match getu4 (c :: l) with
            | None => ([], 1%nat)
            | Some r =>
                if between 55296 57343 r then
                  match getu4 (drop 5 l) ≫= surrogatePair r with
                  | Some r' => (encodeRune r', 12%nat)
                  | None => (encodeRune runeError, 6%nat)
                  end
                else (encodeRune r, 6%nat)
            end
        end
    end else
  if (code c <? 128)%N then ([c], 1%nat) else
  let '(r, n) := decodeRune (c :: l) in (encodeRune r, n).

Fixpoint unquoteFrom (skip : nat) (l : text) : text :=
  match l with
  | [] => []
  | c :: l' =>
      match skip with
      | S k => unquoteFrom k l'
      | O => let '(out, n) := unquoteStep c l' in out ++ unquoteFrom (n - 1) l'
      end
  end.

(** ** Values *)

(** A number is its literal. *)
#[warnings="-register-all"]
Inductive jval :=
| JNull
| JBool (b : bool)
| JNum (literal : text)
| JStr (s : text)
| JArr (l : list jval)
| JObj (kvs : list (text * jval)).

Definition isSpace (c : ascii) : bool :=
  let n := code c in ((n =? 32) || (n =? 9) || (n =? 10) || (n =? 13))%N.

Fixpoint skipSpace (l : text) : text :=
  match l with
  | c :: l' => if isSpace c then skipSpace l' else l
  | [] => []
  end.

Definition isDigit (c : ascii) : bool := between 48 57 (code c).

Fixpoint skipDigits (l : text) : text :=
  match l with
  | c :: l' => if isDigit c then skipDigits l' else l
  | [] => []
  end.

(** At least one digit. *)
Definition digits1 (l : text) : option text :=
  match l with
  | c :: l' => if isDigit c then Some (skipDigits l') else None
  | [] => None
  end.

Definition scanFrac (l : text) : option text :=
  match l with
  | c :: l' => if (code c =? 46)%N then digits1 l' else Some l
  | [] => Some []
  end.

Definition scanExp (l : text) : option text :=
  match l with
  | c :: l' =>
      if (code c =? 101)%N || (code c =? 69)%N then
        match l' with
        | s :: l'' => if (code s =? 43)%N || (code s =? 45)%N then digits1 l'' else digits1 l'
        | [] => None
        end
      else Some l
  | [] => Some []
  end.

Definition scanInt (l : text) : option text :=
  match l with
  | c :: l' => if (code c =? 48)%N then Some l' else digits1 l
  | [] => None
  end.

Definition unsign (l : text) : text :=
  match l with
  | c :: l' => if (code c =? 45)%N then l' else l
  | [] => []
  end.

Definition scanNumber (l : text) : option text :=
  l1 ← scanInt (unsign l);
  l2 ← scanFrac l1;
  scanExp l2.

(** [literal w l]: what follows the word [w]. *)
Fixpoint literal (w l : text) : option text :=
  match w, l with
  | [], _ => Some l
  | c :: w', d :: l' => if bool_decide (c = d) then literal w' l' else None
  | _ :: _, [] => None
  end.

Definition maxNestingDepth : Z := 10000.

(** [byteIs n l]: what follows the byte with code [n]; [expect] skips spaces after it. *)
Definition byteIs (n : N) (l : text) : option text :=
  match l with
  | c :: l' => if (code c =? n)%N then Some l' else None
  | [] => None
  end.

Definition expect (n : N) (l : text) : option text := skipSpace <$> byteIs n l.

(** A value, the members of an object and the elements of an array, each from
    its first byte; [fuel] bounds the calls and [depth] counts open brackets. *)
Fixpoint parseValue (fuel : nat) (depth : Z) (l : text) : option (jval * text) :=
  match fuel, l with
  | S f, c :: l' =>
      if (code c =? 34)%N then '(raw, r) ← scanString l'; Some (JStr (unquoteFrom 0 raw), r) else
      if (code c =? 123)%N then
        if maxNestingDepth <? depth + 1 then None else
        match byteIs 125 (skipSpace l') with
        | Some r => Some (JObj [], r)
        | None => '(kvs, r) ← parseMembers f (depth + 1) (skipSpace l'); Some (JObj kvs, r)
        end else
      if (code c =? 91)%N then
        if maxNestingDepth <? depth + 1 then None else
        match byteIs 93 (skipSpace l') with
        | Some r => Some (JArr [], r)
        | None => '(vs, r) ← parseElems f (depth + 1) (skipSpace l'); Some (JArr vs, r)
        end else
      if (code c =? 116)%N then r ← literal (chars "true") l; Some (JBool true, r) else
      if (code c =? 102)%N then r ← literal (chars "false") l; Some (JBool false, r) else
      if (code c =? 110)%N then r ← literal (chars "null") l; Some (JNull, r) else
      r ← scanNumber l; Some (JNum (take (length l - length r) l), r)
  | _, _ => None
  end
with parseMembers (fuel : nat) (depth : Z) (l : text) : option (list (text * jval) * text) :=
  match fuel, l with
  | S f, c :: l' =>
      if (code c =? 34)%N then
        '(raw, l1) ← scanString l';
        l2 ← expect 58 (skipSpace l1);
        '(v, l3) ← parseValue f depth l2;
        match expect 44 (skipSpace l3) with
        | Some l4 => '(kvs, r) ← parseMembers f depth l4; Some ((unquoteFrom 0 raw, v) :: kvs, r)
        | None => r ← byteIs 125 (skipSpace l3); Some ([(unquoteFrom 0 raw, v)], r)
        end
      else None
  | _, _ => None
  end
with parseElems (fuel : nat) (depth : Z) (l : text) : option (list jval * text) :=
  match fuel with
  | S f =>
      '(v, l3) ← parseValue f depth l;
      match expect 44 (skipSpace l3) with
      | Some l4 => '(vs, r) ← parseElems f depth l4; Some (v :: vs, r)
      | None => r ← byteIs 93 (skipSpace l3); Some ([v], r)
      end
  | O => None
  end.

(** Fuel for a text: a call of [parseElems] reads nothing before its call of
    [parseValue]; all other calls read a byte first. *)
Definition enough (l : text) : nat := 2 * length l + 2.

Definition parse (l : text) : option jval :=
  let l := skipSpace l in
  '(v, r) ← parseValue (enough l) 0 l;
  match skipSpace r with [] => Some v | _ => None end.

(** ** The fuel is enough *)

Lemma skipSpace_length l : (length (skipSpace l) <= length l)%nat.
Proof. induction l as [|c l IH]; simpl; [lia|]. destruct (isSpace c); simpl; lia. Qed.

Lemma skipDigits_length l : (length (skipDigits l) <= length l)%nat.
Proof. induction l as [|c l IH]; simpl; [lia|]. destruct (isDigit c); simpl; lia. Qed.

Lemma digits1_length l r : digits1 l = Some r -> (length r < length l)%nat.
Proof.
  destruct l as [|c l]; simpl; [done|]. pose proof (skipDigits_length l).
  destruct (isDigit c); intros; simplify_eq. lia.
Qed.

Lemma byteIs_length n l r : byteIs n l = Some r -> (length r < length l)%nat.
Proof. destruct l as [|c l]; simpl; [done|]. destruct (code c =? n)%N; intros; simplify_eq. lia. Qed.

Lemma expect_length n l r : expect n l = Some r -> (length r < length l)%nat.
Proof.
  unfold expect. destruct (byteIs n l) as [l'|] eqn:E; simpl; intros; simplify_eq.
  apply byteIs_length in E. pose proof (skipSpace_length l'). lia.
Qed.

Lemma literal_length w l r : literal w l = Some r -> (length r + length w = length l)%nat.
Proof.
  revert l r. induction w as [|c w IH]; intros [|d l] r; simpl; intros H; simplify_eq; simpl; try lia.
  case_bool_decide; [|done]. apply IH in H. lia.
Qed.

Lemma literal_extend w l e r : literal w l = Some r -> literal w (l ++ e) = Some (r ++ e).
Proof.
  revert l. induction w as [|c w IH]; intros [|d l]; simpl; intros H; simplify_eq; try done.
  case_bool_decide; [by apply IH|done].
Qed.

Lemma scanNumber_length l r : scanNumber l = Some r -> (length r < length l)%nat.
Proof.
  unfold scanNumber. assert (length (unsign l) <= length l)%nat
    by (destruct l as [|c l]; [done|]; simpl; destruct (code c =? 45)%N; simpl; lia).
  set (l0 := unsign l) in *. clearbody l0.
  destruct (scanInt l0) as [l1|] eqn:H1; simpl; [|done].
  destruct (scanFrac l1) as [l2|] eqn:H2; simpl; [|done]. intros H3.
  assert (length l1 < length l0)%nat.
  { destruct l0 as [|c l0]; [done|]. unfold scanInt in H1. destruct (code c =? 48)%N; simplify_eq; simpl; [lia|].
    by apply digits1_length in H1. }
  assert (length l2 <= length l1)%nat.
  { destruct l1 as [|c l1]; simplify_eq/=; [lia|]. destruct (code c =? 46)%N; simplify_eq; simpl; [|lia].
    apply digits1_length in H2. lia. }
  assert (length r <= length l2)%nat; [|lia].
  destruct l2 as [|c l2]; simplify_eq/=; [lia|].
  destruct ((code c =? 101) || (code c =? 69))%N; simplify_eq; simpl; [|lia].
  destruct l2 as [|s l2]; [done|]. destruct ((code s =? 43) || (code s =? 45))%N;
    apply digits1_length in H3; simpl in *; lia.
Qed.

Lemma scanString_length n l raw r :
  (length l <= n)%nat -> scanString l = Some (raw, r) -> (length r < length l)%nat.
Proof.
  revert l raw r. induction n as [|n IH]; intros l raw r Hn; [by destruct l; simpl in Hn; [|lia]|].
  destruct l as [|c l1]; simpl in *; [done|].
  destruct (code c =? 34)%N; [intros; simplify_eq; lia|].
  destruct (code c =? 92)%N.
  - destruct l1 as [|e l2]; simpl in *; [done|]. destruct (isSome (simpleEscape e)).
    + destruct (scanString l2) as [[raw' r']|] eqn:E; simpl; intros; simplify_eq.
      apply IH in E; lia.
    + destruct (code e =? 117)%N; [|done]. destruct l2 as [|a [|b [|d [|f l3]]]]; try done.
      destruct (isHex a && isHex b && isHex d && isHex f); [|done].
      destruct (scanString l3) as [[raw' r']|] eqn:E; simpl in *; intros; simplify_eq.
      apply IH in E; simpl in *; lia.
  - destruct (code c <? 32)%N; [done|].
    destruct (scanString l1) as [[raw' r']|] eqn:E; simpl; intros; simplify_eq.
    apply IH in E; lia.
Qed.

#[local] Arguments literal : simpl never.

(** The reading of a value leaves less text: facts for [lia]. *)
Ltac read_some :=
  repeat (match goal with
  | H : Some _ = Some _ |- _ => simplify_eq
  | H : (if ?b then _ else _) = Some _ |- _ => destruct b eqn:?
  | H : None = Some _ |- _ => discriminate H
  | H : _ ≫= _ = Some _ |- _ => apply bind_Some in H as (? & ? & H)
  | H : match ?x with (_, _) => _ end = Some _ |- _ => destruct x
  | H : match ?x with Some _ => _ | None => _ end = Some _ |- _ => destruct x eqn:?
  | H : scanString ?l = Some _ |- _ => apply (scanString_length (length l)) in H; [|done]
  | H : byteIs _ _ = Some _ |- _ => apply byteIs_length in H
  | H : expect _ _ = Some _ |- _ => apply expect_length in H
  | H : literal _ _ = Some _ |- _ => apply literal_length in H
  | H : scanNumber _ = Some _ |- _ => apply scanNumber_length in H
  | H : context [length (skipSpace ?l)] |- _ =>
      lazymatch goal with
      | _ : (length (skipSpace l) <= length l)%nat |- _ => fail
      | _ => pose proof (skipSpace_length l)
      end
  end; simpl length in *).

Lemma parse_length f : forall depth l,
  (forall v r, parseValue f depth l = Some (v, r) -> (length r < length l)%nat) /\
  (forall v r, parseMembers f depth l = Some (v, r) -> (length r < length l)%nat) /\
  (forall v r, parseElems f depth l = Some (v, r) -> (length r < length l)%nat).
Proof.
  induction f as [|f IH]; intros depth l; [done|].
  repeat split; intros v r; simpl; try (destruct l as [|c l]; [done|]);
    try pose proof (skipSpace_length l); intros Hr; read_some;
    repeat match goal with
    | H : parseValue _ _ _ = Some _ |- _ => apply IH in H
    | H : parseMembers _ _ _ = Some _ |- _ => apply IH in H
    | H : parseElems _ _ _ = Some _ |- _ => apply IH in H
    end; read_some; lia.
Qed.

(** With enough fuel the result does not depend on the fuel. *)
Lemma parse_fuel f1 : forall f2 depth l,
  ((2 * length l + 1 <= f1)%nat -> (2 * length l + 1 <= f2)%nat ->
   parseValue f1 depth l = parseValue f2 depth l) /\
  ((2 * length l + 1 <= f1)%nat -> (2 * length l + 1 <= f2)%nat ->
   parseMembers f1 depth l = parseMembers f2 depth l) /\
  ((2 * length l + 2 <= f1)%nat -> (2 * length l + 2 <= f2)%nat ->
   parseElems f1 depth l = parseElems f2 depth l).
Proof.
  induction f1 as [|f1 IH]; intros [|f2] depth l; [split_and!; intros; lia..|].
  split_and!; intros H1 H2; simpl.
  - destruct l as [|c l]; [done|]. pose proof (skipSpace_length l). simpl in *.
    rewrite (proj1 (proj2 (IH f2 (depth + 1) (skipSpace l)))), (proj2 (proj2 (IH f2 (depth + 1) (skipSpace l)))) by lia.
    done.
  - destruct l as [|c l]; [done|]. simpl in *. destruct (code c =? 34)%N; [|done].
    destruct (scanString l) as [[raw l1]|] eqn:Hs; simpl; [|done].
    destruct (expect 58 (skipSpace l1)) as [l2|] eqn:He; simpl; [|done]. read_some.
    rewrite (proj1 (IH f2 depth l2)) by lia.
    destruct (parseValue f2 depth l2) as [[v l3]|] eqn:Hv; simpl; [|done].
    apply (proj1 (parse_length f2 depth l2)) in Hv.
    destruct (expect 44 (skipSpace l3)) as [l4|] eqn:He'; [|done]. read_some.
    by rewrite (proj1 (proj2 (IH f2 depth l4))) by lia.
  - rewrite (proj1 (IH f2 depth l)) by lia.
    destruct (parseValue f2 depth l) as [[v l3]|] eqn:Hv; simpl; [|done].
    apply (proj1 (parse_length f2 depth l)) in Hv.
    destruct (expect 44 (skipSpace l3)) as [l4|] eqn:He'; [|done]. read_some.
    by rewrite (proj2 (proj2 (IH f2 depth l4))) by lia.
Qed.

(** ** More text after a value does not change it *)

Lemma skipSpace_extend l e c r : skipSpace l = c :: r -> skipSpace (l ++ e) = c :: r ++ e.
Proof. induction l as [|x l IH]; simpl; [done|]. destruct (isSpace x); [done|]. intros; by simplify_eq. Qed.

(** What follows a number in a text: nothing, a comma or a closing bracket. *)
Definition closing (e : text) : Prop :=
  match e with [] => True | c :: _ => c = ","%char \/ c = "}"%char \/ c = "]"%char end.

Ltac closing_cases e := destruct e as [|? ?]; [done|]; by intros [-> |[-> | ->]].

Lemma skipDigits_extend l e : skipDigits l <> [] \/ closing e -> skipDigits (l ++ e) = skipDigits l ++ e.
Proof.
  intros He. induction l as [|x l IH]; simpl in *.
  - destruct He as [|He]; [done|]. revert He. closing_cases e.
  - destruct (isDigit x); [by apply IH|done].
Qed.

Lemma digits1_extend l e r : digits1 l = Some r -> r <> [] \/ closing e -> digits1 (l ++ e) = Some (r ++ e).
Proof.
  destruct l as [|c l]; simpl; [done|]. destruct (isDigit c); [|done].
  intros; simplify_eq. by rewrite skipDigits_extend.
Qed.

Lemma scanInt_extend l e r : scanInt l = Some r -> r <> [] \/ closing e -> scanInt (l ++ e) = Some (r ++ e).
Proof.
  destruct l as [|x l]; [done|]. simpl. destruct (code x =? 48)%N; [by intros; simplify_eq|].
  apply (digits1_extend (x :: l)).
Qed.

Lemma scanFrac_extend l e r : scanFrac l = Some r -> r <> [] \/ closing e -> scanFrac (l ++ e) = Some (r ++ e).
Proof.
  destruct l as [|x l]; simpl; intros H He; simplify_eq.
  - destruct He as [|He]; [done|]. revert He. closing_cases e.
  - destruct (code x =? 46)%N; [by apply digits1_extend|by simplify_eq].
Qed.

Lemma scanExp_extend l e r : scanExp l = Some r -> r <> [] \/ closing e -> scanExp (l ++ e) = Some (r ++ e).
Proof.
  destruct l as [|x l]; simpl; intros H He; simplify_eq.
  - destruct He as [|He]; [done|]. revert He. closing_cases e.
  - destruct ((code x =? 101) || (code x =? 69))%N; [|by simplify_eq].
    destruct l as [|y l]; [done|]. simpl.
    destruct ((code y =? 43) || (code y =? 45))%N; [by apply digits1_extend|].
    by apply (digits1_extend (y :: l)).
Qed.

Lemma scanNumber_extend l e r : scanNumber l = Some r -> r <> [] \/ closing e ->
  scanNumber (l ++ e) = Some (r ++ e).
Proof.
  intros H Hr. unfold scanNumber in *.
  apply bind_Some in H as (l1 & H1 & H). apply bind_Some in H as (l2 & H2 & H3).
  assert (unsign (l ++ e) = unsign l ++ e) as ->
    by (destruct l as [|c l]; [done|]; simpl; by destruct (code c =? 45)%N).
  assert (l2 <> [] \/ closing e) as Hl2
    by (destruct Hr; [left; intros ->; by simplify_eq/=|by right]).
  assert (l1 <> [] \/ closing e) as Hl1
    by (destruct Hl2; [left; intros ->; by simplify_eq/=|by right]).
  rewrite (scanInt_extend _ _ _ H1 Hl1). simpl. rewrite (scanFrac_extend _ _ _ H2 Hl2). simpl.
  by apply scanExp_extend.
Qed.

Lemma scanString_extend n l e raw r : (length l <= n)%nat ->
  scanString l = Some (raw, r) -> scanString (l ++ e) = Some (raw, r ++ e).
Proof.
  revert l raw r. induction n as [|n IH]; intros l raw r Hn; [by destruct l; simpl in Hn; [|lia]|].
  destruct l as [|c l1]; simpl in *; [done|].
  destruct (code c =? 34)%N; [by intros; simplify_eq|].
  destruct (code c =? 92)%N.
  - destruct l1 as [|x l2]; simpl in *; [done|]. destruct (isSome (simpleEscape x)).
    + intros ([raw' r'] & E & ?)%bind_Some; simplify_eq. apply IH in E; [by rewrite E|simpl in *; lia].
    + destruct (code x =? 117)%N; [|done]. destruct l2 as [|a [|b [|d [|f l3]]]]; try done. simpl.
      destruct (isHex a && isHex b && isHex d && isHex f); [|done].
      intros ([raw' r'] & E & ?)%bind_Some; simplify_eq.
      apply IH in E; [by rewrite E|simpl in *; lia].
  - destruct (code c <? 32)%N; [done|].
    intros ([raw' r'] & E & ?)%bind_Some; simplify_eq. apply IH in E; [by rewrite E|simpl in *; lia].
Qed.

Lemma byteIs_Some n l r : byteIs n l = Some r -> exists c, l = c :: r /\ (code c =? n)%N = true.
Proof.
  destruct l as [|c l]; simpl; [done|]. destruct (code c =? n)%N eqn:E; intros; simplify_eq. eauto.
Qed.

(** What [expect] and the closing bracket read after a value. *)
Lemma expect_extend n l e r : expect n (skipSpace l) = Some r -> r <> [] ->
  l <> [] /\ expect n (skipSpace (l ++ e)) = Some (r ++ e).
Proof.
  unfold expect. destruct (skipSpace l) as [|c l'] eqn:Hl; [done|]. intros H Hr. split; [by intros ->|].
  rewrite (skipSpace_extend l e c l' Hl). simpl in *.
  destruct (code c =? n)%N; simplify_eq/=. destruct (skipSpace l') as [|d r'] eqn:Hl'; [done|].
  by rewrite (skipSpace_extend l' e d r' Hl').
Qed.

Lemma close_extend n m l e r : (n =? m)%N = false -> expect m (skipSpace l) = None -> byteIs n (skipSpace l) = Some r ->
  l <> [] /\ expect m (skipSpace (l ++ e)) = None /\ byteIs n (skipSpace (l ++ e)) = Some (r ++ e).
Proof.
  intros Hnm He (c & Hl & Hc)%byteIs_Some. split; [by intros ->|].
  rewrite (skipSpace_extend l e c r Hl). rewrite Hl in He. unfold expect in *. simpl in *. rewrite Hc.
  by destruct (code c =? m)%N.
Qed.

Definition isNum (v : jval) : bool := match v with JNum _ => true | _ => false end.

Section Extend.
Context (e : text).

(** A value that is not a number at the very end of a text ends where it ends,
    whatever follows; members and elements end with a bracket. *)
Definition valueExtends f := forall depth l v r,
  parseValue f depth l = Some (v, r) -> r <> [] \/ isNum v = false ->
  parseValue f depth (l ++ e) = Some (v, r ++ e).
Definition membersExtend f := forall depth l kvs r,
  parseMembers f depth l = Some (kvs, r) -> parseMembers f depth (l ++ e) = Some (kvs, r ++ e).
Definition elemsExtend f := forall depth l vs r,
  parseElems f depth l = Some (vs, r) -> parseElems f depth (l ++ e) = Some (vs, r ++ e).

Lemma byteIs_close n l r :
  byteIs n (skipSpace l) = Some r -> byteIs n (skipSpace (l ++ e)) = Some (r ++ e).
Proof. intros (d & Hl & Hd)%byteIs_Some. rewrite (skipSpace_extend l e d r Hl). simpl. by rewrite Hd. Qed.

Lemma byteIs_open n l : skipSpace l <> [] -> byteIs n (skipSpace l) = None ->
  byteIs n (skipSpace (l ++ e)) = None /\ skipSpace (l ++ e) = skipSpace l ++ e.
Proof.
  destruct (skipSpace l) as [|d l'] eqn:Hl; [done|]. intros _ Hn.
  rewrite (skipSpace_extend l e d l' Hl). simpl in *. by destruct (code d =? n)%N.
Qed.

Lemma value_extend f : membersExtend f -> elemsExtend f -> valueExtends (S f).
Proof.
  intros IHm IHe depth l v r H Hnum. destruct l as [|c l]; [done|]. cbn [parseValue app] in *.
  destruct (code c =? 34)%N.
  { apply bind_Some in H as ([raw r'] & E & H). simplify_eq/=.
    by rewrite (scanString_extend (length l) l e raw r). }
  destruct (code c =? 123)%N.
  { destruct (maxNestingDepth <? depth + 1); [done|].
    destruct (byteIs 125 (skipSpace l)) as [r'|] eqn:Hb; [simplify_eq; by rewrite (byteIs_close _ _ _ Hb)|].
    apply bind_Some in H as ([kvs r'] & E & H). simplify_eq/=.
    destruct (byteIs_open 125 l) as [-> ->]; [intros Hl; rewrite Hl in E; by destruct f|done|].
    by rewrite (IHm _ _ _ _ E). }
  destruct (code c =? 91)%N.
  { destruct (maxNestingDepth <? depth + 1); [done|].
    destruct (byteIs 93 (skipSpace l)) as [r'|] eqn:Hb; [simplify_eq; by rewrite (byteIs_close _ _ _ Hb)|].
    apply bind_Some in H as ([vs r'] & E & H). simplify_eq/=.
    destruct (byteIs_open 93 l) as [-> ->]; [intros Hl; rewrite Hl in E; by destruct f as [|[]]|done|].
    by rewrite (IHe _ _ _ _ E). }
  rewrite app_comm_cons. destruct (code c =? 116)%N, (code c =? 102)%N, (code c =? 110)%N;
    apply bind_Some in H as (r' & E & H); simplify_eq;
    try (by rewrite (literal_extend _ _ e _ E)).
  destruct Hnum as [Hr|Hv]; [|done]. rewrite (scanNumber_extend _ e _ E (or_introl Hr)). cbn [mbind option_bind].
  pose proof (scanNumber_length _ _ E). do 2 f_equal. f_equal. rewrite !length_app, take_app_le by (simpl in *; lia).
  f_equal. lia.
Qed.

Lemma members_extend f : valueExtends f -> membersExtend f -> membersExtend (S f).
Proof.
  intros IHv IHm depth l kvs r H. destruct l as [|c l]; [done|]. cbn [parseMembers app] in *.
  destruct (code c =? 34)%N; [|done].
  apply bind_Some in H as ([raw l1] & E & H). rewrite (scanString_extend (length l) l e raw l1) by done.
  apply bind_Some in H as (l2 & E2 & H). apply bind_Some in H as ([v l3] & E3 & H).
  assert (l2 <> []) as Hl2 by (intros ->; by destruct f). cbn [mbind option_bind].
  rewrite (proj2 (expect_extend 58 l1 e l2 E2 Hl2)). cbn [mbind option_bind].
  destruct (expect 44 (skipSpace l3)) as [l4|] eqn:E4.
  - apply bind_Some in H as ([kvs' r'] & E5 & H). simplify_eq/=.
    assert (l4 <> []) as Hl4 by (intros ->; by destruct f).
    destruct (expect_extend 44 l3 e l4 E4 Hl4) as [Hl3 He].
    rewrite (IHv _ _ _ _ E3) by (by left). simpl. by rewrite He, (IHm _ _ _ _ E5).
  - apply bind_Some in H as (r' & E5 & H). simplify_eq/=.
    destruct (close_extend 125 44 l3 e r eq_refl E4 E5) as (Hl3 & He & Hb).
    rewrite (IHv _ _ _ _ E3) by (by left). simpl. by rewrite He, Hb.
Qed.

Lemma elems_extend f : valueExtends f -> elemsExtend f -> elemsExtend (S f).
Proof.
  intros IHv IHe depth l vs r H. cbn [parseElems] in *. apply bind_Some in H as ([v l3] & E3 & H).
  destruct (expect 44 (skipSpace l3)) as [l4|] eqn:E4.
  - apply bind_Some in H as ([vs' r'] & E5 & H). simplify_eq/=.
    assert (l4 <> []) as Hl4 by (intros ->; by destruct f as [|[]]).
    destruct (expect_extend 44 l3 e l4 E4 Hl4) as [Hl3 He].
    rewrite (IHv _ _ _ _ E3) by (by left). simpl. by rewrite He, (IHe _ _ _ _ E5).
  - apply bind_Some in H as (r' & E5 & H). simplify_eq/=.
    destruct (close_extend 93 44 l3 e r eq_refl E4 E5) as (Hl3 & He & Hb).
    rewrite (IHv _ _ _ _ E3) by (by left). simpl. by rewrite He, Hb.
Qed.

Lemma parse_extend f : valueExtends f /\ membersExtend f /\ elemsExtend f.
Proof.
  induction f as [|f (IHv & IHm & IHe)]; [by split_and!; intros depth l ?|].
  auto using value_extend, members_extend, elems_extend.
Qed.

End Extend.

(** ** Strings come back *)

Definition allASCII (l : text) : bool := forallb (fun c => (code c <? 128)%N) l.

(** Runs a check over all bytes. *)
Ltac all_bytes c := destruct c as [[] [] [] [] [] [] [] []]; first [done | reflexivity].

Lemma escapeASCII_scan html c l : (code c <? 128)%N = true ->
  scanString (escapeASCII html c ++ l) = '(raw, r) ← scanString l; Some (escapeASCII html c ++ raw, r).
Proof. destruct html; all_bytes c. Qed.

Lemma escapeASCII_unquote html c l : (code c <? 128)%N = true ->
  unquoteFrom 0 (escapeASCII html c ++ l) = c :: unquoteFrom 0 l.
Proof. destruct html; all_bytes c. Qed.

Lemma escapeFrom_cons html c l : (code c <? 128)%N = true ->
  escapeFrom html 0 (c :: l) = escapeASCII html c ++ escapeFrom html 0 l.
Proof. intros H. simpl. unfold escapeStep. by rewrite H. Qed.

Lemma escapeFrom_scan html l rest : allASCII l = true ->
  scanString (escapeFrom html 0 l ++ quote :: rest) = Some (escapeFrom html 0 l, rest).
Proof.
  induction l as [|c l IH]; [done|]. intros [Hc Hl]%andb_true_iff.
  rewrite escapeFrom_cons, <-app_assoc, escapeASCII_scan, IH by done. done.
Qed.

Lemma escapeFrom_unquote html l : allASCII l = true -> unquoteFrom 0 (escapeFrom html 0 l) = l.
Proof.
  induction l as [|c l IH]; [done|]. intros [Hc Hl]%andb_true_iff.
  rewrite escapeFrom_cons, escapeASCII_unquote, IH by done. done.
Qed.

(** A written string is read back, whatever follows it. *)
Lemma parse_writeString html f depth l rest : allASCII l = true ->
  parseValue (S f) depth (writeString html l ++ rest) = Some (JStr l, rest).
Proof.
  intros H. unfold writeString. rewrite <-app_comm_cons, <-app_assoc. simpl.
  rewrite escapeFrom_scan by done. simpl. by rewrite escapeFrom_unquote.
Qed.

(** ** Cut texts *)

Lemma parse_object_shape f depth l v r :
  parseValue f depth ("{"%char :: l) = Some (v, r) -> exists kvs, v = JObj kvs.
Proof.
  destruct f as [|f]; [done|]. cbn [parseValue]. change (code "{" =? 34)%N with false.
  change (code "{" =? 123)%N with true. cbn iota. destruct (maxNestingDepth <? depth + 1); [done|].
  destruct (byteIs 125 (skipSpace l)); [intros; simplify_eq; eauto|].
  intros ([kvs r'] & _ & ?)%bind_Some; simplify_eq; eauto.
Qed.

(** No proper prefix of an object is a text. *)
Lemma parse_cut l l' v : l' <> [] ->
  parseValue (enough ("{"%char :: l ++ l')) 0 ("{"%char :: l ++ l') = Some (v, []) ->
  parse ("{"%char :: l) = None.
Proof.
  intros Hl' Hfull. unfold parse. change (skipSpace ("{"%char :: l)) with ("{"%char :: l).
  destruct (parseValue _ 0 ("{"%char :: l)) as [[v' r]|] eqn:E; [|done]. exfalso.
  destruct (parse_object_shape _ _ _ _ _ E) as [kvs ->].
  rewrite (proj1 (parse_fuel _ (enough ("{"%char :: l ++ l')) 0 _)) in E
    by (unfold enough; simpl; rewrite ?length_app; lia).
  pose proof (proj1 (parse_extend l' _) _ _ _ _ E (or_intror eq_refl)) as E'.
  rewrite <-app_comm_cons, Hfull in E'. injection E' as _ E'. by destruct r.
Qed.

End Json.
