(* ===== verification/JsonWrite.v ===== *)
(** * JSON text: writing values

    The compact text [json.Encoder] writes for a value, and that the reader
    gives the value back.  Strings that are not UTF-8 come back with the
    replacement character in place of each ill-formed byte. *)

From Stdlib Require Import Ascii.
From S2P Require Import Prelude GoLib Json.
Import GoLib Json.

Module JsonWrite.

(** ** Any string *)

(** [strings.ToValidUTF8] byte by byte: what reading a written string gives. *)
Fixpoint validFrom (skip : nat) (l : text) : text :=
  match l with
  | [] => []
  | c :: l' =>
      match skip with
      | S k => validFrom k l'
      | O => let '(r, n) := decodeRune (c :: l') in encodeRune r ++ validFrom (n - 1) l'
      end
  end.

Definition toValid : text -> text := validFrom 0.

Lemma escapeFrom_drop html n : forall l, escapeFrom html n l = escapeFrom html 0 (drop n l).
Proof. induction n as [|n IH]; intros [|c l]; [done..|]. simpl. by rewrite IH. Qed.

Lemma unquoteFrom_drop n : forall l, unquoteFrom n l = unquoteFrom 0 (drop n l).
Proof. induction n as [|n IH]; intros [|c l]; [done..|]. simpl. by rewrite IH. Qed.

Lemma validFrom_drop n : forall l, validFrom n l = validFrom 0 (drop n l).
Proof. induction n as [|n IH]; intros [|c l]; [done..|]. simpl. by rewrite IH. Qed.

Definition highByte (c : ascii) : Prop := (128 <= code c)%N.

(** A well-formed sequence of more than one byte is read the same, whatever
    follows it. *)
Lemma decodeRune_prefix c l r n : highByte c -> decodeRune (c :: l) = (r, n) ->
  (r = runeError /\ n = 1%nat) \/
  ((1 < n <= length (c :: l))%nat /\ Forall highByte (take n (c :: l)) /\
   forall X, decodeRune (take n (c :: l) ++ X) = (r, n)).
Proof.
  unfold highByte. intros Hc. unfold decodeRune. set (k := code c) in *.
  assert ((k <? 128)%N = false) as Hk by (apply N.ltb_ge; lia). rewrite Hk.
  assert (forall lo hi x, between lo hi x = true -> (lo <= x <= hi)%N) as Hb
    by (unfold between; intros lo hi x [?%N.leb_le ?%N.leb_le]%andb_true_iff; lia).
  repeat case_match; intros; simplify_eq; try (by left); right;
    repeat match goal with
    | H : (_ && _) = true |- _ => apply andb_true_iff in H as [? ?]
    end;
    (split; [simpl; lia|]); rewrite !firstn_cons, take_0;
    (split; [rewrite ?Forall_cons, Forall_nil; split_and!; fold k; try done|]);
    try (match goal with H : between _ _ (code ?x) = true |- (128 <= code ?x)%N => apply Hb in H end;
         repeat case_match; lia);
    intros X; simpl; fold k;
    repeat match goal with
    | H : ?b = _ |- context [?b] => rewrite H
    end; done.
Qed.

Lemma scanString_high bs l : Forall highByte bs ->
  scanString (bs ++ l) = '(raw, r) ← scanString l; Some (bs ++ raw, r).
Proof.
  unfold highByte. induction 1 as [|c bs Hc _ IH]; simpl; [by destruct (scanString l) as [[]|]|].
  rewrite !(proj2 (N.eqb_neq _ _)), (proj2 (N.ltb_ge _ _)) by lia. rewrite IH.
  by destruct (scanString l) as [[]|].
Qed.

(** One step of the writer: what the scanner and the reader make of it. *)
Definition stepReads (out : text) (r : N) : Prop :=
  (forall l, scanString (out ++ l) = '(raw, e) ← scanString l; Some (out ++ raw, e)) /\
  (forall l, unquoteFrom 0 (out ++ l) = encodeRune r ++ unquoteFrom 0 l).

Lemma escapeStep_reads html c l out n r n' :
  escapeStep html c l = (out, n) -> decodeRune (c :: l) = (r, n') -> n = n' /\ (0 < n)%nat /\ stepReads out r.
Proof.
  unfold escapeStep. destruct (N.ltb_spec (code c) 128) as [Hc|Hc].
  - intros ? Hd. simplify_eq. unfold decodeRune in Hd. rewrite (proj2 (N.ltb_lt _ _)) in Hd by done.
    simplify_eq. split_and!; [done|lia|]. split; intros l'.
    + apply escapeASCII_scan. by apply N.ltb_lt.
    + rewrite escapeASCII_unquote by (by apply N.ltb_lt). by revert Hc; all_bytes c.
  - intros He Hd. rewrite Hd in He.
    destruct (decodeRune_prefix c l r n' Hc Hd) as [[-> ->]|(Hn & Hh & Hp)]; simplify_eq/=.
    { split_and!; [done|lia|split; intros l'; reflexivity]. }
    rewrite (proj2 (Nat.eqb_neq n' 1)), andb_false_r in He by lia.
    destruct ((r =? 8232)%N || (r =? 8233)%N) eqn:Hr; simplify_eq.
    + split_and!; [done|lia|]. apply orb_true_iff in Hr as [->%N.eqb_eq| ->%N.eqb_eq]; by split.
    + split_and!; [done|lia|]. split; intros l'; [by apply scanString_high|].
      specialize (Hp l'). destruct n as [|n]; [lia|]. rewrite firstn_cons in *. simpl app in *.
      cbn [unquoteFrom]. unfold unquoteStep.
      rewrite (proj2 (N.eqb_neq (code c) 92)), (proj2 (N.ltb_ge (code c) 128)), Hp by (unfold highByte in Hc; lia).
      rewrite unquoteFrom_drop. do 2 f_equal. replace (S n - 1)%nat with n by lia.
      apply drop_app_length'. rewrite length_take. simpl in *. lia.
Qed.

Lemma escape_reads html n : forall l, (length l <= n)%nat ->
  (forall rest, scanString (escapeFrom html 0 l ++ quote :: rest) = Some (escapeFrom html 0 l, rest)) /\
  unquoteFrom 0 (escapeFrom html 0 l) = toValid l.
Proof.
  induction n as [|n IH]; intros [|c l] Hn; [by split|simpl in Hn; lia|by split|].
  unfold toValid. cbn [escapeFrom validFrom].
  destruct (escapeStep html c l) as [out k] eqn:He, (decodeRune (c :: l)) as [r k'] eqn:Hd.
  destruct (escapeStep_reads _ _ _ _ _ _ _ He Hd) as (<- & Hk & Hs & Hu).
  rewrite escapeFrom_drop, validFrom_drop.
  destruct (IH (drop (k - 1) l)) as [IH1 IH2]; [rewrite length_drop; simpl in Hn; lia|]. split.
  - intros rest. by rewrite <- app_assoc, Hs, IH1.
  - by rewrite Hu, IH2.
Qed.

Lemma writeString_reads html f depth l rest :
  parseValue (S f) depth (writeString html l ++ rest) = Some (JStr (toValid l), rest).
Proof.
  unfold writeString. rewrite <-app_comm_cons, <-app_assoc. simpl.
  destruct (escape_reads html (length l) l) as [Hs Hu]; [done|]. by rewrite Hs; simpl; rewrite Hu.
Qed.

Lemma toValid_ASCII l : allASCII l = true -> toValid l = l.
Proof.
  unfold toValid. induction l as [|c l IH]; [done|]. intros [Hc Hl]%andb_true_iff. cbn [validFrom].
  unfold decodeRune. rewrite Hc. simpl Nat.sub. rewrite IH by done. by revert Hc; all_bytes c.
Qed.

(** ** Values *)

Definition commaSep (ts : list text) : text :=
  match ts with
  | [] => []
  | t :: ts' => t ++ foldr (fun t acc => ","%char :: t ++ acc) [] ts'
  end.

(** The compact text of a value. *)
Fixpoint writeValue (html : bool) (v : jval) : text :=
  match v with
  | JNull => chars "null"
  | JBool b => chars (if b then "true" else "false")
  | JNum n => n
  | JStr s => writeString html s
  | JArr vs => "["%char :: commaSep (writeValue html <$> vs) ++ ["]"%char]
  | JObj kvs =>
      "{"%char :: commaSep ((fun '(k, v) => writeString html k ++ ":"%char :: writeValue html v) <$> kvs)
      ++ ["}"%char]
  end.

(** The value with its strings as they are read back. *)
Fixpoint readBack (v : jval) : jval :=
  match v with
  | JStr s => JStr (toValid s)
  | JArr vs => JArr (readBack <$> vs)
  | JObj kvs => JObj ((fun '(k, v) => (toValid k, readBack v)) <$> kvs)
  | _ => v
  end.

Definition isNumber (n : text) : bool := bool_decide (scanNumber n = Some []).

(** Number literals are well-formed, and brackets nest at most [d] deep. *)
Fixpoint writable (d : Z) (v : jval) : bool :=
  match v with
  | JNum n => isNumber n
  | JArr vs => (0 <? d) && forallb (writable (d - 1)) vs
  | JObj kvs => (0 <? d) && forallb (fun '(_, v) => writable (d - 1) v) kvs
  | _ => true
  end.

(** ** Values are read back *)

(** Induction on values, through the lists. *)
Lemma jval_nested (P : jval -> Prop) : P JNull -> (forall b, P (JBool b)) -> (forall n, P (JNum n)) ->
  (forall s, P (JStr s)) -> (forall vs, Forall P vs -> P (JArr vs)) ->
  (forall kvs, Forall (fun kv => P kv.2) kvs -> P (JObj kvs)) -> forall v, P v.
Proof.
  intros Hnull Hbool Hnum Hstr Harr Hobj. fix IH 1. intros [|b|n|s|vs|kvs];
    [apply Hnull|apply Hbool|apply Hnum|apply Hstr|apply Harr|apply Hobj].
  - induction vs as [|v vs IHv]; constructor; [apply IH|apply IHv].
  - induction kvs as [|[k v] kvs IHk]; constructor; [apply IH|apply IHk].
Qed.

(** [reads html v]: the text of [v] is read as [readBack v], whatever follows. *)
Definition reads (html : bool) (v : jval) : Prop := forall f depth rest,
  writable (maxNestingDepth - depth) v = true -> closing rest ->
  (2 * length (writeValue html v ++ rest) + 1 <= f)%nat ->
  parseValue f depth (writeValue html v ++ rest) = Some (readBack v, rest).

(** A number literal, and the value read from it. *)
Lemma number_head c n : scanNumber (c :: n) <> None -> c = "-"%char \/ isDigit c = true.
Proof.
  unfold scanNumber. simpl unsign. destruct (N.eqb_spec (code c) 45) as [Hc|Hc].
  - intros _. left. revert Hc. all_bytes c.
  - intros H. right. simpl in H. destruct (N.eqb_spec (code c) 48) as [Hc'|]; [by revert Hc'; all_bytes c|].
    by destruct (isDigit c).
Qed.

Lemma reads_number html n : reads html (JNum n).
Proof.
  intros f depth rest Hn Hr Hf. simpl in *. apply bool_decide_eq_true in Hn.
  pose proof (scanNumber_extend n rest [] Hn (or_intror Hr)) as He. simpl in He.
  destruct n as [|c n]; [done|]. destruct f as [|f]; [simpl in Hf; lia|].
  assert (c = "-"%char \/ isDigit c = true) as Hc by (apply (number_head c n); by rewrite Hn).
  assert (parseValue (S f) depth ((c :: n) ++ rest)
    = r ← scanNumber ((c :: n) ++ rest); Some (JNum (take (length ((c :: n) ++ rest) - length r) ((c :: n) ++ rest)), r))
    as ->. { simpl app. cbn [parseValue]. destruct Hc as [-> |Hc]; [done|]. revert Hc; all_bytes c. }
  rewrite He. cbn [mbind option_bind]. do 3 f_equal.
  rewrite length_app. apply take_app_length'. lia.
Qed.

Lemma commaSep_cons t ts : commaSep (t :: ts) = t ++ match ts with [] => [] | _ => ","%char :: commaSep ts end.
Proof. by destruct ts. Qed.

#[local] Arguments commaSep : simpl never.
#[local] Arguments writeValue : simpl never.

Lemma skipSpace_value html d v rest : writable d v = true ->
  skipSpace (writeValue html v ++ rest) = writeValue html v ++ rest.
Proof.
  destruct v as [|[]|n|s|vs|kvs]; try done. simpl. intros Hn%bool_decide_eq_true.
  destruct n as [|c n]; [done|]. assert (c = "-"%char \/ isDigit c = true) as Hc by (apply (number_head c n); by rewrite Hn).
  destruct Hc as [-> |Hc]; [done|]. simpl. assert (isSpace c = false) as ->; [|done]. revert Hc. all_bytes c.
Qed.

(** What is read after a member or an element: the closing bracket [b], or a
    comma and the next one. *)
Definition tailText (ts : list text) (b : ascii) (rest : text) : text :=
  match ts with [] => [] | _ => ","%char :: commaSep ts end ++ b :: rest.

Lemma commaSep_tail t ts b rest : commaSep (t :: ts) ++ b :: rest = t ++ tailText ts b rest.
Proof. unfold tailText. by rewrite commaSep_cons, <- app_assoc. Qed.

Lemma closing_nil b rest : b = "}"%char \/ b = "]"%char -> closing (tailText [] b rest).
Proof. intros [-> | ->]; simpl; auto. Qed.

Lemma tail_cons t ts b rest : skipSpace (commaSep (t :: ts) ++ b :: rest) = commaSep (t :: ts) ++ b :: rest ->
  closing (tailText (t :: ts) b rest) /\
  expect 44 (skipSpace (tailText (t :: ts) b rest)) = Some (commaSep (t :: ts) ++ b :: rest) /\
  length (tailText (t :: ts) b rest) = S (length (commaSep (t :: ts) ++ b :: rest)).
Proof. intros H. split_and!; [by left| |done]. unfold tailText, expect. simpl. by rewrite H. Qed.

Section Lists.
Context (html : bool).

Definition writeMember (kv : text * jval) : text := writeString html kv.1 ++ ":"%char :: writeValue html kv.2.

Lemma reads_members kvs : Forall (fun kv => reads html kv.2) kvs -> forall f depth rest,
  kvs <> [] -> forallb (fun kv => writable (maxNestingDepth - depth) kv.2) kvs = true ->
  (2 * length (commaSep (writeMember <$> kvs) ++ "}"%char :: rest) + 1 <= f)%nat ->
  parseMembers f depth (commaSep (writeMember <$> kvs) ++ "}"%char :: rest)
  = Some ((fun kv => (toValid kv.1, readBack kv.2)) <$> kvs, rest).
Proof.
  induction 1 as [|[k v] kvs Hv _ IH]; [done|]. intros f depth rest _ [Hw Hws]%andb_true_iff Hf.
  simpl snd in Hv, Hw. rewrite fmap_cons, commaSep_tail in *. set (tl := tailText (writeMember <$> kvs) "}" rest) in *.
  assert (writeMember (k, v) ++ tl = quote :: escapeFrom html 0 k ++ quote :: ":"%char :: writeValue html v ++ tl) as E.
  { unfold writeMember, writeString. simpl. by rewrite <- !app_assoc. }
  rewrite E in *. clear E. simpl length in Hf. rewrite !length_app in Hf. simpl length in Hf.
  rewrite length_app in Hf. destruct f as [|f]; [lia|]. cbn [parseMembers].
  change (code quote =? 34)%N with true. cbn iota.
  destruct (escape_reads html (length k) k) as [Hs Hu]; [done|].
  rewrite Hs. cbn [mbind option_bind]. rewrite Hu.
  assert (expect 58 (skipSpace (":"%char :: writeValue html v ++ tl)) = Some (writeValue html v ++ tl)) as ->.
  { unfold expect. simpl. f_equal. by eapply skipSpace_value. }
  cbn [mbind option_bind]. destruct kvs as [|kv kvs].
  - pose proof (closing_nil "}" rest (or_introl eq_refl)) as Hc.
    rewrite Hv by (done || rewrite length_app; lia). by subst tl.
  - destruct (tail_cons (writeMember kv) (writeMember <$> kvs) "}" rest) as (Hc & He & Hl); [done|].
    rewrite Hv by (done || rewrite length_app; lia). cbn [mbind option_bind]. subst tl.
    rewrite fmap_cons, He, <- fmap_cons, IH; [done|done|done|].
    rewrite fmap_cons in *. rewrite Hl in Hf. lia.
Qed.

Lemma reads_elems vs : Forall (reads html) vs -> forall f depth rest,
  vs <> [] -> forallb (writable (maxNestingDepth - depth)) vs = true ->
  (2 * length (commaSep (writeValue html <$> vs) ++ "]"%char :: rest) + 2 <= f)%nat ->
  parseElems f depth (commaSep (writeValue html <$> vs) ++ "]"%char :: rest) = Some (readBack <$> vs, rest).
Proof.
  induction 1 as [|v vs Hv _ IH]; [done|]. intros f depth rest _ [Hw Hws]%andb_true_iff Hf.
  rewrite fmap_cons, commaSep_tail in *. set (tl := tailText (writeValue html <$> vs) "]" rest) in *.
  rewrite !length_app in Hf. destruct f as [|f]; [lia|]. cbn [parseElems]. destruct vs as [|v' vs].
  - pose proof (closing_nil "]" rest (or_intror eq_refl)) as Hc.
    rewrite Hv by (done || rewrite length_app; lia). by subst tl.
  - destruct (tail_cons (writeValue html v') (writeValue html <$> vs) "]" rest) as (Hc & He & Hl).
    { rewrite commaSep_tail. simpl in Hws. apply andb_true_iff in Hws as [Hw' _]. by eapply skipSpace_value. }
    rewrite Hv by (done || rewrite length_app; lia). cbn [mbind option_bind]. subst tl.
    rewrite fmap_cons, He, <- fmap_cons, IH; [done|done|done|].
    rewrite fmap_cons in *. rewrite Hl in Hf. lia.
Qed.

End Lists.

Lemma forallb_pair {A B} (g : B -> bool) (l : list (A * B)) :
  forallb (fun '(_, y) => g y) l = forallb (fun xy => g xy.2) l.
Proof. by induction l as [|[x y] l IH]; [|simpl; rewrite IH]. Qed.

Lemma reads_object html kvs : Forall (fun kv => reads html kv.2) kvs -> reads html (JObj kvs).
Proof.
  intros Hs f depth rest Hw Hr Hf. simpl in Hw. apply andb_true_iff in Hw as [Hd%Z.ltb_lt Hw].
  rewrite forallb_pair in Hw. replace (maxNestingDepth - depth - 1) with (maxNestingDepth - (depth + 1)) in Hw by lia.
  assert (writeValue html (JObj kvs) ++ rest = "{"%char :: commaSep (writeMember html <$> kvs) ++ "}"%char :: rest) as E.
  { unfold writeValue; fold (writeValue html). simpl. rewrite <- app_assoc. do 3 f_equal. by apply list_fmap_ext; intros ? []. }
  rewrite E in *. clear E. simpl length in Hf. destruct f as [|f]; [lia|]. cbn [parseValue].
  change (code "{" =? 34)%N with false. change (code "{" =? 123)%N with true. cbn iota.
  rewrite (proj2 (Z.ltb_ge _ _)) by lia. destruct kvs as [|kv kvs]; [done|].
  assert (skipSpace (commaSep (writeMember html <$> kv :: kvs) ++ "}"%char :: rest)
    = commaSep (writeMember html <$> kv :: kvs) ++ "}"%char :: rest) as -> by done.
  assert (byteIs 125 (commaSep (writeMember html <$> kv :: kvs) ++ "}"%char :: rest) = None) as -> by done.
  rewrite reads_members by (done || lia). cbn [mbind option_bind]. do 2 f_equal.
  change (readBack (JObj ?l)) with (JObj ((fun '(k, v) => (toValid k, readBack v)) <$> l)).
  f_equal. by apply list_fmap_ext; intros ? [].
Qed.

Lemma reads_array html vs : Forall (reads html) vs -> reads html (JArr vs).
Proof.
  intros Hs f depth rest Hw Hr Hf. simpl in Hw. apply andb_true_iff in Hw as [Hd%Z.ltb_lt Hw].
  replace (maxNestingDepth - depth - 1) with (maxNestingDepth - (depth + 1)) in Hw by lia.
  assert (writeValue html (JArr vs) ++ rest = "["%char :: commaSep (writeValue html <$> vs) ++ "]"%char :: rest) as E.
  { unfold writeValue; fold (writeValue html). simpl. by rewrite <- app_assoc. }
  rewrite E in *. clear E. simpl length in Hf. destruct f as [|f]; [lia|]. cbn [parseValue].
  change (code "[" =? 34)%N with false. change (code "[" =? 123)%N with false. change (code "[" =? 91)%N with true. cbn iota.
  rewrite (proj2 (Z.ltb_ge _ _)) by lia. destruct vs as [|v vs]; [done|]. pose proof Hw as Hw'.
  simpl in Hw'. apply andb_true_iff in Hw' as [Hv _].
  rewrite fmap_cons, commaSep_tail, (skipSpace_value _ _ _ _ Hv).
  assert (forall X, byteIs 93 (writeValue html v ++ X) = None) as ->.
  { intros X. destruct v as [|[]|n|s|vs'|kvs]; try done. simpl in Hv. apply bool_decide_eq_true in Hv.
    destruct n as [|c n]; [done|]. assert (c = "-"%char \/ isDigit c = true) as Hc by (apply (number_head c n); by rewrite Hv).
    destruct Hc as [-> |Hc]; [done|]. revert Hc. all_bytes c. }
  rewrite <- commaSep_tail, <- fmap_cons, reads_elems by (done || lia). done.
Qed.

Lemma reads_all html v : reads html v.
Proof.
  induction v as [|b|n|s|vs IH|kvs IH] using jval_nested.
  - intros [|f] depth rest _ _ Hf; [lia|]. done.
  - intros [|f] depth rest _ _ Hf; [lia|]. by destruct b.
  - apply reads_number.
  - intros [|f] depth rest _ _ Hf; [lia|]. apply writeString_reads.
  - by apply reads_array.
  - by apply reads_object.
Qed.

(** A written value is read back. *)
Lemma parse_writeValue html v : writable maxNestingDepth v = true -> parse (writeValue html v) = Some (readBack v).
Proof.
  intros Hw. unfold parse. pose proof (skipSpace_value html _ v [] Hw) as Hs. rewrite app_nil_r in Hs. rewrite Hs.
  pose proof (reads_all html v (enough (writeValue html v)) 0 []) as H. rewrite app_nil_r in H.
  rewrite H; [done|by rewrite Z.sub_0_r|done|unfold enough; lia].
Qed.

(** A part of the text of an object is not a text. *)
Lemma parse_writeObject_cut html kvs n : writable maxNestingDepth (JObj kvs) = true ->
  (n < length (writeValue html (JObj kvs)))%nat -> parse (take n (writeValue html (JObj kvs))) = None.
Proof.
  intros Hw Hn. pose proof (reads_all html (JObj kvs) (enough (writeValue html (JObj kvs))) 0 []) as H.
  rewrite app_nil_r in H. specialize (H ltac:(by rewrite Z.sub_0_r) I ltac:(unfold enough; lia)).
  destruct (writeValue html (JObj kvs)) as [|c t] eqn:E; [done|].
  assert (c = "{"%char) as -> by (by inversion E). destruct n as [|n]; [done|]. rewrite firstn_cons.
  simpl length in Hn. eapply (parse_cut _ (drop n t)).
  - intros Hd%(f_equal length). rewrite length_drop in Hd. simpl in Hd. lia.
  - by rewrite take_drop.
Qed.

(** ** Lines *)

Definition newline : ascii := chr 10.

(** The lines of a text that end in a newline. *)
Fixpoint linesFrom (acc l : text) : list text :=
  match l with
  | [] => []
  | c :: l' => if bool_decide (c = newline) then reverse acc :: linesFrom [] l' else linesFrom (c :: acc) l'
  end.

Definition splitLines : text -> list text := linesFrom [].

(** The values of the lines that are texts. *)
Definition readLines (l : text) : list jval := omap parse (splitLines l).

(** No line of [l] is left open. *)
Definition complete (l : text) : Prop := l = [] \/ exists l', l = l' ++ [newline].

Lemma linesFrom_app l1 l2 : forall acc, linesFrom acc ((l1 ++ [newline]) ++ l2) = linesFrom acc (l1 ++ [newline]) ++ linesFrom [] l2.
Proof. induction l1 as [|c l1 IH]; intros acc; simpl; [done|]. case_bool_decide; by rewrite IH. Qed.

Lemma linesFrom_open l : Forall (fun c => c <> newline) l -> forall acc, linesFrom acc l = [].
Proof. induction 1 as [|c l Hc _ IH]; intros acc; simpl; [done|]. by rewrite bool_decide_eq_false_2. Qed.

Lemma linesFrom_line l : Forall (fun c => c <> newline) l -> forall acc,
  linesFrom acc (l ++ [newline]) = [reverse acc ++ l].
Proof.
  induction 1 as [|c l Hc _ IH]; intros acc; simpl; [by rewrite app_nil_r|].
  rewrite bool_decide_eq_false_2 by done. by rewrite IH, reverse_cons, <- app_assoc.
Qed.

Lemma readLines_app l1 l2 : complete l1 -> readLines (l1 ++ l2) = readLines l1 ++ readLines l2.
Proof.
  intros [-> |[l ->]]; [done|]. unfold readLines, splitLines. by rewrite linesFrom_app, omap_app.
Qed.

Lemma readLines_line l : Forall (fun c => c <> newline) l -> readLines (l ++ [newline]) = option_list (parse l).
Proof. intros H. unfold readLines, splitLines. rewrite linesFrom_line by done. simpl. by destruct (parse l). Qed.

Lemma readLines_open l : Forall (fun c => c <> newline) l -> readLines l = [].
Proof. intros H. unfold readLines, splitLines. by rewrite linesFrom_open. Qed.

Lemma complete_line l1 l2 : complete (l1 ++ l2 ++ [newline]).
Proof. right. exists (l1 ++ l2). by rewrite app_assoc. Qed.

(** Written text has no control characters. *)
Definition printing (l : text) : Prop := Forall (fun c => (32 <= code c)%N) l.

Lemma printing_line l : printing l -> Forall (fun c => c <> newline) l.
Proof. intros H. eapply Forall_impl; [done|]. intros c Hc ->. by vm_compute in Hc. Qed.

Lemma escape_printing html n : forall l, (length l <= n)%nat -> printing (escapeFrom html 0 l).
Proof.
  induction n as [|n IH]; intros [|c l] Hn; [constructor|simpl in Hn; lia|constructor|]. cbn [escapeFrom].
  destruct (escapeStep html c l) as [out k] eqn:He. apply Forall_app; split.
  2:{ rewrite escapeFrom_drop. apply IH. rewrite length_drop. simpl in Hn. lia. }
  unfold escapeStep in He. destruct (N.ltb_spec (code c) 128) as [Hc|Hc].
  { simplify_eq. apply Forall_forall. intros x Hx. apply N.leb_le. revert x Hx. apply Forall_forall.
    clear IH Hn. destruct html; destruct c as [[] [] [] [] [] [] [] []]; repeat constructor. }
  destruct (decodeRune (c :: l)) as [r k'] eqn:Hd.
  destruct (decodeRune_prefix c l r k' Hc Hd) as [[-> ->]|(Hn' & Hh & _)]; simplify_eq/=; [by repeat constructor|].
  rewrite (proj2 (Nat.eqb_neq k' 1)), andb_false_r in He by lia.
  destruct ((r =? 8232)%N || (r =? 8233)%N) eqn:Hr; simplify_eq.
  - apply orb_true_iff in Hr as [->%N.eqb_eq| ->%N.eqb_eq]; by repeat constructor.
  - eapply Forall_impl; [done|]. unfold highByte. intros; lia.
Qed.

(** [printed l r]: what was read of [l] before [r] is printing. *)
Definition printed (l r : text) : Prop := exists p, l = p ++ r /\ printing p.

Lemma printed_refl l : printed l l.
Proof. exists []. split; [done|constructor]. Qed.

Lemma printed_cons c l r : (32 <= code c)%N -> printed l r -> printed (c :: l) r.
Proof. intros Hc (p & -> & Hp). exists (c :: p). split; [done|by constructor]. Qed.

Lemma printed_trans l1 l2 l3 : printed l1 l2 -> printed l2 l3 -> printed l1 l3.
Proof. intros (p & -> & Hp) (q & -> & Hq). exists (p ++ q). rewrite <- app_assoc. split; [done|by apply Forall_app]. Qed.

Lemma digits_printed l : printed l (skipDigits l).
Proof.
  induction l as [|c l IH]; [apply printed_refl|]. simpl. destruct (isDigit c) eqn:Hc; [|apply printed_refl].
  apply printed_cons; [|done]. unfold isDigit, between in Hc. apply andb_true_iff in Hc as [?%N.leb_le _]. lia.
Qed.

Lemma digits1_printed l r : digits1 l = Some r -> printed l r.
Proof.
  intros H. pose proof (digits_printed l) as Hp. destruct l as [|c l]; [done|]. simpl in *.
  destruct (isDigit c); by simplify_eq.
Qed.

Lemma scanNumber_printed l r : scanNumber l = Some r -> printed l r.
Proof.
  unfold scanNumber. intros (l1 & H1 & (l2 & H2 & H3)%bind_Some)%bind_Some.
  eapply (printed_trans _ (unsign l)); [|eapply (printed_trans _ l1); [|eapply (printed_trans _ l2)]].
  - destruct l as [|c l]; [apply printed_refl|]. simpl. destruct (N.eqb_spec (code c) 45); [|apply printed_refl].
    apply printed_cons; [lia|apply printed_refl].
  - destruct (unsign l) as [|c l']; [done|]. simpl in H1. destruct (N.eqb_spec (code c) 48); [|by apply digits1_printed].
    simplify_eq. apply printed_cons; [lia|apply printed_refl].
  - destruct l1 as [|c l1]; simplify_eq/=; [apply printed_refl|]. destruct (N.eqb_spec (code c) 46); simplify_eq; [|apply printed_refl].
    apply printed_cons; [lia|by apply digits1_printed].
  - destruct l2 as [|c l2]; simplify_eq/=; [apply printed_refl|].
    destruct ((code c =? 101)%N || (code c =? 69)%N) eqn:Hc; simplify_eq; [|apply printed_refl].
    apply printed_cons; [apply orb_true_iff in Hc as [?%N.eqb_eq|?%N.eqb_eq]; lia|].
    destruct l2 as [|x l2]; [done|]. destruct ((code x =? 43)%N || (code x =? 45)%N) eqn:Hx; [|by apply digits1_printed].
    apply printed_cons; [apply orb_true_iff in Hx as [?%N.eqb_eq|?%N.eqb_eq]; lia|by apply digits1_printed].
Qed.

Lemma commaSep_printing ts : Forall printing ts -> printing (commaSep ts).
Proof.
  induction 1 as [|t ts Ht Hts IH]; [constructor|]. rewrite commaSep_cons. apply Forall_app. split; [done|].
  destruct ts; [constructor|]. by constructor.
Qed.

Lemma writeString_printing html l : printing (writeString html l).
Proof. constructor; [done|]. apply Forall_app. split; [by eapply escape_printing|by repeat constructor]. Qed.

Lemma writeValue_printing html v : forall d, writable d v = true -> printing (writeValue html v).
Proof.
  induction v as [|b|n|s|vs IH|kvs IH] using jval_nested; intros d Hw.
  - by repeat constructor.
  - by destruct b; repeat constructor.
  - simpl in Hw. apply bool_decide_eq_true, scanNumber_printed in Hw as (p & -> & Hp).
    unfold writeValue. by rewrite app_nil_r.
  - apply writeString_printing.
  - simpl in Hw. apply andb_true_iff in Hw as [_ Hw]. constructor; [done|]. fold (writeValue html).
    apply Forall_app. split; [|by repeat constructor]. apply commaSep_printing, Forall_fmap.
    rewrite forallb_forall in Hw. rewrite Forall_forall in *. intros v Hv.
    eapply (IH v); [done|]. by apply Hw, list_elem_of_In.
  - simpl in Hw. apply andb_true_iff in Hw as [_ Hw]. rewrite forallb_pair in Hw. constructor; [done|]. fold (writeValue html).
    apply Forall_app. split; [|by repeat constructor]. apply commaSep_printing, Forall_fmap.
    rewrite forallb_forall in Hw. rewrite Forall_forall in *. intros [k v] Hv.
    change (printing (writeString html k ++ ":"%char :: writeValue html v)). apply Forall_app. split; [apply writeString_printing|]. constructor; [done|].
    eapply (IH (k, v)); [done|]. apply list_elem_of_In in Hv. by apply Hw in Hv.
Qed.

End JsonWrite.
