(* ===== verification/GoDecimal.v ===== *)
(** * Decimal text of integers

    What [fmt] and [strconv] write for integers, as digits: their shape, and
    that reading them gives the integer back. *)

From stdpp Require Import pretty.
From Stdlib Require Import Ascii.
From S2P Require Import Prelude GoLib Json.
Import GoLib Json.

Module GoDecimal.

Definition digitValue (c : ascii) : Z := Z.of_N (code c) - 48.

(** The number a string of digits denotes, after the digits already read. *)
Definition readFrom (acc : Z) (l : text) : Z := foldl (fun acc c => acc * 10 + digitValue c) acc l.
Definition readDigits : text -> Z := readFrom 0.

Definition digits (l : text) : Prop := Forall (fun c => isDigit c = true) l.

Lemma readFrom_app acc l1 l2 : readFrom acc (l1 ++ l2) = readFrom (readFrom acc l1) l2.
Proof. apply foldl_app. Qed.

Lemma readFrom_shift acc l : readFrom acc l = acc * 10 ^ Z.of_nat (length l) + readDigits l.
Proof.
  unfold readDigits. revert acc. induction l as [|c l IH]; intros acc; [simpl; lia|].
  cbn [readFrom foldl length]. fold (readFrom (acc * 10 + digitValue c) l). fold (readFrom (0 * 10 + digitValue c) l).
  rewrite IH, (IH (0 * 10 + digitValue c)), Nat2Z.inj_succ, Z.pow_succ_r by lia. lia.
Qed.

Lemma readDigits_app l1 l2 : readDigits (l1 ++ l2) = readDigits l1 * 10 ^ Z.of_nat (length l2) + readDigits l2.
Proof. unfold readDigits at 1. rewrite readFrom_app. apply readFrom_shift. Qed.

Lemma digit_char x : (x < 10)%N -> isDigit (pretty_N_char x) = true /\ digitValue (pretty_N_char x) = Z.of_N x.
Proof.
  intros H. assert (x = 0 \/ x = 1 \/ x = 2 \/ x = 3 \/ x = 4 \/ x = 5 \/ x = 6 \/ x = 7 \/ x = 8 \/ x = 9)%N
    as Hx by lia.
  by destruct Hx as [->|[->|[->|[->|[->|[->|[->|[->|[->| ->]]]]]]]]].
Qed.

(** Digits without a leading zero. *)
Definition decimal (l : text) : Prop :=
  digits l /\ match l with [] => False | [_] => True | c :: _ => (code c =? 48)%N = false end.

Lemma pretty_go_digits (x : N) : forall s, (0 < x)%N -> exists c l,
  chars (pretty_N_go x s) = (c :: l) ++ chars s /\ digits (c :: l) /\ (code c =? 48)%N = false /\
  readDigits (c :: l) = Z.of_N x.
Proof.
  induction (N.lt_wf_0 x) as [x _ IH]; intros s Hp. rewrite pretty_N_go_step by done.
  destruct (digit_char (x mod 10) ltac:(apply N.mod_lt; lia)) as [Hd Hv].
  destruct (N.eq_0_gt_0_cases (x / 10)) as [Hz|Hq].
  - rewrite Hz, pretty_N_go_0. exists (pretty_N_char (x mod 10)), []. pose proof (N.Div0.div_mod x 10) as Hx.
    rewrite Hz in Hx. split_and!; [done|by repeat constructor| |].
    + apply N.eqb_neq. unfold digitValue in Hv. lia.
    + unfold readDigits, readFrom. cbn [foldl]. rewrite Hv. lia.
  - destruct (IH (x / 10)%N ltac:(apply N.div_lt; lia) (String (pretty_N_char (x mod 10)) s) Hq)
      as (c & l & E & Hds & Hc & Hr).
    exists c, (l ++ [pretty_N_char (x mod 10)]). split_and!; [| |done|].
    + rewrite E. unfold chars. simpl. by rewrite <- app_assoc.
    + change (digits ((c :: l) ++ [pretty_N_char (x mod 10)])). apply Forall_app. split; [done|by repeat constructor].
    + change (readDigits ((c :: l) ++ [pretty_N_char (x mod 10)]) = Z.of_N x).
      rewrite readDigits_app, Hr. cbn [length]. unfold readDigits, readFrom. cbn [foldl].
      rewrite Hv, N2Z.inj_div, N2Z.inj_mod. pose proof (Z.div_mod (Z.of_N x) 10). lia.
Qed.

(** [%d] of a non-negative integer. *)
Lemma fmt_d_decimal n : 0 <= n -> decimal (chars (fmt_d n)) /\ readDigits (chars (fmt_d n)) = n.
Proof.
  intros Hn. unfold fmt_d. rewrite (proj2 (Z.ltb_ge _ _)) by lia. unfold pretty, pretty_N.
  case_decide as Hz.
  - assert (n = 0) as -> by lia. split; [|done]. split; [by repeat constructor|done].
  - destruct (pretty_go_digits (Z.to_N n) EmptyString ltac:(lia)) as (c & l & E & Hd & Hc & Hr).
    unfold chars in E at 2. simpl in E. rewrite app_nil_r in E. rewrite E, Hr. split; [|lia].
    split; [done|]. by destruct l.
Qed.

Lemma chars_append s t : chars (String.append s t) = chars s ++ chars t.
Proof. unfold chars. induction s as [|c s IH]; simpl; [done|]. by rewrite IH. Qed.

Lemma chars_length s : length (chars s) = String.length s.
Proof. unfold chars. induction s as [|c s IH]; simpl; [done|]. by rewrite IH. Qed.

Lemma readDigits_zeros k l : readDigits (replicate k "0"%char ++ l) = readDigits l.
Proof.
  rewrite readDigits_app. assert (readDigits (replicate k "0"%char) = 0) as ->; [|lia].
  induction k as [|k IH]; [done|]. simpl replicate. change ("0"%char :: ?l) with (["0"%char] ++ l).
  rewrite readDigits_app, IH. change (readDigits ["0"%char]) with 0. lia.
Qed.

Lemma readFrom_nonneg l : digits l -> forall acc, 0 <= acc -> 0 <= readFrom acc l.
Proof.
  induction 1 as [|c l Hc _ IH]; intros acc Ha; [done|]. apply IH.
  unfold isDigit, between, digitValue in *. apply andb_true_iff in Hc as [?%N.leb_le _]. lia.
Qed.

Lemma decimal_length_lower l : decimal l -> (1 < length l)%nat -> 10 ^ (Z.of_nat (length l) - 1) <= readDigits l.
Proof.
  intros [Hd Hc] Hl. destruct l as [|c [|c' l]]; simpl in *; try lia.
  change (c :: c' :: l) with ([c] ++ c' :: l). rewrite readDigits_app.
  assert (0 <= readDigits (c' :: l)) as Hnn by (apply readFrom_nonneg; [by inversion Hd|lia]).
  inversion Hd as [|? ? Hx _ E]; subst. unfold isDigit, between in Hx. apply andb_true_iff in Hx as [H1%N.leb_le _].
  apply N.eqb_neq in Hc. assert (1 <= readDigits [c]) by (unfold readDigits, readFrom, digitValue; simpl; lia).
  cbn [length]. replace (Z.of_nat (S (S (length l))) - 1) with (Z.of_nat (S (length l))) by lia.
  assert (0 < 10 ^ Z.of_nat (S (length l))) by (apply Z.pow_pos_nonneg; lia). nia.
Qed.

(** [%0wd] of an integer below [10 ^ w]. *)
Lemma digit_value c : isDigit c = true -> 0 <= digitValue c < 10 /\ (code c =? 95)%N = false.
Proof.
  unfold isDigit, between, digitValue. intros [H1%N.leb_le H2%N.leb_le]%andb_true_iff. split; [lia|].
  apply N.eqb_neq. lia.
Qed.

Lemma readDigits_cons c l : readDigits (c :: l) = digitValue c * 10 ^ Z.of_nat (length l) + readDigits l.
Proof. change (c :: l) with ([c] ++ l). by rewrite readDigits_app. Qed.

Lemma readDigits_bound l : digits l -> 0 <= readDigits l < 10 ^ Z.of_nat (length l).
Proof.
  induction 1 as [|c l Hc _ IH]; [done|]. apply digit_value in Hc as [Hc _]. rewrite readDigits_cons.
  cbn [length]. rewrite Nat2Z.inj_succ, Z.pow_succ_r by lia. nia.
Qed.

(** Equal numbers of equally many digits are written alike. *)
Lemma digits_inj l1 : digits l1 -> forall l2, digits l2 -> length l1 = length l2 -> readDigits l1 = readDigits l2 -> l1 = l2.
Proof.
  induction 1 as [|c1 l1 Hc1 H1 IH]; intros [|c2 l2] H2 Hl E; [done|done|done|].
  apply Forall_cons in H2 as [Hc2 H2]. cbn in Hl. injection Hl as Hl. rewrite !readDigits_cons, Hl in E.
  pose proof (readDigits_bound _ H1) as B1. pose proof (readDigits_bound _ H2) as B2. rewrite Hl in B1.
  destruct (digit_value _ Hc1) as [V1 _], (digit_value _ Hc2) as [V2 _].
  assert (digitValue c1 = digitValue c2) as Ev.
  { apply (Z.div_mod_unique (10 ^ Z.of_nat (length l2)) _ _ (readDigits l1) (readDigits l2)); lia. }
  assert (code c1 = code c2) as Ec by (unfold digitValue in Ev; lia).
  f_equal; [|by apply IH; [..|lia]]. unfold code in Ec. rewrite <- (ascii_N_embedding c1), Ec. apply ascii_N_embedding.
Qed.

(** Decimal numerals are unique. *)
Lemma decimal_inj l1 l2 : decimal l1 -> decimal l2 -> readDigits l1 = readDigits l2 -> l1 = l2.
Proof.
  assert (forall l l', decimal l -> decimal l' -> readDigits l = readDigits l' -> (length l' <= length l)%nat) as Hle.
  { intros l l' Hl Hl' E. destruct (Nat.le_gt_cases (length l') (length l)) as [|Hg]; [done|].
    assert (0 < length l)%nat by (destruct Hl, l; [done|cbn; lia]).
    pose proof (decimal_length_lower _ Hl' ltac:(lia)). pose proof (readDigits_bound _ (proj1 Hl)).
    assert (10 ^ Z.of_nat (length l) <= 10 ^ (Z.of_nat (length l') - 1)) by (apply Z.pow_le_mono_r; lia). lia. }
  intros H1 H2 E. apply digits_inj; [apply H1|apply H2| |done]. apply Nat.le_antisymm; by apply Hle.
Qed.

Lemma fmt_0d_digits w n : 0 <= n < 10 ^ Z.of_nat w -> (0 < w)%nat ->
  digits (chars (fmt_0d w n)) /\ length (chars (fmt_0d w n)) = w /\ readDigits (chars (fmt_0d w n)) = n.
Proof.
  intros Hn Hw. destruct (fmt_d_decimal n) as [Hd Hr]; [lia|]. unfold fmt_0d, pad_zero.
  rewrite chars_append. unfold chars at 1 3 5. rewrite !String.list_ascii_of_string_of_list_ascii.
  rewrite readDigits_zeros, length_app, length_replicate, chars_length.
  assert (String.length (fmt_d n) <= w)%nat.
  { rewrite <- chars_length. destruct (Nat.le_gt_cases (length (chars (fmt_d n))) w) as [|Hg]; [done|].
    pose proof (decimal_length_lower _ Hd ltac:(lia)) as Hl. rewrite Hr in Hl.
    assert (10 ^ Z.of_nat w <= 10 ^ (Z.of_nat (length (chars (fmt_d n))) - 1)) by (apply Z.pow_le_mono_r; lia). lia. }
  split_and!; [|lia|done]. apply Forall_app. split; [|apply Hd].
  clear. induction (w - String.length (fmt_d n))%nat; by constructor.
Qed.

(** ** Literals *)

Lemma skipDigits_stop l e : digits l -> match e with [] => True | c :: _ => isDigit c = false end -> skipDigits (l ++ e) = e.
Proof.
  induction 1 as [|c l Hc _ IH]; intros He; simpl; [|rewrite Hc; auto]. destruct e as [|c e]; [done|]. simpl. by rewrite He.
Qed.

Lemma scanInt_decimal l e : decimal l -> match e with [] => True | c :: _ => isDigit c = false end -> scanInt (l ++ e) = Some e.
Proof.
  intros [Hd Hl] He. destruct l as [|c l]; [done|]. simpl. inversion Hd; subst. destruct (code c =? 48)%N eqn:Hc.
  - by destruct l.
  - rewrite H1. f_equal. by apply skipDigits_stop.
Qed.

Lemma unsign_decimal l e : decimal l -> unsign (l ++ e) = l ++ e.
Proof.
  intros [Hd Hl]. destruct l as [|c l]; [done|]. simpl. inversion Hd as [|? ? Hc]; subst.
  assert ((code c =? 45)%N = false) as ->; [|done]. clear -Hc. revert Hc. all_bytes c.
Qed.

Lemma digits1_digits l : digits l -> l <> [] -> digits1 l = Some [].
Proof.
  intros Hd Hl. destruct l as [|c l]; [done|]. simpl. inversion Hd; subst. rewrite H1. f_equal.
  rewrite <- (app_nil_r l). by apply skipDigits_stop.
Qed.

(** The numeral of [a * 1000 + b] is that of [a] and three digits. *)
Lemma fmt_d_thousands (a b : Z) : 0 < a -> 0 <= b < 1000 ->
  fmt_d (a * 1000 + b) = String.append (fmt_d a) (fmt_0d 3 b).
Proof.
  intros Ha Hb. destruct (fmt_d_decimal a) as [[Hd Hs] Hr]; [lia|].
  destruct (fmt_0d_digits 3 b) as (Hd3 & Hl3 & Hr3); [done|lia|].
  destruct (fmt_d_decimal (a * 1000 + b)) as [Hd' Hr']; [lia|].
  assert (chars (fmt_d (a * 1000 + b)) = chars (fmt_d a) ++ chars (fmt_0d 3 b)) as E.
  { apply decimal_inj; [done| |rewrite Hr', readDigits_app, Hr, Hl3, Hr3; lia].
    split; [by apply Forall_app|]. destruct (chars (fmt_d a)) as [|c [|c' l]]; [done| |done].
    destruct (chars (fmt_0d 3 b)); [done|]. cbn. apply N.eqb_neq. intros Hc.
    unfold readDigits, readFrom in Hr. cbn in Hr. unfold digitValue in Hr. lia. }
  rewrite <- chars_append in E. apply (f_equal String.string_of_list_ascii) in E.
  unfold chars in E. by rewrite !String.string_of_list_ascii_of_string in E.
Qed.

End GoDecimal.
