(* ===== verification/FloatText.v ===== *)
(** * The text of a float64 in JSON

    [encoding/json] writes a float64 with the fewest digits that read back as
    the same number ([strconv.AppendFloat] with precision -1).  The digits are
    found as in [strconv.roundShortest]: at each decimal position, from the
    left, the number is cut and the first position is taken where the cut
    number, or the next one up, still rounds to the float. *)

From Stdlib Require Import Ascii SpecFloat.
From S2P Require Import Prelude GoFloat GoLib Json JsonWrite GoDecimal.
Import GoFloat GoLib Json JsonWrite GoDecimal.

Module FloatText.

(** ** The shortest digits *)

(** For the float [m * 2 ^ e]: a quarter of its last place, [2 ^ (e - 2)], in
    units of [10 ^ p], as a fraction. *)
Definition unitNum (e p : Z) : Z := 2 ^ Z.max 0 (e - 2) * 10 ^ Z.max 0 (- p).
Definition unitDen (e p : Z) : Z := 2 ^ Z.max 0 (2 - e) * 10 ^ Z.max 0 p.

(** The bounds of what rounds to the float, in quarters of its last place:
    below a power of two the floats are twice as dense. *)
Definition lowerQ (m e : Z) : Z := if (m =? 2 ^ 52) && (-1074 <? e) then 4 * m - 1 else 4 * m - 2.
Definition upperQ (m : Z) : Z := 4 * m + 2.

(** [c * 10 ^ p] rounds to the float: the bounds count when [m] is even. *)
Definition inside (m e p c : Z) : bool :=
  let lo := lowerQ m e * unitNum e p in
  let hi := upperQ m * unitNum e p in
  let x := c * unitDen e p in
  if Z.even m then (lo <=? x) && (x <=? hi) else (lo <? x) && (x <? hi).

(** Rounding at a position: down or up, to the nearer when both are possible. *)
Definition roundAt (m e p : Z) : option Z :=
  let num := 4 * m * unitNum e p in
  let den := unitDen e p in
  let c := num / den in
  match inside m e p c, inside m e p (c + 1) with
  | true, true => Some (divRoundEven num den)
  | true, false => Some c
  | false, true => Some (c + 1)
  | false, false => None
  end.

Fixpoint shortestFrom (fuel : nat) (m e p : Z) : option (Z * Z) :=
  match fuel with
  | O => None
  | S f => match roundAt m e p with Some c => Some (c, p) | None => shortestFrom f m e (p - 1) end
  end.

(** A position left of the first digit, and one at which the float is whole. *)
Definition firstPos (e : Z) : Z := Z.max 0 (e + 55).
Definition lastPos (e : Z) : Z := Z.min 0 (e - 2).

(** The digits [c] and the position [p] of the last one. *)
Definition shortest (m e : Z) : Z * Z :=
  default (0, 0) (shortestFrom (S (Z.to_nat (firstPos e - lastPos e))) m e (firstPos e)).

(** ** The text *)

(** Format 'f'. *)
Definition fixedText (c p : Z) : text :=
  if 0 <=? p then chars (fmt_d (c * 10 ^ p))
  else chars (fmt_d (c / 10 ^ (- p))) ++ "."%char :: chars (fmt_0d (Z.to_nat (- p)) (c mod 10 ^ (- p))).

(** Format 'e', with the leading zero of the exponent removed. *)
Definition expText (c p : Z) : text :=
  match chars (fmt_d c) with
  | [] => []
  | d :: ds =>
      let x := Z.of_nat (length ds) + p in
      d :: match ds with [] => [] | _ => "."%char :: ds end ++
      "e"%char :: (if x <? 0 then "-"%char else "+"%char) :: chars (fmt_d (Z.abs x))
  end.

Definition signText (s : bool) : text := if s then ["-"%char] else [].

Definition f64_abs_small (m : positive) (e : Z) : bool :=
  f64_ltb (S754_finite false m e) (f64_div (f64_of_Z 1) (f64_of_Z 1000000)) ||
  negb (f64_ltb (S754_finite false m e) (f64_of_Z (10 ^ 21))).

(** [floatEncoder]: infinities and NaN are errors. *)
Definition floatText (f : float64) : option text :=
  match f with
  | S754_zero s => Some (chars (if s then "-0" else "0"))
  | S754_infinity _ | S754_nan => None
  | S754_finite s m e =>
      let '(c, p) := shortest (Zpos m) e in
      Some (signText s ++ (if f64_abs_small m e then expText c p else fixedText c p))
  end.

(** The decimal texts of some floats. *)
Example floatText_values :
  (fun f => String.string_of_list_ascii <$> floatText f) <$>
    [f64_div (f64_of_Z 1) (f64_of_Z 3); f64_div (f64_of_Z 1) (f64_of_Z 10); f64_of_Z (-25);
     f64_div (f64_of_Z 1) (f64_of_Z (10 ^ 7)); f64_of_Z (10 ^ 21); f64_div (f64_of_Z 12345) (f64_of_Z 1000);
     f64_of_Z (2 ^ 60); f64_of_Z (2 ^ 70); f64_of_Z 0]
  = Some <$> ["0.3333333333333333"; "0.1"; "-25"; "1e-7"; "1e+21"; "12.345"; "1152921504606847000"; "1.1805916207174113e+21"; "0"]%string.
Proof. vm_compute. reflexivity. Qed.

(** ** What is found rounds to the float *)

Lemma unitNum_pos e p : 0 < unitNum e p.
Proof. unfold unitNum. apply Z.mul_pos_pos; apply Z.pow_pos_nonneg; lia. Qed.

Lemma unitDen_pos e p : 0 < unitDen e p.
Proof. unfold unitDen. apply Z.mul_pos_pos; apply Z.pow_pos_nonneg; lia. Qed.

(** [inside] as bounds: lower and upper, strict for an odd [m]. *)
Definition within (m e p x : Z) : Prop :=
  let strict := if Z.even m then 0 else 1 in
  lowerQ m e * unitNum e p + strict <= x <= upperQ m * unitNum e p - strict.

Lemma inside_within m e p c : inside m e p c = true <-> within m e p (c * unitDen e p).
Proof. unfold inside, within. destruct (Z.even m); lia. Qed.

Lemma inside_between m e p x k : 4 * m * unitNum e p = x -> within m e p k ->
  (forall y, k <= y <= x -> within m e p y) /\ (forall y, x <= y <= k -> within m e p y).
Proof.
  pose proof (unitNum_pos e p). unfold within, lowerQ, upperQ. intros <- Hk.
  split; intros y Hy; destruct (Z.even m), ((m =? 2 ^ 52) && (-1074 <? e)); nia.
Qed.

Lemma roundAt_inside m e p c : roundAt m e p = Some c -> inside m e p c = true.
Proof.
  unfold roundAt. destruct (inside m e p _) eqn:H1, (inside m e p (_ + 1)) eqn:H2; intros; simplify_eq; try done.
  unfold divRoundEven. by case_match.
Qed.

(** Where no rounding is possible no multiple of the unit rounds to the float. *)
Lemma roundAt_None m e p k : roundAt m e p = None -> inside m e p k = false.
Proof.
  unfold roundAt. destruct (inside m e p _) eqn:H1, (inside m e p (_ + 1)) eqn:H2; intros; simplify_eq.
  apply not_true_is_false. intros Hk%inside_within. apply not_true_iff_false in H1, H2.
  rewrite inside_within in H1, H2. pose proof (unitDen_pos e p).
  pose proof (Z.mul_div_le (4 * m * unitNum e p) (unitDen e p)).
  pose proof (Z.mul_succ_div_gt (4 * m * unitNum e p) (unitDen e p)).
  destruct (inside_between m e p _ _ eq_refl Hk) as [Hl Hu]. set (c := _ / _) in *.
  destruct (Z.le_gt_cases k c); [apply H1, Hl|apply H2, Hu]; nia.
Qed.

Lemma shortestFrom_spec f m e : forall p c q, shortestFrom f m e p = Some (c, q) ->
  q <= p /\ inside m e q c = true /\ forall p' k, q < p' <= p -> inside m e p' k = false.
Proof.
  induction f as [|f IH]; intros p c q; simpl; [done|].
  destruct (roundAt m e p) as [c'|] eqn:Hr; intros E; simplify_eq.
  - split_and!; [lia|by apply roundAt_inside|lia].
  - destruct (IH _ _ _ E) as (Hq & Hc & Hn). split_and!; [lia|done|].
    intros p' k Hp. destruct (decide (p' = p)) as [->|]; [by apply roundAt_None|]. apply Hn. lia.
Qed.

(** At the last position the float is a whole number of units. *)
Lemma roundAt_last m e p : p <= lastPos e -> roundAt m e p <> None.
Proof.
  unfold lastPos. intros Hp. assert (exists k, unitNum e p = k * unitDen e p) as [k Hk].
  { unfold unitNum, unitDen. rewrite (Z.max_l 0 p), Z.mul_1_r by lia.
    exists (2 ^ Z.max 0 (e - 2) * (5 ^ (- p) * 2 ^ (- p - Z.max 0 (2 - e)))).
    rewrite (Z.max_r 0 (- p)) by lia. change 10 with (5 * 2). rewrite Z.pow_mul_l, <- !Z.mul_assoc, <- Z.pow_add_r by lia.
    do 4 f_equal. lia. }
  assert (inside m e p (4 * m * unitNum e p / unitDen e p) = true) as Hi; [|unfold roundAt; rewrite Hi; by case_match].
  pose proof (unitDen_pos e p) as Hd. pose proof (unitNum_pos e p). rewrite Hk, Z.mul_assoc, Z.div_mul by lia.
  apply inside_within. unfold within, lowerQ, upperQ. rewrite Hk in *.
  destruct (Z.even m), ((m =? 2 ^ 52) && (-1074 <? e)); nia.
Qed.

Lemma shortestFrom_total f m e : forall p, p - Z.of_nat f < lastPos e -> shortestFrom f m e p <> None \/ (f = 0)%nat.
Proof.
  induction f as [|f IH]; intros p Hp; [by right|left]. simpl. destruct (roundAt m e p) as [c|] eqn:Hr; [done|].
  destruct (IH (p - 1)) as [H| ->]; [lia|done|]. exfalso. apply (roundAt_last m e p); [lia|done].
Qed.

(** The digits found round to the float, and no shorter ones do. *)
Lemma shortest_spec m e c p : shortest m e = (c, p) ->
  p <= firstPos e /\ inside m e p c = true /\ forall p' k, p < p' <= firstPos e -> inside m e p' k = false.
Proof.
  unfold shortest. destruct (shortestFrom _ m e (firstPos e)) as [[c' p']|] eqn:E; simpl; intros; simplify_eq.
  - by eapply shortestFrom_spec.
  - destruct (shortestFrom_total (S (Z.to_nat (firstPos e - lastPos e))) m e (firstPos e)); [unfold firstPos, lastPos; lia|done|done].
Qed.

Lemma shortest_pos m e c p : shortest (Zpos m) e = (c, p) -> 0 < c.
Proof.
  intros (_ & Hi%inside_within & _)%shortest_spec. pose proof (unitNum_pos e p). pose proof (unitDen_pos e p).
  unfold within, lowerQ in Hi. destruct (Z.even (Zpos m)), ((Zpos m =? 2 ^ 52) && (-1074 <? e)); nia.
Qed.

(** ** The text is a number literal *)

Lemma unsign_sign s l e : decimal l -> unsign (signText s ++ l ++ e) = l ++ e.
Proof. destruct s; [done|exact (unsign_decimal l e)]. Qed.

Lemma literal_int s l : decimal l -> scanNumber (signText s ++ l) = Some [].
Proof.
  intros Hl. rewrite <- (app_nil_r l). unfold scanNumber. rewrite unsign_sign by done. by rewrite scanInt_decimal.
Qed.

Lemma literal_frac s l fr e : decimal l -> digits fr -> fr <> [] -> scanExp e = Some [] ->
  match e with [] => True | c :: _ => isDigit c = false end ->
  scanNumber (signText s ++ l ++ "."%char :: fr ++ e) = Some [].
Proof.
  intros Hl Hd Hf He Hc. unfold scanNumber. rewrite unsign_sign, scanInt_decimal by done. cbn [mbind option_bind].
  assert (scanFrac ("."%char :: fr ++ e) = Some e) as ->; [|done]. simpl.
  destruct fr as [|c fr]; [done|]. inversion Hd; subst. simpl. rewrite H1. f_equal. by apply skipDigits_stop.
Qed.

(** The fraction of format 'f'. *)
Lemma fixedText_frac c p : 0 <= c -> p < 0 ->
  digits (chars (fmt_0d (Z.to_nat (- p)) (c mod 10 ^ (- p)))) /\
  length (chars (fmt_0d (Z.to_nat (- p)) (c mod 10 ^ (- p)))) = Z.to_nat (- p) /\
  readDigits (chars (fmt_0d (Z.to_nat (- p)) (c mod 10 ^ (- p)))) = c mod 10 ^ (- p).
Proof.
  intros Hc Hp. apply fmt_0d_digits; [|lia]. rewrite Z2Nat.id by lia. apply Z.mod_pos_bound, Z.pow_pos_nonneg; lia.
Qed.

Lemma fixedText_number s c p : 0 <= c -> scanNumber (signText s ++ fixedText c p) = Some [].
Proof.
  intros Hc. unfold fixedText. destruct (Z.leb_spec 0 p).
  - apply literal_int, fmt_d_decimal. assert (0 < 10 ^ p) by (apply Z.pow_pos_nonneg; lia). nia.
  - destruct (fixedText_frac c p) as (Hd & Hl & _); [done..|].
    rewrite <- (app_nil_r (chars (fmt_0d _ _))). apply literal_frac; try done.
    + apply fmt_d_decimal. apply Z.div_pos; [done|]. apply Z.pow_pos_nonneg; lia.
    + intros Hn. rewrite Hn in Hl. simpl in Hl. lia.
Qed.

Lemma expText_number s c p : 0 <= c -> scanNumber (signText s ++ expText c p) = Some [].
Proof.
  intros Hc. unfold expText. destruct (fmt_d_decimal c Hc) as [[Hd Hz] _].
  destruct (chars (fmt_d c)) as [|d ds]; [done|]. inversion Hd as [|? ? Hd1 Hds]; subst.
  set (x := Z.of_nat (length ds) + p).
  assert (scanExp ("e"%char :: (if x <? 0 then "-"%char else "+"%char) :: chars (fmt_d (Z.abs x))) = Some []) as He.
  { destruct (fmt_d_decimal (Z.abs x)) as [[Hx Hn] _]; [lia|]. destruct (x <? 0); simpl; apply digits1_digits; try done;
      by intros E; rewrite E in Hn. }
  assert (decimal [d]) as Hdec by (split; [by repeat constructor|done]).
  destruct ds as [|d' ds].
  - change (d :: [] ++ ?l) with ([d] ++ l). unfold scanNumber. rewrite unsign_sign, scanInt_decimal by done.
    cbn [mbind option_bind]. exact He.
  - by apply (literal_frac s [d] (d' :: ds)).
Qed.

Lemma floatText_number f t : floatText f = Some t -> isNumber t = true.
Proof.
  intros H. apply bool_decide_eq_true. destruct f as [[]| | |s m e]; unfold floatText in H; simplify_eq; [done..|].
  destruct (shortest (Zpos m) e) as [c p] eqn:Hs. pose proof (shortest_pos _ _ _ _ Hs).
  destruct (f64_abs_small m e); simplify_eq; [apply expText_number|apply fixedText_number]; lia.
Qed.

End FloatText.
