(* ===== verification/FloatExact.v ===== *)
(** * Durations in milliseconds come back exactly

    A duration of fewer than 2^52 ns, converted to a float64 in milliseconds
    by a division and written as JSON, is read back to the nanosecond: the
    quotient is the float nearest to the exact one, and no other multiple of a
    nanosecond rounds to it. *)

From Stdlib Require Import Ascii SpecFloat.
From S2P Require Import Prelude GoFloat GoLib Json JsonWrite GoDecimal FloatText.
Import GoFloat GoLib Json JsonWrite GoDecimal FloatText.

Module FloatExact.

(** ** Rounding a quotient *)

(** The place of [r / M] between 0 and 1. *)
Definition located (M r : Z) : location :=
  if r =? 0 then loc_Exact else loc_Inexact (2 * r ?= M).

Lemma new_location_located M r : Z.even M = true -> new_location M r = located M r.
Proof. intros HM. unfold new_location, new_location_even, located. by rewrite HM. Qed.

(** Rounding to the nearest integer, ties to even. *)
Lemma round_nearest q M r : 0 < M -> 0 <= r < M ->
  let z := round_nearest_even q (located M r) in
  q <= z <= q + 1 /\ - M <= 2 * (q * M + r) - 2 * z * M <= M /\
  (Z.odd z = true -> - M < 2 * (q * M + r) - 2 * z * M < M).
Proof.
  intros HM Hr. unfold located. destruct (Z.eqb_spec r 0) as [->|Hz]; [cbn; split_and!; lia|]. simpl.
  destruct (Z.compare_spec (2 * r) M) as [He|Hl|Hg]; simpl; [|split_and!; lia|split_and!; lia].
  destruct (Z.even q) eqn:Hq.
  - split_and!; try lia. intros Ho. rewrite <- Z.negb_even, Hq in Ho. done.
  - split_and!; try lia. intros Ho. rewrite Z.odd_add, <- Z.negb_even, Hq in Ho. done.
Qed.

(** Dropping the last bit. *)
Lemma shr_1_located q M r : 0 < q -> 0 < M -> 0 <= r < M ->
  shr_m (shr_1 (shr_record_of_loc q (located M r))) = q / 2 /\
  loc_of_shr_record (shr_1 (shr_record_of_loc q (located M r))) = located (2 * M) (r + (q mod 2) * M).
Proof.
  intros Hq HM Hr.
  assert (exists r' s', shr_record_of_loc q (located M r) = Build_shr_record q r' s' /\ r' || s' = negb (r =? 0))
    as (r' & s' & -> & Hs).
  { unfold located. destruct (r =? 0); [by exists false, false|]. destruct (2 * r ?= M); by eexists _, _. }
  unfold shr_1. rewrite Hs. destruct q as [|q|q]; try lia.
  assert (forall b, loc_of_shr_record (Build_shr_record b true (negb (r =? 0))) = located (2 * M) (r + 1 * M)) as Hodd.
  { intros b. unfold located. rewrite (proj2 (Z.eqb_neq (r + 1 * M) 0)) by lia.
    destruct (Z.eqb_spec r 0); simpl; destruct (Z.compare_spec (2 * (r + 1 * M)) (2 * M)); done || lia. }
  assert (forall b, loc_of_shr_record (Build_shr_record b false (negb (r =? 0))) = located (2 * M) (r + 0 * M)) as Heven.
  { intros b. unfold located. replace (r + 0 * M) with r by lia.
    destruct (Z.eqb_spec r 0); simpl; [done|]. destruct (Z.compare_spec (2 * r) (2 * M)); done || lia. }
  destruct q as [q|q|].
  - replace (Zpos q~1 mod 2) with 1 by (rewrite Pos2Z.inj_xI, Z.add_comm, Z.mul_comm, Z_mod_plus_full; done).
    split; [|apply Hodd]. rewrite Pos2Z.inj_xI. cbn [shr_m]. apply (Z.div_unique _ _ _ 1); lia.
  - replace (Zpos q~0 mod 2) with 0 by (rewrite Pos2Z.inj_xO, Z.mul_comm, Z_mod_mult; done).
    split; [|apply Heven]. rewrite Pos2Z.inj_xO. cbn [shr_m]. apply (Z.div_unique _ _ _ 0); lia.
  - split; [done|apply Hodd].
Qed.

Lemma shr_0_located q M r : shr_m (shr_record_of_loc q (located M r)) = q /\
  loc_of_shr_record (shr_record_of_loc q (located M r)) = located M r.
Proof. unfold located. destruct (r =? 0); [done|]. by destruct (2 * r ?= M). Qed.

(** The result of a rounding is normalised. *)
Lemma round_finish s z e : 2 ^ 52 <= z <= 2 ^ 53 -> -1074 <= e < 971 ->
  exists m k, (let '(mrs, e'') := shr_fexp 53 1024 z e loc_Exact in
    match shr_m mrs with
    | Z0 => S754_zero s
    | Zpos m => if Z.leb e'' (1024 - 53) then S754_finite s m e'' else S754_infinity s
    | _ => S754_nan
    end) = S754_finite s m (e + k) /\ 2 ^ 52 <= Zpos m < 2 ^ 53 /\ z = Zpos m * 2 ^ k /\ (k = 0 \/ k = 1).
Proof.
  intros Hz He. destruct z as [|z|z]; try lia. unfold shr_fexp. change (Zdigits2 (Zpos z)) with (Zpos (digits2_pos z)).
  destruct (decide (Zpos z = 2 ^ 53)) as [E|E].
  - assert (z = Pos.iter xO 1 53)%positive as -> by (apply Pos2Z.inj; rewrite iter_xO; lia).
    exists (Pos.iter xO 1 52)%positive, 1. rewrite !iter_xO.
    assert (fexp 53 1024 (Zpos (digits2_pos (Pos.iter xO 1%positive 53)) + e) - e = 1) as ->.
    { change (Zpos (digits2_pos (Pos.iter xO 1%positive 53))) with 54. unfold fexp, emin. lia. }
    split_and!; [|lia|lia|lia|by right]. simpl. by rewrite (proj2 (Z.leb_le _ _)) by lia.
  - assert (Zpos (digits2_pos z) = 53) as -> by (apply digits2_unique; lia).
    assert (fexp 53 1024 (53 + e) - e = 0) as -> by (unfold fexp, emin; lia).
    exists z, 0. split_and!; [|lia|lia|lia|by left]. simpl. rewrite (proj2 (Z.leb_le _ _)) by lia. f_equal. lia.
Qed.

(** The quotient shifted to 53 bits. *)
Lemma shift_quotient q M r e : 0 < M -> 0 <= r < M -> 2 ^ 52 <= q < 3 * 2 ^ 52 -> -1074 <= e ->
  exists j q' r', (j = 0 \/ j = 1) /\ shr_fexp 53 1024 q e (located M r) = (q', e + j) /\
    2 ^ 52 <= shr_m q' < 2 ^ 53 /\ loc_of_shr_record q' = located (M * 2 ^ j) r' /\ 0 <= r' < M * 2 ^ j /\
    q * M + r = shr_m q' * (M * 2 ^ j) + r' /\ (j = 1 -> shr_m q' < 3 * 2 ^ 51).
Proof.
  intros HM Hr Hq He. destruct q as [|q|q]; try lia. unfold shr_fexp. change (Zdigits2 (Zpos q)) with (Zpos (digits2_pos q)).
  destruct (Z.lt_ge_cases (Zpos q) (2 ^ 53)).
  - assert (Zpos (digits2_pos q) = 53) as -> by (apply digits2_unique; lia).
    assert (fexp 53 1024 (53 + e) - e = 0) as -> by (unfold fexp, emin; lia).
    destruct (shr_0_located (Zpos q) M r) as [Hm Hl].
    eexists 0, _, r. change (2 ^ 0) with 1. rewrite Z.mul_1_r. split; [by left|]. split; [simpl; f_equal; lia|].
    rewrite Hm, Hl. split_and!; done || lia.
  - assert (Zpos (digits2_pos q) = 54) as -> by (apply digits2_unique; lia).
    assert (fexp 53 1024 (54 + e) - e = 1) as -> by (unfold fexp, emin; lia).
    destruct (shr_1_located (Zpos q) M r) as [Hm Hl]; [lia..|].
    pose proof (Z.mod_pos_bound (Zpos q) 2 ltac:(lia)). pose proof (Z.div_mod (Zpos q) 2 ltac:(lia)) as Hd.
    eexists 1, _, (r + (Zpos q mod 2) * M). split; [by right|]. split; [done|].
    change (SpecFloat.iter_pos shr_1 1 ?x) with (shr_1 x). rewrite Hm, Hl. change (2 ^ 1) with 2.
    assert (Zpos q mod 2 = 0 \/ Zpos q mod 2 = 1) as [E|E] by lia; rewrite E in *;
      (split; [lia|]); (split; [f_equal; lia|]); (split; [lia|]);
      (split; [rewrite Hd at 1; ring|lia]).
Qed.

(** The float nearest to the quotient [(q * M + r) / M], in units of [2 ^ e]. *)
Lemma round_quotient s q M r e : Z.even M = true -> 0 < M -> 0 <= r < M -> 2 ^ 52 <= q < 3 * 2 ^ 52 -> -1074 <= e < 900 ->
  exists m k, binary_round_aux 53 1024 s q e (new_location M r) = S754_finite s m (e + k) /\
    2 ^ 52 <= Zpos m < 2 ^ 53 /\ 0 <= k <= 1 /\
    let strict := if Z.even (Zpos m) then 0 else 1 in
    lowerQ (Zpos m) (e + k) * (M * 2 ^ k) + strict <= 4 * (q * M + r) <= upperQ (Zpos m) * (M * 2 ^ k) - strict.
Proof.
  intros Hev HM Hr Hq He. rewrite new_location_located by done. unfold binary_round_aux.
  destruct (shift_quotient q M r e) as (j & q' & r' & Hj & -> & Hq' & Hl & Hr' & HN & Hj1); [done..|lia|].
  assert (0 < M * 2 ^ j) as HW by (destruct Hj as [-> | ->]; lia).
  rewrite Hl. pose proof (round_nearest (shr_m q') (M * 2 ^ j) r' HW Hr') as (Hz & Hb & Ho).
  set (z := round_nearest_even (shr_m q') (located (M * 2 ^ j) r')) in *.
  destruct (round_finish s z (e + j)) as (m & k & E & Hm & Hzm & Hk); [lia|destruct Hj as [-> | ->]; lia|].
  exists m, (j + k). rewrite E, Z.add_assoc. split; [done|]. split; [done|].
  split; [destruct Hj as [-> | ->], Hk as [-> | ->]; lia|].
  rewrite Z.pow_add_r, HN by (destruct Hj as [-> | ->], Hk as [-> | ->]; lia).
  replace (M * (2 ^ j * 2 ^ k)) with (M * 2 ^ j * 2 ^ k) by ring.
  clear HN E Hl Hr Hj1. set (W := M * 2 ^ j) in *. clearbody W z. unfold lowerQ, upperQ. rewrite <- Z.negb_odd.
  assert (2 ^ 52 * W <= shr_m q' * W) as Hlow by (apply Z.mul_le_mono_nonneg_r; lia).
  destruct Hk as [-> | ->].
  - change (2 ^ 0) with 1 in *. rewrite Z.mul_1_r in Hzm. subst z. destruct (Z.odd (Zpos m)); cbn [negb].
    + specialize (Ho eq_refl). destruct (Z.eqb_spec (Zpos m) (2 ^ 52)) as [E|E]; [rewrite E in *|]; cbn [andb];
        [destruct (-1074 <? e + j + 0)|]; lia.
    + destruct (Z.eqb_spec (Zpos m) (2 ^ 52)) as [E|E]; [rewrite E in *|]; cbn [andb];
        [destruct (-1074 <? e + j + 0)|]; lia.
  - assert (Zpos m = 2 ^ 52) as E by lia. rewrite E in *. subst z. change (Z.odd (2 ^ 52)) with false. cbn [negb].
    rewrite Z.eqb_refl. cbn [andb]. destruct (-1074 <? e + j + 1); lia.
Qed.

(** ** Division by a million *)

Lemma million : f64_of_Z 1000000 = S754_finite false (Pos.iter xO 1000000%positive 33) (-33).
Proof. reflexivity. Qed.

Lemma scale_bounds G st A B C : 0 < G -> 0 <= st <= 1 -> A * G + st <= B * G <= C * G - st -> A + st <= B <= C - st.
Proof. intros. assert (st = 0 \/ st = 1) as [-> | ->] by lia; nia. Qed.

(** The quotient of an exact integer by a million rounds to a float in whose
    rounding interval the exact quotient lies. *)
Lemma div_million s d : Zpos d < 2 ^ 53 ->
  exists m k, f64_div (binary_round 53 1024 s d 0) (f64_of_Z 1000000)
      = S754_finite s m (Zpos (digits2_pos d) - 73 + k) /\
    2 ^ 52 <= Zpos m < 2 ^ 53 /\ 0 <= k <= 1 /\
    inside (Zpos m) (Zpos (digits2_pos d) - 73 + k) (-6) (Zpos d) = true.
Proof.
  intros Hd. destruct (round_exact s d Hd) as (md & -> & Emd & Bmd). rewrite million.
  pose proof (digits2_bound d) as Bd. set (dd := Zpos (digits2_pos d)) in *.
  assert (dd <= 53) as Hdd.
  { destruct (Z.le_gt_cases dd 53); [done|]. assert (2 ^ 53 <= 2 ^ (dd - 1)) by (apply Z.pow_le_mono_r; lia). lia. }
  assert (1 <= dd) by (subst dd; lia).
  assert (Zpos (digits2_pos md) = 53) as Dmd by (apply digits2_unique; lia).
  unfold f64_div, SFdiv, SFdiv_core_binary. change (Zdigits2 (Zpos md)) with (Zpos (digits2_pos md)). rewrite Dmd.
  change (Zdigits2 (Zpos (Pos.iter xO 1000000%positive 33))) with 53.
  assert (Z.min (fexp 53 1024 (53 + (dd - 53) - (53 + -33))) (dd - 53 - -33) = dd - 73) as -> by (unfold fexp, emin; lia).
  replace (dd - 53 - -33 - (dd - 73)) with 53 by lia. rewrite Z.shiftl_mul_pow2 by lia.
  set (M := Zpos (Pos.iter xO 1000000%positive 33)). assert (M = 1000000 * 2 ^ 33) as EM by (subst M; by rewrite iter_xO).
  pose proof (Z.div_mod (Zpos md * 2 ^ 53) M ltac:(lia)) as HN. pose proof (Z.mod_pos_bound (Zpos md * 2 ^ 53) M ltac:(lia)) as Hr.
  destruct (Z.div_eucl (Zpos md * 2 ^ 53) M) as [q r] eqn:E.
  assert (q = Zpos md * 2 ^ 53 / M /\ r = Zpos md * 2 ^ 53 mod M) as [-> ->] by (unfold Z.div, Z.modulo; by rewrite E).
  set (q := Zpos md * 2 ^ 53 / M) in *. set (r := Zpos md * 2 ^ 53 mod M) in *. rewrite xorb_false_r.
  destruct (round_quotient s q M r (dd - 73)) as (m & k & -> & Hm & Hk & Hw); [by rewrite EM|lia|done|lia|lia|].
  exists m, k. split_and!; try done; try lia. apply inside_within. unfold within, unitNum, unitDen.
  set (e := dd - 73 + k) in *. rewrite (Z.max_l 0 (e - 2)), (Z.max_r 0 (2 - e)) by lia. change (2 ^ 0) with 1.
  change (10 ^ Z.max 0 (- -6)) with 1000000. change (10 ^ Z.max 0 (-6)) with 1. cbn zeta in Hw.
  assert (4 * (q * M + r) = Zpos d * 2 ^ (2 - e) * (2 ^ 33 * 2 ^ k)) as EX.
  { rewrite (Z.mul_comm q), <- HN, Emd, <- !Z.mul_assoc, (Z.mul_comm 4), <- !Z.mul_assoc, <- !Z.pow_add_r by lia.
    change 4 with (2 ^ 2). rewrite <- !Z.pow_add_r by lia. do 2 f_equal. lia. }
  rewrite EX in Hw. clear EX HN Hr. assert (0 < 2 ^ 33 * 2 ^ k) as HG by (apply Z.mul_pos_pos; apply Z.pow_pos_nonneg; lia).
  rewrite EM, <- (Z.mul_assoc 1000000) in Hw. set (G := 2 ^ 33 * 2 ^ k) in *. set (X := Zpos d * 2 ^ (2 - e)) in *.
  rewrite Z.mul_1_r. fold X. clearbody G X.
  apply (scale_bounds G); [done|destruct (Z.even (Zpos m)); lia|destruct (Z.even (Zpos m)); lia].
Qed.

(** ** Reading milliseconds *)

(** The nanoseconds of a decimal number of milliseconds with at most six
    digits after the point. *)
Definition readNs (t : text) : option Z :=
  let u := unsign t in
  let rest := skipDigits u in
  let int := take (length u - length rest) u in
  let sign := if bool_decide (u = t) then 1 else -1 in
  match rest with
  | [] => Some (sign * (readDigits int * 10 ^ 6))
  | c :: fr =>
      if (code c =? 46)%N && (length fr <=? 6)%nat
      then Some (sign * (readDigits int * 10 ^ 6 + readDigits fr * 10 ^ (6 - Z.of_nat (length fr)))) else None
  end.

Lemma readNs_sign s l e : decimal l -> match e with [] => True | c :: _ => isDigit c = false end ->
  readNs (signText s ++ l ++ e) =
  let sign := if s then -1 else 1 in
  match e with
  | [] => Some (sign * (readDigits l * 10 ^ 6))
  | c :: fr =>
      if (code c =? 46)%N && (length fr <=? 6)%nat
      then Some (sign * (readDigits l * 10 ^ 6 + readDigits fr * 10 ^ (6 - Z.of_nat (length fr)))) else None
  end.
Proof.
  intros Hl He. unfold readNs. rewrite unsign_sign by done. rewrite skipDigits_stop by (done || apply Hl).
  rewrite length_app, Nat.add_sub, take_app_length.
  assert (bool_decide (l ++ e = signText s ++ l ++ e) = negb s) as ->.
  { destruct s; [|by apply bool_decide_eq_true]. apply bool_decide_eq_false. intros E%(f_equal length). simpl in E. lia. }
  by destruct s.
Qed.

(** The text of a number of nanoseconds written in milliseconds. *)
Lemma readNs_fixed s c p : 0 <= c -> -6 <= p ->
  readNs (signText s ++ fixedText c p) = Some ((if s then -1 else 1) * (c * 10 ^ (p + 6))).
Proof.
  intros Hc Hp. unfold fixedText. destruct (Z.leb_spec 0 p).
  - assert (0 < 10 ^ p) by (apply Z.pow_pos_nonneg; lia). destruct (fmt_d_decimal (c * 10 ^ p)) as [Hd Hr]; [nia|].
    rewrite <- (app_nil_r (chars _)), readNs_sign, Hr by done. cbn zeta. do 2 f_equal. rewrite Z.pow_add_r by lia. lia.
  - assert (0 < 10 ^ (- p)) as Hpos by (apply Z.pow_pos_nonneg; lia). destruct (fixedText_frac c p) as (Hd & Hl & Hr); [done..|].
    destruct (fmt_d_decimal (c / 10 ^ (- p))) as [Hi Hir]; [by apply Z.div_pos|].
    rewrite readNs_sign, Hir, Hl, Hr by done. cbn zeta. change (code "." =? 46)%N with true.
    rewrite (proj2 (Nat.leb_le _ _)), Z2Nat.id by lia. cbn [andb]. do 2 f_equal.
    replace (6 - - p) with (p + 6) by lia. replace (10 ^ 6) with (10 ^ (- p) * 10 ^ (p + 6)) by (rewrite <- Z.pow_add_r by lia; f_equal; lia).
    rewrite Z.mul_assoc, <- Z.mul_add_distr_r. f_equal. rewrite (Z.div_mod c (10 ^ (- p))) at 3 by lia. lia.
Qed.

Lemma unscale_bounds G st A B C : 0 < G -> 0 <= st <= 1 -> A + st <= B <= C - st -> A * G + st <= B * G <= C * G - st.
Proof. intros. assert (st = 0 \/ st = 1) as [-> | ->] by lia; nia. Qed.

(** Scaling does not change what rounds to the float. *)
Lemma inside_scale m e p c j : 0 <= j -> p <= 0 -> inside m e (p + j) c = true -> inside m e p (c * 10 ^ j) = true.
Proof.
  intros Hj Hp. rewrite !inside_within. unfold within, unitNum, unitDen. rewrite (Z.max_l 0 p), (Z.max_r 0 (- p)) by lia.
  set (A := 2 ^ Z.max 0 (e - 2)). set (B := 2 ^ Z.max 0 (2 - e)). change (10 ^ 0) with 1. intros H.
  destruct (Z.le_gt_cases (p + j) 0) as [Hle|Hgt].
  - rewrite (Z.max_l 0 (p + j)), (Z.max_r 0 (- (p + j))) in H by lia. change (10 ^ 0) with 1 in H.
    apply (unscale_bounds (10 ^ j)) in H; [|apply Z.pow_pos_nonneg; lia|destruct (Z.even m); lia].
    rewrite <- !Z.mul_assoc, <- Z.pow_add_r, (Z.mul_comm 1) in H by lia. replace (- (p + j) + j) with (- p) in H by lia. lia.
  - rewrite (Z.max_r 0 (p + j)), (Z.max_l 0 (- (p + j))) in H by lia. change (10 ^ 0) with 1 in H.
    apply (unscale_bounds (10 ^ (- p))) in H; [|apply Z.pow_pos_nonneg; lia|destruct (Z.even m); lia].
    rewrite <- !Z.mul_assoc, <- Z.pow_add_r, !Z.mul_1_l in H by lia. replace (p + j + - p) with j in H by lia. lia.
Qed.

(** Below 2^52 at most one number of nanoseconds rounds to the float. *)
Lemma inside_unique m e d d' : e <= -20 -> inside m e (-6) d = true -> inside m e (-6) d' = true -> d = d'.
Proof.
  rewrite !inside_within. unfold within, unitNum, unitDen. intros He.
  rewrite (Z.max_l 0 (e - 2)), (Z.max_r 0 (2 - e)) by lia. change (2 ^ 0) with 1.
  change (10 ^ Z.max 0 (- -6)) with 1000000. change (10 ^ Z.max 0 (-6)) with 1. rewrite Z.mul_1_r.
  assert (2 ^ 22 <= 2 ^ (2 - e)) by (apply Z.pow_le_mono_r; lia). set (B := 2 ^ (2 - e)) in *. clearbody B.
  unfold lowerQ, upperQ. intros H1 H2. assert (- B < (d - d') * B < B); [|nia].
  destruct (Z.even m), ((m =? 2 ^ 52) && (-1074 <? e)); lia.
Qed.

Lemma f64_ltb_finite m1 e1 m2 e2 : f64_ltb (S754_finite false m1 e1) (S754_finite false m2 e2)
  = (e1 <? e2) || ((e1 =? e2) && (Zpos m1 <? Zpos m2)).
Proof.
  unfold f64_ltb, SFltb, SFcompare. destruct (Z.compare_spec e1 e2) as [->|H|H].
  - by rewrite Z.ltb_irrefl, Z.eqb_refl.
  - by rewrite (proj2 (Z.ltb_lt _ _)).
  - rewrite (proj2 (Z.ltb_ge _ _)), (proj2 (Z.eqb_neq _ _)) by lia. done.
Qed.

(** The quotient is in the range of format 'f'. *)
Lemma ms_fixed m e d : -72 <= e <= -20 -> 0 < d -> inside (Zpos m) e (-6) d = true -> f64_abs_small m e = false.
Proof.
  intros He Hd Hi%inside_within. unfold f64_abs_small.
  assert (f64_div (f64_of_Z 1) (f64_of_Z 1000000) = S754_finite false 4722366482869645 (-72)) as -> by (vm_compute; reflexivity).
  assert (f64_of_Z (10 ^ 21) = S754_finite false 7629394531250000 17) as -> by (vm_compute; reflexivity).
  rewrite !f64_ltb_finite, (proj2 (Z.ltb_lt e 17)), (proj2 (Z.ltb_ge e (-72))) by lia. cbn [orb negb].
  destruct (Z.eqb_spec e (-72)) as [->|]; [|reflexivity]. cbn [andb]. rewrite orb_false_r. apply Z.ltb_ge.
  unfold within, unitNum, unitDen, upperQ in Hi. change (2 ^ Z.max 0 (-72 - 2) * 10 ^ Z.max 0 (- -6)) with 1000000 in Hi.
  change (2 ^ Z.max 0 (2 - -72) * 10 ^ Z.max 0 (-6)) with (2 ^ 74) in Hi. destruct (Z.even (Zpos m)); lia.
Qed.

(** A duration in milliseconds, written and read, is the duration. *)
Lemma ms_roundtrip d : - 2 ^ 52 < d < 2 ^ 52 ->
  exists t, floatText (f64_div (f64_of_Z d) (f64_of_Z 1000000)) = Some t /\ readNs t = Some d.
Proof.
  intros Hd. assert (forall s p, Zpos p < 2 ^ 52 ->
    exists t, floatText (f64_div (binary_round 53 1024 s p 0) (f64_of_Z 1000000)) = Some t /\
      readNs t = Some ((if s then -1 else 1) * Zpos p)) as H.
  2:{ destruct d as [|p|p]; [by eexists|destruct (H false p) as (t & ? & ?)|destruct (H true p) as (t & ? & ?)]; try lia; by exists t. }
  clear d Hd. intros s p Hp. destruct (div_million s p) as (m & k & -> & Hm & Hk & Hi); [lia|].
  pose proof (digits2_bound p) as [B1 _]. set (dd := Zpos (digits2_pos p)) in *.
  assert (dd <= 52) as Hdd.
  { destruct (Z.le_gt_cases dd 52); [done|]. assert (2 ^ 52 <= 2 ^ (dd - 1)) by (apply Z.pow_le_mono_r; lia). lia. }
  assert (1 <= dd) by (subst dd; lia). set (e := dd - 73 + k) in *. assert (-72 <= e <= -20) as He by lia.
  unfold floatText. destruct (shortest (Zpos m) e) as [c q] eqn:Hs. pose proof (shortest_pos _ _ _ _ Hs) as Hc.
  destruct (shortest_spec _ _ _ _ Hs) as (Hq & Hci & Hnone). rewrite (ms_fixed m e (Zpos p)) by (done || lia).
  assert (-6 <= q) as Hq6.
  { destruct (Z.le_gt_cases (-6) q); [done|]. rewrite Hnone in Hi; [done|]. unfold firstPos. lia. }
  eexists. split; [done|]. rewrite readNs_fixed by lia. do 2 f_equal.
  apply (inside_unique (Zpos m) e); [lia| |done]. apply inside_scale; [lia|lia|]. by replace (-6 + (q + 6)) with q by lia.
Qed.

End FloatExact.
