(* ===== verification/GoTime.v ===== *)
(** * Time stamps in JSON, and durations

    [time.Time.MarshalJSON]: RFC 3339 text with up to nine digits of the
    second, in the local zone.  A time is its nanoseconds since 1970 and the
    zone's offset in seconds east of Greenwich.  [Duration.Round] and
    [Duration.String]. *)

From Stdlib Require Import Ascii.
From S2P Require Import Prelude GoLib Json GoDecimal.
Import GoLib Json GoDecimal.

Module GoTime.

Record Time := mkTime { unixNano : Z; zoneOffset : Z }.

(** ** The calendar *)

(** Days from 0000-03-01 to 1970-01-01. *)
Definition epochDays : Z := 719468.

(** Year, month and day of a day since 1970: in years that begin in March, by
    cycles of 400, 100, 4 and 1 years; the last century of four and the last
    year of four have a day more. *)
Definition civil (days : Z) : Z * Z * Z :=
  let z := days + epochDays in
  let doe := z mod 146097 in
  let c := Z.min 3 (doe / 36524) in
  let doc := doe - c * 36524 in
  let doq := doc mod 1461 in
  let a := Z.min 3 (doq / 365) in
  let doy := doq - a * 365 in
  let y := 400 * (z / 146097) + 100 * c + 4 * (doc / 1461) + a in
  let mp := (5 * doy + 2) / 153 in
  let day := doy - (153 * mp + 2) / 5 + 1 in
  if mp <? 10 then (y, mp + 3, day) else (y + 1, mp - 9, day).

(** The days of a date, by the rule of the Gregorian calendar. *)
Definition daysOf (y m d : Z) : Z :=
  let y := if m <=? 2 then y - 1 else y in
  let mp := if m <=? 2 then m + 9 else m - 3 in
  365 * y + y / 4 - y / 100 + y / 400 + (153 * mp + 2) / 5 + d - 1 - epochDays.

Lemma civil_year era c q a : 0 <= c <= 3 -> 0 <= q <= 24 -> 0 <= a <= 3 ->
  let y := 400 * era + 100 * c + 4 * q + a in
  365 * y + y / 4 - y / 100 + y / 400 = 146097 * era + 36524 * c + 1461 * q + 365 * a.
Proof.
  intros Hc Hq Ha y.
  assert (y / 4 = 100 * era + 25 * c + q) as -> by (symmetry; apply (Z.div_unique _ _ _ a); lia).
  assert (y / 100 = 4 * era + c) as -> by (symmetry; apply (Z.div_unique _ _ _ (4 * q + a)); lia).
  assert (y / 400 = era) as -> by (symmetry; apply (Z.div_unique _ _ _ (100 * c + 4 * q + a)); lia).
  lia.
Qed.

(** The date of a day is a date, and has that day. *)
Lemma daysOf_civil days : let '(y, m, d) := civil days in daysOf y m d = days /\ 1 <= m <= 12 /\ 1 <= d <= 31.
Proof.
  unfold civil. set (z := days + epochDays). set (era := z / 146097). set (doe := z mod 146097).
  pose proof (Z.div_mod z 146097 ltac:(lia)) as Hz. pose proof (Z.mod_pos_bound z 146097 ltac:(lia)) as Hdoe.
  fold era doe in Hz, Hdoe. set (c := Z.min 3 (doe / 36524)). set (doc := doe - c * 36524).
  assert (0 <= c <= 3 /\ 0 <= doc <= 36524) as [Hc Hdoc].
  { pose proof (Z.div_mod doe 36524 ltac:(lia)). pose proof (Z.mod_pos_bound doe 36524 ltac:(lia)).
    pose proof (Z.div_pos doe 36524). subst c doc. lia. }
  set (q := doc / 1461). set (doq := doc mod 1461).
  pose proof (Z.div_mod doc 1461 ltac:(lia)) as Hq. pose proof (Z.mod_pos_bound doc 1461 ltac:(lia)) as Hdoq.
  fold q doq in Hq, Hdoq. assert (0 <= q <= 24) as Hq24 by lia.
  set (a := Z.min 3 (doq / 365)). set (doy := doq - a * 365).
  assert (0 <= a <= 3 /\ 0 <= doy <= 365) as [Ha Hdoy].
  { pose proof (Z.div_mod doq 365 ltac:(lia)). pose proof (Z.mod_pos_bound doq 365 ltac:(lia)).
    pose proof (Z.div_pos doq 365). subst a doy. lia. }
  pose proof (civil_year era c q a Hc Hq24 Ha) as Hy. cbn zeta in Hy. set (y := 400 * era + 100 * c + 4 * q + a) in *.
  set (mp := (5 * doy + 2) / 153).
  pose proof (Z.div_mod (5 * doy + 2) 153 ltac:(lia)) as Hmp. pose proof (Z.mod_pos_bound (5 * doy + 2) 153 ltac:(lia)) as Hmr.
  fold mp in Hmp. assert (0 <= mp <= 11) as Hm by lia.
  pose proof (Z.div_mod (153 * mp + 2) 5 ltac:(lia)) as Hs. pose proof (Z.mod_pos_bound (153 * mp + 2) 5 ltac:(lia)) as Hsr.
  set (st := (153 * mp + 2) / 5) in *. unfold daysOf.
  destruct (Z.ltb_spec mp 10).
  - rewrite (proj2 (Z.leb_gt _ _)) by lia. replace (mp + 3 - 3) with mp by lia. fold st. split; [|lia]. subst doy doc z. lia.
  - rewrite (proj2 (Z.leb_le _ _)) by lia. replace (y + 1 - 1) with y by lia. replace (mp - 9 + 9) with mp by lia. fold st.
    split; [|lia]. subst doy doc z. lia.
Qed.

(** ** The text *)

Definition two (n : Z) : text := chars (fmt_0d 2 n).

Fixpoint trimZeros (l : text) : text :=
  match l with
  | c :: l' => if bool_decide (c = "0"%char) then trimZeros l' else l
  | [] => []
  end.

(** The fraction of the second, without trailing zeros. *)
Definition nanoText (n : Z) : text :=
  match reverse (trimZeros (reverse (chars (fmt_0d 9 n)))) with [] => [] | ds => "."%char :: ds end.

Definition zoneText (offset : Z) : text :=
  if offset =? 0 then ["Z"%char] else
  let zone := Z.quot offset 60 in
  (if zone <? 0 then "-"%char else "+"%char) ::
  two (Z.abs zone / 60) ++ ":"%char :: two (Z.abs zone mod 60).

(** [appendStrictRFC3339]: an error for a year outside 0..9999 or a zone of 24
    hours or more. *)
Definition timeText (t : Time) : option text :=
  let second := unixNano t / 10 ^ 9 + zoneOffset t in
  let '(y, m, d) := civil (second / 86400) in
  let sod := second mod 86400 in
  if (y <? 0) || (9999 <? y) || (24 <=? Z.abs (Z.quot (zoneOffset t) 60) / 60) then None else
  Some (chars (fmt_0d 4 y) ++ "-"%char :: two m ++ "-"%char :: two d ++ "T"%char ::
    two (sod / 3600) ++ ":"%char :: two (sod / 60 mod 60) ++ ":"%char :: two (sod mod 60) ++
    nanoText (unixNano t mod 10 ^ 9) ++ zoneText (zoneOffset t)).

Example timeText_values :
  (fun t => String.string_of_list_ascii <$> timeText t) <$>
    [mkTime 0 0; mkTime 1136214245000000000 (-25200); mkTime 1709210096123456780 19800;
     mkTime 951782400000000001 0; mkTime (-1) 0; mkTime 253402300800000000000 0; mkTime 0 86400]
  = [Some "1970-01-01T00:00:00Z"; Some "2006-01-02T08:04:05-07:00"; Some "2024-02-29T18:04:56.12345678+05:30";
     Some "2000-02-29T00:00:00.000000001Z"; Some "1969-12-31T23:59:59.999999999Z"; None; None]%string.
Proof. vm_compute. reflexivity. Qed.

(** ** Durations *)

Definition minDuration : Z := - 2 ^ 63.
Definition maxDuration : Z := 2 ^ 63 - 1.

Definition lessThanHalf (x y : Z) : bool := u64 (u64 x + u64 x) <? u64 y.

(** [Duration.Round]: to the nearest multiple, halves away from zero, and to the
    extreme durations on overflow. *)
Definition Round (d m : Z) : Z :=
  if m <=? 0 then d else
  let r := Z.rem d m in
  if d <? 0 then
    let r := i64 (- r) in
    if lessThanHalf r m then i64 (d + r) else
    let d1 := i64 (i64 (d - m) + r) in
    if d1 <? d then d1 else minDuration
  else
    if lessThanHalf r m then i64 (d - r) else
    let d1 := i64 (i64 (d + m) - r) in
    if d <? d1 then d1 else maxDuration.

(** [fmtFrac] and [fmtInt]: [u] over [10 ^ prec], without trailing zeros. *)
Definition fracText (u : Z) (prec : nat) : text :=
  let ds := reverse (trimZeros (reverse (chars (fmt_0d prec (u mod 10 ^ Z.of_nat prec))))) in
  chars (fmt_d (u / 10 ^ Z.of_nat prec)) ++ match ds with [] => [] | _ => "."%char :: ds end.

(** The micro sign, in UTF-8. *)
Definition micro : text := [ascii_of_N 194; ascii_of_N 181].

(** [Duration.String]. *)
Definition durationText (d : Z) : text :=
  let u := Z.abs d in
  (if d <? 0 then ["-"%char] else []) ++
  (if u =? 0 then chars "0s"
   else if u <? 10 ^ 3 then chars (fmt_d u) ++ chars "ns"
   else if u <? 10 ^ 6 then fracText u 3 ++ micro ++ ["s"%char]
   else if u <? 10 ^ 9 then fracText u 6 ++ chars "ms"
   else
     let secs := u / 10 ^ 9 in
     let mins := secs / 60 in
     let hours := mins / 60 in
     (if 0 <? hours then chars (fmt_d hours) ++ ["h"%char] else []) ++
     (if 0 <? mins then chars (fmt_d (mins mod 60)) ++ ["m"%char] else []) ++
     fracText (secs mod 60 * 10 ^ 9 + u mod 10 ^ 9) 9 ++ ["s"%char]).

Example durationText_values :
  (fun d => String.string_of_list_ascii (durationText d)) <$>
    [0; 1; 1100; 2200000; 3300000000; 245000000000; 3661000000000; - 1500000000; 12345678; 2 ^ 63 - 1]
  = ["0s"; "1ns"; String.string_of_list_ascii (chars "1.1" ++ micro ++ chars "s"); "2.2ms"; "3.3s"; "4m5s"; "1h1m1s"; "-1.5s";
     "12.345678ms"; "2562047h47m16.854775807s"]%string.
Proof. vm_compute. reflexivity. Qed.

(** Rounding to the nearest millisecond, away from the ends of the range. *)
Lemma Round_nearest d m : 0 < m < 2 ^ 62 -> - 2 ^ 62 < d < 2 ^ 62 ->
  exists k, Round d m = k * m /\ 2 * Z.abs (k * m - d) <= m.
Proof.
  intros Hm Hd. unfold Round. rewrite (proj2 (Z.leb_gt _ _)) by lia.
  pose proof (Z.quot_rem d m ltac:(lia)) as Hq. pose proof (Z.rem_bound_abs d m ltac:(lia)) as Hr.
  set (q := Z.quot d m) in *. set (r := Z.rem d m) in *.
  assert (forall x, - 2 ^ 63 <= x < 2 ^ 63 -> i64 x = x) as Hi by (intros; by apply (swrap_small 64)).
  assert (forall x, 0 <= x < 2 ^ 64 -> u64 x = x) as Hu by (intros; by apply Z.mod_small).
  destruct (Z.ltb_spec d 0).
  - assert (r <= 0) by (apply Z.rem_nonpos; lia). rewrite (Hi (- r)) by lia. unfold lessThanHalf.
    rewrite !(Hu (- r)), (Hu (- r + - r)), (Hu m) by lia.
    destruct (Z.ltb_spec (- r + - r) m).
    + exists q. rewrite Hi by lia. lia.
    + rewrite (Hi (d - m)), Hi by lia. rewrite (proj2 (Z.ltb_lt _ _)) by lia. exists (q - 1). lia.
  - assert (0 <= r) by (apply Z.rem_nonneg; lia). unfold lessThanHalf.
    rewrite !(Hu r), (Hu (r + r)), (Hu m) by lia.
    destruct (Z.ltb_spec (r + r) m).
    + exists q. rewrite Hi by lia. lia.
    + rewrite (Hi (d + m)), Hi by lia. rewrite (proj2 (Z.ltb_lt _ _)) by lia. exists (q + 1). lia.
Qed.

(** Whole milliseconds below a second. *)
Lemma durationText_ms k : 0 < k < 1000 -> durationText (k * 10 ^ 6) = chars (fmt_d k) ++ chars "ms".
Proof.
  intros Hk. unfold durationText. rewrite Z.abs_eq, (proj2 (Z.ltb_ge _ 0)), (proj2 (Z.eqb_neq _ _)) by lia.
  rewrite !(proj2 (Z.ltb_ge _ _)), (proj2 (Z.ltb_lt _ _)) by lia. cbn [app]. unfold fracText.
  rewrite Z.div_mul, Z.mod_mul by done. f_equal. by rewrite app_nil_r.
Qed.

(** ** The text is ASCII *)

Lemma digits_ascii l : digits l -> allASCII l = true.
Proof.
  intros H. apply forallb_forall. intros c Hc%list_elem_of_In. eapply Forall_forall in H; [|done].
  unfold isDigit, between in H. apply andb_true_iff in H as [_ ?%N.leb_le]. apply N.ltb_lt. lia.
Qed.

Lemma fmt_0d_ascii w n : 0 <= n -> allASCII (chars (fmt_0d w n)) = true.
Proof.
  intros Hn. apply digits_ascii. unfold fmt_0d, pad_zero. rewrite chars_append. apply Forall_app.
  split; [|by apply fmt_d_decimal]. unfold chars. rewrite String.list_ascii_of_string_of_list_ascii.
  by apply Forall_replicate.
Qed.

Lemma allASCII_app l1 l2 : allASCII l1 = true -> allASCII l2 = true -> allASCII (l1 ++ l2) = true.
Proof. unfold allASCII. rewrite forallb_app. by intros -> ->. Qed.

Lemma allASCII_cons c l : (code c <? 128)%N = true -> allASCII l = true -> allASCII (c :: l) = true.
Proof. intros H1 H2. simpl. by rewrite H1. Qed.

Lemma trimZeros_suffix l : trimZeros l `suffix_of` l.
Proof.
  induction l as [|c l IH]; [done|]. simpl. case_bool_decide; [|done]. by apply suffix_cons_r.
Qed.

Lemma nanoText_ascii n : 0 <= n -> allASCII (nanoText n) = true.
Proof.
  intros Hn. unfold nanoText. destruct (trimZeros_suffix (reverse (chars (fmt_0d 9 n)))) as [k Hk].
  assert (allASCII (reverse (trimZeros (reverse (chars (fmt_0d 9 n))))) = true) as H.
  { apply forallb_forall. intros c Hc. pose proof (fmt_0d_ascii 9 n Hn) as Ha. unfold allASCII in Ha.
    rewrite forallb_forall in Ha. apply Ha. apply list_elem_of_In. apply list_elem_of_In in Hc.
    rewrite <- (reverse_involutive (chars (fmt_0d 9 n))), Hk, elem_of_reverse, elem_of_app. right. by apply elem_of_reverse. }
  destruct (reverse (trimZeros _)); [done|]. by apply allASCII_cons.
Qed.

Lemma timeText_ascii t l : timeText t = Some l -> allASCII l = true.
Proof.
  unfold timeText. set (second := _ + zoneOffset t). pose proof (daysOf_civil (second / 86400)) as Hc.
  destruct (civil (second / 86400)) as [[y m] d]. destruct Hc as (_ & Hm & Hd).
  destruct ((y <? 0) || (9999 <? y) || _) eqn:E; [done|]. intros [= <-].
  apply orb_false_iff in E as [[Hy%Z.ltb_ge _]%orb_false_iff _].
  pose proof (Z.mod_pos_bound second 86400 ltac:(lia)) as Hs. set (sod := second mod 86400) in *.
  assert (forall n, 0 <= n -> allASCII (two n) = true) as H2 by (intros; by apply fmt_0d_ascii).
  repeat (apply allASCII_app || (apply allASCII_cons; [done|])); try apply H2; try apply fmt_0d_ascii;
    try (apply Z.div_pos; lia); try (apply Z.mod_pos_bound; lia); try lia.
  - apply nanoText_ascii. by apply Z.mod_pos_bound.
  - unfold zoneText. destruct (zoneOffset t =? 0); [done|]. apply allASCII_cons; [by destruct (_ <? 0)|].
    apply allASCII_app; [apply H2, Z.div_pos; lia|]. apply allASCII_cons; [done|]. apply H2, Z.mod_pos_bound. lia.
Qed.

End GoTime.
