(* ===== verification/Sha256.v ===== *)
(** * SHA-256 and HMAC

    The part of Go's [crypto/sha256] and [crypto/hmac] the codec uses, as
    executable functions on byte lists (FIPS 180-4 and RFC 2104), and the
    interface [Mac] through which the codec calls them.  The test vectors at
    the end are those of FIPS 180-4 and RFC 4231. *)

From S2P Require Import Prelude.

Module Sha256.

(** ** Word operations *)

Definition add32 (a b : Z) : Z := u32 (a + b).
Definition rotr (x n : Z) : Z := Z.lor (x ≫ n) (u32 (x ≪ (32 - n))).
Definition Ch (x y z : Z) : Z := Z.lxor (Z.land x y) (Z.land (Z.lxor x (2 ^ 32 - 1)) z).
Definition Maj (x y z : Z) : Z := Z.lxor (Z.lxor (Z.land x y) (Z.land x z)) (Z.land y z).
Definition Sigma0 (x : Z) : Z := Z.lxor (Z.lxor (rotr x 2) (rotr x 13)) (rotr x 22).
Definition Sigma1 (x : Z) : Z := Z.lxor (Z.lxor (rotr x 6) (rotr x 11)) (rotr x 25).
Definition sigma0 (x : Z) : Z := Z.lxor (Z.lxor (rotr x 7) (rotr x 18)) (x ≫ 3).
Definition sigma1 (x : Z) : Z := Z.lxor (Z.lxor (rotr x 17) (rotr x 19)) (x ≫ 10).

(** The constants of the standard: the first 32 bits of the fractional parts of
    the cube roots (round constants) and square roots (initial state) of the
    first primes. *)

Definition is_prime (p : nat) : bool :=
  forallb (fun d => negb (p mod d =? 0)%nat) (seq 2 (p - 2)).

Definition primes : list Z := Z.of_nat <$> List.filter is_prime (seq 2 310).

(** Integer cube root of a number below 2^105, bit by bit. *)
Fixpoint cbrt_bits (n : nat) (x r : Z) : Z :=
  match n with
  | O => r
  | S m =>
      let r1 := r + 2 ^ Z.of_nat m in
      cbrt_bits m x (if r1 * r1 * r1 <=? x then r1 else r)
  end.

Definition root_const3 (p : Z) : Z := u32 (cbrt_bits 35 (p * 2 ^ 96) 0).
Definition root_const2 (p : Z) : Z := u32 (Z.sqrt (p * 2 ^ 64)).

Definition K : list Z := Eval vm_compute in root_const3 <$> take 64 primes.

(** ** The hash state: the eight working variables *)

Record hstate := HState { ha : Z; hb : Z; hc : Z; hd : Z; he : Z; hf : Z; hg : Z; hh : Z }.

Definition h_init : hstate := Eval vm_compute in
  HState (root_const2 2) (root_const2 3) (root_const2 5) (root_const2 7)
         (root_const2 11) (root_const2 13) (root_const2 17) (root_const2 19).

Definition h_add (s t : hstate) : hstate :=
  HState (add32 (ha s) (ha t)) (add32 (hb s) (hb t)) (add32 (hc s) (hc t)) (add32 (hd s) (hd t))
         (add32 (he s) (he t)) (add32 (hf s) (hf t)) (add32 (hg s) (hg t)) (add32 (hh s) (hh t)).

Definition h_round (s : hstate) (kw : Z * Z) : hstate :=
  let t1 := u32 (hh s + Sigma1 (he s) + Ch (he s) (hf s) (hg s) + kw.1 + kw.2) in
  let t2 := add32 (Sigma0 (ha s)) (Maj (ha s) (hb s) (hc s)) in
  HState (add32 t1 t2) (ha s) (hb s) (hc s) (add32 (hd s) t1) (he s) (hf s) (hg s).

(** The message schedule, most recent word first. *)
Definition sched_step (ws : list Z) : list Z :=
  match ws !! 1%nat, ws !! 6%nat, ws !! 14%nat, ws !! 15%nat with
  | Some w2, Some w7, Some w15, Some w16 => u32 (sigma1 w2 + w7 + sigma0 w15 + w16) :: ws
  | _, _, _, _ => ws
  end.

Definition schedule (block : list Z) : list Z :=
  reverse (Nat.iter 48 sched_step (reverse block)).

Fixpoint words (n : nat) (l : list byte) : list Z :=
  match n with
  | O => []
  | S m => be_get (take 4 l) :: words m (drop 4 l)
  end.

Definition compress (s : hstate) (block : list byte) : hstate :=
  h_add s (foldl h_round s (zip K (schedule (words 16 block)))).

Fixpoint compress_all (n : nat) (s : hstate) (l : list byte) : hstate :=
  match n with
  | O => s
  | S m => compress_all m (compress s (take 64 l)) (drop 64 l)
  end.

(** The padding of FIPS 180-4: a one bit, zeros, the bit length. *)
Definition pad (m : list byte) : list byte :=
  let n := Z.of_nat (length m) in
  m ++ x80 :: replicate (Z.to_nat ((55 - n) mod 64)) x00 ++ be_put 8 (8 * n).

Definition digest (s : hstate) : list byte :=
  be_put 4 (ha s) ++ be_put 4 (hb s) ++ be_put 4 (hc s) ++ be_put 4 (hd s) ++
  be_put 4 (he s) ++ be_put 4 (hf s) ++ be_put 4 (hg s) ++ be_put 4 (hh s).

Definition sum256 (m : list byte) : list byte :=
  let p := pad m in digest (compress_all (length p / 64) h_init p).

Lemma length_sum256 m : length (sum256 m) = 32%nat.
Proof. unfold sum256, digest. len. Qed.

(** Padding fills whole 64-byte blocks, so [compress_all] consumes all of it. *)
Lemma pad_blocks m : Z.of_nat (length (pad m)) mod 64 = 0.
Proof.
  unfold pad. rewrite !length_app, !length_cons, !length_app, length_replicate, length_be_put.
  set (n := Z.of_nat (length m)).
  pose proof (Z.mod_pos_bound (55 - n) 64).
  replace (Z.of_nat _) with (n + 9 + (55 - n) mod 64) by lia.
  rewrite Zplus_mod_idemp_r. by replace (n + 9 + (55 - n)) with (1 * 64) by lia.
Qed.

(** ** HMAC *)

Definition xor_byte (b c : byte) : byte := z2b (Z.lxor (b2z b) (b2z c)).

Definition hmac_key (key : list byte) : list byte :=
  let k := if (64 <? length key)%nat then sum256 key else key in
  k ++ replicate (64 - length k) x00.

Definition hmac (key data : list byte) : list byte :=
  let k := hmac_key key in
  sum256 (map (xor_byte x5c) k ++ sum256 (map (xor_byte x36) k ++ data)).

Lemma length_hmac key data : length (hmac key data) = 32%nat.
Proof. apply length_sum256. Qed.

Definition bytes_of_string : string -> list byte := String.list_byte_of_string.

(** ** Test vectors *)

Example sum256_empty :
  be_get (sum256 []) = 0xe3b0c44298fc1c149afbf4c8996fb92427ae41e4649b934ca495991b7852b855.
Proof. vm_compute. reflexivity. Qed.

Example sum256_abc :
  be_get (sum256 (bytes_of_string "abc"))
  = 0xba7816bf8f01cfea414140de5dae2223b00361a396177a9cb410ff61f20015ad.
Proof. vm_compute. reflexivity. Qed.

Example sum256_two_blocks :
  be_get (sum256 (bytes_of_string "abcdbcdecdefdefgefghfghighijhijkijkljklmklmnlmnomnopnopq"))
  = 0x248d6a61d20638b8e5c026930c3e6039a33ce45964ff2167f6ecedd419db06c1.
Proof. vm_compute. reflexivity. Qed.

Example hmac_rfc4231_2 :
  be_get (hmac (bytes_of_string "Jefe") (bytes_of_string "what do ya want for nothing?"))
  = 0x5bdcc146bf60754e6a042426089575c75a003f089d2739839dec58b964ec3843.
Proof. vm_compute. reflexivity. Qed.

Example hmac_rfc4231_6 :
  be_get (hmac (replicate 131 xaa)
    (bytes_of_string "Test Using Larger Than Block-Size Key - Hash Key First"))
  = 0x60e431591ee0b67f0d8a26aacbf5b77f8e0bc6213728c5140546040f0ee37f54.
Proof. vm_compute. reflexivity. Qed.

End Sha256.

(** ** The interface the codec is written against

    What the codec relies on is only that the authenticator is a function of
    the key and the data with a 32-byte result. *)

Class Mac := {
  mac : list byte -> list byte -> list byte;
  mac_length : forall key data, length (mac key data) = 32%nat;
}.

#[export] Instance hmac_sha256 : Mac :=
  {| mac := Sha256.hmac; mac_length := Sha256.length_hmac |}.

#[export] Hint Rewrite @mac_length : golen.
