(* ===== verification/Protocol.v ===== *)
(** * The wire protocol: internal/protocol/protocol.go

    [Codec] is the Go struct; every method is a computation that threads it.
    The slicing and copying of the Go code is kept, with Go's run-time bounds
    checks, so that the absence of panics is a theorem and not a convention. *)

From S2P Require Import Prelude GoLib Sha256.

Module Protocol.

(** ** Constants *)

Definition ProtocolVersion : Z := 1.

Definition MsgFrame : byte := x00.
Definition MsgHello : byte := x01.
Definition MsgHelloAck : byte := x02.
Definition MsgPing : byte := x03.
Definition MsgPong : byte := x04.
Definition MsgBye : byte := x05.

Definition NonceSize : nat := 8.
Definition HMACSize : nat := 32.
Definition ChallengeSize : nat := 16.
Definition ChallengeRespLen : nat := 32.
Definition MinHeaderSize : nat := 1.
Definition MaxFrameSize : nat := 1514.
Definition MinEthernetFrame : nat := 14.
Definition HelloPayloadSize : nat := 2 + ChallengeSize.
Definition HelloAckPayloadSize : nat := 2 + ChallengeRespLen.
Definition PingPongPayloadSize : nat := 8.

(** ** Errors *)

Inductive payload_fault :=
| FrameTooSmall (n : nat)
| FrameTooLarge (n : nat)
| HelloTooSmall
| HelloAckTooSmall
| PingTooSmall
| PongTooSmall.

Inductive perr :=
| ErrMessageTooShort
| ErrInvalidHMAC
| ErrReplayDetected
| ErrUnknownMsgType (t : byte)
| ErrInvalidPayload (f : payload_fault)
| ErrVersionMismatch (expected got : Z)
| ErrFrameSize (n : nat)
| ErrRand.

#[export] Instance payload_fault_eq_dec : EqDecision payload_fault.
Proof. solve_decision. Defined.
#[export] Instance perr_eq_dec : EqDecision perr.
Proof. solve_decision. Defined.

(** ** Codec *)

Record Codec := mkCodec {
  key : list byte;
  sendNonce : Z;
  recvNonce : Z;
  secureMode : bool;
}.

#[export] Instance Codec_eq_dec : EqDecision Codec.
Proof. solve_decision. Defined.

Definition NewCodec (k : list byte) : Codec :=
  {| key := k; sendNonce := 0; recvNonce := 0; secureMode := (0 <? length k)%nat |}.

Definition IsSecure (c : Codec) : bool := secureMode c.

Definition set_sendNonce (n : Z) (c : Codec) : Codec :=
  {| key := key c; sendNonce := n; recvNonce := recvNonce c; secureMode := secureMode c |}.
Definition set_recvNonce (n : Z) (c : Codec) : Codec :=
  {| key := key c; sendNonce := sendNonce c; recvNonce := n; secureMode := secureMode c |}.

(** [ResetRecvNonce]: [atomic.StoreUint64(&c.recvNonce, 0)]. *)
Definition ResetRecvNonce (c : Codec) : Codec := set_recvNonce 0 c.

(** [nextNonce]: [atomic.AddUint64(&c.sendNonce, 1)], which wraps at 2^64. *)
Definition nextNonce (c : Codec) : Codec * Z :=
  let n := u64 (sendNonce c + 1) in (set_sendNonce n c, n).

Definition MessageTypeName (t : byte) : string :=
  if bool_decide (t = MsgFrame) then "FRAME" else
  if bool_decide (t = MsgHello) then "HELLO" else
  if bool_decide (t = MsgHelloAck) then "HELLO_ACK" else
  if bool_decide (t = MsgPing) then "PING" else
  if bool_decide (t = MsgPong) then "PONG" else
  if bool_decide (t = MsgBye) then "BYE" else
  String.concat EmptyString ["UNKNOWN(0x"; GoLib.fmt_0x false 2 (b2z t); ")"]%string.

(** The decoded message, with Go's zero values for the fields a type leaves unset. *)
Record Message := mkMessage {
  Type_ : byte;
  Frame : list byte;
  Version : Z;
  Challenge : list byte;
  Response : list byte;
  Timestamp : Z;
}.

#[export] Instance Message_eq_dec : EqDecision Message.
Proof. solve_decision. Defined.

Definition zeroMessage (t : byte) : Message :=
  {| Type_ := t; Frame := []; Version := 0; Challenge := []; Response := []; Timestamp := 0 |}.

Section codec.
Context `{M : Mac}.

Definition computeHMAC (c : Codec) (data : list byte) : list byte := mac (key c) data.

(** [hmac.Equal]: equal lengths and equal bytes. *)
Definition verifyHMAC (c : Codec) (data sig : list byte) : bool :=
  bool_decide (computeHMAC c data = sig).

(** [encode], with the buffer the Go code allocates and fills in place. *)
Definition encode (msgType : byte) (payload : list byte) (c : Codec) : Codec * list byte :=
  let n := length payload in
  if secureMode c then
    let '(c1, nonce) := nextNonce c in
    let msg := make_bytes (1 + NonceSize + n + HMACSize) in
    let msg := <[0%nat := msgType]> msg in
    let msg := go_copy msg 1 9 (be_put 8 nonce) in
    let msg := go_copy msg 9 (9 + n) payload in
    let m := computeHMAC c1 (take (9 + n) msg) in
    (c1, go_copy msg (9 + n) (length msg) m)
  else
    let msg := make_bytes (1 + n) in
    let msg := <[0%nat := msgType]> msg in
    (c, go_copy msg 1 (length msg) payload).

(** [decode]: the message type and payload, the HMAC and the nonce checked in
    secure mode.  The nonce of an accepted message is stored unless the
    message belongs to the handshake. *)
Definition decode (data : list byte) : prog Codec perr (byte * list byte) :=
  if (length data <? MinHeaderSize)%nat then throw ErrMessageTooShort else
  c ← get;
  if secureMode c then
    let minLen := (1 + NonceSize + HMACSize)%nat in
    if (length data <? minLen)%nat then throw ErrMessageTooShort else
    msgType ← lift (go_index data 0);
    nonceBytes ← lift (go_slice data 1 9);
    let nonce := be_get nonceBytes in
    let payloadEnd := (length data - HMACSize)%nat in
    payload ← lift (go_slice data 9 payloadEnd);
    sig ← lift (go_slice data payloadEnd (length data));
    signed ← lift (go_slice data 0 payloadEnd);
    if negb (verifyHMAC c signed sig) then throw ErrInvalidHMAC else
    if bool_decide (msgType ≠ MsgHello) && bool_decide (msgType ≠ MsgHelloAck) then
      if (0 <? nonce) && (nonce <=? recvNonce c) then throw ErrReplayDetected else
      _ ← modify (set_recvNonce nonce);
      mret (msgType, payload)
    else mret (msgType, payload)
  else
    msgType ← lift (go_index data 0);
    payload ← lift (go_slice data 1 (length data));
    mret (msgType, payload).

(** *** The exported encoders *)

Definition EncodeFrame (frame : list byte) : prog Codec perr (list byte) := fun c =>
  if (length frame <? MinEthernetFrame)%nat || (MaxFrameSize <? length frame)%nat
  then (c, Err (ErrFrameSize (length frame)))
  else let '(c1, msg) := encode MsgFrame frame c in (c1, Ok msg).

(** [EncodeHello]: [rnd] is what [rand.Read] does with the challenge slice of
    the payload, [None] when it fails. *)
Definition EncodeHello (rnd : option (list byte)) : prog Codec perr (list byte * list byte) :=
  fun c =>
  let payload := make_bytes HelloPayloadSize in
  let payload := go_copy payload 0 2 (be_put 2 ProtocolVersion) in
  match rnd with
  | None => (c, Err ErrRand)
  | Some r =>
      let payload := go_copy payload 2 (2 + ChallengeSize) r in
      let challenge := slice 2 (2 + ChallengeSize) payload in
      let '(c1, msg) := encode MsgHello payload c in
      (c1, Ok (msg, challenge))
  end.

Definition EncodeHelloAck (challenge : list byte) (c : Codec) : Codec * list byte :=
  let payload := make_bytes HelloAckPayloadSize in
  let payload := go_copy payload 0 2 (be_put 2 ProtocolVersion) in
  let payload :=
    if secureMode c && (length challenge =? ChallengeSize)%nat
    then go_copy payload 2 (length payload) (computeHMAC c challenge)
    else payload in
  encode MsgHelloAck payload c.

(** [uint64(timestamp)] reinterprets the signed timestamp. *)
Definition EncodePing (timestamp : Z) (c : Codec) : Codec * list byte :=
  let payload := make_bytes PingPongPayloadSize in
  let payload := go_copy payload 0 8 (be_put 8 (u64 timestamp)) in
  encode MsgPing payload c.

Definition EncodePong (timestamp : Z) (c : Codec) : Codec * list byte :=
  let payload := make_bytes PingPongPayloadSize in
  let payload := go_copy payload 0 8 (be_put 8 (u64 timestamp)) in
  encode MsgPong payload c.

Definition EncodeBye (c : Codec) : Codec * list byte := encode MsgBye [] c.

(** *** [Decode] *)

Definition parsePayload (msgType : byte) (payload : list byte) : outcome perr Message :=
  let msg := zeroMessage msgType in
  let n := length payload in
  if bool_decide (msgType = MsgFrame) then
    if (n <? MinEthernetFrame)%nat then Err (ErrInvalidPayload (FrameTooSmall n)) else
    if (MaxFrameSize <? n)%nat then Err (ErrInvalidPayload (FrameTooLarge n)) else
    Ok {| Type_ := msgType; Frame := payload; Version := 0; Challenge := [];
          Response := []; Timestamp := 0 |}
  else if bool_decide (msgType = MsgHello) then
    if (n <? HelloPayloadSize)%nat then Err (ErrInvalidPayload HelloTooSmall) else
    v ← go_slice payload 0 2;
    ch ← go_slice payload 2 (2 + ChallengeSize);
    if negb (be_get v =? ProtocolVersion)
    then Err (ErrVersionMismatch ProtocolVersion (be_get v))
    else Ok {| Type_ := msgType; Frame := []; Version := be_get v; Challenge := ch;
               Response := []; Timestamp := 0 |}
  else if bool_decide (msgType = MsgHelloAck) then
    if (n <? HelloAckPayloadSize)%nat then Err (ErrInvalidPayload HelloAckTooSmall) else
    v ← go_slice payload 0 2;
    r ← go_slice payload 2 (2 + ChallengeRespLen);
    if negb (be_get v =? ProtocolVersion)
    then Err (ErrVersionMismatch ProtocolVersion (be_get v))
    else Ok {| Type_ := msgType; Frame := []; Version := be_get v; Challenge := [];
               Response := r; Timestamp := 0 |}
  else if bool_decide (msgType = MsgPing) then
    if (n <? PingPongPayloadSize)%nat then Err (ErrInvalidPayload PingTooSmall) else
    ts ← go_slice payload 0 8;
    Ok {| Type_ := msgType; Frame := []; Version := 0; Challenge := [];
          Response := []; Timestamp := i64 (be_get ts) |}
  else if bool_decide (msgType = MsgPong) then
    if (n <? PingPongPayloadSize)%nat then Err (ErrInvalidPayload PongTooSmall) else
    ts ← go_slice payload 0 8;
    Ok {| Type_ := msgType; Frame := []; Version := 0; Challenge := [];
          Response := []; Timestamp := i64 (be_get ts) |}
  else if bool_decide (msgType = MsgBye) then Ok msg
  else Err (ErrUnknownMsgType msgType).

Definition Decode (data : list byte) : prog Codec perr Message :=
  tp ← decode data;
  lift (parsePayload tp.1 tp.2).

Definition VerifyChallengeResponse (c : Codec) (challenge response : list byte) : bool :=
  if negb (secureMode c) then true else
  if negb (length challenge =? ChallengeSize)%nat || negb (length response =? ChallengeRespLen)%nat
  then false
  else bool_decide (computeHMAC c challenge = response).

(** ** The wire format

    [signedPart] is what the HMAC covers: type, nonce and payload. *)

Definition signedPart (t : byte) (nonce : Z) (payload : list byte) : list byte :=
  t :: be_put 8 nonce ++ payload.

Lemma length_signedPart t n p : length (signedPart t n p) = (9 + length p)%nat.
Proof. unfold signedPart. len. Qed.

Lemma encode_secure t p c : secureMode c = true ->
  encode t p c =
    let n := u64 (sendNonce c + 1) in
    (set_sendNonce n c, signedPart t n p ++ mac (key c) (signedPart t n p)).
Proof.
  intros Hs. unfold encode, nextNonce, computeHMAC. rewrite Hs. cbn zeta.
  set (n := u64 (sendNonce c + 1)).
  unfold make_bytes, NonceSize, HMACSize.
  replace (1 + 8 + length p + 32)%nat with (S (8 + (length p + 32)))%nat by lia.
  rewrite replicate_S. cbn [insert list_insert].
  rewrite !replicate_add.
  assert (E1 : go_copy (t :: replicate 8 x00 ++ replicate (length p) x00 ++ replicate 32 x00)
                 1 9 (be_put 8 n)
               = [t] ++ be_put 8 n ++ replicate (length p) x00 ++ replicate 32 x00).
  { apply (go_copy_app [t]); len. }
  rewrite E1.
  assert (E2 : go_copy ([t] ++ be_put 8 n ++ replicate (length p) x00 ++ replicate 32 x00)
                 9 (9 + length p) p
               = signedPart t n p ++ replicate 32 x00).
  { rewrite app_assoc, go_copy_app; [unfold signedPart; by simplify_list_eq|len..]. }
  rewrite E2. unfold set_sendNonce at 1. cbn [key]. f_equal.
  rewrite <- (app_nil_r (replicate 32 x00)) at 1.
  rewrite (take_app_length' (signedPart t n p)) by (rewrite length_signedPart; lia).
  rewrite <- (app_nil_r (replicate 32 x00)) at 1.
  rewrite go_copy_app; [by rewrite app_nil_r|..];
    rewrite ?length_app, ?length_signedPart, ?mac_length, ?length_replicate; simpl; lia.
Qed.

Lemma encode_insecure t p c : secureMode c = false -> encode t p c = (c, t :: p).
Proof.
  intros Hs. unfold encode. rewrite Hs. f_equal.
  unfold make_bytes. cbn [Nat.add replicate insert list_insert].
  rewrite <- (app_nil_r (replicate _ x00)).
  etrans; [apply (go_copy_app [t] (replicate (length p) x00) [] p)|]; [len..|].
  by rewrite app_nil_r.
Qed.

(** ** What [decode] does, branch by branch *)

Definition isHandshake (t : byte) : bool :=
  bool_decide (t = MsgHello) || bool_decide (t = MsgHelloAck).

Lemma not_handshake_test t :
  bool_decide (t ≠ MsgHello) && bool_decide (t ≠ MsgHelloAck) = negb (isHandshake t).
Proof. unfold isHandshake. by repeat case_bool_decide. Qed.

Lemma wire_split (data : list byte) : (41 <= length data)%nat ->
  exists t nb p sig, data = t :: nb ++ p ++ sig /\ length nb = 8%nat /\ length sig = 32%nat.
Proof.
  intros H. destruct data as [|t rest]; [simpl in H; lia|].
  exists t, (take 8 rest), (slice 8 (length rest - 32) rest), (drop (length rest - 32) rest).
  split; [|simpl in H; split; len].
  f_equal. apply slice_split. simpl in H. lia.
Qed.

Lemma decode_empty c : decode [] c = (c, Err ErrMessageTooShort).
Proof. done. Qed.

Lemma decode_insecure c t p : secureMode c = false -> decode (t :: p) c = (c, Ok (t, p)).
Proof.
  intros Hs. unfold decode. cbn [length MinHeaderSize]. unfold_prog. simpl. rewrite Hs.
  rewrite go_slice_ok by (simpl; lia). unfold slice. simpl.
  by rewrite Nat.sub_0_r, firstn_all.
Qed.

Lemma decode_secure_short c data :
  secureMode c = true -> (length data < 41)%nat -> decode data c = (c, Err ErrMessageTooShort).
Proof.
  intros Hs Hl. destruct data as [|t rest]; [done|].
  unfold decode. unfold_prog. rewrite (proj2 (Nat.ltb_ge _ _)), Hs
    by (unfold MinHeaderSize; simpl; lia).
  by rewrite (proj2 (Nat.ltb_lt _ _)) by (unfold NonceSize, HMACSize; lia).
Qed.

Lemma decode_secure_wire c t nb p sig :
  secureMode c = true -> length nb = 8%nat -> length sig = 32%nat ->
  decode (t :: nb ++ p ++ sig) c =
    if negb (verifyHMAC c (t :: nb ++ p) sig) then (c, Err ErrInvalidHMAC) else
    if isHandshake t then (c, Ok (t, p)) else
    if (0 <? be_get nb) && (be_get nb <=? recvNonce c) then (c, Err ErrReplayDetected)
    else (set_recvNonce (be_get nb) c, Ok (t, p)).
Proof.
  intros Hs Hnb Hsig. unfold decode. unfold_prog.
  set (data := t :: nb ++ p ++ sig).
  assert (L : length data = (9 + length p + 32)%nat) by (unfold data; len).
  rewrite L, (proj2 (Nat.ltb_ge _ _)), Hs, (proj2 (Nat.ltb_ge _ _))
    by (unfold MinHeaderSize, NonceSize, HMACSize; lia).
  unfold HMACSize. replace (9 + length p + 32 - 32)%nat with (9 + length p)%nat by lia.
  rewrite !go_slice_ok by lia.
  change (go_index data 0) with (@Ok perr _ t). cbn -[slice Nat.add be_get Z.ltb Z.leb].
  assert (slice 1 9 data = nb) as -> by (apply (slice_app_mid [t]); len).
  assert (slice 9 (9 + length p) data = p) as ->.
  { unfold data. rewrite app_comm_cons. apply slice_app_mid; len. }
  assert (slice (9 + length p) (9 + length p + 32) data = sig) as ->.
  { unfold data. rewrite app_assoc, app_comm_cons, <- (app_nil_r sig) at 1.
    apply slice_app_mid; len. }
  assert (slice 0 (9 + length p) data = t :: nb ++ p) as ->.
  { unfold data. rewrite app_assoc, app_comm_cons. apply (slice_app_mid [] (t :: nb ++ p) sig); len. }
  rewrite not_handshake_test. by destruct (verifyHMAC _ _ _), (isHandshake t), (_ && _).
Qed.

End codec.

End Protocol.
