(* ===== verification/ProtocolProps.v ===== *)
(** * Properties of the wire protocol

    Theorems about the definitions of [Protocol]: the wire layout, the round
    trip of every message, delivery of lossy streams, replay rejection,
    authenticity of what is accepted, absence of panics. *)

From Stdlib Require Import Sorted.
From S2P Require Import Prelude Sha256 Protocol.
Import Protocol.

Module ProtocolProps.

(** ** Abstract messages

    What one peer says to the other, before the wire: the six message types
    with the data the caller supplies. *)

Inductive amsg :=
| AFrame (frame : list byte)
| AHello (challenge : list byte)
| AHelloAck (challenge : list byte)
| APing (timestamp : Z)
| APong (timestamp : Z)
| ABye.

Definition amsg_wf (m : amsg) : Prop :=
  match m with
  | AFrame f => (MinEthernetFrame <= length f <= MaxFrameSize)%nat
  | AHello ch | AHelloAck ch => length ch = ChallengeSize
  | APing ts | APong ts => is_i64 ts
  | ABye => True
  end.

Definition amsg_type (m : amsg) : byte :=
  match m with
  | AFrame _ => MsgFrame | AHello _ => MsgHello | AHelloAck _ => MsgHelloAck
  | APing _ => MsgPing | APong _ => MsgPong | ABye => MsgBye
  end.

(** The state invariant of a codec. *)
Definition codec_wf (c : Codec) : Prop :=
  is_u64 (sendNonce c) /\ is_u64 (recvNonce c) /\ secureMode c = (0 <? length (key c))%nat.

(** Two codecs configured with the same pre-shared key. *)
Definition same_key (s r : Codec) : Prop :=
  key s = key r /\ secureMode s = secureMode r.

(** The receiver has not seen a nonce at or above [n]. *)
Definition fresh (r : Codec) (n : Z) : Prop := n = 0 \/ recvNonce r < n.

(** The nonce field of a datagram. *)
Definition wireNonce (w : list byte) : Z := be_get (slice 1 9 w).

(** What a caller of [Decode] may rely on for each message type. *)
Definition msg_wf (m : Message) : Prop :=
  (Type_ m = MsgFrame /\ (MinEthernetFrame <= length (Frame m) <= MaxFrameSize)%nat) \/
  (Type_ m = MsgHello /\ Version m = ProtocolVersion /\ length (Challenge m) = ChallengeSize) \/
  (Type_ m = MsgHelloAck /\ Version m = ProtocolVersion /\ length (Response m) = ChallengeRespLen) \/
  ((Type_ m = MsgPing \/ Type_ m = MsgPong) /\ is_i64 (Timestamp m)) \/
  Type_ m = MsgBye.

(** The operations the program performs on a codec. *)
Inductive codec_op :=
| OpSend (m : amsg)
| OpDecode (data : list byte)
| OpReset.

Section props.
Context `{M : Mac}.

(** The encoder that sends an abstract message. *)
Definition send (m : amsg) : prog Codec perr (list byte) :=
  match m with
  | AFrame f => EncodeFrame f
  | AHello ch => mc ← EncodeHello (Some ch); mret mc.1
  | AHelloAck ch => fun c => let '(c1, w) := EncodeHelloAck ch c in (c1, Ok w)
  | APing ts => fun c => let '(c1, w) := EncodePing ts c in (c1, Ok w)
  | APong ts => fun c => let '(c1, w) := EncodePong ts c in (c1, Ok w)
  | ABye => fun c => let '(c1, w) := EncodeBye c in (c1, Ok w)
  end.

(** The response a HELLO_ACK carries: zeros without a key. *)
Definition ackResponse (c : Codec) (ch : list byte) : list byte :=
  if secureMode c then mac (key c) ch else make_bytes ChallengeRespLen.

(** The message the receiver is meant to see. *)
Definition denote (c : Codec) (m : amsg) : Message :=
  match m with
  | AFrame f => mkMessage MsgFrame f 0 [] [] 0
  | AHello ch => mkMessage MsgHello [] ProtocolVersion ch [] 0
  | AHelloAck ch => mkMessage MsgHelloAck [] ProtocolVersion [] (ackResponse c ch) 0
  | APing ts => mkMessage MsgPing [] 0 [] [] ts
  | APong ts => mkMessage MsgPong [] 0 [] [] ts
  | ABye => zeroMessage MsgBye
  end.

Definition amsg_payload (c : Codec) (m : amsg) : list byte :=
  match m with
  | AFrame f => f
  | AHello ch => be_put 2 ProtocolVersion ++ ch
  | AHelloAck ch => be_put 2 ProtocolVersion ++ ackResponse c ch
  | APing ts | APong ts => be_put 8 (u64 ts)
  | ABye => []
  end.

Fixpoint sendAll (ms : list amsg) (s : Codec) : Codec * list (amsg * list byte) :=
  match ms with
  | [] => (s, [])
  | m :: ms' =>
      match send m s with
      | (s1, Ok w) => let '(s2, ws) := sendAll ms' s1 in (s2, (m, w) :: ws)
      | (s1, _) => sendAll ms' s1
      end
  end.

Fixpoint recvAll (ws : list (list byte)) (r : Codec) : Codec * list (outcome perr Message) :=
  match ws with
  | [] => (r, [])
  | w :: ws' =>
      let '(r1, o) := Decode w r in
      let '(r2, os) := recvAll ws' r1 in (r2, o :: os)
  end.

Definition codec_step (c : Codec) (op : codec_op) : Codec :=
  match op with
  | OpSend m => (send m c).1
  | OpDecode data => (Decode data c).1
  | OpReset => ResetRecvNonce c
  end.

(** Nonces of the datagrams [decode] accepts outside the handshake, in order. *)
Fixpoint acceptedNonces (ws : list (list byte)) (r : Codec) : list Z :=
  match ws with
  | [] => []
  | w :: ws' =>
      match decode w r with
      | (r1, Ok (t, _)) =>
          if isHandshake t then acceptedNonces ws' r1
          else wireNonce w :: acceptedNonces ws' r1
      | (r1, _) => acceptedNonces ws' r1
      end
  end.

(** ** Lemmas *)

Lemma ping_payload ts :
  go_copy (make_bytes PingPongPayloadSize) 0 8 (be_put 8 (u64 ts)) = be_put 8 (u64 ts).
Proof. by apply go_copy_full. Qed.

Lemma hello_prefix n : (2 <= n)%nat ->
  go_copy (make_bytes n) 0 2 (be_put 2 ProtocolVersion)
  = be_put 2 ProtocolVersion ++ make_bytes (n - 2).
Proof.
  intros. unfold make_bytes. replace n with (2 + (n - 2))%nat at 1 by lia.
  rewrite replicate_add. by apply (go_copy_app [] (replicate 2 x00)).
Qed.

Lemma EncodeHello_eq r c : length r = ChallengeSize ->
  EncodeHello (Some r) c =
    let '(c1, w) := encode MsgHello (amsg_payload c (AHello r)) c in (c1, Ok (w, r)).
Proof.
  intros Hr. unfold EncodeHello. rewrite hello_prefix by (vm_compute; lia).
  rewrite go_copy_tail by (rewrite ?Hr; reflexivity).
  by rewrite slice_suffix by (rewrite ?Hr; reflexivity).
Qed.

Lemma EncodeHelloAck_eq ch c : length ch = ChallengeSize ->
  EncodeHelloAck ch c = encode MsgHelloAck (amsg_payload c (AHelloAck ch)) c.
Proof.
  intros Hch. unfold EncodeHelloAck. cbn [amsg_payload]. unfold ackResponse.
  rewrite hello_prefix, Hch by (vm_compute; lia). cbn [Nat.eqb ChallengeSize]. rewrite andb_true_r.
  destruct (secureMode c); [|done].
  rewrite go_copy_tail; [done|done| |]; unfold computeHMAC; rewrite ?mac_length; done.
Qed.

Lemma send_encode m c : amsg_wf m ->
  send m c = let '(c1, w) := encode (amsg_type m) (amsg_payload c m) c in (c1, Ok w).
Proof.
  destruct m as [f|ch|ch|ts|ts|]; intros Wf; cbn [send amsg_type]; simpl in Wf.
  - unfold EncodeFrame.
    by rewrite (proj2 (Nat.ltb_ge _ _)), (proj2 (Nat.ltb_ge _ _)) by lia.
  - unfold_prog. rewrite EncodeHello_eq by done. by destruct (encode _ _ _).
  - by rewrite EncodeHelloAck_eq.
  - unfold EncodePing. by rewrite ping_payload.
  - unfold EncodePong. by rewrite ping_payload.
  - done.
Qed.

Lemma timestamp_roundtrip ts : is_i64 ts -> i64 (be_get (be_put 8 (u64 ts))) = ts.
Proof.
  intros H. rewrite be_get_put. change (8 * Z.of_nat 8) with 64.
  change (i64 (wrap 64 (wrap 64 ts)) = ts).
  rewrite wrap_wrap, swrap_wrap by lia. by apply swrap_small.
Qed.

Lemma parse_payload c m : amsg_wf m ->
  parsePayload (amsg_type m) (amsg_payload c m) = Ok (denote c m).
Proof.
  intros Wf. unfold parsePayload.
  destruct m as [f|ch|ch|ts|ts|]; cbn [amsg_type amsg_payload]; simpl in Wf;
    eval_decisions.
  - by rewrite (proj2 (Nat.ltb_ge _ _)), (proj2 (Nat.ltb_ge _ _)) by lia.
  - rewrite (proj2 (Nat.ltb_ge _ _)) by (rewrite length_app, Wf; vm_compute; lia).
    rewrite !go_slice_ok by (rewrite ?length_app, ?Wf; vm_compute; lia).
    by rewrite slice_prefix, slice_suffix by (rewrite ?Wf; done).
  - assert (length (ackResponse c ch) = ChallengeRespLen) as L
      by (unfold ackResponse; case_match; rewrite ?mac_length; done).
    rewrite (proj2 (Nat.ltb_ge _ _)) by (rewrite length_app, L; vm_compute; lia).
    rewrite !go_slice_ok by (rewrite ?length_app, ?L; vm_compute; lia).
    by rewrite slice_prefix, slice_suffix by (rewrite ?L; done).
  - rewrite (proj2 (Nat.ltb_ge _ _)) by (rewrite length_be_put; vm_compute; lia).
    rewrite go_slice_ok by (rewrite ?length_be_put; lia).
    rewrite slice_all by (by rewrite length_be_put).
    cbn -[be_put be_get u64 i64]. by rewrite timestamp_roundtrip.
  - rewrite (proj2 (Nat.ltb_ge _ _)) by (rewrite length_be_put; vm_compute; lia).
    rewrite go_slice_ok by (rewrite ?length_be_put; lia).
    rewrite slice_all by (by rewrite length_be_put).
    cbn -[be_put be_get u64 i64]. by rewrite timestamp_roundtrip.
  - done.
Qed.

Lemma signed_app t n p m : signedPart t n p ++ m = t :: be_put 8 n ++ p ++ m.
Proof. unfold signedPart. by rewrite <- app_comm_cons, <- app_assoc. Qed.

Lemma be_get_nonce n : is_u64 n -> be_get (be_put 8 n) = n.
Proof. intros. rewrite be_get_put. by apply Z.mod_small. Qed.

(** A genuine secure datagram: what [decode] makes of it. *)
Lemma decode_genuine r t n p :
  secureMode r = true -> is_u64 n ->
  decode (signedPart t n p ++ mac (key r) (signedPart t n p)) r =
    if isHandshake t then (r, Ok (t, p)) else
    if (0 <? n) && (n <=? recvNonce r) then (r, Err ErrReplayDetected)
    else (set_recvNonce n r, Ok (t, p)).
Proof.
  intros Hs Hn. rewrite signed_app, decode_secure_wire by (rewrite ?length_be_put, ?mac_length; done).
  unfold verifyHMAC, computeHMAC. rewrite bool_decide_eq_true_2 by done.
  by rewrite be_get_nonce.
Qed.

Lemma fresh_test r n :
  is_u64 n -> fresh r n -> (0 <? n) && (n <=? recvNonce r) = false.
Proof. intros ? [->|?]; [done|]. destruct (0 <? n); [|done]. simpl. apply Z.leb_gt. lia. Qed.

Lemma wireNonce_signed t n p m : is_u64 n -> wireNonce (signedPart t n p ++ m) = n.
Proof.
  intros. unfold wireNonce. rewrite signed_app.
  change (t :: ?l) with ([t] ++ l). rewrite slice_app_mid by done. by apply be_get_nonce.
Qed.

Lemma nextNonce_u64 c : is_u64 (u64 (sendNonce c + 1)).
Proof. by apply (wrap_bound 64). Qed.

(** A datagram longer than the smallest secure one, taken apart. *)
Lemma decode_secure_cases data c :
  secureMode c = true ->
  (decode data c = (c, Err ErrMessageTooShort) /\ (length data < 41)%nat) \/
  (exists t n p sig, data = signedPart t n p ++ sig /\ length sig = 32%nat /\ is_u64 n /\
     decode data c =
       if negb (verifyHMAC c (signedPart t n p) sig) then (c, Err ErrInvalidHMAC) else
       if isHandshake t then (c, Ok (t, p)) else
       if (0 <? n) && (n <=? recvNonce c) then (c, Err ErrReplayDetected)
       else (set_recvNonce n c, Ok (t, p))).
Proof.
  intros Hs. destruct (decide (length data < 41)%nat) as [|Hl].
  - left. by rewrite decode_secure_short.
  - right. destruct (wire_split data) as (t & nb & p & sig & -> & Hnb & Hsig); [lia|].
    assert (be_put 8 (be_get nb) = nb) as E by (rewrite <- Hnb; apply be_put_get).
    assert (is_u64 (be_get nb)) as Hu by (pose proof (be_get_bound nb); by rewrite Hnb in *).
    exists t, (be_get nb), p, sig. unfold signedPart. rewrite E.
    split; [by rewrite <- app_comm_cons, <- app_assoc|].
    split; [done|]. split; [done|]. by rewrite decode_secure_wire.
Qed.

Lemma send_secure m s : amsg_wf m -> secureMode s = true ->
  send m s = let n := u64 (sendNonce s + 1) in
             let w := signedPart (amsg_type m) n (amsg_payload s m) in
             (set_sendNonce n s, Ok (w ++ mac (key s) w)).
Proof. intros. by rewrite send_encode, encode_secure. Qed.

(** What the receiver makes of a sent message, as one step. *)
Lemma Decode_sent_secure s r m :
  same_key s r -> secureMode s = true -> amsg_wf m -> 
  let n := u64 (sendNonce s + 1) in
  let w := signedPart (amsg_type m) n (amsg_payload s m) in
  isHandshake (amsg_type m) = true \/ fresh r n ->
  Decode (w ++ mac (key s) w) r =
    (if isHandshake (amsg_type m) then r else set_recvNonce n r, Ok (denote s m)).
Proof.
  intros [Hk Hm] Hs Wf n w Hf. unfold Decode. unfold_prog.
  rewrite Hk. unfold w. rewrite decode_genuine by (congruence || apply nextNonce_u64).
  destruct (isHandshake _) eqn:Hh; cbn [fst snd].
  - by rewrite parse_payload.
  - destruct Hf as [|Hf]; [congruence|].
    rewrite fresh_test by (done || apply nextNonce_u64). cbn [fst snd]. by rewrite parse_payload.
Qed.

Lemma denote_key c c' m : same_key c c' -> denote c m = denote c' m.
Proof. intros [E1 E2]. destruct m; simpl; unfold ackResponse; by rewrite ?E1, ?E2. Qed.

Lemma same_key_send s r n : same_key s r -> same_key (set_sendNonce n s) r.
Proof. done. Qed.
Lemma same_key_recv s r n : same_key s r -> same_key s (set_recvNonce n r).
Proof. done. Qed.

(** Handshake messages are read back in either mode, whatever the nonces. *)
Lemma Decode_handshake s r m :
  same_key s r -> amsg_wf m -> isHandshake (amsg_type m) = true ->
  Decode (encode (amsg_type m) (amsg_payload s m) s).2 r = (r, Ok (denote s m)).
Proof.
  intros Hk Wf Hh. destruct (secureMode s) eqn:Hs.
  - rewrite encode_secure by done. cbv zeta. cbn [snd].
    rewrite Decode_sent_secure by auto. by rewrite Hh.
  - rewrite encode_insecure by done. destruct Hk as [_ Hm]. unfold Decode. unfold_prog.
    cbn [snd]. rewrite decode_insecure by congruence. cbn [fst snd]. by rewrite parse_payload.
Qed.

Lemma length_encode t p c :
  length (encode t p c).2 = (length p + if secureMode c then 41 else 1)%nat.
Proof.
  destruct (secureMode c) eqn:Hs.
  - rewrite encode_secure by done. cbv zeta. cbn [snd].
    rewrite length_app, length_signedPart, mac_length. lia.
  - rewrite encode_insecure by done. simpl. lia.
Qed.

(** ** Properties *)

(** C4.  Every message survives the trip: what one codec encodes, a codec with
    the same key decodes to exactly the message meant, provided the nonce is
    fresh for the receiver (handshake messages need no freshness); the
    receiver then remembers the nonce, and only then. *)
Theorem codec_roundtrip s r m :
  same_key s r -> amsg_wf m ->
  (secureMode s = true -> isHandshake (amsg_type m) = true \/ fresh r (u64 (sendNonce s + 1))) ->
  exists s1 w, send m s = (s1, Ok w) /\
    Decode w r =
      (if secureMode s && negb (isHandshake (amsg_type m))
       then set_recvNonce (u64 (sendNonce s + 1)) r else r,
       Ok (denote s m)).
Proof.
  intros Hk Wf Hf. destruct (secureMode s) eqn:Hs.
  - rewrite send_secure by done. cbv zeta. do 2 eexists. split; [done|].
    rewrite Decode_sent_secure by auto. by destruct (isHandshake _).
  - destruct Hk as [_ Hm]. rewrite send_encode, encode_insecure by done.
    do 2 eexists. split; [done|]. unfold Decode. unfold_prog.
    rewrite decode_insecure by congruence. cbn [fst snd]. by rewrite parse_payload.
Qed.

(** C14.  A lossy channel that keeps the order loses nothing more than what it
    dropped: any subsequence of the datagrams a peer sent is accepted whole,
    each one as the message it encodes. *)
Theorem stream_delivery ms : forall s r sub,
  same_key s r -> secureMode s = true -> is_u64 (sendNonce s) ->
  Forall (fun m => amsg_wf m /\ isHandshake (amsg_type m) = false) ms ->
  recvNonce r <= sendNonce s -> sendNonce s + Z.of_nat (length ms) < 2 ^ 64 ->
  sublist sub (sendAll ms s).2 ->
  (recvAll sub.*2 r).2 = (fun m => Ok (denote s m)) <$> sub.*1.
Proof.
  induction ms as [|m ms IH]; intros s r sub Hk Hs Hu Hms Hle Hb Hsub.
  { apply sublist_nil_r in Hsub as ->. done. }
  apply Forall_cons in Hms as [[Wf Hh] Hms].
  assert (u64 (sendNonce s + 1) = sendNonce s + 1) as En.
  { apply wrap_small. simpl length in Hb. unfold is_u64 in Hu. lia. }
  cbn [sendAll] in Hsub. rewrite send_secure in Hsub by done. cbv zeta in Hsub. rewrite En in Hsub.
  set (s1 := set_sendNonce (sendNonce s + 1) s) in *.
  destruct (sendAll ms s1) as [s2 ws] eqn:Ews. cbn [snd] in Hsub.
  assert (forall r' sub', same_key s r' -> recvNonce r' <= sendNonce s1 -> sublist sub' ws ->
            (recvAll sub'.*2 r').2 = (fun m => Ok (denote s m)) <$> sub'.*1) as IH'.
  { intros r' sub' Hk' Hle' Hsub'.
    rewrite (IH s1 r' sub'); try done; simpl; simpl length in Hb; unfold is_u64 in *; try lia.
    by rewrite Ews. }
  apply sublist_cons_r in Hsub as [Hsub|(sub' & -> & Hsub)].
  - apply IH'; simpl; [done|lia|done].
  - cbn [fmap list_fmap fst snd recvAll]. 
    rewrite <- En, Decode_sent_secure; [|done..|right; right; rewrite En; lia].
    rewrite Hh. specialize (IH' (set_recvNonce (u64 (sendNonce s + 1)) r) sub').
    destruct (recvAll sub'.*2 _) as [r2 os]. simpl in *. rewrite IH' by (done || lia). done.
Qed.

(** A nonce after another in the window: larger, or zero. *)
Definition window_next (m n : Z) : Prop := n = 0 \/ m < n.

Lemma acceptedNonces_window ws : forall r, secureMode r = true ->
  Sorted window_next (recvNonce r :: acceptedNonces ws r).
Proof.
  induction ws as [|w ws IH]; intros r Hs; [repeat constructor|]. cbn [acceptedNonces].
  destruct (decode_secure_cases w r Hs)
    as [[E _]|(t & n & p & sig & -> & Hsig & Hn & E)]; rewrite E; [by apply IH|].
  rewrite wireNonce_signed by done.
  destruct (negb _); [by apply IH|]. destruct (isHandshake t) eqn:Hh.
  { rewrite Hh. by apply IH. }
  destruct (_ && _) eqn:Ht; [by apply IH|]. rewrite Hh.
  constructor; [by apply (IH (set_recvNonce n r))|]. constructor. unfold window_next.
  apply andb_false_iff in Ht as [Ht|Ht]; reflect_all; unfold is_u64 in Hn; lia.
Qed.

Lemma window_sorted l : forall m, Sorted window_next (m :: l) -> 0 ∉ l -> StronglySorted Z.lt (m :: l).
Proof.
  induction l as [|n l IH]; intros m H H0; [repeat constructor|]. apply not_elem_of_cons in H0 as [Hn H0].
  inversion H as [|? ? Hs Hr]; subst. inversion Hr as [|? ? Hw]; subst. specialize (IH n Hs H0).
  assert (m < n) as Hlt by (destruct Hw; [congruence|done]). constructor; [done|].
  inversion IH as [|? ? _ Hall]; subst. constructor; [done|]. eapply Forall_impl; [exact Hall|]. simpl. lia.
Qed.

(** C9. Replay protection: whatever is delivered, in whatever order and however
    often, each nonce accepted outside the handshake is larger than the one
    accepted before it, or zero.  So unless a message with nonce zero is
    accepted, which resets the window, the nonces accepted are strictly
    increasing from the last one seen and no message is accepted twice; and an
    encoder that has made fewer than 2^64 - 1 messages makes none with nonce
    zero. *)
Theorem no_replay (ws : list (list byte)) (r : Codec) (Hs : secureMode r = true) :
  Sorted window_next (recvNonce r :: acceptedNonces ws r) /\
  (0 ∉ acceptedNonces ws r -> StronglySorted Z.lt (recvNonce r :: acceptedNonces ws r)) /\
  (forall s t p, secureMode s = true -> 0 <= sendNonce s < 2 ^ 64 - 1 -> wireNonce (encode t p s).2 <> 0).
Proof.
  pose proof (acceptedNonces_window ws r Hs) as H. split; [done|]. split; [by apply window_sorted|].
  intros s t p Hm Hb. rewrite encode_secure by done. cbv zeta. cbn [snd]. rewrite wrap_small by lia.
  rewrite wireNonce_signed; unfold is_u64; lia.
Qed.

(**  A second delivery of an accepted message fails: it is reported as a
    replay and leaves the codec as it was. *)
Theorem replay_rejected c c1 w t p :
  secureMode c = true -> decode w c = (c1, Ok (t, p)) ->
  isHandshake t = false -> wireNonce w <> 0 ->
  decode w c1 = (c1, Err ErrReplayDetected).
Proof.
  intros Hs Hd Hh Hnz.
  destruct (decode_secure_cases w c Hs) as [[E _]|(t' & n & p' & sig & -> & Hsig & Hn & E)];
    rewrite E in Hd; [done|]. rewrite wireNonce_signed in Hnz by done. clear E.
  destruct (negb (verifyHMAC _ _ _)) eqn:Hv; [done|].
  destruct (isHandshake t') eqn:Hh'; [congruence|].
  destruct (_ && _) eqn:Hr; [done|]. simplify_eq.
  rewrite signed_app, decode_secure_wire by (done || apply length_be_put).
  rewrite be_get_nonce by done. change (t :: be_put 8 n ++ p) with (signedPart t n p).
  unfold verifyHMAC, computeHMAC in *. simpl. rewrite Hv, Hh'.
  rewrite (proj2 (Z.ltb_lt _ _)), Z.leb_refl by (unfold is_u64 in Hn; lia). done.
Qed.

(** C12.  Authenticity: a secure codec accepts a datagram only if it is, byte for
    byte, what [encode] produces under the same key for the type and payload
    it reports. *)
Theorem accepted_is_encoded c c1 w t p :
  secureMode c = true -> decode w c = (c1, Ok (t, p)) ->
  exists s, key s = key c /\ secureMode s = true /\ is_u64 (sendNonce s) /\ (encode t p s).2 = w.
Proof.
  intros Hs Hd.
  destruct (decode_secure_cases w c Hs) as [[E _]|(t' & n & p' & sig & -> & Hsig & Hn & E)];
    rewrite E in Hd; [done|]. clear E.
  destruct (negb (verifyHMAC _ _ _)) eqn:Hv; [done|].
  assert (t' = t /\ p' = p) as [-> ->] by (repeat case_match; by simplify_eq).
  apply negb_false_iff, bool_decide_eq_true in Hv. unfold computeHMAC in Hv. subst sig.
  exists (mkCodec (key c) (u64 (n - 1)) 0 true).
  repeat split; try apply (wrap_bound 64); try done.
  rewrite encode_secure by done. cbn [sendNonce key]. cbv zeta.
  replace (u64 (u64 (n - 1) + 1)) with n; [done|].
  unfold wrap. rewrite Zplus_mod_idemp_l. symmetry. rewrite Z.mod_small; unfold is_u64 in Hn; lia.
Qed.

Lemma parsePayload_no_panic t p : parsePayload t p <> Panic.
Proof.
  unfold parsePayload, HelloPayloadSize, HelloAckPayloadSize,
    PingPongPayloadSize, ChallengeSize, ChallengeRespLen.
  repeat case_match; reflect_all; try done;
    (rewrite !go_slice_ok by lia; cbn -[be_get slice]; by repeat case_match).
Qed.

Lemma Decode_not_panic data c c1 : Decode data c <> (c1, Panic).
Proof.
  unfold Decode. unfold_prog. destruct (secureMode c) eqn:Hs.
  - destruct (decode_secure_cases data c Hs)
      as [[-> _]|(t' & n & p' & sig & -> & Hsig & Hn & ->)]; [done|].
    repeat case_match; simplify_eq/=; intros [= _ E]; by apply parsePayload_no_panic in E.
  - destruct data as [|t p]; [done|]. rewrite decode_insecure by done. simpl.
    intros [= _ E]. by apply parsePayload_no_panic in E.
Qed.

(** No input makes the decoder panic: every slice and index expression of
    [decode] and [Decode] is in range. *)
Theorem Decode_no_panic data c : no_panic (Decode data c).2.
Proof.
  intros E. destruct (Decode data c) as [c1 o] eqn:ED. simpl in E. subst o.
  by apply Decode_not_panic in ED.
Qed.

Lemma encode_state t p c :
  (encode t p c).1 = if secureMode c then set_sendNonce (u64 (sendNonce c + 1)) c else c.
Proof.
  destruct (secureMode c) eqn:Hs; [by rewrite encode_secure|by rewrite encode_insecure].
Qed.

Lemma send_state m c : (send m c).1 = c \/ (send m c).1 = set_sendNonce (u64 (sendNonce c + 1)) c.
Proof.
  assert (forall t p c1 w, encode t p c = (c1, w) ->
            c1 = c \/ c1 = set_sendNonce (u64 (sendNonce c + 1)) c) as H.
  { intros t p c1 w E. apply (f_equal fst) in E. rewrite encode_state in E. simpl in E.
    destruct (secureMode c); auto. }
  destruct m; simpl; unfold EncodeFrame, EncodeHello, EncodeHelloAck, EncodePing, EncodePong, EncodeBye;
    unfold_prog; repeat case_match; simplify_eq/=; eauto.
Qed.

Lemma decode_state data c :
  (decode data c).1 = c \/
  exists n, is_u64 n /\ (decode data c).1 = set_recvNonce n c /\ is_Some (data !! 0%nat).
Proof.
  destruct (secureMode c) eqn:Hs.
  - destruct (decode_secure_cases data c Hs)
      as [[-> _]|(t' & n & p' & sig & -> & Hsig & Hn & ->)]; [by left|].
    repeat case_match; simpl; try (by left). right. exists n. split; [done|]. split; [done|]. by eexists.
  - left. destruct data as [|t p]; [done|]. by rewrite decode_insecure.
Qed.

Lemma Decode_state data c : (Decode data c).1 = (decode data c).1.
Proof. unfold Decode. unfold_prog. by destruct (decode data c) as [c1 [[t p]|e|]]. Qed.

(**  The codec's invariant: from [NewCodec], any sequence of sends, receives
    and resets keeps both nonces 64-bit values, the key as configured, and the
    mode secure exactly when the key is non-empty. *)
Theorem codec_invariant k ops :
  codec_wf (foldl codec_step (NewCodec k) ops) /\ key (foldl codec_step (NewCodec k) ops) = k.
Proof.
  assert (forall c op, codec_wf c -> codec_wf (codec_step c op) /\ key (codec_step c op) = key c) as Hstep.
  { intros c [m|data|] Wf; simpl.
    - destruct (send_state m c) as [->| ->]; [done|].
      destruct Wf as (? & ? & ?). split; [split; [by apply (wrap_bound 64)|done]|done].
    - rewrite Decode_state.
      destruct (decode_state data c) as [->|(n & Hn & -> & _)]; [done|].
      destruct Wf as (? & ? & ?). split; [split; [done|split; done]|done].
    - destruct Wf as (? & ? & ?). split; [split; [done|split; done]|done]. }
  assert (codec_wf (NewCodec k) /\ key (NewCodec k) = k) as H0 by done.
  revert H0. generalize (NewCodec k). induction ops as [|op ops IH]; intros c [Wf Hk]; [done|].
  apply IH. destruct (Hstep c op Wf). split; congruence.
Qed.

Lemma parsePayload_wf t p m : parsePayload t p = Ok m -> msg_wf m.
Proof.
  unfold parsePayload, msg_wf, HelloPayloadSize, HelloAckPayloadSize, PingPongPayloadSize,
    ChallengeSize, ChallengeRespLen.
  case_bool_decide; [|case_bool_decide; [|case_bool_decide; [|case_bool_decide;
    [|case_bool_decide; [|case_bool_decide; [|done]]]]]].
  6: { intros [= <-]. naive_solver. }
  1: { do 2 (case_match; [done|]). intros [= <-]. reflect_all. left. simpl. split; [done|lia]. }
  1, 2: case_match; [done|]; reflect_all; rewrite !go_slice_ok by lia; cbn -[be_get slice];
    case_match; [done|]; intros [= <-]; reflect_all; right.
  1: left; split_and!; [done|done|]; apply (length_slice 2 18); lia.
  1: right; left; split_and!; [done|done|]; apply (length_slice 2 34); lia.
  all: case_match; [done|]; reflect_all; rewrite !go_slice_ok by lia; cbn -[be_get slice swrap];
    intros [= <-]; do 3 right; left; (split; [auto|by apply (swrap_bound 64)]).
Qed.

(**  What [Decode] returns is well-formed for its type: frames within the
    Ethernet bounds, the one protocol version, 16-byte challenges, 32-byte
    responses, 64-bit timestamps, and no other type at all. *)
Theorem Decode_wf data c c1 m : Decode data c = (c1, Ok m) -> msg_wf m.
Proof.
  unfold Decode. unfold_prog. intros H.
  destruct (decode data c) as [c' [[t p]|e|]]; [|done..]. cbn [fst snd] in H.
  injection H as _ H. by eapply parsePayload_wf.
Qed.

Lemma sendAll_cons m ms s w s1 : send m s = (s1, Ok w) ->
  sendAll (m :: ms) s = ((sendAll ms s1).1, (m, w) :: (sendAll ms s1).2).
Proof. intros E. simpl. rewrite E. by destruct (sendAll ms s1). Qed.

Lemma sendAll_nonces ms : forall s,
  secureMode s = true -> Forall amsg_wf ms ->
  wireNonce <$> (sendAll ms s).2.*2 = (fun i => u64 (sendNonce s + i)) <$> seqZ 1 (Z.of_nat (length ms)).
Proof.
  induction ms as [|m ms IH]; intros s Hs Hms; [done|].
  apply Forall_cons in Hms as [Wf Hms].
  erewrite sendAll_cons by (by apply send_secure).
  set (s1 := set_sendNonce (u64 (sendNonce s + 1)) s).
  specialize (IH s1 Hs Hms).
  rewrite seqZ_cons by (simpl length; lia).
  replace (Z.pred (Z.of_nat (length (m :: ms)))) with (Z.of_nat (length ms)) by (simpl length; lia).
  cbn [snd fmap list_fmap]. f_equal.
  - apply wireNonce_signed, nextNonce_u64.
  - etrans; [exact IH|]. rewrite <- (fmap_add_seqZ 1 1). rewrite <- list_fmap_compose. apply list_fmap_ext.
    intros _ i _. simpl. unfold wrap. rewrite Zplus_mod_idemp_l. f_equal. lia.
Qed.

(**  Nonces are not reused: the datagrams of any 2^64 consecutive sends carry
    pairwise distinct nonces, also when the counter wraps around. *)
Theorem nonces_distinct ms s :
  secureMode s = true -> Forall amsg_wf ms -> Z.of_nat (length ms) <= 2 ^ 64 ->
  NoDup (wireNonce <$> (sendAll ms s).2.*2).
Proof.
  intros Hs Hms Hl. rewrite sendAll_nonces by done.
  apply NoDup_fmap_2_strong; [|apply NoDup_seqZ].
  intros i j Hi%elem_of_seqZ Hj%elem_of_seqZ E. unfold wrap in E.
  apply (f_equal (fun z => (z - sendNonce s) mod 2 ^ 64)) in E.
  rewrite !Zminus_mod_idemp_l in E.
  replace (sendNonce s + i - sendNonce s) with i in E by lia.
  replace (sendNonce s + j - sendNonce s) with j in E by lia.
  assert (forall k, 1 <= k < 1 + Z.of_nat (length ms) -> (k mod 2 ^ 64 = k /\ k < 2 ^ 64) \/ (k = 2 ^ 64 /\ k mod 2 ^ 64 = 0)) as Hk.
  { intros k ?. destruct (decide (k = 2 ^ 64)) as [->|]; [by right|].
    left. rewrite Z.mod_small; lia. }
  destruct (Hk i), (Hk j); lia.
Qed.

(**  The challenge check in secure mode accepts exactly the HMAC of the
    16-byte challenge, the response [EncodeHelloAck] computes. *)
Theorem challenge_check c ch resp :
  secureMode c = true ->
  VerifyChallengeResponse c ch resp = true <->
  length ch = ChallengeSize /\ resp = ackResponse c ch.
Proof.
  intros Hs. unfold VerifyChallengeResponse, ackResponse, computeHMAC. rewrite Hs. simpl.
  destruct (length ch =? ChallengeSize)%nat eqn:E1; reflect_all; simpl; [|naive_solver].
  destruct (length resp =? ChallengeRespLen)%nat eqn:E2; reflect_all; simpl.
  - rewrite bool_decide_eq_true. naive_solver.
  - split; [done|]. intros [_ ->]. by rewrite mac_length in E2.
Qed.

(** A datagram once accepted is accepted by any codec with the key whose replay
    window is reset, and at any time if it belongs to the handshake. *)
Lemma decode_again c c1 c2 w t p :
  secureMode c = true -> decode w c = (c1, Ok (t, p)) -> same_key c c2 ->
  (isHandshake t = true -> decode w c2 = (c2, Ok (t, p))) /\
  (recvNonce c2 = 0 -> exists c3, decode w c2 = (c3, Ok (t, p))).
Proof.
  intros Hs Hd [Hk Hm].
  destruct (decode_secure_cases w c Hs) as [[E _]|(t' & n & p' & sig & -> & Hsig & Hn & E)];
    rewrite E in Hd; [done|]. clear E.
  destruct (negb (verifyHMAC _ _ _)) eqn:Hv; [done|].
  apply negb_false_iff, bool_decide_eq_true in Hv. unfold computeHMAC in Hv. subst sig.
  assert (t' = t /\ p' = p) as [-> ->] by (repeat case_match; by simplify_eq).
  rewrite Hk, decode_genuine by (simpl; congruence || done).
  split; [by intros ->|]. intros H0. case_match; [by eexists|].
  rewrite fresh_test; [by eexists|done|]. unfold fresh. rewrite H0. unfold is_u64 in Hn. lia.
Qed.

Lemma parsePayload_type t p m : parsePayload t p = Ok m -> Type_ m = t.
Proof.
  intros H. unfold parsePayload in H.
  repeat case_match; simplify_eq/=; try done;
    unfold go_slice in H; repeat case_match; simplify_eq/=; repeat case_match; by simplify_eq/=.
Qed.

(** The same for [Decode], for handshake messages. *)
Lemma Decode_handshake_again c c1 c2 w m :
  secureMode c = true -> Decode w c = (c1, Ok m) -> same_key c c2 -> isHandshake (Type_ m) = true ->
  Decode w c2 = (c2, Ok m).
Proof.
  unfold Decode. unfold_prog. intros Hs HD Hk Hh.
  destruct (decode w c) as [c' [[t p]|e|]] eqn:Hd; [|done..]. cbn [fst snd] in HD.
  injection HD as -> Hp. pose proof (parsePayload_type _ _ _ Hp) as Ht.
  destruct (decode_again _ _ c2 _ _ _ Hs Hd Hk) as [H _]. rewrite H by congruence.
  cbn [fst snd]. by rewrite Hp.
Qed.

(**  [ResetRecvNonce] reopens the window: any datagram that was ever
    accepted under the key is accepted again by a codec with that key whose
    receive nonce has been reset, whatever it has seen before. *)
Theorem replay_after_reset c c1 c2 w t p :
  secureMode c = true -> decode w c = (c1, Ok (t, p)) -> same_key c c2 ->
  exists c3, decode w (ResetRecvNonce c2) = (c3, Ok (t, p)).
Proof. intros Hs Hd Hk. by apply (decode_again c c1 (ResetRecvNonce c2)). Qed.

(**  Frame bounds: [EncodeFrame] refuses frames outside 14..1514 bytes and
    leaves the codec untouched; for the others the datagram is the frame plus
    41 bytes of overhead with a key and plus 1 byte without. *)
Theorem EncodeFrame_bounds f c :
  ((length f < 14 \/ 1514 < length f)%nat /\ EncodeFrame f c = (c, Err (ErrFrameSize (length f)))) \/
  ((14 <= length f <= 1514)%nat /\ exists c1 w, EncodeFrame f c = (c1, Ok w) /\
     length w = (length f + if secureMode c then 41 else 1)%nat).
Proof.
  unfold EncodeFrame, MinEthernetFrame, MaxFrameSize.
  destruct (_ || _) eqn:E; [left|right].
  - split; [|done]. apply orb_true_iff in E as [E|E]; reflect_all; lia.
  - reflect_all. split; [lia|]. pose proof (length_encode MsgFrame f c) as Hl.
    destruct (encode MsgFrame f c) as [c1 w]. by exists c1, w.
Qed.

Lemma set_recvNonce_same c : set_recvNonce (recvNonce c) c = c.
Proof. by destruct c. Qed.

(**  A rejected datagram leaves no trace: when [decode] reports an error,
    the codec is unchanged, and an accepted one changes at most the receive
    nonce. *)
Theorem decode_error_unchanged data c c1 o :
  decode data c = (c1, o) ->
  match o with
  | Err _ => c1 = c
  | Ok _ => c1 = set_recvNonce (recvNonce c1) c
  | Panic => False
  end.
Proof.
  intros H. destruct (secureMode c) eqn:Hs.
  - destruct (decode_secure_cases data c Hs)
      as [[E _]|(t' & n & p' & sig & -> & Hsig & Hn & E)]; rewrite E in H; simplify_eq; [done|].
    repeat case_match; simplify_eq; try done. by rewrite set_recvNonce_same.
  - destruct data as [|t p]; [by rewrite decode_empty in H; simplify_eq|].
    rewrite decode_insecure in H by done.
    simplify_eq. by rewrite set_recvNonce_same.
Qed.

(**  The buffer [encode] allocates, fills and signs in place is the
    documented layout: type, 8-byte nonce, payload and the HMAC of those three
    in secure mode, type and payload otherwise; only the send nonce moves. *)
Theorem encode_layout t p c :
  encode t p c =
    if secureMode c then
      let n := u64 (sendNonce c + 1) in
      (set_sendNonce n c,
       ([t] ++ be_put 8 n ++ p) ++ computeHMAC c ([t] ++ be_put 8 n ++ p))
    else (c, [t] ++ p).
Proof.
  destruct (secureMode c) eqn:Hs; [by rewrite encode_secure|by rewrite encode_insecure].
Qed.

End props.

(** ** Concrete instances

    Two peers with a key, a frame and a ping, under HMAC-SHA256. *)

Definition ex_key : list byte := Sha256.bytes_of_string "mysecretkey".
Definition ex_alice : Codec := NewCodec ex_key.
Definition ex_bob : Codec := NewCodec ex_key.
Definition ex_frame : list byte := replicate 20 xaa.
Definition ex_ping : list byte := (EncodePing (-7) ex_alice).2.
Definition ex_bob1 : Codec := (decode ex_ping ex_bob).1.
Definition ex_payload : list byte := be_put 8 (u64 (-7)).

Lemma codec_roundtrip_witness :
  exists s1 w, send (AFrame ex_frame) ex_alice = (s1, Ok w) /\
    Decode w ex_bob = (set_recvNonce 1 ex_bob, Ok (denote ex_alice (AFrame ex_frame))).
Proof.
  apply (codec_roundtrip ex_alice ex_bob (AFrame ex_frame)).
  - split; reflexivity.
  - vm_compute. lia.
  - intros _. right. right. reflexivity.
Defined.

Lemma stream_delivery_witness :
  let sent := (sendAll [APing 1; AFrame ex_frame; ABye] ex_alice).2 in
  (recvAll (drop 1 sent).*2 ex_bob).2
  = [Ok (denote ex_alice (AFrame ex_frame)); Ok (denote ex_alice ABye)].
Proof.
  apply (stream_delivery [APing 1; AFrame ex_frame; ABye] ex_alice ex_bob
           (drop 1 (sendAll [APing 1; AFrame ex_frame; ABye] ex_alice).2)).
  - split; reflexivity.
  - reflexivity.
  - vm_compute. split; congruence.
  - repeat constructor; vm_compute; (congruence || lia).
  - vm_compute. congruence.
  - vm_compute. reflexivity.
  - apply sublist_drop.
Defined.

Lemma no_replay_witness :
  acceptedNonces [ex_ping; ex_ping] ex_bob = [1] /\
  StronglySorted Z.lt (recvNonce ex_bob :: acceptedNonces [ex_ping; ex_ping] ex_bob).
Proof.
  assert (acceptedNonces [ex_ping; ex_ping] ex_bob = [1]) as E by (vm_compute; reflexivity). split; [exact E|].
  apply (no_replay [ex_ping; ex_ping] ex_bob eq_refl). rewrite E. intros H. apply list_elem_of_singleton in H. discriminate.
Defined.

Lemma replay_rejected_witness : decode ex_ping ex_bob1 = (ex_bob1, Err ErrReplayDetected).
Proof.
  apply (replay_rejected ex_bob ex_bob1 ex_ping MsgPing ex_payload).
  - reflexivity.
  - vm_compute. reflexivity.
  - reflexivity.
  - vm_compute. congruence.
Defined.

Lemma accepted_is_encoded_witness :
  exists s, key s = key ex_bob /\ secureMode s = true /\ is_u64 (sendNonce s) /\
    (encode MsgPing ex_payload s).2 = ex_ping.
Proof.
  apply (accepted_is_encoded ex_bob ex_bob1 ex_ping MsgPing ex_payload).
  - reflexivity.
  - vm_compute. reflexivity.
Defined.

Lemma Decode_wf_witness : msg_wf (mkMessage MsgPing [] 0 [] [] (-7)).
Proof. apply (Decode_wf ex_ping ex_bob ex_bob1). vm_compute. reflexivity. Defined.

Lemma nonces_distinct_witness :
  NoDup (wireNonce <$> (sendAll [APing 1; ABye] (mkCodec ex_key (2 ^ 64 - 1) 0 true)).2.*2).
Proof.
  apply (nonces_distinct [APing 1; ABye] (mkCodec ex_key (2 ^ 64 - 1) 0 true)).
  - reflexivity.
  - repeat constructor; vm_compute; congruence.
  - vm_compute. congruence.
Defined.

Lemma challenge_check_witness :
  VerifyChallengeResponse ex_bob (replicate 16 x07) (ackResponse ex_bob (replicate 16 x07)) = true.
Proof.
  exact (proj2 (challenge_check ex_bob (replicate 16 x07) (ackResponse ex_bob (replicate 16 x07))
                  eq_refl) (conj eq_refl eq_refl)).
Defined.

Lemma replay_after_reset_witness :
  exists c3, decode ex_ping (ResetRecvNonce ex_bob1) = (c3, Ok (MsgPing, ex_payload)).
Proof.
  apply (replay_after_reset ex_bob ex_bob1 ex_bob1 ex_ping MsgPing ex_payload).
  - reflexivity.
  - vm_compute. reflexivity.
  - split; vm_compute; reflexivity.
Defined.

Lemma decode_error_unchanged_witness : ex_bob1 = set_recvNonce (recvNonce ex_bob1) ex_bob.
Proof.
  apply (decode_error_unchanged ex_ping ex_bob ex_bob1 (Ok (MsgPing, ex_payload))).
  vm_compute. reflexivity.
Defined.

End ProtocolProps.
