(* ===== verification/Transport.v ===== *)
(** * The UDP transport: internal/transport/transport.go

    The socket is an open/closed flag plus the log [sent] of the datagrams
    written to it.  What the operating system decides (whether a read times
    out, fails or yields a datagram, whether a write succeeds, what
    [rand.Read] returns, whether the context is done, whether the deadline has
    passed) is an input of the operation that asks, one per loop iteration.
    Log output is not modelled: nothing reads it back. *)

From S2P Require Import Prelude Sha256 Protocol.
Import Protocol.

Module Transport.

(** ** Addresses *)

Record UDPAddr := mkUDPAddr { IP : list byte; Port : Z; Zone : string }.

#[export] Instance UDPAddr_eq_dec : EqDecision UDPAddr.
Proof. solve_decision. Defined.

(** [net.IP.Equal]: an IPv4 address equals its IPv4-in-IPv6 form. *)
Definition v4InV6Prefix : list byte := replicate 10 x00 ++ [xff; xff].

Definition IP_Equal (ip x : list byte) : bool :=
  if (length ip =? length x)%nat then bool_decide (ip = x) else
  if (length ip =? 4)%nat && (length x =? 16)%nat
  then bool_decide (take 12 x = v4InV6Prefix) && bool_decide (ip = drop 12 x) else
  if (length ip =? 16)%nat && (length x =? 4)%nat
  then bool_decide (take 12 ip = v4InV6Prefix) && bool_decide (drop 12 ip = x)
  else false.

Definition addrEqual (a b : option UDPAddr) : bool :=
  match a, b with
  | None, None => true
  | None, Some _ | Some _, None => false
  | Some a, Some b => IP_Equal (IP a) (IP b) && (Port a =? Port b)
  end.

(** ** Configuration and errors *)

Inductive Mode := ModeListen | ModeConnect | ModeOther (n : Z).
#[export] Instance Mode_eq_dec : EqDecision Mode.
Proof. solve_decision. Defined.

Definition DefaultReadBuffer : nat := Z.to_nat 65536.
Definition Second : Z := 1000000000.
Definition HandshakeTimeout : Z := 10 * Second.

(** The intervals between connection attempts, in nanoseconds. *)
Definition connectBackoff : list Z := [1 * Second; 2 * Second; 5 * Second; 10 * Second].

(** An error of the operating system, by its text. *)
Abbreviation ioerr := string.

Inductive terr :=
| ErrNotConnected
| ErrChallengeInvalid
| ErrClosed
| ErrContext
| ErrCodecRequired
| ErrLoggerRequired
| ErrUnknownMode (n : Z)
| ErrWrongMode
| ErrBind (e : ioerr)
| ErrResolve (e : ioerr)
| ErrRead (e : ioerr)
| ErrEncodeHello (e : perr)
| ErrSendHello (e : ioerr)
| ErrSendHelloAck (e : ioerr)
| ErrWrite (e : ioerr)
| ErrHandshakeTimeout.

#[export] Instance terr_eq_dec : EqDecision terr.
Proof. solve_decision. Defined.

(** ** State *)

Inductive Conn := ConnNil | ConnOpen | ConnClosed.
#[export] Instance Conn_eq_dec : EqDecision Conn.
Proof. solve_decision. Defined.

Record Transport := mkTransport {
  conn : Conn;
  peerAddr : option UDPAddr;
  mode : Mode;
  codec : Codec;
  challenge : list byte;
  connected : bool;
  closed : bool;
  sent : list (list byte * UDPAddr);
}.

Definition set_codec c t :=
  mkTransport (conn t) (peerAddr t) (mode t) c (challenge t) (connected t) (closed t) (sent t).
Definition set_peer p t :=
  mkTransport (conn t) p (mode t) (codec t) (challenge t) (connected t) (closed t) (sent t).
Definition set_challenge ch t :=
  mkTransport (conn t) (peerAddr t) (mode t) (codec t) ch (connected t) (closed t) (sent t).
Definition set_connected b t :=
  mkTransport (conn t) (peerAddr t) (mode t) (codec t) (challenge t) b (closed t) (sent t).
Definition set_conn cn t :=
  mkTransport cn (peerAddr t) (mode t) (codec t) (challenge t) (connected t) (closed t) (sent t).
Definition log_sent d a t :=
  mkTransport (conn t) (peerAddr t) (mode t) (codec t) (challenge t) (connected t) (closed t)
    (sent t ++ [(d, a)]).

(** ** The socket *)

Inductive read_result :=
| RTimeout
| RError (e : ioerr)
| RData (data : list byte) (addr : UDPAddr).

(** Reading a nil or closed connection fails, and not with a timeout. *)
Definition conn_read (t : Transport) (r : read_result) : read_result :=
  match conn t with
  | ConnOpen => r
  | ConnClosed => RError "use of closed network connection"
  | ConnNil => RError "invalid argument"
  end.

(** [WriteToUDP(d, a)]; [w] is the error the system reports, if any. *)
Definition writeToUDP (d : list byte) (a : option UDPAddr) (w : option ioerr)
    (t : Transport) : Transport * option ioerr :=
  match conn t, a, w with
  | ConnClosed, _, _ => (t, Some "use of closed network connection"%string)
  | ConnNil, _, _ => (t, Some "invalid argument"%string)
  | ConnOpen, None, _ => (t, Some "missing address"%string)
  | ConnOpen, Some _, Some e => (t, Some e)
  | ConnOpen, Some a, None => (log_sent d a t, None)
  end.

(** ** Construction *)

Record Config := mkConfig {
  cfgMode : Mode;
  cfgLocalPort : Z;
  cfgPeerAddr : string;
  cfgCodec : option Codec;
  cfgLogger : bool;
}.

(** What the network stack answers: [net.ListenUDP] and [net.ResolveUDPAddr]. *)
Record NetEnv := mkNetEnv {
  listenUDP : Z -> option ioerr;
  resolveUDPAddr : string -> ioerr + UDPAddr;
}.

Definition setupListen (env : NetEnv) (port : Z) (t : Transport) : Transport * option terr :=
  match listenUDP env port with
  | Some e => (t, Some (ErrBind e))
  | None => (set_conn ConnOpen t, None)
  end.

Definition setupConnect (env : NetEnv) (localPort : Z) (peer : string) (t : Transport)
    : Transport * option terr :=
  match resolveUDPAddr env peer with
  | inl e => (t, Some (ErrResolve e))
  | inr addr =>
      let t := set_peer (Some addr) t in
      match listenUDP env localPort with
      | Some e => (t, Some (ErrBind e))
      | None => (set_conn ConnOpen t, None)
      end
  end.

Definition New (env : NetEnv) (cfg : Config) : outcome terr Transport :=
  match cfgCodec cfg with
  | None => Err ErrCodecRequired
  | Some c =>
      if negb (cfgLogger cfg) then Err ErrLoggerRequired else
      let t := mkTransport ConnNil None (cfgMode cfg) c [] false false [] in
      match cfgMode cfg with
      | ModeListen =>
          match setupListen env (cfgLocalPort cfg) t with
          | (t, None) => Ok t
          | (_, Some e) => Err e
          end
      | ModeConnect =>
          match setupConnect env (cfgLocalPort cfg) (cfgPeerAddr cfg) t with
          | (t, None) => Ok t
          | (_, Some e) => Err e
          end
      | ModeOther n => Err (ErrUnknownMode n)
      end
  end.

Section transport.
Context `{M : Mac}.

(** ** Listening *)

(** What one iteration of [WaitForPeer] meets: the context done or not, the
    read, and the write of the reply. *)
Record wait_in := mkWait { w_ctx : bool; w_read : read_result; w_write : option ioerr }.

Definition waitBody (i : wait_in) (t : Transport) : Transport * ctl (outcome terr unit) :=
  if w_ctx i then (t, Return (Err ErrContext)) else
  match conn_read t (w_read i) with
  | RTimeout => (t, Next)
  | RError e => (t, Return (Err (ErrRead e)))
  | RData data addr =>
      match Decode (take DefaultReadBuffer data) (codec t) with
      | (c, Panic) => (set_codec c t, Return Panic)
      | (c, Err _) => (set_codec c t, Next)
      | (c, Ok msg) =>
          let t := set_codec c t in
          if bool_decide (Type_ msg ≠ MsgHello) then
            let '(c, bye) := EncodeBye (codec t) in
            let '(t, _) := writeToUDP bye (Some addr) (w_write i) (set_codec c t) in
            (t, Next)
          else
            let t := set_challenge (Challenge msg) (set_peer (Some addr) t) in
            let t := set_codec (ResetRecvNonce (codec t)) t in
            let '(c, ack) := EncodeHelloAck (Challenge msg) (codec t) in
            match writeToUDP ack (Some addr) (w_write i) (set_codec c t) with
            | (t, Some e) => (t, Return (Err (ErrSendHelloAck e)))
            | (t, None) => (set_connected true t, Return (Ok tt))
            end
      end
  end.

Definition WaitForPeer (ins : list wait_in) (t : Transport)
    : Transport * option (outcome terr unit) :=
  if bool_decide (mode t ≠ ModeListen) then (t, Some (Err ErrWrongMode))
  else loop waitBody ins t.

(** ** Connecting *)

(** What one iteration of the handshake loop meets. *)
Record hs_in := mkHs { h_before : bool; h_ctx : bool; h_read : read_result }.

Definition hsBody (i : hs_in) (t : Transport) : Transport * ctl (outcome terr unit) :=
  if negb (h_before i) then (t, Return (Err ErrHandshakeTimeout)) else
  if h_ctx i then (t, Return (Err ErrContext)) else
  match conn_read t (h_read i) with
  | RTimeout => (t, Next)
  | RError e => (t, Return (Err (ErrRead e)))
  | RData data addr =>
      if negb (addrEqual (Some addr) (peerAddr t)) then (t, Next) else
      match Decode (take DefaultReadBuffer data) (codec t) with
      | (c, Panic) => (set_codec c t, Return Panic)
      | (c, Err _) => (set_codec c t, Next)
      | (c, Ok msg) =>
          let t := set_codec c t in
          if bool_decide (Type_ msg ≠ MsgHelloAck) then (t, Next) else
          if IsSecure (codec t) && negb (VerifyChallengeResponse (codec t) (challenge t) (Response msg))
          then (t, Return (Err ErrChallengeInvalid))
          else
            let t := set_codec (ResetRecvNonce (codec t)) t in
            (set_connected true t, Return (Ok tt))
      end
  end.

(** One attempt: the random challenge, the write of the HELLO, the loop. *)
Record attempt_in := mkAttempt {
  a_rand : option (list byte);
  a_write : option ioerr;
  a_loop : list hs_in;
}.

Definition attemptHandshake (a : attempt_in) (t : Transport)
    : Transport * option (outcome terr unit) :=
  match EncodeHello (a_rand a) (codec t) with
  | (c, Panic) => (set_codec c t, Some Panic)
  | (c, Err e) => (set_codec c t, Some (Err (ErrEncodeHello e)))
  | (c, Ok (hello, ch)) =>
      let t := set_challenge ch (set_codec c t) in
      match writeToUDP hello (peerAddr t) (a_write a) t with
      | (t, Some e) => (t, Some (Err (ErrSendHello e)))
      | (t, None) => loop hsBody (a_loop a) t
      end
  end.

(** The delay after failed attempt number [attempt]; the index is clamped. *)
Definition backoffDelay (attempt : nat) : outcome terr Z :=
  let backoffIdx :=
    if (length connectBackoff <=? attempt)%nat then (length connectBackoff - 1)%nat else attempt in
  go_index connectBackoff backoffIdx.

(** What one round of [Connect] meets: the context before the attempt, the
    attempt, and whether the context is done before the delay has passed. *)
Record connect_in := mkConnect { c_ctx : bool; c_attempt : attempt_in; c_ctx_delay : bool }.

(** The state of the loop: the transport, [attempt], the delays slept so far. *)
Definition connectBody (i : connect_in) (s : Transport * nat * list Z)
    : (Transport * nat * list Z) * ctl (outcome terr unit) :=
  let '(t, attempt, delays) := s in
  if c_ctx i then (s, Return (Err ErrContext)) else
  match attemptHandshake (c_attempt i) t with
  | (t, None) => ((t, attempt, delays), Waiting)
  | (t, Some (Ok _)) => ((t, attempt, delays), Return (Ok tt))
  | (t, Some Panic) => ((t, attempt, delays), Return Panic)
  | (t, Some (Err e)) =>
      match backoffDelay attempt with
      | Ok delay =>
          if c_ctx_delay i then ((t, attempt, delays), Return (Err ErrContext)) else
          ((set_codec (ResetRecvNonce (codec t)) t, S attempt, delays ++ [delay]), Next)
      | _ => ((t, attempt, delays), Return Panic)
      end
  end.

Definition Connect (ins : list connect_in) (t : Transport)
    : (Transport * nat * list Z) * option (outcome terr unit) :=
  if bool_decide (mode t ≠ ModeConnect) then ((t, O, []), Some (Err ErrWrongMode))
  else loop connectBody ins (t, O, []).

(** ** Sending, receiving, closing *)

Definition Send (data : list byte) (w : option ioerr) (t : Transport) : Transport * outcome terr unit :=
  if closed t then (t, Err ErrClosed) else
  if negb (connected t) then (t, Err ErrNotConnected) else
  match writeToUDP data (peerAddr t) w t with
  | (t, Some e) => (t, Err (ErrWrite e))
  | (t, None) => (t, Ok tt)
  end.

(** [Recv] into a buffer of [n] bytes; a timeout is one of the read's errors. *)
Definition Recv (n : nat) (r : read_result) (t : Transport) : outcome terr read_result :=
  if closed t then Err ErrClosed else
  match conn_read t r with
  | RData data addr => Ok (RData (take n data) addr)
  | e => Ok e
  end.

Definition SendBye (w : option ioerr) (t : Transport) : Transport * outcome terr unit :=
  if negb (connected t) || closed t then (t, Ok tt) else
  let '(c, bye) := EncodeBye (codec t) in
  match writeToUDP bye (peerAddr t) w (set_codec c t) with
  | (t, Some e) => (t, Err (ErrWrite e))
  | (t, None) => (t, Ok tt)
  end.

(** [io] is what closing the socket gives. *)
Definition Close (io : option ioerr) (t : Transport) : Transport * option ioerr :=
  if closed t then (t, None) else
  (mkTransport (match conn t with ConnNil => ConnNil | _ => ConnClosed end)
     (peerAddr t) (mode t) (codec t) (challenge t) false true (sent t),
   match conn t with ConnNil => None | _ => io end).

Definition IsConnected (t : Transport) : bool := connected t.
Definition PeerAddr (t : Transport) : option UDPAddr := peerAddr t.

(** [local] is the address the socket is bound to. *)
Definition LocalAddr {A} (local : A) (t : Transport) : option A :=
  match conn t with ConnNil => None | _ => Some local end.

Definition SetReadDeadline (t : Transport) : option ioerr :=
  match conn t with
  | ConnOpen => None
  | ConnClosed => Some "use of closed network connection"%string
  | ConnNil => Some "invalid argument"%string
  end.

End transport.

End Transport.
