(* ===== verification/TransportProps.v ===== *)
(** * Properties of the transport

    Address comparison, the handshake of both sides, the retry schedule, the
    life cycle of a transport and the replay of a recorded HELLO. *)

From S2P Require Import Prelude Sha256 Protocol ProtocolProps Transport.
Import Protocol ProtocolProps Transport.

Module TransportProps.

(** The state invariant: a closed transport is not connected and its socket is
    not open; a connected one has a peer and an open socket. *)
Definition transport_wf (t : Transport) : Prop :=
  (closed t = true -> connected t = false /\ conn t <> ConnOpen) /\
  (connected t = true -> conn t = ConnOpen /\ is_Some (peerAddr t)).

(** The delay before attempt [k + 1]: 1s, 2s, 5s, then 10s for ever. *)
Definition schedule (k : nat) : Z :=
  match k with
  | 0%nat => 1 * Second
  | 1%nat => 2 * Second
  | 2%nat => 5 * Second
  | _ => 10 * Second
  end.

(** Every operation on a transport, with what the world answers to it. *)
Inductive transport_op :=
| OpWait (ins : list wait_in)
| OpConnect (ins : list connect_in)
| OpSend (data : list byte) (w : option ioerr)
| OpSendBye (w : option ioerr)
| OpClose (io : option ioerr).

Ltac unfold_setters :=
  unfold set_connected, log_sent, set_codec, set_challenge, set_peer, set_conn in *.

Section props.
Context `{M : Mac}.

Definition transport_step (t : Transport) (op : transport_op) : Transport :=
  match op with
  | OpWait ins => (WaitForPeer ins t).1
  | OpConnect ins => (Connect ins t).1.1.1
  | OpSend d w => (Send d w t).1
  | OpSendBye w => (SendBye w t).1
  | OpClose io => (Close io t).1
  end.

(** ** Addresses *)

(** The 16-byte form of an address. *)
Definition canonIP (ip : list byte) : list byte :=
  if (length ip =? 4)%nat then v4InV6Prefix ++ ip else ip.

Lemma IP_Equal_canon a b : IP_Equal a b = true <-> canonIP a = canonIP b.
Proof.
  assert (forall x y : list byte, length x = 4%nat -> length y = 16%nat ->
            v4InV6Prefix ++ x = y <-> take 12 y = v4InV6Prefix /\ x = drop 12 y) as H.
  { intros x y Hx Hy. split; [intros <-; done|].
    intros [<- ->]. apply take_drop. }
  unfold IP_Equal, canonIP.
  destruct (length a =? length b)%nat eqn:E; reflect_all.
  { rewrite bool_decide_eq_true, E. case_match; [|done].
    split; [by intros ->|apply (inj (app _))]. }
  destruct (length a =? 4)%nat eqn:Ea, (length b =? 4)%nat eqn:Eb; reflect_all;
    rewrite ?andb_false_r, ?andb_true_r; cbn [andb]; try lia.
  - destruct (length b =? 16)%nat eqn:Eb16; reflect_all.
    + rewrite andb_true_iff, !bool_decide_eq_true. by rewrite H.
    + split; [done|].
      intros Heq%(f_equal length). rewrite length_app, Ea in Heq. simpl in Heq. lia.
  - destruct (length a =? 16)%nat eqn:Ea16; reflect_all.
    + rewrite andb_true_iff, !bool_decide_eq_true.
      transitivity (v4InV6Prefix ++ b = a); [|split; by intros ->].
      rewrite H by done. split; by intros [? ->].
    + split; [done|]. intros Heq%(f_equal length). rewrite length_app, Eb in Heq. simpl in Heq. lia.
  - split; [done|]. intros ->. lia.
Qed.

Definition addr_rel (a b : option UDPAddr) : Prop := addrEqual a b = true.

Lemma addrEqual_Some a b :
  addrEqual (Some a) (Some b) = true <-> canonIP (IP a) = canonIP (IP b) /\ Port a = Port b.
Proof. simpl. by rewrite andb_true_iff, IP_Equal_canon, Z.eqb_eq. Qed.

Lemma addrEqual_refl a : addrEqual a a = true.
Proof. destruct a; [|done]. by apply addrEqual_Some. Qed.

(** ** Lemmas on single steps *)

Lemma Decode_keys data c : key (Decode data c).1 = key c /\ secureMode (Decode data c).1 = secureMode c.
Proof.
  rewrite Decode_state. by destruct (decode_state data c) as [->|(n & _ & -> & _)].
Qed.

Lemma encode_keys t p c : key (encode t p c).1 = key c /\ secureMode (encode t p c).1 = secureMode c.
Proof. rewrite encode_state. by destruct (secureMode c) eqn:E. Qed.

Lemma same_key_encode a b t p t' p' :
  same_key a b -> same_key (encode t p a).1 (encode t' p' b).1.
Proof.
  intros [Ek Em]. destruct (encode_keys t p a), (encode_keys t' p' b). split; congruence.
Qed.

Lemma writeToUDP_ok d a t : conn t = ConnOpen -> writeToUDP d (Some a) None t = (log_sent d a t, None).
Proof. unfold writeToUDP. by intros ->. Qed.

Lemma backoffDelay_schedule k : backoffDelay k = Ok (schedule k).
Proof. by destruct k as [|[|[|[|k]]]]. Qed.

(** Waiting changes nothing. *)
Lemma wait_timeouts n ins t : conn t = ConnOpen ->
  loop waitBody (replicate n (mkWait false RTimeout None) ++ ins) t = loop waitBody ins t.
Proof.
  intros Hc. induction n as [|n IH]; [done|]. simpl. unfold waitBody at 1, conn_read. simpl.
  by rewrite Hc.
Qed.

Lemma hs_timeouts n ins t : conn t = ConnOpen ->
  loop hsBody (replicate n (mkHs true false RTimeout) ++ ins) t = loop hsBody ins t.
Proof.
  intros Hc. induction n as [|n IH]; [done|]. simpl. unfold hsBody at 1, conn_read. simpl.
  by rewrite Hc.
Qed.

Lemma take_handshake t p c : (length p <= 100)%nat ->
  take DefaultReadBuffer (encode t p c).2 = (encode t p c).2.
Proof.
  intros. apply take_ge. rewrite length_encode. unfold DefaultReadBuffer. case_match; lia.
Qed.

Lemma length_handshake_payload c m : amsg_wf m -> isHandshake (amsg_type m) = true ->
  (length (amsg_payload c m) <= 100)%nat.
Proof.
  destruct m; simpl; try done; intros Wf _; rewrite Wf || idtac.
  - vm_compute. lia.
  - unfold ackResponse. case_match; rewrite ?mac_length; vm_compute; lia.
Qed.

(** A HELLO turns a waiting listener into a connected one. *)
Lemma waitBody_msg t data addr c msg :
  conn t = ConnOpen -> Type_ msg = MsgHello ->
  Decode (take DefaultReadBuffer data) (codec t) = (c, Ok msg) ->
  let ack := EncodeHelloAck (Challenge msg) (ResetRecvNonce c) in
  waitBody (mkWait false (RData data addr) None) t =
    (mkTransport ConnOpen (Some addr) (mode t) ack.1 (Challenge msg) true (closed t)
       (sent t ++ [(ack.2, addr)]),
     Return (Ok tt)).
Proof.
  intros Hc Ht HD ack. unfold waitBody, conn_read. cbn [w_ctx w_read w_write]. rewrite Hc, HD.
  rewrite Ht, bool_decide_eq_false_2 by (intros Hx; by apply Hx).
  cbn [codec set_codec set_challenge set_peer].
  fold ack. destruct ack as [c2 w]. unfold writeToUDP. cbn. rewrite Hc. unfold_setters.
  cbn. by rewrite Hc.
Qed.

Lemma waitBody_hello t data addr c ch :
  conn t = ConnOpen -> length ch = ChallengeSize ->
  Decode (take DefaultReadBuffer data) (codec t) = (c, Ok (denote c (AHello ch))) ->
  let c1 := ResetRecvNonce c in
  let ack := encode MsgHelloAck (amsg_payload c1 (AHelloAck ch)) c1 in
  waitBody (mkWait false (RData data addr) None) t =
    (mkTransport ConnOpen (Some addr) (mode t) ack.1 ch true (closed t) (sent t ++ [(ack.2, addr)]),
     Return (Ok tt)).
Proof.
  intros Hc Hch HD c1 ack. rewrite (waitBody_msg t data addr c (denote c (AHello ch)) Hc eq_refl HD). cbn [denote Challenge].
  by rewrite EncodeHelloAck_eq.
Qed.

Lemma challenge_response_ok a b ch : same_key a b -> length ch = ChallengeSize ->
  IsSecure b && negb (VerifyChallengeResponse b ch (ackResponse a ch)) = false.
Proof.
  intros [Ek Em] Hch. unfold IsSecure. destruct (secureMode b) eqn:Hs; [|done].
  unfold VerifyChallengeResponse, ackResponse, computeHMAC.
  rewrite Em, Hs, Hch, mac_length, Ek. cbn. by rewrite bool_decide_eq_true_2.
Qed.

(** The answer to the challenge connects the other side. *)
Lemma hsBody_ack t data addr cL ch :
  conn t = ConnOpen -> addrEqual (Some addr) (peerAddr t) = true ->
  challenge t = ch -> length ch = ChallengeSize -> same_key cL (codec t) ->
  Decode (take DefaultReadBuffer data) (codec t) = (codec t, Ok (denote cL (AHelloAck ch))) ->
  hsBody (mkHs true false (RData data addr)) t =
    (mkTransport ConnOpen (peerAddr t) (mode t) (ResetRecvNonce (codec t)) ch true (closed t) (sent t),
     Return (Ok tt)).
Proof.
  intros Hc Ha Hch Hl Hk HD. unfold hsBody, conn_read. cbn [h_before h_ctx h_read negb].
  rewrite Hc, Ha, HD. cbn [denote Type_ Response negb]. eval_decisions.
  unfold_setters. cbn [codec challenge conn peerAddr mode closed sent].
  by rewrite Hch, challenge_response_ok, Hc.
Qed.

Lemma attempt_hello tc aL rnd l :
  conn tc = ConnOpen -> peerAddr tc = Some aL -> length rnd = ChallengeSize ->
  let hello := encode MsgHello (amsg_payload (codec tc) (AHello rnd)) (codec tc) in
  attemptHandshake (mkAttempt (Some rnd) None l) tc =
    loop hsBody l (mkTransport ConnOpen (Some aL) (mode tc) hello.1 rnd (connected tc) (closed tc)
                     (sent tc ++ [(hello.2, aL)])).
Proof.
  intros Hc Hp Hr hello. unfold attemptHandshake. cbn [a_rand a_write a_loop].
  rewrite EncodeHello_eq by done. fold hello. destruct hello as [c w].
  unfold writeToUDP. unfold_setters. cbn. by rewrite Hc, Hp.
Qed.

(** The two sides after a HELLO and its answer went through. *)
Definition helloOf (rnd : list byte) (tc : Transport) : Codec * list byte :=
  encode MsgHello (amsg_payload (codec tc) (AHello rnd)) (codec tc).
Definition ackOf (rnd : list byte) (tl : Transport) : Codec * list byte :=
  let cL := ResetRecvNonce (codec tl) in encode MsgHelloAck (amsg_payload cL (AHelloAck rnd)) cL.
Definition connectedC (rnd : list byte) (aL : UDPAddr) (tc : Transport) : Transport :=
  mkTransport ConnOpen (Some aL) (mode tc) (ResetRecvNonce (helloOf rnd tc).1) rnd true (closed tc)
    (sent tc ++ [((helloOf rnd tc).2, aL)]).
Definition connectedL (rnd : list byte) (aC : UDPAddr) (tl : Transport) : Transport :=
  mkTransport ConnOpen (Some aC) (mode tl) (ackOf rnd tl).1 rnd true (closed tl)
    (sent tl ++ [((ackOf rnd tl).2, aC)]).

Lemma handshake_run tc tl aC aL rnd m n :
  mode tl = ModeListen -> conn tc = ConnOpen -> conn tl = ConnOpen ->
  peerAddr tc = Some aL -> same_key (codec tc) (codec tl) -> length rnd = ChallengeSize ->
  WaitForPeer (replicate m (mkWait false RTimeout None) ++ [mkWait false (RData (helloOf rnd tc).2 aC) None]) tl
    = (connectedL rnd aC tl, Some (Ok tt)) /\
  attemptHandshake (mkAttempt (Some rnd) None
    (replicate n (mkHs true false RTimeout) ++ [mkHs true false (RData (ackOf rnd tl).2 aL)])) tc
    = (connectedC rnd aL tc, Some (Ok tt)).
Proof.
  intros Hml Hcc Hcl Hp Hk Hr. set (cC := codec tc) in *. set (cL := ResetRecvNonce (codec tl)).
  assert (take DefaultReadBuffer (helloOf rnd tc).2 = (helloOf rnd tc).2 /\
    take DefaultReadBuffer (ackOf rnd tl).2 = (ackOf rnd tl).2) as [T1 T2].
  { split; apply take_handshake;
      [by apply (length_handshake_payload cC (AHello rnd))
      |by apply (length_handshake_payload cL (AHelloAck rnd))]. }
  assert (same_key cL (helloOf rnd tc).1) as Hk2.
  { pose proof (encode_keys MsgHello (amsg_payload cC (AHello rnd)) cC) as [E1 E2].
    split; symmetry; etrans; [exact E1|apply Hk|exact E2|apply Hk]. }
  pose proof (waitBody_hello tl (helloOf rnd tc).2 aC (codec tl) rnd Hcl Hr) as HwL. rewrite T1 in HwL.
  specialize (HwL (Decode_handshake cC (codec tl) (AHello rnd) Hk Hr eq_refl)). split.
  - unfold WaitForPeer. rewrite bool_decide_eq_false_2 by congruence.
    rewrite wait_timeouts by done. cbn [loop]. by rewrite HwL.
  - rewrite (attempt_hello tc aL) by done. rewrite hs_timeouts by done. cbn [loop].
    rewrite (hsBody_ack _ _ _ cL rnd); try done; [apply addrEqual_refl|].
    rewrite T2. by apply (Decode_handshake cL (helloOf rnd tc).1 (AHelloAck rnd)).
Qed.

(** C8.  The handshake completes: when the connecting side's HELLO reaches a
    listener with the same key and the listener's answer comes back, each after
    any number of read timeouts, both sides return success and are connected to
    each other with their replay windows reset. *)
Theorem handshake_completes tc tl aC aL rnd m n :
  mode tl = ModeListen -> conn tc = ConnOpen -> conn tl = ConnOpen ->
  peerAddr tc = Some aL -> same_key (codec tc) (codec tl) -> length rnd = ChallengeSize ->
  exists tc1 tl2 tc2 hello ack,
    attemptHandshake (mkAttempt (Some rnd) None []) tc = (tc1, None) /\
    sent tc1 = sent tc ++ [(hello, aL)] /\
    WaitForPeer (replicate m (mkWait false RTimeout None) ++ [mkWait false (RData hello aC) None]) tl
      = (tl2, Some (Ok tt)) /\
    sent tl2 = sent tl ++ [(ack, aC)] /\
    attemptHandshake (mkAttempt (Some rnd) None
      (replicate n (mkHs true false RTimeout) ++ [mkHs true false (RData ack aL)])) tc
      = (tc2, Some (Ok tt)) /\
    connected tl2 = true /\ peerAddr tl2 = Some aC /\ connected tc2 = true /\ peerAddr tc2 = Some aL /\
    recvNonce (codec tl2) = 0 /\ recvNonce (codec tc2) = 0 /\ same_key (codec tc2) (codec tl2).
Proof.
  intros Hml Hcc Hcl Hp Hk Hr. destruct (handshake_run tc tl aC aL rnd m n Hml Hcc Hcl Hp Hk Hr) as [HL HC].
  eexists _, (connectedL rnd aC tl), (connectedC rnd aL tc), (helloOf rnd tc).2, (ackOf rnd tl).2.
  split; [by rewrite (attempt_hello tc aL)|]. split_and!; try done.
  - unfold connectedL, ackOf. cbn [codec]. rewrite encode_state. by case_match.
  - exact (same_key_encode (codec tc) (ResetRecvNonce (codec tl)) _ _ _ _ Hk).
Qed.

Lemma Decode_same_key data c c1 o : Decode data c = (c1, o) -> same_key c1 c.
Proof. intros E. pose proof (Decode_keys data c) as H. by rewrite E in H. Qed.

(** What an iteration of the handshake loop leaves alone. *)
Definition hs_frame (t s : Transport) : Prop :=
  same_key (codec s) (codec t) /\ challenge s = challenge t /\ peerAddr s = peerAddr t /\
  conn s = conn t /\ mode s = mode t /\ closed s = closed t /\ sent s = sent t.

Lemma same_key_trans a b c : same_key a b -> same_key b c -> same_key a c.
Proof. intros [] []. split; congruence. Qed.

Lemma hsBody_frame i t s : hs_frame t s -> hs_frame t (hsBody i s).1.
Proof.
  intros H. unfold hsBody.
  repeat case_match; simplify_eq; simpl; try done;
    match goal with E : Decode _ _ = _ |- _ => apply Decode_same_key in E end;
    destruct H as (Hk & ? & ? & ? & ? & ? & ?); split_and!; simpl; try done;
    eapply (same_key_trans (ResetRecvNonce _)) || idtac; eauto using same_key_trans.
Qed.

Lemma hsBody_ok i s s' :
  hsBody i s = (s', Return (Ok tt)) ->
  exists data addr c msg, h_read i = RData data addr /\ conn s = ConnOpen /\
    addrEqual (Some addr) (peerAddr s) = true /\
    Decode (take DefaultReadBuffer data) (codec s) = (c, Ok msg) /\ Type_ msg = MsgHelloAck /\
    IsSecure c && negb (VerifyChallengeResponse c (challenge s) (Response msg)) = false /\
    s' = set_connected true (set_codec (ResetRecvNonce c) s).
Proof.
  unfold hsBody, conn_read. intros H.
  repeat case_match; simplify_eq; simpl in *.
  do 4 eexists. split_and!; try done; reflect_all; [done|]. by apply dec_stable.
Qed.

(** C13.  Authenticated connect: in secure mode an attempt succeeds only on a
    datagram from the configured peer that decodes under the key to a HELLO_ACK
    whose response is the HMAC of the challenge this attempt drew. *)
Theorem connect_authenticated a t t' :
  secureMode (codec t) = true -> attemptHandshake a t = (t', Some (Ok tt)) ->
  exists rnd i data addr c c1 msg,
    a_rand a = Some rnd /\ (length rnd = ChallengeSize -> challenge t' = rnd) /\
    i ∈ a_loop a /\ h_read i = RData data addr /\
    addrEqual (Some addr) (peerAddr t) = true /\ same_key c (codec t) /\
    Decode (take DefaultReadBuffer data) c = (c1, Ok msg) /\ Type_ msg = MsgHelloAck /\
    Response msg = mac (key (codec t)) (challenge t') /\ connected t' = true.
Proof.
  intros Hs. unfold attemptHandshake.
  destruct (EncodeHello (a_rand a) (codec t)) as [c0 [[hello ch]|e|]] eqn:EH; [|done..].
  destruct (a_rand a) as [rnd|] eqn:Er; [|done].
  assert (same_key c0 (codec t) /\ (length rnd = ChallengeSize -> ch = rnd)) as [Hk0 Hch].
  { split.
    - unfold EncodeHello in EH. destruct (encode _ _ _) as [c2 w] eqn:Ee. simplify_eq.
      match type of Ee with encode ?x ?y _ = _ =>
        pose proof (encode_keys x y (codec t)) as K; by rewrite Ee in K end.
    - intros Hl. rewrite EncodeHello_eq in EH by done. by destruct (encode _ _ _); simplify_eq. }
  destruct (writeToUDP _ _ _ _) as [t1 [e|]] eqn:Ew; [done|]. intros HL.
  assert (hs_frame t1 t1 /\ same_key (codec t1) (codec t) /\ challenge t1 = ch /\ peerAddr t1 = peerAddr t)
    as (Hf & Hk1 & Hc1 & Hp1).
  { split; [by split_and!|]. unfold writeToUDP in Ew. by repeat case_match; simplify_eq. }
  destruct (loop_return (hs_frame t1) hsBody _ _ _ _ (fun i s => hsBody_frame i t1 s) Hf HL)
    as (i & s0 & Hi & (Hk & Hcs & Hps & _) & Eb).
  apply hsBody_ok in Eb as (data & addr & c & msg & Hr & _ & Ha & HD & Ht & Hv & ->).
  exists rnd, i, data, addr, (codec s0), c, msg.
  assert (same_key c (codec t)) as Hkc.
  { eapply same_key_trans; [by eapply Decode_same_key|]. by eapply same_key_trans. }
  split_and!; try done.
  - intros Hl. simpl. rewrite Hcs, Hc1. by apply Hch.
  - congruence.
  - by eapply same_key_trans.
  - destruct Hkc as [Ek Em]. unfold IsSecure in Hv. rewrite Em, Hs in Hv.
    apply andb_false_iff in Hv as [|Hv]; [done|]. apply negb_false_iff in Hv.
    unfold VerifyChallengeResponse in Hv. rewrite Em, Hs in Hv. simpl in Hv.
    case_match; [done|]. apply bool_decide_eq_true in Hv. unfold computeHMAC in Hv. simpl. congruence.
Qed.

Lemma EncodeHelloAck_state ch c :
  same_key (EncodeHelloAck ch c).1 c /\ recvNonce (EncodeHelloAck ch c).1 = recvNonce c.
Proof.
  unfold EncodeHelloAck. rewrite encode_state. split; [split|]; by case_match.
Qed.

Lemma waitBody_ok i s s' :
  waitBody i s = (s', Return (Ok tt)) ->
  exists data addr c msg, w_read i = RData data addr /\ conn s = ConnOpen /\
    Decode (take DefaultReadBuffer data) (codec s) = (c, Ok msg) /\ Type_ msg = MsgHello /\
    let ack := EncodeHelloAck (Challenge msg) (ResetRecvNonce c) in
    s' = mkTransport ConnOpen (Some addr) (mode s) ack.1 (Challenge msg) true (closed s)
           (sent s ++ [(ack.2, addr)]).
Proof.
  unfold waitBody, conn_read, writeToUDP. intros H.
  repeat case_match; simplify_eq/=; unfold_setters; simpl in *; simplify_eq.
  do 4 eexists. split_and!; try done; reflect_all.
  - by apply dec_stable.
  - match goal with E : EncodeHelloAck _ _ = _ |- _ => rewrite E end. simpl. congruence.
Qed.

Lemma waitBody_keys i t s : same_key (codec s) t -> same_key (codec (waitBody i s).1) t.
Proof.
  intros Hk. unfold waitBody, writeToUDP.
  repeat case_match; simplify_eq/=; try done;
    match goal with E : Decode _ _ = _ |- _ => apply Decode_same_key in E end;
    repeat match goal with
    | E : EncodeBye ?c = (?c', _) |- _ =>
        assert (same_key c' c) by (pose proof (encode_keys MsgBye [] c) as K;
          unfold EncodeBye in E; by rewrite E in K); clear E
    | E : EncodeHelloAck ?ch ?c = (?c', _) |- _ =>
        assert (same_key c' c) by (pose proof (EncodeHelloAck_state ch c) as K; rewrite E in K; apply K);
        clear E
    end; unfold same_key in *; simpl in *; destruct_and?; split; congruence.
Qed.

(**  A listener connects only on a HELLO: [WaitForPeer] succeeds only after a
    datagram that decodes under the key to a HELLO; the sender becomes the peer,
    the last datagram sent is the HELLO_ACK answering that challenge, and the
    replay window is reset. *)
Theorem listen_on_hello ins t t' :
  mode t = ModeListen -> WaitForPeer ins t = (t', Some (Ok tt)) ->
  exists i data addr c c1 msg,
    i ∈ ins /\ w_read i = RData data addr /\ same_key c (codec t) /\
    Decode (take DefaultReadBuffer data) c = (c1, Ok msg) /\ Type_ msg = MsgHello /\
    peerAddr t' = Some addr /\ connected t' = true /\ recvNonce (codec t') = 0 /\
    last (sent t') = Some ((EncodeHelloAck (Challenge msg) (ResetRecvNonce c1)).2, addr).
Proof.
  intros Hm. unfold WaitForPeer. rewrite bool_decide_eq_false_2 by congruence. intros HL.
  destruct (loop_return (fun s => same_key (codec s) (codec t)) waitBody _ _ _ _
              (fun i s => waitBody_keys i (codec t) s) (conj eq_refl eq_refl) HL)
    as (i & s0 & Hi & Hk & Eb).
  apply waitBody_ok in Eb as (data & addr & c & msg & Hr & _ & HD & Ht & ->).
  exists i, data, addr, (codec s0), c, msg. split_and!; try done.
  - simpl. by apply EncodeHelloAck_state.
  - simpl. apply last_snoc.
Qed.

(** ** The life cycle *)

Ltac wf_solve H1 H2 :=
  let Hx := fresh in
  intros Hx; first
    [ destruct (H1 Hx); split; congruence
    | destruct (H2 Hx); split; congruence
    | split; [congruence|]; eauto; case_match; (done || eauto) ].

Lemma writeToUDP_wf d a w t : transport_wf t -> transport_wf (writeToUDP d a w t).1.
Proof. intros H. unfold writeToUDP. by repeat case_match. Qed.

Lemma waitBody_wf i t : transport_wf t -> transport_wf (waitBody i t).1.
Proof.
  intros [H1 H2]. destruct (waitBody i t) as [t' r] eqn:E. simpl.
  unfold waitBody, conn_read, writeToUDP in E.
  repeat case_match; simplify_eq/=; try done; split; simpl; wf_solve H1 H2.
Qed.

Lemma hsBody_wf i t : transport_wf t -> transport_wf (hsBody i t).1.
Proof.
  intros [H1 H2]. destruct (hsBody i t) as [t' r] eqn:E. simpl.
  unfold hsBody, conn_read in E.
  repeat case_match; simplify_eq/=; try done; split; simpl; wf_solve H1 H2.
Qed.

Lemma attemptHandshake_wf a t : transport_wf t -> transport_wf (attemptHandshake a t).1.
Proof.
  intros H. unfold attemptHandshake.
  destruct (EncodeHello _ _) as [c [[hello ch]|e|]]; try done.
  destruct (writeToUDP _ _ _ _) as [t1 [e|]] eqn:Ew.
  - apply (f_equal fst) in Ew. simpl in *. subst t1. by apply writeToUDP_wf.
  - apply loop_inv; [intros; by apply hsBody_wf|].
    apply (f_equal fst) in Ew. simpl in Ew. subst t1. by apply writeToUDP_wf.
Qed.

Lemma connectBody_wf i s : transport_wf s.1.1 -> transport_wf (connectBody i s).1.1.1.
Proof.
  destruct s as [[t n] ds]. intros H. unfold connectBody. case_match; [done|].
  pose proof (attemptHandshake_wf (c_attempt i) t H) as Ha.
  destruct (attemptHandshake _ _) as [t1 [[u|e|]|]]; simpl in *; try done.
  by repeat case_match.
Qed.

(** C23.  The life cycle invariant: starting from [New], whatever sequence of
    waiting, connecting, sending and closing is performed and whatever the
    network answers, a connected transport has a peer and an open socket, and a
    closed one is neither connected nor able to reach the socket. *)
Theorem transport_invariant env cfg t ops :
  New env cfg = Ok t -> transport_wf (foldl transport_step t ops).
Proof.
  intros HN.
  assert (transport_wf t) as Hw.
  { unfold New, setupListen, setupConnect in HN. repeat case_match; simplify_eq/=; split; simpl; done. }
  clear HN. revert t Hw. induction ops as [|op ops IH]; intros t Hw; [done|]. apply IH.
  destruct op as [ins|ins|d w|w|]; simpl.
  - unfold WaitForPeer. case_match; [done|]. apply loop_inv; [apply waitBody_wf|done].
  - unfold Connect. case_match; [done|].
    apply (loop_inv (fun s => transport_wf s.1.1)); [intros; by apply connectBody_wf|done].
  - pose proof (writeToUDP_wf d (peerAddr t) w t Hw). unfold Send. by repeat case_match; simplify_eq/=.
  - unfold SendBye. case_match; [done|]. destruct (EncodeBye _) as [c bye].
    pose proof (writeToUDP_wf bye (peerAddr t) w (set_codec c t) Hw).
    by repeat case_match; simplify_eq/=.
  - unfold Close. case_match; [done|]. split; [|done]. simpl. intros _. split; [done|]. by case_match.
Qed.

Lemma waitBody_closed i t : conn t <> ConnOpen -> exists e, waitBody i t = (t, Return (Err e)).
Proof.
  intros Hc. unfold waitBody, conn_read. destruct (w_ctx i); [by eexists|].
  destruct (conn t); [|done|]; by eexists.
Qed.

(**  Closing is final and idempotent: afterwards sends and receives report
    the transport closed, the goodbye and a new wait send nothing, and closing
    again changes nothing. *)
Theorem close_final t d w n r i ins io io' :
  transport_wf t ->
  let t' := (Close io t).1 in
  Close io' t' = (t', None) /\ IsConnected t' = false /\ sent t' = sent t /\
  Send d w t' = (t', Err ErrClosed) /\ Recv n r t' = Err ErrClosed /\ SendBye w t' = (t', Ok tt) /\
  (WaitForPeer (i :: ins) t').1 = t' /\ (exists e, (WaitForPeer (i :: ins) t').2 = Some (Err e)).
Proof.
  intros [H1 _]. cbv zeta.
  assert (closed (Close io t).1 = true /\ connected (Close io t).1 = false /\ conn (Close io t).1 <> ConnOpen /\
          sent (Close io t).1 = sent t) as (Hcl & Hco & Hcn & Hs).
  { unfold Close. destruct (closed t) eqn:E; [destruct (H1 eq_refl); done|].
    simpl. split_and!; try done. by case_match. }
  unfold Send, Recv, SendBye, IsConnected. unfold Close at 1. rewrite Hcl, Hco.
  destruct (waitBody_closed i (Close io t).1 Hcn) as [e He].
  split_and!; try done; unfold WaitForPeer; case_match; simpl; rewrite ?He; try done; by eexists.
Qed.

Lemma attempt_not_panic a t t' : attemptHandshake a t <> (t', Some Panic).
Proof.
  unfold attemptHandshake.
  destruct (EncodeHello _ _) as [c [[hello ch]|e|]] eqn:EH; try done.
  - destruct (writeToUDP _ _ _ _) as [t1 [e|]]; [done|]. intros HL.
    apply (loop_return (fun _ => True)) in HL as (i & s & _ & _ & E); [|done..].
    unfold hsBody in E. repeat case_match; simplify_eq/=. by eapply Decode_not_panic.
  - unfold EncodeHello in EH. destruct (a_rand a); [|done]. by destruct (encode _ _ _).
Qed.

Lemma connect_loop_retries ins : forall t k delays s r,
  delays = schedule <$> seq 0 k ->
  loop connectBody ins (t, k, delays) = (s, r) ->
  (r = None \/ r = Some (Ok tt) \/ r = Some (Err ErrContext)) /\ s.2 = schedule <$> seq 0 s.1.2.
Proof.
  induction ins as [|i ins IH]; intros t k delays s r Hd HL; [by simplify_eq/=; auto|].
  cbn [loop connectBody] in HL. destruct (c_ctx i); [by simplify_eq/=; auto|].
  destruct (attemptHandshake (c_attempt i) t) as [t1 [[[]|e|]|]] eqn:Ea;
    [by simplify_eq/=; auto| |by apply attempt_not_panic in Ea|by simplify_eq/=; auto].
  rewrite backoffDelay_schedule in HL. destruct (c_ctx_delay i); [by simplify_eq/=; auto|].
  eapply IH; [|exact HL]. rewrite seq_S, fmap_app, <- Hd. done.
Qed.

(** C34.  Retrying never gives up: [Connect] in connect mode returns only on
    success or on cancellation, and the delays it has slept are 1s, 2s, 5s and
    then 10s each, one per failed attempt. *)
Theorem connect_retries ins t t' k delays r :
  mode t = ModeConnect -> Connect ins t = ((t', k, delays), r) ->
  (r = None \/ r = Some (Ok tt) \/ r = Some (Err ErrContext)) /\ delays = schedule <$> seq 0 k.
Proof.
  intros Hm. unfold Connect. rewrite bool_decide_eq_false_2 by congruence.
  intros HL. by apply connect_loop_retries in HL.
Qed.

(** C35.  A recorded HELLO connects again: any datagram that once decoded to a
    HELLO under the key turns any waiting listener with that key into a
    connected one, from whatever address it is sent, with the replay window
    reset; so everything else recorded under the key is accepted after it. *)
Theorem hello_replay_connects c0 c1 w msg t addr :
  secureMode c0 = true -> Decode w c0 = (c1, Ok msg) -> Type_ msg = MsgHello ->
  (length w <= DefaultReadBuffer)%nat ->
  mode t = ModeListen -> conn t = ConnOpen -> same_key c0 (codec t) ->
  exists t', WaitForPeer [mkWait false (RData w addr) None] t = (t', Some (Ok tt)) /\
    peerAddr t' = Some addr /\ connected t' = true /\
    forall old d1 t1 p1, decode old c0 = (d1, Ok (t1, p1)) ->
      exists d2, decode old (codec t') = (d2, Ok (t1, p1)).
Proof.
  intros Hs HD Ht Hl Hm Hc Hk.
  assert (Decode (take DefaultReadBuffer w) (codec t) = (codec t, Ok msg)) as HD2.
  { rewrite take_ge by lia. eapply Decode_handshake_again; [done..|]. by rewrite Ht. }
  pose proof (waitBody_msg t w addr (codec t) msg Hc Ht HD2) as HW.
  eexists. split_and!.
  - unfold WaitForPeer. rewrite bool_decide_eq_false_2 by congruence. simpl. by rewrite HW.
  - done.
  - done.
  - intros old d1 t1 p1 Hold. cbn [codec].
    destruct (EncodeHelloAck_state (Challenge msg) (ResetRecvNonce (codec t))) as [[K1 K2] K3].
    eapply decode_again; [exact Hs|exact Hold| |exact K3].
    destruct Hk. split; simpl in *; congruence.
Qed.

(**  The address comparison is an equivalence relation, IPv4 and
    IPv4-mapped IPv6 forms included. *)
Theorem addrEqual_equivalence : Equivalence (fun a b => addrEqual a b = true).
Proof.
  split.
  - intros a. apply addrEqual_refl.
  - intros [a|] [b|]; [|done..]. rewrite !addrEqual_Some. naive_solver.
  - intros [a|] [b|] [c|]; try done. rewrite !addrEqual_Some. intros [] []. split; congruence.
Qed.

End props.
(** ** Concrete instances *)

Definition ex_addrL : UDPAddr := mkUDPAddr [xcb; x00; x71; x32] 31415 "".
Definition ex_addrC : UDPAddr := mkUDPAddr [xc0; xa8; x01; x64] 40000 "".
Definition ex_rnd : list byte := replicate 16 x07.
Definition ex_listener : Transport := mkTransport ConnOpen None ModeListen ex_bob [] false false [].
Definition ex_connector : Transport :=
  mkTransport ConnOpen (Some ex_addrL) ModeConnect ex_alice [] false false [].
Definition first_sent (t : Transport) : list byte :=
  match sent t with (w, _) :: _ => w | [] => [] end.
Definition ex_hello : list byte :=
  first_sent (attemptHandshake (mkAttempt (Some ex_rnd) None []) ex_connector).1.
Definition ex_wait : list wait_in := [mkWait false RTimeout None; mkWait false (RData ex_hello ex_addrC) None].
Definition ex_listening : Transport := (WaitForPeer ex_wait ex_listener).1.
Definition ex_ack : list byte := first_sent ex_listening.
Definition ex_attempt : attempt_in := mkAttempt (Some ex_rnd) None [mkHs true false (RData ex_ack ex_addrL)].
Definition ex_connected : Transport := (attemptHandshake ex_attempt ex_connector).1.

Lemma handshake_completes_witness :
  exists tl2 hello,
    WaitForPeer [mkWait false RTimeout None; mkWait false (RData hello ex_addrC) None] ex_listener
      = (tl2, Some (Ok tt)) /\ peerAddr tl2 = Some ex_addrC.
Proof.
  destruct (handshake_completes ex_connector ex_listener ex_addrC ex_addrL ex_rnd 1 3)
    as (tc1 & tl2 & tc2 & hello & ack & _ & _ & H & _ & _ & _ & Hp & _);
    [reflexivity..|split; reflexivity|reflexivity|].
  exists tl2, hello. split; [exact H|exact Hp].
Defined.

Lemma connect_authenticated_witness :
  exists msg, Type_ msg = MsgHelloAck /\
    Response msg = mac (key (codec ex_connector)) (challenge ex_connected).
Proof.
  destruct (connect_authenticated ex_attempt ex_connector ex_connected)
    as (rnd & i & data & addr & c & c1 & msg & H).
  - reflexivity.
  - vm_compute. reflexivity.
  - exists msg. destruct H as (_ & _ & _ & _ & _ & _ & _ & Ht & Hr & _). split; [exact Ht|exact Hr].
Defined.

Lemma listen_on_hello_witness :
  exists addr, peerAddr ex_listening = Some addr /\ connected ex_listening = true /\
    recvNonce (codec ex_listening) = 0.
Proof.
  destruct (listen_on_hello ex_wait ex_listener ex_listening)
    as (i & data & addr & c & c1 & msg & H).
  - reflexivity.
  - vm_compute. reflexivity.
  - destruct H as (_ & _ & _ & _ & _ & Hp & Hc & Hn & _). exists addr.
    split; [exact Hp|split; [exact Hc|exact Hn]].
Defined.

Definition ex_env : NetEnv := mkNetEnv (fun _ => None) (fun _ => inr ex_addrL).
Definition ex_cfg : Config := mkConfig ModeConnect 0 "203.0.113.50:31415" (Some ex_alice) true.

Lemma transport_invariant_witness :
  transport_wf (foldl transport_step ex_connector [OpConnect []; OpSend [x00] None; OpClose None]).
Proof. apply (transport_invariant ex_env ex_cfg). reflexivity. Defined.

Lemma close_final_witness : Send [x01] None (Close None ex_listener).1 = ((Close None ex_listener).1, Err ErrClosed).
Proof.
  destruct (close_final ex_listener [x01] None 8 RTimeout (mkWait false RTimeout None) [] None None)
    as (_ & _ & _ & H & _).
  - split; intros H; discriminate H.
  - exact H.
Defined.

Definition ex_failed : connect_in := mkConnect false (mkAttempt None None []) false.

Lemma connect_retries_witness :
  (Connect (replicate 6 ex_failed) ex_connector).1.2 = schedule <$> seq 0 6.
Proof.
  apply (connect_retries (replicate 6 ex_failed) ex_connector
           (Connect (replicate 6 ex_failed) ex_connector).1.1.1 6 _ None).
  - reflexivity.
  - vm_compute. reflexivity.
Defined.

Lemma hello_replay_connects_witness :
  exists t', WaitForPeer [mkWait false (RData ex_hello ex_addrL) None] ex_listener = (t', Some (Ok tt)) /\
    peerAddr t' = Some ex_addrL.
Proof.
  destruct (hello_replay_connects ex_bob ex_bob ex_hello
              (mkMessage MsgHello [] ProtocolVersion ex_rnd [] 0) ex_listener ex_addrL)
    as (t' & H & Hp & _).
  - reflexivity.
  - vm_compute. reflexivity.
  - reflexivity.
  - apply Nat.leb_le. vm_compute. reflexivity.
  - reflexivity.
  - reflexivity.
  - split; reflexivity.
  - exists t'. split; [exact H|exact Hp].
Defined.

End TransportProps.
