(* ===== verification/Capture.v ===== *)
(** * Packet capture and injection: internal/capture/capture.go

    libpcap and gopacket are outside the program: the record [Pcap] has what
    they answer (the device list, whether each call on a handle fails), and the
    packets an open handle yields are inputs.  A call of a handle method on a
    nil handle is the outcome [NilHandle]; what gopacket does then is not
    defined here. *)

From Stdlib Require Import Ascii.
From S2P Require Import Prelude GoLib.
Import GoLib.

Module Capture.

(** ** Data *)

Definition SnapLen : Z := 65536.
Definition ReadTimeout : Z := 10 * 1000000.
Definition BufferSize : Z := 2 * 1024 * 1024.

(** An error of libpcap, by its text. *)
Abbreviation pcaperr := string.

Inductive cerr :=
| ErrNpcapNotInstalled
| ErrInterfaceNotFound (name : string)
| ErrInvalidMAC
| ErrMACLength (n : nat)
| ErrLoggerRequired
| ErrListInterfaces (e : pcaperr)
| ErrCreateHandle (name : string) (e : pcaperr)
| ErrSnapLen (e : pcaperr)
| ErrPromisc (e : pcaperr)
| ErrTimeout (e : pcaperr)
| ErrActivate (name : string) (e : pcaperr)
| ErrFilter (filter : string) (e : pcaperr).

#[export] Instance cerr_eq_dec : EqDecision cerr.
Proof. solve_decision. Defined.

Record InterfaceInfo := mkInterfaceInfo {
  Name : string;
  Description : string;
  Addresses : list string;
  Flags : string;
}.

Inductive Handle := HandleNil | HandleOpen.
#[export] Instance Handle_eq_dec : EqDecision Handle.
Proof. solve_decision. Defined.

Record Capture := mkCapture { handle : Handle; xboxMAC : HardwareAddr; ifName : string }.

Record Config := mkConfig { cfgInterface : string; cfgXboxMAC : HardwareAddr; cfgLogger : bool }.

(** ** The platform: [runtime.GOOS], libpcap and its bindings *)

(** A device of [pcap.FindAllDevs]; an address may have no IP. *)
Record Device := mkDevice {
  devName : string;
  devDescription : string;
  devAddresses : list (option (list byte));
}.

Record Pcap := mkPcap {
  GOOS : string;
  Version : string;
  FindAllDevs : pcaperr + list Device;
  NewInactiveHandle : string -> option pcaperr;
  SetSnapLen : Z -> option pcaperr;
  SetPromisc : bool -> option pcaperr;
  SetTimeout : Z -> option pcaperr;
  Activate : option pcaperr;
  SetBPFFilter : string -> option pcaperr;
}.

(** What reading an open handle yields. *)
Inductive pcap_read :=
| PTimeout
| PError (e : pcaperr)
| PData (data : list byte).

(** ** Interfaces *)

Definition CheckNpcapInstalled (p : Pcap) : option cerr :=
  if bool_decide (GOOS p ≠ "windows"%string) then None else
  if bool_decide (Version p = EmptyString) then Some ErrNpcapNotInstalled else None.

(** A double quote, a text with some, and the lines of a text. *)
Definition dq : string := String (Ascii.ascii_of_nat 34) EmptyString.
Definition quoted : list string -> string := String.concat EmptyString.
Definition textLines : list string -> string := String.concat (String (Ascii.ascii_of_nat 10) EmptyString).

Definition NpcapInstallHelp (p : Pcap) : string :=
  if bool_decide (GOOS p = "windows"%string) then textLines
    ["Npcap is required for packet capture on Windows.";
     EmptyString;
     "To install Npcap:";
     "1. Download from https://npcap.com/";
     "2. Run the installer";
     quoted ["3. IMPORTANT: Check "; dq; "Install Npcap in WinPcap API-compatible Mode"; dq];
     "4. Restart this application";
     EmptyString;
     "If you have Npcap installed but still see this error:";
     "- Make sure you installed with WinPcap compatibility mode";
     "- Try running this application as Administrator"]%string
  else if bool_decide (GOOS p = "darwin"%string) then textLines
    ["Packet capture requires root privileges on macOS.";
     EmptyString;
     "Try running with sudo:";
     "  sudo xbslink-ng [command] [flags]";
     EmptyString;
     quoted ["If you see "; dq; "Operation not permitted"; dq; ", ensure your terminal has "];
     "Full Disk Access in System Preferences > Privacy & Security."]%string
  else if bool_decide (GOOS p = "linux"%string) then textLines
    ["Packet capture requires either root privileges or the pcap capability.";
     EmptyString;
     "Option 1: Run with sudo:";
     "  sudo xbslink-ng [command] [flags]";
     EmptyString;
     "Option 2: Add pcap capability to the binary:";
     "  sudo setcap cap_net_raw,cap_net_admin=eip /path/to/xbslink-ng";
     EmptyString;
     "Option 3: Add your user to the pcap group:";
     "  sudo usermod -a -G pcap $USER";
     "  (Log out and back in for this to take effect)";
     EmptyString;
     "If libpcap is not installed:";
     "  Debian/Ubuntu: sudo apt install libpcap-dev";
     "  Fedora/RHEL:   sudo dnf install libpcap-devel";
     "  Arch:          sudo pacman -S libpcap"]%string
  else "Ensure libpcap is installed and you have permission to capture packets."%string.

Definition deviceInfo (dev : Device) : InterfaceInfo :=
  mkInterfaceInfo (devName dev) (devDescription dev)
    (ip_String <$> omap id (devAddresses dev))
    (String.concat "," (if (0 <? length (devAddresses dev))%nat then ["UP"%string] else [])).

Definition ListInterfaces (p : Pcap) : outcome cerr (list InterfaceInfo) :=
  match CheckNpcapInstalled p with
  | Some e => Err e
  | None =>
      match FindAllDevs p with
      | inl e => Err (ErrListInterfaces e)
      | inr devices => Ok (deviceInfo <$> devices)
      end
  end.

(** The first element a predicate holds of: one [for range] loop. *)
Fixpoint firstMatch {A} (f : A -> bool) (l : list A) : option A :=
  match l with
  | [] => None
  | i :: l' => if f i then Some i else firstMatch f l'
  end.

Definition FindInterface `{Unicode} (p : Pcap) (name : string) : outcome cerr InterfaceInfo :=
  interfaces ← ListInterfaces p;
  match firstMatch (fun i => bool_decide (Name i = name)) interfaces with
  | Some i => Ok i
  | None =>
      let nameLower := ToLower name in
      match firstMatch (fun i => bool_decide (ToLower (Name i) = nameLower)) interfaces with
      | Some i => Ok i
      | None =>
          match firstMatch (fun i => Contains (ToLower (Description i)) nameLower) interfaces with
          | Some i => Ok i
          | None => Err (ErrInterfaceNotFound name)
          end
      end
  end.

(** ** Addresses *)

Definition ParseMAC (s : string) : outcome cerr HardwareAddr :=
  let s := ReplaceAllChar s "-"%char ":"%char in
  match net_ParseMAC s with
  | None => Err ErrInvalidMAC
  | Some mac => if negb (length mac =? 6)%nat then Err (ErrMACLength (length mac)) else Ok mac
  end.

(** ** The handle *)

Definition bpfFilter (mac : HardwareAddr) : string := String.append "ether src " (mac_String mac).

(** A call that may fail, with the error it is reported as. *)
Definition guard_call {E A} (r : option pcaperr) (mk : pcaperr -> E) (k : outcome E A)
    : outcome E A :=
  match r with Some e => Err (mk e) | None => k end.

Definition New `{Unicode} (p : Pcap) (cfg : Config) : outcome cerr Capture :=
  if negb (cfgLogger cfg) then Err ErrLoggerRequired else
  if negb (length (cfgXboxMAC cfg) =? 6)%nat then Err ErrInvalidMAC else
  match CheckNpcapInstalled p with
  | Some e => Err e
  | None =>
      iface ← FindInterface p (cfgInterface cfg);
      guard_call (NewInactiveHandle p (Name iface)) (ErrCreateHandle (Name iface)) (
      guard_call (SetSnapLen p SnapLen) ErrSnapLen (
      guard_call (SetPromisc p true) ErrPromisc (
      guard_call (SetTimeout p ReadTimeout) ErrTimeout (
      guard_call (Activate p) (ErrActivate (Name iface)) (
      let filter := bpfFilter (cfgXboxMAC cfg) in
      guard_call (SetBPFFilter p filter) (ErrFilter filter) (
      Ok (mkCapture HandleOpen (cfgXboxMAC cfg) (Name iface))))))))
  end.

(** The result of a call on the handle. *)
Inductive hres (A : Type) :=
| HRet (a : A)
| HErr (e : pcaperr)
| NilHandle.
Arguments HRet {A} a.
Arguments HErr {A} e.
Arguments NilHandle {A}.

(** [None] is the nil frame: no packet was available. *)
Definition ReadPacket (r : pcap_read) (c : Capture) : hres (option (list byte)) :=
  match handle c with
  | HandleNil => NilHandle
  | HandleOpen =>
      match r with
      | PTimeout => HRet None
      | PError e => HErr e
      | PData data =>
          if (length data =? 0)%nat then HRet None
          else HRet (Some (go_copy (make_bytes (length data)) 0 (length data) data))
      end
  end.

(** [w] is the error of the write, if any; the result is what went out. *)
Definition WritePacket (frame : list byte) (w : option pcaperr) (c : Capture) : hres (list byte) :=
  if (length frame <? 14)%nat
  then HErr (String.append "frame too small: " (String.append (fmt_d (Z.of_nat (length frame))) " bytes"))
  else
  match handle c with
  | HandleNil => NilHandle
  | HandleOpen => match w with Some e => HErr e | None => HRet frame end
  end.

Definition Close (c : Capture) : Capture := mkCapture HandleNil (xboxMAC c) (ifName c).

(** [stats] is what the open handle answers. *)
Definition Stats {S} (stats : pcaperr + S) (c : Capture) : hres S :=
  match handle c with
  | HandleNil => HErr "capture not open"
  | HandleOpen => match stats with inl e => HErr e | inr s => HRet s end
  end.

Definition InterfaceName (c : Capture) : string := ifName c.
Definition XboxMAC (c : Capture) : HardwareAddr := xboxMAC c.

(** ** Display *)

Definition ifaceLines (i : nat) (iface : InterfaceInfo) : string :=
  let nl := String (Ascii.ascii_of_nat 10) EmptyString in
  String.concat EmptyString (
    ["  "; fmt_d (Z.of_nat (S i)); ". "; Name iface; nl]%string ++
    (if bool_decide (Description iface ≠ EmptyString)
     then ["     Description: "; Description iface; nl]%string else []) ++
    (if (0 <? length (Addresses iface))%nat
     then ["     Addresses:   "; String.concat ", " (Addresses iface); nl]%string else []) ++ [nl]).

Definition FormatInterfaceList (interfaces : list InterfaceInfo) : string :=
  let nl := String (Ascii.ascii_of_nat 10) EmptyString in
  String.append (String.concat EmptyString ["Available network interfaces:"; nl; nl]%string)
    (String.concat EmptyString (imap ifaceLines interfaces)).

(** Source, destination and EtherType; [None] addresses are nil. *)
Definition DecodeEthernetFrame (frame : list byte)
    : option HardwareAddr * option HardwareAddr * Z :=
  if (length frame <? 14)%nat then (None, None, 0) else
  let at_ i := b2z (default x00 (frame !! i)) in
  (Some (slice 6 12 frame), Some (slice 0 6 frame),
   Z.lor (u16 (at_ 12%nat ≪ 8)) (at_ 13%nat)).

(** gopacket's [layers.EthernetType] values are the IEEE-assigned numbers. *)
Record EtherTypes := mkEtherTypes { etIPv4 : Z; etIPv6 : Z; etARP : Z }.

Definition EtherTypeName (et : EtherTypes) (etherType : Z) : string :=
  if etherType =? etIPv4 et then "IPv4" else
  if etherType =? etIPv6 et then "IPv6" else
  if etherType =? etARP et then "ARP" else
  String.append "0x" (fmt_0x true 4 etherType).

(** ** Lemmas *)

Lemma list_of_map f s :
  String.list_ascii_of_string (map_string f s) = f <$> String.list_ascii_of_string s.
Proof. unfold map_string. by rewrite String.list_ascii_of_string_of_list_ascii. Qed.

Lemma map_string_id f s : Forall (fun c => f c = c) (String.list_ascii_of_string s) ->
  map_string f s = s.
Proof.
  intros H. unfold map_string. rewrite <- (String.string_of_list_ascii_of_string s) at 2.
  f_equal. induction H as [|c l Hc H IH]; csimpl; congruence.
Qed.

Lemma hexByte_no_dash b : Forall (fun c => c ≠ "-"%char) (hexByte b).
Proof. destruct b; repeat (constructor; [done|]); constructor. Qed.

Lemma macChars_no_dash a : Forall (fun c => c ≠ "-"%char) (macChars a).
Proof.
  induction a as [|b [|b' a] IH]; [constructor|apply hexByte_no_dash|].
  change (macChars (b :: b' :: a)) with (hexByte b ++ ":"%char :: macChars (b' :: a)).
  apply Forall_app; split; [apply hexByte_no_dash|by constructor].
Qed.

Lemma replace_dash_mac a : ReplaceAllChar (mac_String a) "-"%char ":"%char = mac_String a.
Proof.
  apply map_string_id. unfold mac_String. rewrite String.list_ascii_of_string_of_list_ascii.
  eapply Forall_impl; [apply macChars_no_dash|]. intros c Hc. by case_bool_decide.
Qed.

Lemma replace_back a :
  ReplaceAllChar (ReplaceAllChar (mac_String a) ":"%char "-"%char) "-"%char ":"%char = mac_String a.
Proof.
  rewrite <- (String.string_of_list_ascii_of_string (ReplaceAllChar (ReplaceAllChar _ _ _) _ _)).
  unfold ReplaceAllChar. rewrite !list_of_map. unfold mac_String.
  rewrite String.list_ascii_of_string_of_list_ascii. f_equal.
  pose proof (macChars_no_dash a) as H. induction H as [|c l Hc H IH]; csimpl; [done|].
  rewrite IH. f_equal. repeat case_bool_decide; congruence.
Qed.

Lemma firstMatch_Some {A} (f : A -> bool) l i : firstMatch f l = Some i -> i ∈ l /\ f i = true.
Proof.
  induction l as [|j l IH]; simpl; [done|]. case_match; intros; simplify_eq.
  - split; [apply list_elem_of_here|done].
  - destruct IH; [done|]. split; [by apply list_elem_of_further|done].
Qed.

Lemma firstMatch_fmap {A B} (g : A -> B) (f : B -> bool) l :
  firstMatch f (g <$> l) = g <$> firstMatch (fun a => f (g a)) l.
Proof. induction l as [|a l IH]; csimpl; [done|]. by destruct (f (g a)). Qed.

Lemma firstMatch_None {A} (f : A -> bool) l : firstMatch f l = None <-> Forall (fun i => f i = false) l.
Proof.
  induction l as [|j l IH]; simpl; [split; [constructor|done]|].
  rewrite Forall_cons. destruct (f j); [split; [done|by intros [? _]]|].
  rewrite IH. split; [done|by intros [_ ?]].
Qed.

(** ** Claims *)

(** Parsing a MAC address inverts printing one, with colons or with
    hyphens, and never yields anything but six bytes. *)
Theorem ParseMAC_roundtrip (a : HardwareAddr) :
  (length a = 6%nat ->
     ParseMAC (mac_String a) = Ok a /\
     ParseMAC (ReplaceAllChar (mac_String a) ":"%char "-"%char) = Ok a) /\
  (forall s, ParseMAC s = Ok a -> length a = 6%nat).
Proof.
  split.
  - intros Hl. unfold ParseMAC. rewrite replace_dash_mac, replace_back.
    rewrite ParseMAC_String by (by rewrite Hl). by rewrite Hl.
  - intros s E. unfold ParseMAC in E. destruct (net_ParseMAC _) as [m|]; [|done].
    destruct (length m =? 6)%nat eqn:Hm; simplify_eq/=. by apply Nat.eqb_eq.
Qed.

(** [FindInterface] returns a listed interface: one with exactly the
    name; only if there is none, one with the name up to case; only if there
    is none, one whose description contains the name.  It fails with the
    not-found error exactly when no listed interface matches in any way. *)
Theorem FindInterface_spec `{Unicode} (p : Pcap) (name : string) (l : list InterfaceInfo) :
  ListInterfaces p = Ok l ->
  let exact i := Name i = name in
  let fold i := ToLower (Name i) = ToLower name in
  let descr i := Contains (ToLower (Description i)) (ToLower name) = true in
  match FindInterface p name with
  | Ok i => i ∈ l /\ (exact i \/
              (Forall (fun j => ~ exact j) l /\ fold i) \/
              (Forall (fun j => ~ exact j /\ ~ fold j) l /\ descr i))
  | Err e => e = ErrInterfaceNotFound name /\ Forall (fun j => ~ exact j /\ ~ fold j /\ ~ descr j) l
  | Panic => False
  end.
Proof.
  intros Hl exact fold descr. unfold FindInterface. rewrite Hl. cbn [mbind outcome_bind].
  assert (forall (f : InterfaceInfo -> bool) (P : InterfaceInfo -> Prop),
    (forall i, f i = false -> ~ P i) -> firstMatch f l = None -> Forall (fun j => ~ P j) l) as Hnone.
  { intros f P HP Hf. apply firstMatch_None in Hf. eapply Forall_impl; [exact Hf|]. auto. }
  destruct (firstMatch _ l) as [i|] eqn:E1.
  { apply firstMatch_Some in E1 as [Hi E1]. reflect_all. auto. }
  apply (Hnone _ exact) in E1; [|by intros i Hi; apply bool_decide_eq_false in Hi].
  destruct (firstMatch _ l) as [i|] eqn:E2.
  { apply firstMatch_Some in E2 as [Hi E2]. reflect_all. auto. }
  apply (Hnone _ fold) in E2; [|by intros i Hi; apply bool_decide_eq_false in Hi].
  destruct (firstMatch _ l) as [i|] eqn:E3.
  { apply firstMatch_Some in E3 as [Hi E3]. split; [done|]. right; right.
    split; [|done]. by apply Forall_and. }
  apply (Hnone _ descr) in E3; [|intros i Hi; unfold descr; by rewrite Hi].
  split; [done|]. apply Forall_and; split; [done|]. by apply Forall_and.
Qed.

(** A capture that opens is on a listed interface, with the handle open,
    filtered in the kernel to exactly the frames of the configured six-byte
    MAC address; after [Close] every read is a call on a nil handle, and so is
    every write of a frame long enough to be sent. *)
Theorem New_filters `{Unicode} (p : Pcap) (cfg : Config) (c : Capture) :
  New p cfg = Ok c ->
  length (cfgXboxMAC cfg) = 6%nat /\
  SetBPFFilter p (String.append "ether src " (mac_String (xboxMAC c))) = None /\
  xboxMAC c = cfgXboxMAC cfg /\ handle c = HandleOpen /\
  (exists i, FindInterface p (cfgInterface cfg) = Ok i /\ ifName c = Name i) /\
  (forall r, ReadPacket r (Close c) = NilHandle) /\
  (forall f w, (14 <= length f)%nat -> WritePacket f w (Close c) = NilHandle).
Proof.
  unfold New, guard_call. intros E.
  destruct (FindInterface p (cfgInterface cfg)) as [i|e|] eqn:Ei; cbn [mbind outcome_bind] in E;
    go_cases; reflect_all; simplify_eq/=; try done.
  repeat split; eauto.
  intros f w Hf. unfold WritePacket. rewrite (proj2 (Nat.ltb_ge _ _)) by done. done.
Qed.

(** Decoding a frame for the log finds its destination, source and
    EtherType where Ethernet puts them; shorter frames decode to nothing. *)
Theorem DecodeEthernetFrame_spec (dst src : HardwareAddr) (etype : Z) (payload : list byte) :
  length dst = 6%nat -> length src = 6%nat -> 0 <= etype < 2 ^ 16 ->
  DecodeEthernetFrame (dst ++ src ++ be_put 2 etype ++ payload) = (Some src, Some dst, etype) /\
  (forall f, (length f < 14)%nat -> DecodeEthernetFrame f = (None, None, 0)).
Proof.
  intros Hd Hs He. split.
  - unfold DecodeEthernetFrame. rewrite (proj2 (Nat.ltb_ge _ _)) by len.
    rewrite (slice_app_mid dst src) by lia.
    rewrite (slice_prefix dst) by done.
    rewrite !(lookup_app_r dst), !(lookup_app_r src), Hd, Hs by lia.
    change ((be_put 2 etype ++ payload) !! (12 - 6 - 6)%nat) with (Some (z2b (etype ≫ (8 * Z.of_nat 1)))).
    change ((be_put 2 etype ++ payload) !! (13 - 6 - 6)%nat) with (Some (z2b (etype ≫ (8 * Z.of_nat 0)))).
    cbn [from_option id]. unfold id. rewrite !b2z_z2b, !Z.shiftr_div_pow2 by lia. f_equal.
    change (8 * Z.of_nat 1) with 8. change (8 * Z.of_nat 0) with 0. rewrite Z.div_1_r.
    rewrite (Z.mod_small (etype / 2 ^ 8)) by
      (split; [apply Z.div_pos; lia|apply Z.div_lt_upper_bound; lia]).
    rewrite wrap_small by
      (rewrite Z.shiftl_mul_pow2 by lia; pose proof (Z.div_mod etype (2 ^ 8));
       pose proof (Z.mod_pos_bound etype (2 ^ 8)); pose proof (Z.div_pos etype (2 ^ 8)); lia).
    rewrite <- Z.shiftr_div_pow2 by lia. change 256 with (2 ^ 8).
    rewrite <- Z.land_ones by lia. apply Z.bits_inj'. intros n Hn.
    rewrite Z.lor_spec, Z.shiftl_spec, Z.land_spec, Z.testbit_ones by lia.
    destruct (decide (n < 8)).
    + rewrite Z.testbit_neg_r by lia. by rewrite (proj2 (Z.ltb_lt _ _)), (proj2 (Z.leb_le _ _)), andb_true_r by lia.
    + rewrite Z.shiftr_spec by lia. replace (n - 8 + 8) with n by lia.
      rewrite (proj2 (Z.ltb_ge _ _)) by lia. by rewrite !andb_false_r, orb_false_r.
  - intros f Hf. unfold DecodeEthernetFrame. by rewrite (proj2 (Nat.ltb_lt _ _)).
Qed.

(** ** Witnesses *)

Definition ex_unicode : Unicode := Build_Unicode (fun s => s) (fun s => s).
Definition ex_mac : HardwareAddr := [x00; x50; xf2; x1a; x2b; x3c].
Definition ex_pcap : Pcap :=
  mkPcap "linux" "libpcap version 1.10.1"
    (inr [mkDevice "lo" "Loopback" [Some [x7f; x00; x00; x01]];
          mkDevice "eth0" "Wired" [None; Some [xc0; xa8; x01; x0a]]])
    (fun _ => None) (fun _ => None) (fun _ => None) (fun _ => None) None (fun _ => None).
Definition ex_cfg : Config := mkConfig "ETH0" ex_mac true.

Lemma ParseMAC_roundtrip_witness :
  ParseMAC (mac_String ex_mac) = Ok ex_mac /\
  ParseMAC (ReplaceAllChar (mac_String ex_mac) ":"%char "-"%char) = Ok ex_mac.
Proof. exact (proj1 (ParseMAC_roundtrip ex_mac) eq_refl). Defined.

Lemma FindInterface_spec_witness :
  match FindInterface (H := ex_unicode) ex_pcap "ETH0" with
  | Ok i => Name i = "eth0"%string /\ Addresses i = ["192.168.1.10"%string]
  | _ => False
  end /\
  match FindInterface (H := ex_unicode) ex_pcap "wlan0" with
  | Err e => e = ErrInterfaceNotFound "wlan0"
  | _ => False
  end.
Proof.
  split; [split; reflexivity|].
  exact (proj1 (@FindInterface_spec ex_unicode ex_pcap "wlan0" _ eq_refl)).
Defined.

Lemma New_filters_witness :
  SetBPFFilter ex_pcap "ether src 00:50:f2:1a:2b:3c" = None /\
  handle (mkCapture HandleOpen ex_mac "eth0") = HandleOpen.
Proof.
  pose proof (@New_filters ex_unicode ex_pcap ex_cfg (mkCapture HandleOpen ex_mac "eth0") eq_refl)
    as (_ & Hf & _ & Hh & _).
  exact (conj Hf Hh).
Defined.

Lemma DecodeEthernetFrame_spec_witness :
  DecodeEthernetFrame (replicate 6 xff ++ ex_mac ++ be_put 2 2048 ++ replicate 46 x00)
    = (Some ex_mac, Some (replicate 6 xff), 2048).
Proof.
  apply (DecodeEthernetFrame_spec (replicate 6 xff) ex_mac 2048 (replicate 46 x00));
    [reflexivity|reflexivity|lia].
Defined.

End Capture.
