(* ===== verification/Events.v ===== *)
(** * Diagnostic events: internal/events

    The event payloads, the emitters, and the asynchronous writer as a state
    machine: producers, the writer goroutine and [Close] take steps in any
    order; the time, and how much of a line the file takes, are inputs of the
    steps.  What is written is the JSON text. *)

From Stdlib Require Import Ascii.
From S2P Require Import Prelude GoFloat GoLib Json JsonWrite GoDecimal FloatText GoTime.
Import GoFloat GoLib Json JsonWrite GoDecimal FloatText GoTime.

Module Events.

(** ** Payloads *)

Inductive EventType := EventStateChanged | EventStats | EventLatency | EventDiscovery | EventError.
#[export] Instance EventType_eq_dec : EqDecision EventType.
Proof. solve_decision. Defined.

Definition EventType_string (e : EventType) : string :=
  match e with
  | EventStateChanged => "state_changed"
  | EventStats => "stats"
  | EventLatency => "latency"
  | EventDiscovery => "discovery"
  | EventError => "error"
  end.

Record StateChangedData := mkStateChangedData { State : string; PeerAddr : string }.
Record StatsData := mkStatsData {
  TxPackets : Z; TxBytes : Z; RxPackets : Z; RxBytes : Z; RTTCurrentMs : float64; RTTAvgMs : float64 }.
Record LatencyData := mkLatencyData { RTTMs : float64; IsSpike : bool; ExceedsThreshold : bool }.
Record DiscoveryData := mkDiscoveryData { MAC : string }.
Record ErrorData := mkErrorData { Message : string }.

(** The values the program passes as an event's [data]. *)
Inductive Data :=
| DStateChanged (d : StateChangedData)
| DStats (d : StatsData)
| DLatency (d : LatencyData)
| DDiscovery (d : DiscoveryData)
| DError (d : ErrorData).

Record Envelope := mkEnvelope { Type_ : EventType; Timestamp : Time; Payload : Data }.

(** ** JSON *)

Definition str (s : string) : jval := JStr (chars s).
Definition uint (n : Z) : jval := JNum (chars (fmt_d n)).
Definition float (f : float64) : option jval := JNum <$> floatText f.

(** A payload with the names of the struct tags; an empty [peer_addr] is left
    out, and a float that is not a number is an error. *)
Definition dataJson (d : Data) : option jval :=
  match d with
  | DStateChanged d =>
      Some (JObj ((chars "state", str (State d)) ::
        if bool_decide (PeerAddr d = EmptyString) then [] else [(chars "peer_addr", str (PeerAddr d))]))
  | DStats d =>
      cur ← float (RTTCurrentMs d);
      avg ← float (RTTAvgMs d);
      Some (JObj [(chars "tx_packets", uint (TxPackets d)); (chars "tx_bytes", uint (TxBytes d));
                  (chars "rx_packets", uint (RxPackets d)); (chars "rx_bytes", uint (RxBytes d));
                  (chars "rtt_current_ms", cur); (chars "rtt_avg_ms", avg)])
  | DLatency d =>
      rtt ← float (RTTMs d);
      Some (JObj [(chars "rtt_ms", rtt); (chars "is_spike", JBool (IsSpike d));
                  (chars "exceeds_threshold", JBool (ExceedsThreshold d))])
  | DDiscovery d => Some (JObj [(chars "mac", str (MAC d))])
  | DError d => Some (JObj [(chars "message", str (Message d))])
  end.

Definition envelopeJson (env : Envelope) : option jval :=
  t ← timeText (Timestamp env);
  d ← dataJson (Payload env);
  Some (JObj [(chars "type", str (EventType_string (Type_ env))); (chars "timestamp", JStr t); (chars "data", d)]).

(** The line of an event: [json.Encoder] without HTML escaping ends it with a
    newline. *)
Definition encodeLine (env : Envelope) : option text :=
  v ← envelopeJson env; Some (writeValue false v ++ [newline]).

(** ** Emitters *)

(** What a write does: all of it, or its first bytes and an error. *)
Definition write_res : Type := option nat.

(** The [Emitter] interface: [Emit] at a time, the file answering a write.
    What was written stays written. *)
Class Emitter (S : Type) := {
  Emit : EventType -> Data -> Time -> write_res -> S -> S;
  written : S -> text;
  Emit_written : forall t d now wr s, written s `prefix_of` written (Emit t d now wr s);
}.

(** [NopEmitter] discards everything. *)
#[export] Instance NopEmitter : Emitter unit.
Proof. refine {| Emit := fun _ _ _ _ s => s; written := fun _ => [] |}. done. Defined.

(** [JSONLineWriter]: the text written, the error the encoder keeps after a
    failed write, and the underlying writer. *)
Record JSONLineWriter := mkJSONLineWriter {
  output : text;
  encErr : bool;
  isCloser : bool;
  wClosed : bool;
}.

Definition NewJSONLineWriter (isCloser : bool) : JSONLineWriter := mkJSONLineWriter [] false isCloser false.

(** [Emit]: after a failed write the encoder writes nothing more; an event that
    cannot be encoded is dropped. *)
Definition jsonEmit (t : EventType) (d : Data) (now : Time) (wr : write_res) (j : JSONLineWriter) : JSONLineWriter :=
  let env := mkEnvelope t now d in
  if encErr j then j else
  match encodeLine env with
  | None => j
  | Some line =>
      match wr with
      | None => mkJSONLineWriter (output j ++ line) false (isCloser j) (wClosed j)
      | Some n => mkJSONLineWriter (output j ++ take n line) true (isCloser j) (wClosed j)
      end
  end.

Definition jsonClose (j : JSONLineWriter) : JSONLineWriter :=
  if isCloser j then mkJSONLineWriter (output j) (encErr j) true true else j.

Lemma jsonEmit_prefix t d now wr j : output j `prefix_of` output (jsonEmit t d now wr j).
Proof. unfold jsonEmit. repeat case_match; simpl; try done; by apply prefix_app_r. Qed.

#[export] Instance JSONLineEmitter : Emitter JSONLineWriter := {| Emit_written := jsonEmit_prefix |}.

(** ** The asynchronous writer *)

Definition queueCap : nat := 64.

(** The writer goroutine: at the select, draining, or returned. *)
Inductive wpc := WSelect | WDrain | WExit.
#[export] Instance wpc_eq_dec : EqDecision wpc.
Proof. solve_decision. Defined.

Record Async := mkAsync {
  events : list Envelope;
  done : bool;
  pc : wpc;
  w : JSONLineWriter;
  closed : bool;
}.

Definition NewAsyncJSONLineWriter (isCloser : bool) : Async :=
  mkAsync [] false WSelect (NewJSONLineWriter isCloser) false.

(** [Emit]: queue the event unless the buffer is full. *)
Definition asyncEmit (t : EventType) (d : Data) (now : Time) (a : Async) : Async :=
  let env := mkEnvelope t now d in
  if (length (events a) <? queueCap)%nat
  then mkAsync (events a ++ [env]) (done a) (pc a) (w a) (closed a)
  else a.

#[export] Instance AsyncEmitter : Emitter Async.
Proof.
  refine {| Emit := fun t d now _ => asyncEmit t d now; written := fun a => output (w a) |}.
  intros t d now _ a. unfold asyncEmit. by case_match.
Defined.

Inductive label :=
| LEmit (t : EventType) (d : Data) (now : Time)
| LTake (now : Time) (wr : write_res)
| LSeeDone
| LClose
| LClosed.

(** Write the oldest queued event; the writer stamps the time of writing. *)
Definition writeHead (now : Time) (wr : write_res) (a : Async) : option Async :=
  match events a with
  | [] => None
  | env :: q =>
      Some (mkAsync q (done a) (pc a) (jsonEmit (Type_ env) (Payload env) now wr (w a)) (closed a))
  end.

(** The writer's step on [events]: taken at the select, or while draining. *)
Definition writerTake (now : Time) (wr : write_res) (a : Async) : option Async :=
  match pc a with
  | WSelect | WDrain => writeHead now wr a
  | WExit => None
  end.

(** The writer's step on [done], and the end of the drain loop. *)
Definition writerDone (a : Async) : option Async :=
  match pc a with
  | WSelect =>
      if done a then Some (mkAsync (events a) (done a) WDrain (w a) (closed a)) else None
  | WDrain =>
      if (length (events a) =? 0)%nat then Some (mkAsync (events a) (done a) WExit (w a) (closed a))
      else None
  | WExit => None
  end.

(** [Close]: close the channel (a second close panics), and, once the writer
    has returned, close the underlying writer. *)
Definition closeStart (a : Async) : option Async :=
  if done a then None else Some (mkAsync (events a) true (pc a) (w a) (closed a)).

Definition closeFinish (a : Async) : option Async :=
  if done a && bool_decide (pc a = WExit) && negb (closed a)
  then Some (mkAsync (events a) (done a) (pc a) (jsonClose (w a)) true) else None.

Definition step (l : label) (a : Async) : option Async :=
  match l with
  | LEmit t d now => Some (asyncEmit t d now a)
  | LTake now wr => writerTake now wr a
  | LSeeDone => writerDone a
  | LClose => closeStart a
  | LClosed => closeFinish a
  end.

Fixpoint run (ls : list label) (a : Async) : option Async :=
  match ls with
  | [] => Some a
  | l :: ls' => a' ← step l a; run ls' a'
  end.

End Events.
