(* ===== verification/EventsProps.v ===== *)
(** * Diagnostic events: what a reader of the file gets

    The lines of the output are read as JSON; what is read, in every
    interleaving and whatever writes fail, is compared with what was emitted. *)

From Stdlib Require Import Ascii.
From S2P Require Import Prelude GoFloat GoLib Json JsonWrite GoDecimal FloatText FloatExact GoTime Events.
Import GoFloat GoLib Json JsonWrite GoDecimal FloatText FloatExact GoTime Events.

Module EventsProps.

(** ** Specification *)

(** The event of a line: its type and its data. *)
Definition eventOf (v : jval) : option (text * jval) :=
  match v with
  | JObj [(k1, JStr ty); (k2, JStr _); (k3, d)] =>
      if bool_decide (k1 = chars "type" /\ k2 = chars "timestamp" /\ k3 = chars "data")
      then Some (ty, d) else None
  | _ => None
  end.

(** What a reader of the output gets. *)
Definition readEvents (j : JSONLineWriter) : list (text * jval) := omap eventOf (readLines (output j)).

(** What a reader should get of an emitted event, unless it cannot be encoded. *)
Definition expected (e : EventType * Data) : option (text * jval) :=
  d ← dataJson e.2; Some (chars (EventType_string e.1), readBack d).

(** An event without its time stamp. *)
Definition strip (e : Envelope) : EventType * Data := (Type_ e, Payload e).

(** The events the producers emitted, in order. *)
Definition emits (ls : list label) : list (EventType * Data) :=
  omap (fun l => match l with LEmit t d _ => Some (t, d) | _ => None end) ls.
Arguments emits _ : simpl never.

(** What the file has or will have: what is read from it, then the queue. *)
Definition content (a : Async) : list (text * jval) :=
  readEvents (w a) ++ omap (expected ∘ strip) (events a).

Definition async_wf (a : Async) : Prop :=
  (length (events a) <= queueCap)%nat /\
  (pc a ≠ WSelect -> done a = true) /\
  (closed a = true -> pc a = WExit) /\
  (encErr (w a) = false -> complete (output (w a))).

(** The steps left before [Close] returns, if nothing more is emitted. *)
Definition measure (a : Async) : nat :=
  length (events a) + match pc a with WSelect => 2 | WDrain => 1 | WExit => 0 end +
  (if done a then 0 else 1) + (if closed a then 0 else 1).

(** A step whose write, if it writes, succeeds at a time that has a text. *)
Definition goodWrite (l : label) : bool :=
  match l with LTake now wr => bool_decide (wr = None) && bool_decide (timeText now ≠ None) | _ => true end.

(** ** Lines *)

Lemma uint_number n : isNumber (chars (fmt_d n)) = true.
Proof.
  apply bool_decide_eq_true. destruct (Z.neg_nonneg_cases n) as [Hn|Hn].
  - assert (chars (fmt_d n) = signText true ++ chars (fmt_d (- n))) as ->.
    { unfold fmt_d. rewrite (proj2 (Z.ltb_lt _ _)), (proj2 (Z.ltb_ge (- n) 0)) by lia. done. }
    apply literal_int, fmt_d_decimal. lia.
  - apply (literal_int false), fmt_d_decimal. lia.
Qed.

Lemma data_object d v : dataJson d = Some v -> exists kvs, v = JObj kvs /\ forall n, 0 < n -> writable n v = true.
Proof.
  assert (forall f n v, float f = Some v -> writable n v = true) as Hf.
  { unfold float. intros f n x (t & Ht & ->)%fmap_Some. by apply (floatText_number f). }
  destruct d as [d|d|d|d|d]; simpl; intros H.
  - simplify_eq. eexists. split; [done|]. intros n Hn. case_bool_decide; simpl; by rewrite (proj2 (Z.ltb_lt _ _)) by lia.
  - apply bind_Some in H as (cur & Hc & (avg & Ha & H)%bind_Some). simplify_eq. eexists. split; [done|]. intros n Hn.
    simpl. by rewrite !uint_number, (Hf _ _ _ Hc), (Hf _ _ _ Ha), (proj2 (Z.ltb_lt _ _)) by lia.
  - apply bind_Some in H as (rtt & Hr & H). simplify_eq. eexists. split; [done|]. intros n Hn.
    simpl. by rewrite (Hf _ _ _ Hr), (proj2 (Z.ltb_lt _ _)) by lia.
  - simplify_eq. eexists. split; [done|]. intros n Hn. simpl. by rewrite (proj2 (Z.ltb_lt _ _)) by lia.
  - simplify_eq. eexists. split; [done|]. intros n Hn. simpl. by rewrite (proj2 (Z.ltb_lt _ _)) by lia.
Qed.

(** A line holds one object, and reading it gives the event. *)
Lemma encodeLine_reads t now d line : encodeLine (mkEnvelope t now d) = Some line ->
  exists v x, line = v ++ [newline] /\ Forall (fun c => c <> newline) v /\
    readLines line = [x] /\ eventOf x = expected (t, d) /\ eventOf x <> None.
Proof.
  unfold encodeLine, envelopeJson. cbn [Timestamp Payload Type_].
  intros (v0 & (ts & Hts & (dj & Hd & Hv0)%bind_Some)%bind_Some & Hline)%bind_Some.
  apply (inj Some) in Hv0, Hline. subst v0 line. destruct (data_object _ _ Hd) as (kvs & Hk & Hw). 
  match goal with |- context [writeValue false ?j] => set (v := j) end.
  assert (writable maxNestingDepth v = true) as Hv by (subst v; cbn -[maxNestingDepth]; by rewrite Hw).
  assert (Forall (fun c => c <> newline) (writeValue false v)) as Hn by (eapply printing_line, writeValue_printing; done).
  exists (writeValue false v), (readBack v). split; [reflexivity|]. split; [exact Hn|]. split_and!.
  - by rewrite readLines_line, parse_writeValue.
  - unfold expected. cbn [fst snd]. rewrite Hd. subst v. by destruct t.
  - subst v. by destruct t.
Qed.

(** A line cut short is not read. *)
Lemma encodeLine_cut t now d line n : encodeLine (mkEnvelope t now d) = Some line -> (n < length line)%nat ->
  readLines (take n line) = [].
Proof.
  intros (v & x & -> & Hv & _)%encodeLine_reads Hn. rewrite length_app in Hn. simpl in Hn.
  rewrite take_app_le by lia. apply readLines_open. by apply Forall_take.
Qed.

Definition whole (j : JSONLineWriter) : Prop := encErr j = false -> complete (output j).

(** One [Emit]: the reader gets the event, or nothing new. *)
Lemma jsonEmit_reads t d now wr j : whole j ->
  whole (jsonEmit t d now wr j) /\
  (readEvents (jsonEmit t d now wr j) = readEvents j \/
   exists x, expected (t, d) = Some x /\ readEvents (jsonEmit t d now wr j) = readEvents j ++ [x]) /\
  (encErr j = false -> wr = None -> timeText now <> None ->
   encErr (jsonEmit t d now wr j) = false /\
   readEvents (jsonEmit t d now wr j) = readEvents j ++ option_list (expected (t, d))).
Proof.
  unfold jsonEmit, whole. intros Hj. destruct (encErr j) eqn:He; [by split_and!; [rewrite He|left|]|].
  specialize (Hj eq_refl). destruct (encodeLine (mkEnvelope t now d)) as [line|] eqn:Hl.
  - destruct (encodeLine_reads _ _ _ _ Hl) as (v & x & -> & Hv & Hr & Hx & Hn).
    assert (readEvents (mkJSONLineWriter (output j ++ v ++ [newline]) false (isCloser j) (wClosed j))
      = readEvents j ++ option_list (expected (t, d))) as Hfull.
    { unfold readEvents. simpl. rewrite readLines_app, omap_app, Hr by done. simpl. by rewrite Hx; destruct (expected _). }
    destruct (expected (t, d)) as [y|] eqn:Hy; [|by rewrite Hx in Hn]. destruct wr as [n|]; simpl.
    + split_and!; [done| |done]. destruct (Nat.lt_ge_cases n (length (v ++ [newline]))) as [Hlt|Hge].
      * left. unfold readEvents. simpl. rewrite readLines_app, (encodeLine_cut _ _ _ _ _ Hl Hlt) by done. by rewrite app_nil_r.
      * right. exists y. split; [done|]. rewrite take_ge by lia. exact Hfull.
    + split_and!; [intros _; apply complete_line|right; eauto|done].
  - split_and!; [done|by left|]. intros _ _ Ht. split; [done|].
    assert (expected (t, d) = None) as ->; [|by rewrite app_nil_r].
    unfold encodeLine, envelopeJson, expected in *. simpl in *. destruct (timeText now); [|done]. simpl in Hl.
    by destruct (dataJson d).
Qed.

(** ** Steps *)

Ltac step_cases :=
  repeat match goal with
  | H : step ?l _ = Some _ |- _ => destruct l; cbn [step] in H
  | H : writerTake _ _ _ = Some _ |- _ => unfold writerTake, writeHead in H
  | H : writerDone _ = Some _ |- _ => unfold writerDone in H
  | H : closeStart _ = Some _ |- _ => unfold closeStart in H
  | H : closeFinish _ = Some _ |- _ => unfold closeFinish in H
  | a : Async |- _ => destruct a as [?ev ?dn ?p ?wr ?cl]; cbn in *
  end; unfold asyncEmit in *; go_cases; reflect_all; simplify_eq/=.

Lemma close_whole j : whole j -> whole (jsonClose j) /\ readEvents (jsonClose j) = readEvents j /\ encErr (jsonClose j) = encErr j.
Proof. unfold whole, jsonClose. by destruct (isCloser j). Qed.

Lemma step_wf l a a' : async_wf a -> step l a = Some a' -> async_wf a'.
Proof.
  unfold async_wf, queueCap. intros (Hq & Hp & Hc & Hw) E. fold (whole (w a)) in Hw.
  assert (whole (w a')) as Hw'.
  { step_cases; try done; first [by apply jsonEmit_reads|by apply close_whole]. }
  fold (whole (w a')). clear Hw.
  enough ((length (events a') <= 64)%nat /\ (pc a' ≠ WSelect -> done a' = true) /\ (closed a' = true -> pc a' = WExit))
    as (H1 & H2 & H3) by (by split_and!). clear Hw'. step_cases;
    repeat split; intros; rewrite ?length_app in *; unfold queueCap in *; simpl in *;
    subst; try done; auto; try lia; try (specialize (Hc eq_refl); congruence).
Qed.

Lemma emits_cons l ls : emits (l :: ls) = emits [l] ++ emits ls.
Proof. unfold emits. cbn [omap list_omap]. by case_match. Qed.

(** What a step does to the queue and the writer. *)
Lemma step_effect l a a' : step l a = Some a' ->
  match l with
  | LEmit t d now =>
      w a' = w a /\
      events a' = events a ++ (if (length (events a) <? queueCap)%nat then [mkEnvelope t now d] else [])
  | LTake now wr =>
      exists env, events a = env :: events a' /\ w a' = jsonEmit (Type_ env) (Payload env) now wr (w a)
  | _ => events a' = events a /\ (w a' = w a \/ w a' = jsonClose (w a))
  end.
Proof.
  intros E. destruct l as [t d now|now wr| | |]; cbn [step] in E.
  - injection E as <-. unfold asyncEmit. case_match; simpl; by rewrite ?app_nil_r.
  - step_cases; eauto.
  - step_cases; eauto.
  - step_cases; eauto.
  - step_cases; eauto.
Qed.

Lemma emits_other l : match l with LEmit _ _ _ => False | _ => True end -> emits [l] = [].
Proof. by destruct l. Qed.

Lemma step_content l a a' : async_wf a -> step l a = Some a' ->
  content a' `sublist_of` content a ++ omap expected (emits [l]).
Proof.
  unfold content. intros (_ & _ & _ & Hw) E%step_effect. fold (whole (w a)) in Hw.
  destruct l as [t d now|now wr| | |]; rewrite ?(emits_other _ I), ?app_nil_r.
  - destruct E as [-> ->]. rewrite omap_app, <- app_assoc. do 2 (apply sublist_app; [done|]).
    change (omap expected (emits [LEmit t d now])) with (omap (expected ∘ strip) [mkEnvelope t now d]).
    case_match; [done|apply sublist_nil_l].
  - destruct E as (env & -> & ->).
    destruct (jsonEmit_reads (Type_ env) (Payload env) now wr (w a) Hw) as (_ & [-> |(x & Hx & ->)] & _).
    + apply sublist_app; [done|]. cbn [omap list_omap]. case_match; [by apply sublist_cons|done].
    + cbn [omap list_omap]. unfold compose, strip at 2. by rewrite Hx, <- app_assoc.
  - destruct E as [-> [-> | ->]]; [done|]. by rewrite (proj1 (proj2 (close_whole _ Hw))).
  - destruct E as [-> [-> | ->]]; [done|]. by rewrite (proj1 (proj2 (close_whole _ Hw))).
  - destruct E as [-> [-> | ->]]; [done|]. by rewrite (proj1 (proj2 (close_whole _ Hw))).
Qed.

(** Nothing is lost while writes succeed and the buffer has room. *)
Lemma step_lossless l a a' : async_wf a -> encErr (w a) = false -> goodWrite l = true -> step l a = Some a' ->
  (length (events a) + length (emits [l]) <= queueCap)%nat ->
  content a' = content a ++ omap expected (emits [l]) /\ encErr (w a') = false /\
  (length (events a') <= length (events a) + length (emits [l]))%nat.
Proof.
  unfold content. intros (_ & _ & _ & Hw) He Hg E%step_effect Hq. fold (whole (w a)) in Hw.
  pose proof (close_whole _ Hw) as (_ & Hc1 & Hc2).
  destruct l as [t d now|now wr| | |]; rewrite ?(emits_other _ I), ?app_nil_r.
  - destruct E as [-> ->]. change (length (emits [LEmit t d now])) with 1%nat in *.
    rewrite (proj2 (Nat.ltb_lt _ _)), omap_app, <- app_assoc, length_app by lia. done.
  - destruct E as (env & -> & ->). apply andb_true_iff in Hg as [Hwr%bool_decide_eq_true Ht%bool_decide_eq_true].
    destruct (jsonEmit_reads (Type_ env) (Payload env) now wr (w a) Hw) as (_ & _ & H).
    destruct (H He Hwr Ht) as [-> ->]. cbn [omap list_omap length]. rewrite <- app_assoc. unfold compose at 2, strip.
    split_and!; [by destruct (expected _)|done|lia].
  - destruct E as [-> [-> | ->]]; rewrite ?Hc1, ?Hc2; split_and!; done || lia.
  - destruct E as [-> [-> | ->]]; rewrite ?Hc1, ?Hc2; split_and!; done || lia.
  - destruct E as [-> [-> | ->]]; rewrite ?Hc1, ?Hc2; split_and!; done || lia.
Qed.

Lemma step_measure l a a' : async_wf a -> emits [l] = [] -> step l a = Some a' ->
  (S (measure a') <= measure a)%nat.
Proof.
  unfold measure, async_wf. intros (_ & Hp & Hc & _) He E. destruct l; [done|..]; step_cases;
    try lia; try (rewrite Hp by done; lia); destruct cl; try lia; destruct p; simpl; try lia; naive_solver.
Qed.

(** ** Runs *)

Lemma run_wf ls : forall a a', async_wf a -> run ls a = Some a' -> async_wf a'.
Proof.
  induction ls as [|l ls IH]; intros a a' Ha E; simplify_eq/=; [done|].
  destruct (step l a) as [a1|] eqn:E1; simplify_eq/=. eauto using step_wf.
Qed.

Lemma run_content ls : forall a a', async_wf a -> run ls a = Some a' ->
  content a' `sublist_of` content a ++ omap expected (emits ls).
Proof.
  induction ls as [|l ls IH]; intros a a' Ha E; simplify_eq/=; [by apply sublist_inserts_r|].
  destruct (step l a) as [a1|] eqn:E1; simplify_eq/=.
  etrans; [by eapply IH; [eapply step_wf|]|]. rewrite emits_cons, omap_app, app_assoc.
  apply sublist_app; [by apply step_content|done].
Qed.

Lemma run_lossless ls : forall a a', async_wf a -> encErr (w a) = false -> forallb goodWrite ls = true ->
  run ls a = Some a' -> (length (events a) + length (emits ls) <= queueCap)%nat ->
  content a' = content a ++ omap expected (emits ls) /\ encErr (w a') = false.
Proof.
  induction ls as [|l ls IH]; intros a a' Ha He Hg E Hq; simplify_eq/=; [by rewrite app_nil_r|].
  destruct (step l a) as [a1|] eqn:E1; simplify_eq/=. apply andb_true_iff in Hg as [Hl Hg].
  rewrite emits_cons, length_app in Hq.
  destruct (step_lossless l a a1) as (Hc & He1 & Hl1); [done..|lia|].
  destruct (IH a1 a') as [-> ?]; [by eapply step_wf|done|done|done|lia|].
  by rewrite Hc, <- app_assoc, <- omap_app, <- emits_cons.
Qed.

Lemma exit_empty ls : forall a a', (pc a = WExit -> events a = []) -> emits ls = [] ->
  run ls a = Some a' -> pc a' = WExit -> events a' = [].
Proof.
  induction ls as [|l ls IH]; intros a a' Ha He E Hx; simplify_eq/=; [auto|].
  destruct (step l a) as [a1|] eqn:E1; simplify_eq/=. rewrite emits_cons in He.
  apply app_eq_nil in He as [Hl He]. eapply (IH a1); eauto. clear IH E.
  destruct l; [done|..]; step_cases; intros; simplify_eq; auto; try done.
  all: first [by apply nil_length_inv|by apply Ha].
Qed.

Lemma run_measure ls : forall a a', async_wf a -> emits ls = [] -> run ls a = Some a' ->
  (length ls + measure a' <= measure a)%nat.
Proof.
  induction ls as [|l ls IH]; intros a a' Ha He E; simplify_eq/=; [lia|].
  destruct (step l a) as [a1|] eqn:E1; simplify_eq/=. rewrite emits_cons in He.
  apply app_eq_nil in He as [Hl He].
  pose proof (step_measure l a a1 Ha Hl E1). pose proof (IH a1 a' (step_wf _ _ _ Ha E1) He E). lia.
Qed.

(** After the writer has returned, nothing leaves the queue and nothing is written. *)
Lemma run_exited ls : forall a a', pc a = WExit -> run ls a = Some a' ->
  events a `prefix_of` events a' /\ output (w a') = output (w a).
Proof.
  induction ls as [|l ls IH]; intros a a' Hx E; simplify_eq/=; [done|].
  destruct (step l a) as [a1|] eqn:E1; simplify_eq/=.
  assert (pc a1 = WExit /\ events a `prefix_of` events a1 /\ output (w a1) = output (w a)) as (Hx1 & Hp & Ho).
  { clear IH E. step_cases; split_and!; try done; try by apply prefix_app_r. unfold jsonClose. by case_match. }
  destruct (IH a1 a' Hx1 E) as [Hp' ->]. split; [by etrans|done].
Qed.

Lemma new_wf c : async_wf (NewAsyncJSONLineWriter c).
Proof. unfold async_wf, queueCap; simpl. split_and!; [lia|done..|]. intros _. by left. Qed.

(** ** Claims *)

(** C15. From a fresh writer, in every interleaving of producers, the writer
    goroutine and [Close], and whatever writes fail or are cut short: what a
    reader gets from the lines of the output, followed by what is queued, is a
    subsequence of what was emitted, in the order of emission; the queue holds
    at most 64 events; and nothing is lost if no write fails, every time stamp
    has a text and at most 64 events are emitted. *)
Theorem async_fifo (c : bool) (ls : list label) (a : Async) :
  run ls (NewAsyncJSONLineWriter c) = Some a ->
  content a `sublist_of` omap expected (emits ls) /\ (length (events a) <= 64)%nat /\
  (forallb goodWrite ls = true -> (length (emits ls) <= 64)%nat -> content a = omap expected (emits ls)).
Proof.
  intros E. split; [by apply (run_content _ _ _ (new_wf c)) in E|]. split.
  - by apply (run_wf _ _ _ (new_wf c)) in E as [Hq _].
  - intros Hg Hq. by apply (run_lossless _ _ _ (new_wf c) eq_refl Hg) in E as [-> _].
Qed.

(** C30. [Close] drains the queue: from any state in which the writer goroutine
    has not returned, if nothing more is emitted, some step is always possible
    between the closing of the channel and the return of [Close], at most 68
    steps are taken, and when [Close] returns the queue is empty; a reader of
    the file then gets every event that was read or queued before, if no write
    failed. *)
Theorem async_close_drains (c : bool) (ls ls' : list label) (a a' : Async) :
  run ls (NewAsyncJSONLineWriter c) = Some a -> pc a <> WExit ->
  emits ls' = [] -> run ls' a = Some a' ->
  (length ls' <= 68)%nat /\
  (done a' = true -> closed a' = false -> exists l, emits [l] = [] /\ step l a' <> None) /\
  (closed a' = true -> events a' = [] /\
     (encErr (w a) = false -> forallb goodWrite ls' = true -> readEvents (w a') = content a)).
Proof.
  intros E Hpc He E'. pose proof (run_wf _ _ _ (new_wf c) E) as Hwf. pose proof (run_wf _ _ _ Hwf E') as Hwf'.
  split; [|split].
  - pose proof (run_measure _ _ _ Hwf He E'). destruct Hwf as [Hq _].
    unfold measure, queueCap in *. repeat case_match; lia.
  - intros Hd Hc. destruct a' as [ev dn p wr cl]; cbn in *; subst.
    destruct p; [exists LSeeDone|destruct ev; [exists LSeeDone|exists (LTake (mkTime 0 0) None)]|exists LClosed]; done.
  - intros Hc. assert (events a' = []) as He'.
    { eapply exit_empty; eauto; [done|]. destruct Hwf' as (_ & _ & Hx & _). auto. }
    split; [done|]. intros Herr Hg.
    destruct (run_lossless ls' a a') as [Hc' _]; [done..|rewrite He; destruct Hwf; simpl; lia|].
    rewrite He, app_nil_r in Hc'. rewrite <- Hc'. unfold content. by rewrite He', app_nil_r.
Qed.

(** C39. [Close] does not wait for every queued event: one that is emitted after
    the writer goroutine has returned, while the queue has room, is queued,
    stays queued and adds nothing to the output, whatever happens later; and
    [Close], if it has not returned yet, can return next. *)
Theorem late_event_lost (c : bool) (ls : list label) (a : Async) (t : EventType) (d : Data) (now : Time) :
  run ls (NewAsyncJSONLineWriter c) = Some a -> pc a = WExit -> (length (events a) < 64)%nat ->
  (forall ls' a', run (LEmit t d now :: ls') a = Some a' ->
     mkEnvelope t now d ∈ events a' /\ output (w a') = output (w a)) /\
  (closed a = false -> exists a', run [LEmit t d now; LClosed] a = Some a' /\ closed a' = true).
Proof.
  intros E Hx Hq%Nat.ltb_lt. destruct (run_wf _ _ _ (new_wf c) E) as (_ & Hd & _).
  assert (done a = true) as Hdone by (apply Hd; by rewrite Hx).
  assert (asyncEmit t d now a = mkAsync (events a ++ [mkEnvelope t now d]) (done a) (pc a) (w a) (closed a)) as Ha.
  { unfold asyncEmit, queueCap. by rewrite Hq. }
  split.
  - intros ls' a' E'. cbn [run step mbind option_bind] in E'. rewrite Ha in E'.
    apply run_exited in E' as [[k ->] ->]; [|done]. split; [cbn [events]; set_solver|done].
  - intros Hc. eexists. cbn [run step mbind option_bind]. rewrite Ha. unfold closeFinish. simpl.
    by rewrite Hdone, Hx, Hc.
Qed.

(** The line of an event carries the time the writer goroutine wrote it,
    not the time it was emitted: the time stamp [Emit] queues is dropped. *)
Theorem written_time_not_emitted (c : bool) (t : EventType) (d : Data) (now later : Time) (line : text) :
  encodeLine (mkEnvelope t later d) = Some line ->
  exists a, run [LEmit t d now; LTake later None] (NewAsyncJSONLineWriter c) = Some a /\ output (w a) = line.
Proof. intros Hf. eexists. split; [reflexivity|]. cbn. unfold jsonEmit. by rewrite Hf. Qed.

(** ** Witnesses *)

Definition ex_event : Data := DError (mkErrorData "boom").
Definition ex_now (n : Z) : Time := mkTime (n * 10 ^ 9) 3600.
Definition ex_trace : list label :=
  [LEmit EventError ex_event (ex_now 1); LEmit EventError ex_event (ex_now 2); LTake (ex_now 3) None; LClose; LSeeDone].
Definition ex_end : list label := [LTake (ex_now 4) None; LSeeDone; LClosed].
Definition ex_after (ls : list label) : Async :=
  default (NewAsyncJSONLineWriter true) (run ls (NewAsyncJSONLineWriter true)).

Lemma async_fifo_witness :
  content (ex_after ex_trace) = omap expected [(EventError, ex_event); (EventError, ex_event)] /\
  output (w (ex_after ex_trace))
  = chars "{" ++ writeString false (chars "type") ++ chars ":" ++ writeString false (chars "error") ++ chars "," ++
    writeString false (chars "timestamp") ++ chars ":" ++ writeString false (chars "1970-01-01T01:00:03+01:00") ++ chars "," ++
    writeString false (chars "data") ++ chars ":{" ++ writeString false (chars "message") ++ chars ":" ++
    writeString false (chars "boom") ++ chars "}}" ++ [newline].
Proof.
  split; [|vm_compute; reflexivity].
  apply (async_fifo true ex_trace (ex_after ex_trace)); [reflexivity|vm_compute; reflexivity|vm_compute; lia].
Defined.

Lemma async_close_drains_witness :
  events (ex_after (ex_trace ++ ex_end)) = [] /\
  readEvents (w (ex_after (ex_trace ++ ex_end))) = content (ex_after ex_trace).
Proof.
  pose proof (async_close_drains true ex_trace ex_end (ex_after ex_trace) (ex_after (ex_trace ++ ex_end))
    eq_refl ltac:(done) eq_refl eq_refl) as (_ & _ & H).
  destruct (H eq_refl) as [H1 H2]. exact (conj H1 (H2 eq_refl eq_refl)).
Defined.

Lemma late_event_lost_witness :
  exists a', run ([LClose; LSeeDone; LSeeDone] ++ [LEmit EventError ex_event (ex_now 1); LClosed]) (NewAsyncJSONLineWriter true)
    = Some a' /\ closed a' = true /\ mkEnvelope EventError (ex_now 1) ex_event ∈ events a' /\ output (w a') = [].
Proof.
  destruct (late_event_lost true [LClose; LSeeDone; LSeeDone] (ex_after [LClose; LSeeDone; LSeeDone]) EventError ex_event
    (ex_now 1) eq_refl eq_refl ltac:(vm_compute; lia)) as [H1 H2].
  destruct (H2 eq_refl) as (a' & E & Hc). exists a'. destruct (H1 [LClosed] a' E) as [He Ho].
  exact (conj E (conj Hc (conj He Ho))).
Defined.

Lemma written_time_not_emitted_witness :
  exists a line, run [LEmit EventError ex_event (ex_now 1); LTake (ex_now 7) None] (NewAsyncJSONLineWriter true) = Some a /\
    output (w a) = line /\ encodeLine (mkEnvelope EventError (ex_now 7) ex_event) = Some line.
Proof.
  destruct (written_time_not_emitted true EventError ex_event (ex_now 1) (ex_now 7) _ eq_refl) as (a & E & Ho).
  exists a. eexists. split; [exact E|]. split; [exact Ho|reflexivity].
Defined.

End EventsProps.
