(* ===== verification/Logging.v ===== *)
(** * The logger: internal/logging/logging.go

    Levels, the parser of level names, the filter and the format of lines.
    The formatted message and time are inputs of a call; what is written, and
    to which writer, is the state. *)

From Stdlib Require Import Ascii.
From S2P Require Import Prelude GoLib.
Import GoLib.

Module Logging.

(** ** Levels *)

Definition Level : Type := Z.
Definition LevelError : Level := 0.
Definition LevelWarn : Level := 1.
Definition LevelInfo : Level := 2.
Definition LevelDebug : Level := 3.
Definition LevelTrace : Level := 4.

Definition Level_String (l : Level) : string :=
  if l =? LevelError then "ERROR" else
  if l =? LevelWarn then "WARN" else
  if l =? LevelInfo then "INFO" else
  if l =? LevelDebug then "DEBUG" else
  if l =? LevelTrace then "TRACE" else "UNKNOWN".

(** An escape sequence of the terminal. *)
Definition esc (s : string) : string := String (ascii_of_nat 27) s.
Definition colorReset : string := esc "[0m".
Definition colorRed : string := esc "[31m".
Definition colorYellow : string := esc "[33m".
Definition colorGreen : string := esc "[32m".
Definition colorCyan : string := esc "[36m".
Definition colorGray : string := esc "[90m".
Definition colorBold : string := esc "[1m".

(** ** Writers *)

(** An [io.Writer]: a file, whose [Stat] may fail and which may be a
    character device, a nil file pointer, or something else. *)
Inductive Writer :=
| WFile (id : nat) (stat : option bool)
| WNilFile
| WOther (id : nat).

#[export] Instance Writer_eq_dec : EqDecision Writer.
Proof. solve_decision. Defined.

Definition isTTY (w : Writer) : bool :=
  match w with
  | WFile _ (Some charDevice) => charDevice
  | _ => false
  end.

(** ** The logger *)

(** [lines] has what was written so far, with the writer it went to. *)
Record Logger := mkLogger {
  level : Level;
  output : Writer;
  useColor : bool;
  lines : list (Writer * string);
}.

Definition NewLogger (stdout : Writer) (l : Level) : Logger := mkLogger l stdout (isTTY stdout) [].

Definition SetOutput (w : Writer) (l : Logger) : Logger :=
  mkLogger (level l) w
    (match w with WFile _ _ | WNilFile => isTTY w | WOther _ => false end) (lines l).

Definition SetColorEnabled (enabled : bool) (l : Logger) : Logger :=
  mkLogger (level l) (output l) enabled (lines l).

Definition SetLevel (lv : Level) (l : Logger) : Logger :=
  mkLogger lv (output l) (useColor l) (lines l).

Definition GetLevel (l : Logger) : Level := level l.

Definition write (line : string) (l : Logger) : Logger :=
  mkLogger (level l) (output l) (useColor l) (lines l ++ [(output l, line)]).

Definition nl : string := String (ascii_of_nat 10) EmptyString.

(** The name and colour of a level in a line; other levels have neither. *)
Definition levelTag (lv : Level) : string * string :=
  if lv =? LevelError then ("ERROR", colorRed)%string else
  if lv =? LevelWarn then ("WARN", colorYellow)%string else
  if lv =? LevelInfo then ("INFO", colorGreen)%string else
  if lv =? LevelDebug then ("DEBUG", colorCyan)%string else
  if lv =? LevelTrace then ("TRACE", colorGray)%string else (EmptyString, EmptyString).

Definition log (lv : Level) (timestamp message : string) (l : Logger) : Logger :=
  if level l <? lv then l else
  let '(levelStr, colorCode) := levelTag lv in
  write
    (if useColor l
     then String.concat EmptyString [timestamp; " ["; colorCode; levelStr; colorReset; "]  "; message; nl]%string
     else String.concat EmptyString [timestamp; " ["; levelStr; "]  "; message; nl]%string) l.

Definition Error := log LevelError.
Definition Warn := log LevelWarn.
Definition Info := log LevelInfo.
Definition Debug := log LevelDebug.
Definition Trace := log LevelTrace.

(** Statistics are written whatever the level. *)
Definition Stats (timestamp message : string) (l : Logger) : Logger :=
  write
    (if useColor l
     then String.concat EmptyString [timestamp; " ["; colorBold; "STATS"; colorReset; "] "; message; nl]%string
     else String.concat EmptyString [timestamp; " [STATS] "; message; nl]%string) l.

(** The level and whether the name was valid. *)
Definition ParseLevel `{Unicode} (s : string) : Level * bool :=
  let t := ToLower (TrimSpace s) in
  if bool_decide (t = "error"%string) then (LevelError, true) else
  if bool_decide (t = "warn"%string) || bool_decide (t = "warning"%string) then (LevelWarn, true) else
  if bool_decide (t = "info"%string) then (LevelInfo, true) else
  if bool_decide (t = "debug"%string) then (LevelDebug, true) else
  if bool_decide (t = "trace"%string) then (LevelTrace, true) else
  (LevelInfo, false).

(** ** A session of calls *)

Inductive call :=
| CLog (lv : Level) (timestamp message : string)
| CStats (timestamp message : string)
| CSetOutput (w : Writer)
| CSetColor (enabled : bool).

Definition apply (c : call) : Logger -> Logger :=
  match c with
  | CLog lv ts m => log lv ts m
  | CStats ts m => Stats ts m
  | CSetOutput w => SetOutput w
  | CSetColor e => SetColorEnabled e
  end.

Definition session (cs : list call) (l : Logger) : Logger := foldl (fun l c => apply c l) l cs.

(** ** What is written *)

(** Two loggers that differ in their level and in what they wrote. *)
Definition twins (l1 l2 : Logger) : Prop :=
  output l1 = output l2 /\ useColor l1 = useColor l2 /\ level l1 <= level l2 /\
  lines l1 `sublist_of` lines l2.

Lemma log_pass lv ts m l : lv <= level l -> exists line,
  log lv ts m l = write line l /\
  forall l', useColor l' = useColor l -> lv <= level l' -> log lv ts m l' = write line l'.
Proof.
  intros Hl. unfold log. destruct (levelTag lv) as [s c].
  eexists. destruct (Z.ltb_spec (level l) lv); [lia|]. split; [done|].
  intros l' Hc Hl'. destruct (Z.ltb_spec (level l') lv); [lia|]. by rewrite Hc.
Qed.

Lemma log_drop lv ts m l : level l < lv -> log lv ts m l = l.
Proof. intros Hl. unfold log. destruct (Z.ltb_spec (level l) lv); [done|lia]. Qed.

Lemma write_twins line l1 l2 : twins l1 l2 -> twins (write line l1) (write line l2).
Proof.
  intros (Ho & Hc & Hl & Hs). repeat split; simpl; [done..|].
  rewrite Ho. by apply sublist_app.
Qed.

Lemma apply_twins c l1 l2 : twins l1 l2 -> twins (apply c l1) (apply c l2).
Proof.
  intros Ht. pose proof Ht as (Ho & Hc & Hl & Hs). destruct c as [lv ts m|ts m|w|e]; simpl.
  - destruct (Z_le_gt_dec lv (level l1)) as [H1|H1].
    + destruct (log_pass lv ts m l1 H1) as (line & -> & Heq).
      rewrite Heq by (done || lia). by apply write_twins.
    + rewrite (log_drop _ _ _ l1) by lia.
      destruct (Z_le_gt_dec lv (level l2)) as [H2|H2].
      * destruct (log_pass lv ts m l2 H2) as (line & -> & _).
        repeat split; simpl; [done..|]. by apply sublist_inserts_r.
      * by rewrite log_drop by lia.
  - unfold Stats. rewrite Hc. by apply write_twins.
  - repeat split; done.
  - repeat split; done.
Qed.

Lemma session_twins cs l1 l2 : twins l1 l2 -> twins (session cs l1) (session cs l2).
Proof. revert l1 l2. induction cs as [|c cs IH]; intros l1 l2 H; [done|]. by apply IH, apply_twins. Qed.

(** Raising the level only adds lines: what a logger writes in a session is a
    subsequence, to the same writers and in the same format, of what the
    session writes at a higher level. *)
Theorem verbosity_monotone (cs : list call) (l : Logger) (lv : Level) (H : level l <= lv) :
  lines (session cs l) `sublist_of` lines (session cs (SetLevel lv l)).
Proof. apply session_twins. by repeat split. Qed.

Lemma verbosity_monotone_witness :
  lines (session [CLog LevelDebug "t" "m"] (NewLogger (WOther 0) LevelInfo))
  `sublist_of` lines (session [CLog LevelDebug "t" "m"] (SetLevel LevelTrace (NewLogger (WOther 0) LevelInfo))).
Proof. apply verbosity_monotone. vm_compute. discriminate. Defined.

(** ** Level names *)

Definition allSpace (l : list ascii) : bool := forallb spaceASCII l.

Lemma trimLeft_space l l' : allSpace l = true -> trimLeft (l ++ l') = trimLeft l'.
Proof.
  induction l as [|c l IH]; simpl; [done|].
  intros [Hc Hl]%andb_true_iff. rewrite Hc. by apply IH.
Qed.

Lemma trimLeft_word c l : spaceASCII c = false -> trimLeft (c :: l) = c :: l.
Proof. simpl. by intros ->. Qed.

Lemma allSpace_reverse l : allSpace l = true -> allSpace (reverse l) = true.
Proof.
  unfold allSpace. rewrite !forallb_forall. intros H x Hx.
  apply H. apply list_elem_of_In in Hx. rewrite elem_of_reverse in Hx. by apply list_elem_of_In.
Qed.

(** Trimming undoes padding a word without spaces. *)
Lemma trim_pad pre w suf :
  allSpace pre = true -> allSpace suf = true -> forallb (fun c => negb (spaceASCII c)) w = true ->
  reverse (trimLeft (reverse (trimLeft (pre ++ w ++ suf)))) = w.
Proof.
  intros Hp Hs Hw. rewrite trimLeft_space by done.
  destruct w as [|c w].
  - simpl. rewrite <-(app_nil_r suf), trimLeft_space by done. done.
  - assert (Hc : spaceASCII c = false) by (simpl in Hw; destruct (spaceASCII c); done).
    rewrite <-app_comm_cons, trimLeft_word by done.
    rewrite app_comm_cons, reverse_app, trimLeft_space by (by apply allSpace_reverse).
    destruct (reverse (c :: w)) as [|d r] eqn:Hr.
    + apply (f_equal length) in Hr. rewrite length_reverse in Hr. done.
    + rewrite trimLeft_word, <-Hr, reverse_involutive; [done|].
      assert (Hd : d ∈ c :: w) by (rewrite <-elem_of_reverse, Hr; left).
      rewrite forallb_forall in Hw. specialize (Hw d ltac:(by apply list_elem_of_In)).
      by destruct (spaceASCII d).
Qed.

Lemma space_lower c : spaceASCII (lowerASCII c) = spaceASCII c.
Proof. by destruct c as [[] [] [] [] [] [] [] []]. Qed.

Lemma ascii_lower c : (N_of_ascii (lowerASCII c) <? 128)%N = (N_of_ascii c <? 128)%N.
Proof. by destruct c as [[] [] [] [] [] [] [] []]. Qed.

Lemma space_ascii c : spaceASCII c = true -> (N_of_ascii c <? 128)%N = true.
Proof. by destruct c as [[] [] [] [] [] [] [] []]. Qed.

Lemma forallb_map_ext {A} (f g : A -> bool) (h : A -> A) l :
  (forall x, f (h x) = g x) -> forallb f (h <$> l) = forallb g l.
Proof. intros E. induction l as [|x l IH]; simpl; [done|]. rewrite E. f_equal. exact IH. Qed.

(** The names [Level_String] gives, lower case, are what [ParseLevel] tests for. *)
Lemma lower_names lv : 0 <= lv <= 4 ->
  let w := lowerASCII <$> String.list_ascii_of_string (Level_String lv) in
  forallb (fun c => negb (spaceASCII c)) w = true /\
  forallb (fun c => (N_of_ascii c <? 128)%N) w = true .
Proof.
  intros H. assert (lv = 0 \/ lv = 1 \/ lv = 2 \/ lv = 3 \/ lv = 4) as Hc by lia.
  destruct Hc as [->|[->|[->|[->| ->]]]]; done.
Qed.

(** [ParseLevel] accepts the name of every level in any case and with any
    surrounding ASCII space, and returns that level; so it undoes [String]. *)
Theorem ParseLevel_roundtrip `{Unicode} (lv : Level) (pre word suf : list ascii)
    (Hlv : 0 <= lv <= 4) (Hpre : allSpace pre = true) (Hsuf : allSpace suf = true)
    (Hword : lowerASCII <$> word = lowerASCII <$> String.list_ascii_of_string (Level_String lv)) :
  ParseLevel (String.string_of_list_ascii (pre ++ word ++ suf)) = (lv, true).
Proof.
  destruct (lower_names lv Hlv) as [Hsp Hasc]. rewrite <-Hword in Hsp, Hasc.
  rewrite (forallb_map_ext _ (fun c => negb (spaceASCII c)) lowerASCII) in Hsp
    by (intros; by rewrite space_lower).
  rewrite (forallb_map_ext _ (fun c => (N_of_ascii c <? 128)%N) lowerASCII) in Hasc
    by apply ascii_lower.
  assert (Hs : forall l, allSpace l = true -> forallb (fun c => (N_of_ascii c <? 128)%N) l = true).
  { intros l. unfold allSpace. rewrite !forallb_forall. intros Hl x Hx. by apply space_ascii, Hl. }
  unfold ParseLevel, ToLower, TrimSpace, isASCII, map_string.
  rewrite !String.list_ascii_of_string_of_list_ascii, !forallb_app, Hasc, (Hs pre), (Hs suf) by done. simpl.
  rewrite trim_pad, !String.list_ascii_of_string_of_list_ascii, Hasc, Hword by done.
  assert (lv = 0 \/ lv = 1 \/ lv = 2 \/ lv = 3 \/ lv = 4) as Hc by lia.
  by destruct Hc as [->|[->|[->|[->| ->]]]].
Qed.

Lemma ParseLevel_roundtrip_witness :
  @ParseLevel (Build_Unicode id id) " dEbug" = (LevelDebug, true).
Proof.
  exact (@ParseLevel_roundtrip (Build_Unicode id id) LevelDebug [" "%char]
    (String.list_ascii_of_string "dEbug") [] ltac:(vm_compute; split; discriminate)
    eq_refl eq_refl eq_refl).
Defined.

End Logging.
