(* ===== verification/Config.v ===== *)
(** * The saved configuration: internal/config/config.go

    The configuration file as JSON text, read and written through a model of
    the file system: [files] maps paths to contents, and a [Host] says which
    calls of the operating system fail.  Paths are Unix paths. *)

From stdpp Require Import gmap strings.
From Stdlib Require Import Ascii.
From S2P Require Import Prelude GoLib Json.
Import GoLib Json.

Module Config.

(** ** path/filepath *)

(** The elements of a path between slashes. *)
Fixpoint splitSlash (l : text) : list text :=
  match l with
  | [] => [[]]
  | c :: l' =>
      if (code c =? 47)%N then [] :: splitSlash l' else
      match splitSlash l' with
      | e :: es => (c :: e) :: es
      | [] => [[c]]
      end
  end.

(** The elements kept so far, last first. *)
Fixpoint cleanElems (rooted : bool) (acc : list text) (es : list text) : list text :=
  match es with
  | [] => reverse acc
  | e :: es' =>
      cleanElems rooted
        (if bool_decide (e = []) || bool_decide (e = chars ".") then acc else
         if bool_decide (e = chars "..") then
           match acc with
           | a :: acc' => if bool_decide (a = chars "..") then e :: acc else acc'
           | [] => if rooted then [] else [e]
           end
         else e :: acc) es'
  end.

Fixpoint joinSlash (es : list text) : text :=
  match es with
  | [] => []
  | [e] => e
  | e :: es' => e ++ "/"%char :: joinSlash es'
  end.

Definition Clean (p : string) : string :=
  let l := chars p in
  let rooted := match l with c :: _ => (code c =? 47)%N | [] => false end in
  let q := (if rooted then ["/"%char] else []) ++ joinSlash (cleanElems rooted [] (splitSlash l)) in
  String.string_of_list_ascii (if bool_decide (q = []) then chars "." else q).

(** [filepath.Join] of two elements. *)
Definition Join (a b : string) : string :=
  if bool_decide (a = EmptyString)
  then (if bool_decide (b = EmptyString) then EmptyString else Clean b)
  else Clean (String.concat "/" [a; b]).

(** [filepath.Dir]: the path up to its last slash. *)
Definition Dir (p : string) : string :=
  Clean (String.string_of_list_ascii
    (match reverse (splitSlash (chars p)) with
     | _ :: es => (fun es => match es with [] => [] | _ => joinSlash es ++ ["/"%char] end) (reverse es)
     | [] => []
     end)).

(** ** The operating system *)

Inductive write_res :=
| WriteOk
| OpenFails
| WritesOnly (n : nat).

Record Host := mkHost {
  UserHomeDir : option string;
  readFails : string -> bool;
  mkdirFails : string -> bool;
  writeResult : string -> write_res;
}.

Abbreviation files := (gmap string text).

Inductive cerr := ErrHome | ErrRead | ErrParse | ErrMkdir | ErrWrite.

(** [os.WriteFile]: the file is truncated before its new contents are written. *)
Definition WriteFile (h : Host) (path : string) (data : text) (fs : files) : outcome cerr unit * files :=
  match writeResult h path with
  | WriteOk => (Ok tt, <[path := data]> fs)
  | OpenFails => (Err ErrWrite, fs)
  | WritesOnly n => (Err ErrWrite, <[path := take n data]> fs)
  end.

(** ** The configuration *)

Record Config := mkConfig { LastXboxMAC : string }.

#[export] Instance Config_eq_dec : EqDecision Config.
Proof. solve_decision. Defined.

Definition field : text := chars "last_xbox_mac".

(** [json.MarshalIndent(c, EmptyString, two spaces)]; an empty field is omitted. *)
Definition marshal (c : Config) : text :=
  if bool_decide (LastXboxMAC c = EmptyString) then chars "{}" else
  "{"%char :: chr 10 :: chars "  " ++ writeString true field ++ chars ": " ++
  writeString true (chars (LastXboxMAC c)) ++ [chr 10; "}"%char].

(** Case folding of a key: the two non-ASCII runes that fold to an ASCII
    letter are U+017F and U+212A. *)
Fixpoint foldName (l : text) : text :=
  match l with
  | [] => []
  | c :: l1 =>
      let up := if between 97 122 (code c) then chr (code c - 32) else c in
      match l1 with
      | d :: l2 =>
          if (code c =? 197)%N && (code d =? 191)%N then "S"%char :: foldName l2 else
          match l2 with
          | e :: l3 =>
              if (code c =? 226)%N && (code d =? 132)%N && (code e =? 170)%N
              then "K"%char :: foldName l3 else up :: foldName l1
          | [] => up :: foldName l1
          end
      | [] => [up]
      end
  end.

(** One member of the object: a string sets the field, null leaves it, and
    another value is an error, reported after the rest of the object. *)
Definition setMember (acc : Config * bool) (kv : text * jval) : Config * bool :=
  if bool_decide (foldName (fst kv) = foldName field) then
    match snd kv with
    | JStr s => (mkConfig (String.string_of_list_ascii s), snd acc)
    | JNull => acc
    | _ => (fst acc, false)
    end
  else acc.

(** [json.Unmarshal] into a zero [Config]. *)
Definition unmarshal (data : text) : option Config :=
  v ← parse data;
  match v with
  | JNull => Some (mkConfig EmptyString)
  | JObj kvs =>
      let '(c, ok) := foldl setMember (mkConfig EmptyString, true) kvs in
      if ok : bool then Some c else None
  | _ => None
  end.

Definition DefaultConfigDir (h : Host) : outcome cerr string :=
  match UserHomeDir h with
  | Some home => Ok (Join home ".xbslink-ng")
  | None => Err ErrHome
  end.

Definition DefaultConfigPath (h : Host) : outcome cerr string :=
  dir ← DefaultConfigDir h; Ok (Join dir "config.json").

Definition LoadFrom (h : Host) (fs : files) (path : string) : outcome cerr Config :=
  if readFails h path then Err ErrRead else
  match fs !! path with
  | None => Ok (mkConfig EmptyString)
  | Some data =>
      match unmarshal data with
      | Some cfg => Ok cfg
      | None => Err ErrParse
      end
  end.

Definition Load (h : Host) (fs : files) : outcome cerr Config :=
  path ← DefaultConfigPath h; LoadFrom h fs path.

Definition SaveTo (h : Host) (c : Config) (path : string) (fs : files) : outcome cerr unit * files :=
  if mkdirFails h (Dir path) then (Err ErrMkdir, fs) else
  WriteFile h path (marshal c) fs.

Definition Save (h : Host) (c : Config) (fs : files) : outcome cerr unit * files :=
  match DefaultConfigPath h with
  | Ok path => SaveTo h c path fs
  | Err e => (Err e, fs)
  | Panic => (Panic, fs)
  end.

Definition GetXboxMAC (c : Config) : option HardwareAddr :=
  if bool_decide (LastXboxMAC c = EmptyString) then None else net_ParseMAC (LastXboxMAC c).

Definition SetXboxMAC (mac : HardwareAddr) (c : Config) : Config := mkConfig (mac_String mac).

(** ** What is saved is loaded *)

Lemma skipSpace_word c l : isSpace c = false -> skipSpace (c :: l) = c :: l.
Proof. simpl. by intros ->. Qed.

#[local] Arguments writeString : simpl never.
#[local] Arguments scanString : simpl never.

(** The one member of a written object, with its closing brace. *)
Lemma parse_member f depth k s rest : allASCII k = true -> allASCII s = true ->
  parseMembers (S (S f)) depth (writeString true k ++ chars ": " ++ writeString true s ++ chr 10 :: "}"%char :: rest)
  = Some ([(k, JStr s)], rest).
Proof.
  intros Hk Hs. unfold writeString at 1. rewrite <-app_comm_cons, <-app_assoc.
  cbn [parseMembers app]. rewrite escapeFrom_scan by done. cbn [mbind option_bind].
  change (expect 58 (skipSpace (chars ": " ++ writeString true s ++ chr 10 :: "}"%char :: rest)))
    with (Some (writeString true s ++ chr 10 :: "}"%char :: rest)).
  cbn [mbind option_bind]. rewrite parse_writeString by done. cbn [mbind option_bind].
  by rewrite escapeFrom_unquote.
Qed.

(** The text of a configuration that saves a MAC, after its first byte. *)
Definition body (s : string) : text :=
  chr 10 :: chars "  " ++ writeString true field ++ chars ": " ++ writeString true (chars s) ++ [chr 10; "}"%char].

Lemma parse_body s : isASCII s = true ->
  parseValue (enough ("{"%char :: body s)) 0 ("{"%char :: body s) = Some (JObj [(field, JStr (chars s))], []).
Proof.
  intros Hs. set (l := _ :: _).
  assert (exists f, enough l = S (S (S f))) as [f ->].
  { exists (2 * length l - 1)%nat. unfold enough. subst l. simpl length. lia. }
  assert (parseMembers (S (S f)) (0 + 1) (skipSpace (body s)) = Some ([(field, JStr (chars s))], [])) as Hm.
  { rewrite <-(parse_member f (0 + 1) field (chars s) []) by done. done. }
  subst l. cbn [parseValue]. rewrite Hm. done.
Qed.

Lemma marshal_body c : LastXboxMAC c <> EmptyString -> marshal c = "{"%char :: body (LastXboxMAC c).
Proof. intros H. unfold marshal. by rewrite bool_decide_eq_false_2. Qed.

Lemma unmarshal_marshal c : isASCII (LastXboxMAC c) = true -> unmarshal (marshal c) = Some c.
Proof.
  destruct c as [s]. simpl. intros Hs. destruct (decide (s = EmptyString)) as [->|He]; [done|].
  rewrite marshal_body by done. unfold unmarshal, parse. simpl LastXboxMAC.
  change (skipSpace ("{"%char :: body s)) with ("{"%char :: body s). rewrite parse_body by done.
  simpl. unfold chars. by rewrite String.string_of_list_ascii_of_string.
Qed.

(** A save that wrote only a part of the text leaves a file that is rejected. *)
Lemma unmarshal_cut c n : isASCII (LastXboxMAC c) = true -> (n < length (marshal c))%nat ->
  unmarshal (take n (marshal c)) = None.
Proof.
  intros Hs Hn. unfold unmarshal.
  assert (parse (take n (marshal c)) = None) as ->; [|done].
  destruct (decide (LastXboxMAC c = EmptyString)) as [He|He].
  { unfold marshal in *. rewrite bool_decide_eq_true_2 in * by done. simpl in Hn.
    by destruct n as [|[|n]]; [| |lia]. }
  rewrite marshal_body in * by done. destruct n as [|n]; [done|]. rewrite firstn_cons. simpl in Hn.
  eapply (parse_cut _ (drop n (body (LastXboxMAC c)))).
  - intros Hd. apply (f_equal length) in Hd. rewrite length_drop in Hd. simpl in Hd. lia.
  - rewrite take_drop. by apply parse_body.
Qed.

(** ** The file *)

Lemma hexdigit_ascii n : 0 <= n < 16 -> (code (hexdigit false n) <? 128)%N = true.
Proof.
  intros H. unfold hexdigit, code. apply N.ltb_lt.
  destruct (Z.ltb_spec n 10); rewrite N_ascii_embedding; lia.
Qed.

Lemma mac_String_ascii a : isASCII (mac_String a) = true.
Proof.
  unfold isASCII, mac_String. rewrite String.list_ascii_of_string_of_list_ascii.
  assert (forall b, forallb (fun c => (N_of_ascii c <? 128)%N) (hexByte b) = true) as Hb.
  { intros b. unfold hexByte, fmt_hex, forallb.
    rewrite !hexdigit_ascii by (apply Z.mod_pos_bound; lia). done. }
  induction a as [|b [|b' a] IH]; [done|apply Hb|].
  change (macChars (b :: b' :: a)) with (hexByte b ++ ":"%char :: macChars (b' :: a)).
  rewrite forallb_app, Hb. exact IH.
Qed.

(** A host on which the configuration file can be read and written. *)
Definition healthy (h : Host) (path : string) : Prop :=
  DefaultConfigPath h = Ok path /\ readFails h path = false /\
  mkdirFails h (Dir path) = false /\ writeResult h path = WriteOk.

Lemma Save_healthy h path c fs : healthy h path ->
  Save h c fs = (Ok tt, <[path := marshal c]> fs).
Proof. intros (Hp & _ & Hm & Hw). unfold Save, SaveTo, WriteFile. by rewrite Hp, Hm, Hw. Qed.

Lemma Load_file h path fs data :
  DefaultConfigPath h = Ok path -> readFails h path = false ->
  Load h (<[path := data]> fs) = match unmarshal data with Some c => Ok c | None => Err ErrParse end.
Proof. intros Hp Hr. unfold Load, LoadFrom. rewrite Hp. simpl. by rewrite Hr, lookup_insert_eq. Qed.

Lemma GetXboxMAC_Set mac c : macLen (length mac) = true -> GetXboxMAC (SetXboxMAC mac c) = Some mac.
Proof.
  intros Hl. pose proof (ParseMAC_String mac Hl) as Hp. unfold GetXboxMAC, SetXboxMAC. simpl.
  case_bool_decide as He; [|done]. by rewrite He in Hp.
Qed.

(** C21. Saving a discovered address and loading the file in a later run gives the
    address back; no other file changes. *)
Theorem saved_mac_roundtrip (h : Host) (path : string) (mac : HardwareAddr) (c : Config) (fs : files)
    (Hh : healthy h path) (Hmac : macLen (length mac) = true) :
  let '(r, fs') := Save h (SetXboxMAC mac c) fs in
  r = Ok tt /\
  GetXboxMAC <$> Load h fs' = Ok (Some mac) /\
  forall p, p <> path -> fs' !! p = fs !! p.
Proof.
  rewrite (Save_healthy h path) by done. destruct Hh as (Hp & Hr & _). split_and!; [done| |].
  - rewrite Load_file, unmarshal_marshal by (done || apply mac_String_ascii).
    cbn. by rewrite GetXboxMAC_Set.
  - intros p Hne. by rewrite lookup_insert_ne.
Qed.

(** C22. Whatever happens to a save, the next load gives the new configuration, the
    old one, or an error: a file that was cut short is never read as a
    different configuration. *)
Theorem save_never_misread (h : Host) (path : string) (c : Config) (fs : files)
    (Hp : DefaultConfigPath h = Ok path) (Hr : readFails h path = false)
    (Hs : isASCII (LastXboxMAC c) = true) :
  let '(r, fs') := Save h c fs in
  match r with
  | Ok _ => Load h fs' = Ok c
  | Err _ => Load h fs' = Load h fs \/ Load h fs' = Err ErrParse \/ Load h fs' = Ok c
  | Panic => False
  end.
Proof.
  unfold Save, SaveTo, WriteFile. rewrite Hp. destruct (mkdirFails h (Dir path)); [by left|].
  destruct (writeResult h path) as [| |n]; [|by left|].
  - by rewrite (Load_file h path), unmarshal_marshal.
  - right. rewrite (Load_file h path) by done. destruct (Nat.lt_ge_cases n (length (marshal c))) as [Hn|Hn].
    + left. by rewrite unmarshal_cut.
    + right. by rewrite take_ge, unmarshal_marshal.
Qed.

(** ** Examples *)

Definition ex_host (w : write_res) : Host :=
  mkHost (Some "/home/u"%string) (fun _ => false) (fun _ => false) (fun _ => w).

Definition ex_path : string := "/home/u/.xbslink-ng/config.json".

Definition ex_addr : HardwareAddr := z2b <$> [0; 80; 242; 26; 43; 60].

Lemma ex_healthy : healthy (ex_host WriteOk) ex_path.
Proof. by split_and!. Qed.

Lemma saved_mac_roundtrip_witness :
  let '(r, fs') := Save (ex_host WriteOk) (SetXboxMAC ex_addr (mkConfig EmptyString)) ∅ in
  r = Ok tt /\ GetXboxMAC <$> Load (ex_host WriteOk) fs' = Ok (Some ex_addr) /\
  forall p, p <> ex_path -> fs' !! p = (∅ : files) !! p.
Proof. apply (saved_mac_roundtrip (ex_host WriteOk) ex_path); [apply ex_healthy|done]. Defined.

Lemma save_never_misread_witness :
  let h := ex_host (WritesOnly 9) in
  let '(r, fs') := Save h (SetXboxMAC ex_addr (mkConfig EmptyString)) ∅ in
  match r with
  | Ok _ => Load h fs' = Ok (SetXboxMAC ex_addr (mkConfig EmptyString))
  | Err _ => Load h fs' = Load h ∅ \/ Load h fs' = Err ErrParse \/
             Load h fs' = Ok (SetXboxMAC ex_addr (mkConfig EmptyString))
  | Panic => False
  end.
Proof. by apply (save_never_misread (ex_host (WritesOnly 9)) ex_path). Defined.

End Config.
