(* ===== verification/Discovery.v ===== *)
(** * Console discovery: internal/discovery/discovery.go

    Passive discovery of a console by its System Link traffic.  libpcap is the
    argument [Pcap] of the capture component; each iteration of the listening
    loop is run on what the context and the handle answer. *)

From Stdlib Require Import Ascii.
From S2P Require Import Prelude GoLib Capture.
Import GoLib Capture.

Module Discovery.

Definition XboxSystemLinkPort : Z := 3074.
Definition SnapLen : Z := 128.
Definition ReadTimeout : Z := 100 * 1000000.

Inductive derr :=
| ErrDiscoveryCancelled
| ErrInterfaceNotFound (name : string)
| ErrListInterfaces (e : pcaperr)
| ErrCreateHandle (name : string) (e : pcaperr)
| ErrSnapLen (e : pcaperr)
| ErrPromisc (e : pcaperr)
| ErrTimeout (e : pcaperr)
| ErrActivate (name : string) (e : pcaperr)
| ErrFilter (e : pcaperr).

#[export] Instance derr_eq_dec : EqDecision derr.
Proof. solve_decision. Defined.

Record Result := mkResult { MAC : HardwareAddr; LastSeen : Z }.

(** The name of the device. *)
Definition findInterface `{Unicode} (p : Pcap) (name : string) : outcome derr string :=
  match FindAllDevs p with
  | inl e => Err (ErrListInterfaces e)
  | inr devices =>
      let nameLower := ToLower name in
      match firstMatch (fun d => bool_decide (devName d = name)) devices with
      | Some d => Ok (devName d)
      | None =>
          match firstMatch (fun d => bool_decide (ToLower (devName d) = nameLower)) devices with
          | Some d => Ok (devName d)
          | None =>
              match firstMatch (fun d => Contains (ToLower (devDescription d)) nameLower) devices with
              | Some d => Ok (devName d)
              | None => Err (ErrInterfaceNotFound name)
              end
          end
      end
  end.

(** What one iteration meets: the context, the read, the time. *)
Record disc_in := mkDisc { d_ctx : bool; d_read : pcap_read; d_now : Z }.

(** The source address is bytes 6 to 11; the low bit of its first byte marks
    a group address. *)
Definition discoverBody (i : disc_in) (s : unit) : unit * ctl (outcome derr Result) :=
  if d_ctx i then (s, Return (Err ErrDiscoveryCancelled)) else
  match d_read i with
  | PTimeout | PError _ => (s, Next)
  | PData data =>
      if (length data <? 14)%nat then (s, Next) else
      let srcMAC := slice 6 12 data in
      if negb (Z.land (b2z (default x00 (srcMAC !! 0%nat))) 1 =? 0) then (s, Next) else
      (s, Return (Ok (mkResult (go_copy (make_bytes 6) 0 6 srcMAC) (d_now i))))
  end.

Definition filter : string := String.append "udp port " (fmt_d XboxSystemLinkPort).

(** The calls on the handle before the loop. *)
Definition openHandle `{Unicode} (p : Pcap) (name : string) : outcome derr unit :=
  iface ← findInterface p name;
  guard_call (NewInactiveHandle p iface) (ErrCreateHandle name) (
  guard_call (SetSnapLen p SnapLen) ErrSnapLen (
  guard_call (SetPromisc p true) ErrPromisc (
  guard_call (SetTimeout p ReadTimeout) ErrTimeout (
  guard_call (Activate p) (ErrActivate name) (
  guard_call (SetBPFFilter p filter) ErrFilter (
  Ok tt)))))).

(** No result: still listening. *)
Definition Discover `{Unicode} (p : Pcap) (name : string) (ins : list disc_in)
    : option (outcome derr Result) :=
  match openHandle p name with
  | Ok _ => snd (loop discoverBody ins tt)
  | Err e => Some (Err e)
  | Panic => Some Panic
  end.

(** ** What is found *)

(** A packet the loop accepts: whole Ethernet header, unicast source. *)
Definition acceptable (r : pcap_read) : bool :=
  match r with
  | PData data => (14 <=? length data)%nat && Z.even (b2z (default x00 (data !! 6%nat)))
  | _ => false
  end.

Definition passed (i : disc_in) : Prop := d_ctx i = false /\ acceptable (d_read i) = false.

Lemma slice_hd (data : list byte) : (14 <= length data)%nat -> slice 6 12 data !! 0%nat = data !! 6%nat.
Proof.
  intros Hl. unfold slice. rewrite lookup_take_lt, lookup_drop by lia. done.
Qed.

Lemma discoverBody_cases i :
  (d_ctx i = true /\ discoverBody i tt = (tt, Return (Err ErrDiscoveryCancelled))) \/
  (passed i /\ discoverBody i tt = (tt, Next)) \/
  (d_ctx i = false /\ acceptable (d_read i) = true /\
   exists data, d_read i = PData data /\ length (slice 6 12 data) = 6%nat /\
   discoverBody i tt = (tt, Return (Ok (mkResult (slice 6 12 data) (d_now i))))).
Proof.
  unfold discoverBody, passed, acceptable. destruct (d_ctx i); [by left|right].
  destruct (d_read i) as [|e|data]; [by left..|].
  destruct (Nat.ltb_spec (length data) 14) as [Hl|Hl].
  { left. rewrite (proj2 (Nat.leb_gt _ _)) by lia. done. }
  rewrite (proj2 (Nat.leb_le _ _)) by lia. rewrite slice_hd by done.
  set (z := b2z _). change 1 with (Z.ones 1). rewrite Z.land_ones by lia. change (2 ^ 1) with 2.
  rewrite Zmod_even. destruct (Z.even z); simpl; [right|by left].
  assert (length (slice 6 12 data) = 6%nat) as Hs by (rewrite length_slice; lia).
  split_and!; [done..|]. exists data. split_and!; [done..|].
  by rewrite go_copy_full by (rewrite ?Hs; done).
Qed.

(** The loop reads past what it does not accept, and stops at the first packet
    it accepts or when the context is done. *)
Lemma loop_discover ins r : snd (loop discoverBody ins tt) = Some (Ok r) <->
  exists pre i post data, ins = pre ++ i :: post /\ Forall passed pre /\ d_ctx i = false /\
    d_read i = PData data /\ acceptable (PData data) = true /\
    r = mkResult (slice 6 12 data) (d_now i).
Proof.
  induction ins as [|i ins IH]; simpl.
  { split; [done|]. intros (pre & ? & ? & ? & H & _). by destruct pre. }
  destruct (discoverBody_cases i) as [[Hc ->]|[[Hp ->]|(Hc & Ha & data & Hd & Hl & ->)]]; simpl.
  - split; [done|]. intros ([|j pre] & k & post & data & H & Hpre & Hk & _); simplify_eq/=; [congruence|].
    apply Forall_cons in Hpre as [[Hj _] _]. congruence.
  - rewrite IH. split.
    + intros (pre & k & post & data & -> & Hpre & H). exists (i :: pre), k, post, data.
      split; [done|]. split; [by constructor|done].
    + intros ([|j pre] & k & post & data & H & Hpre & Hk & Hr & Ha & E); simplify_eq/=.
      * destruct Hp as [_ Hp]. rewrite Hr in Hp. simpl in Hp. congruence.
      * apply Forall_cons in Hpre as [_ Hpre]. by exists pre, k, post, data.
  - rewrite Hd in Ha. split.
    + intros H. simplify_eq. by exists [], i, ins, data.
    + intros ([|j pre] & k & post & data' & H & Hpre & Hk & Hr & Ha' & E); simplify_eq/=.
      * congruence.
      * apply Forall_cons in Hpre as [[_ Hj] _]. rewrite Hd in Hj. simpl in Hj. congruence.
Qed.

(** C24. Discovery succeeds exactly when, after packets that are cut or come from a
    group address, a packet with a whole Ethernet header and a unicast source
    arrives before the context is done; the result is that packet's source,
    six bytes. *)
Theorem Discover_spec `{Unicode} (p : Pcap) (name : string) (ins : list disc_in) (r : Result) :
  Discover p name ins = Some (Ok r) <->
  openHandle p name = Ok tt /\
  exists pre i post data, ins = pre ++ i :: post /\ Forall passed pre /\ d_ctx i = false /\
    d_read i = PData data /\ acceptable (PData data) = true /\ LastSeen r = d_now i /\
    fst (fst (DecodeEthernetFrame data)) = Some (MAC r) /\ length (MAC r) = 6%nat.
Proof.
  unfold Discover. destruct (openHandle p name) as [[]|e|]; [|by split; [|intros []]..].
  rewrite loop_discover.
  assert (forall data, acceptable (PData data) = true ->
    fst (fst (DecodeEthernetFrame data)) = Some (slice 6 12 data) /\ length (slice 6 12 data) = 6%nat) as Hdec.
  { intros data Ha. unfold acceptable in Ha. reflect_all. unfold DecodeEthernetFrame.
    rewrite (proj2 (Nat.ltb_ge _ _)) by lia. split; [done|]. rewrite length_slice; lia. }
  split.
  - intros (pre & i & post & data & -> & Hpre & Hc & Hd & Ha & ->). split; [done|].
    destruct (Hdec data Ha). by exists pre, i, post, data.
  - intros (_ & pre & i & post & data & -> & Hpre & Hc & Hd & Ha & Hn & Hm & _).
    exists pre, i, post, data. split_and!; try done. destruct (Hdec data Ha) as [Hs _].
    rewrite Hm in Hs. destruct r; simplify_eq/=. congruence.
Qed.

(** ** The same interface as the capture *)

(** [findInterface] repeats the search of [capture.FindInterface]: with a
    working libpcap both find the same device, or neither finds one. *)
Theorem findInterface_agrees `{Unicode} (p : Pcap) (name : string)
    (Hnp : CheckNpcapInstalled p = None) :
  match findInterface p name, FindInterface p name with
  | Ok n, Ok i => Name i = n
  | Err (ErrInterfaceNotFound m), Err e => m = name /\ e = Capture.ErrInterfaceNotFound name
  | Err (ErrListInterfaces x), Err e => e = Capture.ErrListInterfaces x
  | _, _ => False
  end.
Proof.
  unfold findInterface, FindInterface, ListInterfaces. rewrite Hnp.
  destruct (FindAllDevs p) as [e|devs]; [done|]. cbn [mbind outcome_bind].
  rewrite !firstMatch_fmap. cbn [deviceInfo Name Description].
  destruct (firstMatch _ devs) as [d|]; [done|]. simpl.
  destruct (firstMatch _ devs) as [d|]; [done|]. simpl.
  by destruct (firstMatch _ devs) as [d|].
Qed.

Lemma findInterface_agrees_witness :
  match @findInterface ex_unicode ex_pcap "ETH0", @FindInterface ex_unicode ex_pcap "ETH0" with
  | Ok n, Ok i => Name i = n
  | Err (ErrInterfaceNotFound m), Err e => m = "ETH0"%string /\ e = Capture.ErrInterfaceNotFound "ETH0"
  | Err (ErrListInterfaces x), Err e => e = Capture.ErrListInterfaces x
  | _, _ => False
  end.
Proof. apply (@findInterface_agrees ex_unicode ex_pcap "ETH0"). reflexivity. Defined.

End Discovery.
