(* ===== verification/GoFlag.v ===== *)
(** * Flags and numbers: Go's flag and strconv packages

    [strconv.ParseUint] with base 0 and the parsing of a [flag.FlagSet] that
    exits on errors, as far as the command line uses them: string and uint
    flags. *)

From stdpp Require Import gmap strings pretty.
From Stdlib Require Import Ascii.
From S2P Require Import Prelude GoLib Json GoDecimal.
Import GoLib Json GoDecimal.

Module GoFlag.

(** ** strconv.ParseUint(s, 0, 64) *)

(** [c | ('x' - 'X')]. *)
Definition lower (c : ascii) : N := N.lor (code c) 32.

Definition digitVal (c : ascii) : option Z :=
  if between 48 57 (code c) then Some (Z.of_N (code c) - 48) else
  if between 97 122 (lower c) then Some (Z.of_N (lower c) - 97 + 10) else None.

Definition isPrefixLetter (c : ascii) : bool :=
  ((lower c =? 98) || (lower c =? 111) || (lower c =? 120))%N.

(** The base a literal has, and its digits. *)
Definition basePrefix (l : text) : Z * text :=
  match l with
  | z :: l1 =>
      if (code z =? 48)%N then
        match l1 with
        | x :: d :: l2 =>
            if (lower x =? 98)%N then (2, d :: l2) else
            if (lower x =? 111)%N then (8, d :: l2) else
            if (lower x =? 120)%N then (16, d :: l2) else (8, l1)
        | _ => (8, l1)
        end
      else (10, l)
  | [] => (10, [])
  end.

Definition maxUint64 : Z := 2 ^ 64 - 1.

(** The loop over the digits.  Underscores are skipped here and checked after;
    a value that does not fit is an error. *)
Fixpoint digitsLoop (base : Z) (l : text) (n : Z) : option Z :=
  match l with
  | [] => Some n
  | c :: l' =>
      if (code c =? 95)%N then digitsLoop base l' n else
      d ← digitVal c;
      if base <=? d then None else
      if maxUint64 / base + 1 <=? n then None else
      let n0 := n * base in
      let n1 := u64 (n0 + d) in
      if (n1 <? n0) || (maxUint64 <? n1) then None else digitsLoop base l' n1
  end.

(** What [underscoreOK] saw last: nothing yet, a digit, an underscore, or
    something else. *)
Inductive seen := SawStart | SawDigit | SawUnderscore | SawOther.

Fixpoint underscoreLoop (hex : bool) (i : seen) (l : text) : bool :=
  match l with
  | [] => match i with SawUnderscore => false | _ => true end
  | c :: l' =>
      if between 48 57 (code c) || (hex && between 97 102 (lower c)) then underscoreLoop hex SawDigit l' else
      if (code c =? 95)%N then
        match i with SawDigit => underscoreLoop hex SawUnderscore l' | _ => false end else
      match i with SawUnderscore => false | _ => underscoreLoop hex SawOther l' end
  end.

(** A sign is skipped, a base prefix counts as a digit. *)
Definition underscoreOK (l : text) : bool :=
  let l := match l with
           | c :: l' => if (code c =? 45)%N || (code c =? 43)%N then l' else l
           | [] => []
           end in
  match l with
  | z :: x :: l' =>
      if (code z =? 48)%N && isPrefixLetter x
      then underscoreLoop (lower x =? 120)%N SawDigit l'
      else underscoreLoop false SawStart l
  | _ => underscoreLoop false SawStart l
  end.

Definition hasUnderscore (l : text) : bool := existsb (fun c => (code c =? 95)%N) l.

Definition ParseUint (s : string) : option Z :=
  let l := chars s in
  match l with
  | [] => None
  | _ =>
      let '(base, ds) := basePrefix l in
      n ← digitsLoop base ds 0;
      if hasUnderscore ds && negb (underscoreOK l) then None else Some n
  end.

(** ** flag.FlagSet *)

Inductive value := VString (s : string) | VUint (n : Z).

#[export] Instance value_eq_dec : EqDecision value.
Proof. solve_decision. Defined.

(** The defined flags with their values. *)
Abbreviation formal := (gmap string value).

(** [flag.Value.Set]: the kind of the flag stays. *)
Definition Set_ (v : value) (s : string) : option value :=
  match v with
  | VString _ => Some (VString s)
  | VUint _ => VUint <$> ParseUint s
  end.

Inductive ferr :=
| ErrBadSyntax (s : string)
| ErrNotDefined (name : string)
| ErrHelp
| ErrNeedsArgument (name : string)
| ErrInvalidValue (name s : string).

(** The name and the value of [name=value]; the sign cannot be first. *)
Fixpoint splitEq (l : text) : text * option text :=
  match l with
  | [] => ([], None)
  | c :: l' =>
      if (code c =? 61)%N then ([], Some l') else
      let '(a, v) := splitEq l' in (c :: a, v)
  end.

Definition splitName (l : text) : text * option text :=
  match l with
  | [] => ([], None)
  | c :: l' => let '(a, v) := splitEq l' in (c :: a, v)
  end.

Definition str (l : text) : string := String.string_of_list_ascii l.

(** What the first argument is: not a flag, the terminator, a syntax error, or
    a flag with its value, if it has one. *)
Inductive arg_kind := NotFlag | Terminator | BadSyntax | IsFlag (name : string) (value : option string).

Definition flagName (l : text) : arg_kind :=
  match l with
  | [] => BadSyntax
  | c :: _ =>
      if (code c =? 45)%N || (code c =? 61)%N then BadSyntax else
      let '(name, v) := splitName l in IsFlag (str name) (str <$> v)
  end.

Definition classify (s : string) : arg_kind :=
  match chars s with
  | c :: d :: l =>
      if negb (code c =? 45)%N then NotFlag else
      if (code d =? 45)%N then (match l with [] => Terminator | _ => flagName l end)
      else flagName (d :: l)
  | _ => NotFlag
  end.

(** [parseOne] repeated: the values, or the error that ends the program. *)
Fixpoint Parse (args : list string) (f : formal) : formal + ferr :=
  match args with
  | [] => inl f
  | s :: args' =>
      match classify s with
      | NotFlag => inl f
      | Terminator => inl f
      | BadSyntax => inr (ErrBadSyntax s)
      | IsFlag name v =>
          match f !! name with
          | None =>
              inr (if bool_decide (name = "help"%string) || bool_decide (name = "h"%string)
                   then ErrHelp else ErrNotDefined name)
          | Some fv =>
              match v with
              | Some x =>
                  match Set_ fv x with
                  | Some fv' => Parse args' (<[name := fv']> f)
                  | None => inr (ErrInvalidValue name x)
                  end
              | None =>
                  match args' with
                  | [] => inr (ErrNeedsArgument name)
                  | x :: args'' =>
                      match Set_ fv x with
                      | Some fv' => Parse args'' (<[name := fv']> f)
                      | None => inr (ErrInvalidValue name x)
                      end
                  end
              end
          end
      end
  end.

(** With [flag.ExitOnError]. *)
Definition exitCode (e : ferr) : Z := match e with ErrHelp => 0 | _ => 2 end.

Definition getString (f : formal) (name : string) : string :=
  match f !! name with Some (VString s) => s | _ => EmptyString end.
Definition getUint (f : formal) (name : string) : Z :=
  match f !! name with Some (VUint n) => n | _ => 0 end.

(** ** Decimal numbers come back *)

Lemma readFrom_ge n l : digits l -> 0 <= n -> n <= readFrom n l.
Proof.
  intros H. revert n. induction H as [|c l Hc _ IH]; intros n Hn; [done|]. apply digit_value in Hc as [Hc _].
  cbn [readFrom foldl]. fold (readFrom (n * 10 + digitValue c) l). pose proof (IH (n * 10 + digitValue c) ltac:(lia)). lia.
Qed.

Lemma digitsLoop_digits l : digits l -> forall n, 0 <= n -> readFrom n l <= maxUint64 ->
  digitsLoop 10 l n = Some (readFrom n l).
Proof.
  induction 1 as [|c l Hc Hl IH]; intros n Hn Hmax; [done|]. cbn [readFrom foldl] in *.
  fold (readFrom (n * 10 + digitValue c) l) in *. destruct (digit_value c Hc) as [Hv Hu].
  pose proof (readFrom_ge (n * 10 + digitValue c) l Hl ltac:(lia)) as Hge.
  cbn [digitsLoop]. unfold digitVal. rewrite Hu.
  unfold isDigit in Hc. rewrite Hc. cbn [mbind option_bind]. fold (digitValue c).
  assert (u64 (n * 10 + digitValue c) = n * 10 + digitValue c) as -> by (apply Z.mod_small; unfold maxUint64 in *; lia).
  assert (n < maxUint64 / 10 + 1) by (pose proof (Z.div_le_lower_bound maxUint64 10 n); lia).
  destruct (Z.leb_spec 10 (digitValue c)); [lia|]. destruct (Z.leb_spec (maxUint64 / 10 + 1) n); [lia|].
  destruct (Z.ltb_spec (n * 10 + digitValue c) (n * 10)); [lia|].
  destruct (Z.ltb_spec maxUint64 (n * 10 + digitValue c)); [lia|]. cbn [orb]. by apply IH; [lia|].
Qed.

Lemma digits_underscore l : digits l -> hasUnderscore l = false.
Proof.
  intros H. apply not_true_iff_false. intros (c & Hin%list_elem_of_In & Hc)%existsb_exists.
  eapply Forall_forall in H; [|done]. apply digit_value in H as [_ H]. congruence.
Qed.

(** A printed number is read back, up to the largest uint. *)
Lemma ParseUint_fmt_d n : 0 <= n <= maxUint64 -> ParseUint (fmt_d n) = Some n.
Proof.
  intros Hn. destruct (fmt_d_decimal n) as [[Hd Hs] Hr]; [lia|]. unfold ParseUint.
  destruct (decide (n = 0)) as [-> |Hz]; [done|].
  pose proof (digitsLoop_digits _ Hd 0 ltac:(lia)) as Hl. fold (readDigits (chars (fmt_d n))) in Hl. rewrite Hr in Hl.
  rewrite <- Hr in Hz. destruct (chars (fmt_d n)) as [|c l]; [done|].
  assert ((code c =? 48)%N = false) as Hc.
  { destruct l; [|done]. apply N.eqb_neq. intros H48. apply Hz. unfold readDigits, readFrom. cbn. unfold digitValue. lia. }
  unfold basePrefix. rewrite Hc, Hl, digits_underscore by (done || lia). done.
Qed.

End GoFlag.
