(* ===== verification/Cli.v ===== *)
(** * The command line: cmd/xbslink-ng/main.go, up to [runBridge]

    The commands, the flags of [listen] and [connect], their validation and
    the conversion of their values, and what the commands that end print.  The
    text the [flag] package prints for a bad flag is not modelled. *)

From stdpp Require Import gmap strings.
From Stdlib Require Import Ascii.
From S2P Require Import Prelude GoLib Json JsonWrite GoFlag Transport Capture.
Import GoLib Json JsonWrite GoFlag.

Module Cli.

Definition defaultPort : Z := 31415.
Definition defaultStatsInterval : Z := 30.
Definition defaultLogLevel : string := "info".

(** The arguments of [runBridge]. *)
Record Params := mkParams {
  mode : Transport.Mode;
  port : Z;
  peerAddr : string;
  ifaceName : string;
  xboxMACStr : string;
  key : string;
  logLevelStr : string;
  statsInterval : Z;
  eventsOutput : string;
}.

(** The [flag] package exits, the process exits with a message on standard
    error, or [runBridge] is called. *)
Inductive launch := FlagExit (code : Z) | Exit (code : Z) (err : string) | Launch (p : Params).

(** What [fmt.Fprintln] writes for each of the texts. *)
Definition println (l : list string) : string :=
  String.concat EmptyString ((fun s => String.append s (String (ascii_of_nat 10) EmptyString)) <$> l).

Definition interfaceRequired : string :=
  println ["Error: --interface is required"; EmptyString; "Run 'xbslink-ng interfaces' to list available interfaces."]%string.

(** [time.Duration(n) * time.Second] of a uint. *)
Definition seconds (n : Z) : Z := i64 (i64 n * Transport.Second).

Definition commonFlags : formal :=
  <["interface" := VString EmptyString]> (<["xbox-mac" := VString EmptyString]>
  (<["key" := VString EmptyString]> (<["log" := VString defaultLogLevel]>
  (<["stats-interval" := VUint defaultStatsInterval]> (<["events-output" := VString EmptyString]> ∅)))))%string.

Definition listenFlags : formal := <["port"%string := VUint defaultPort]> commonFlags.

Definition connectFlags : formal :=
  <["address" := VString EmptyString]> (<["port" := VUint 0]> commonFlags)%string.

Definition runListen (args : list string) : launch :=
  match Parse args listenFlags with
  | inr e => FlagExit (exitCode e)
  | inl fs =>
      if bool_decide (getString fs "interface" = EmptyString) then Exit 1 interfaceRequired else
      let port := getUint fs "port" in
      if (port =? 0) || (65535 <? port) then Exit 1 (println ["Error: --port must be between 1 and 65535"%string]) else
      Launch (mkParams Transport.ModeListen (u16 port) EmptyString (getString fs "interface")
        (getString fs "xbox-mac") (getString fs "key") (getString fs "log")
        (seconds (getUint fs "stats-interval")) (getString fs "events-output"))
  end.

Definition runConnect (args : list string) : launch :=
  match Parse args connectFlags with
  | inr e => FlagExit (exitCode e)
  | inl fs =>
      let address := getString fs "address" in
      if bool_decide (address = EmptyString) then Exit 1 (println ["Error: --address is required"%string]) else
      if bool_decide (getString fs "interface" = EmptyString) then Exit 1 interfaceRequired else
      if negb (Contains address ":")
      then Exit 1 (println ["Error: --address must be in IP:port format (e.g., 192.168.1.100:31415)"%string]) else
      Launch (mkParams Transport.ModeConnect (u16 (getUint fs "port")) address (getString fs "interface")
        (getString fs "xbox-mac") (getString fs "key") (getString fs "log")
        (seconds (getUint fs "stats-interval")) (getString fs "events-output"))
  end.

(** What [printUsage] prints. *)
Definition usage : string :=
  Capture.textLines
    ["xbslink-ng - P2P Xbox System Link Bridge";
     EmptyString;
     "Usage:";
     "  xbslink-ng <command> [flags]";
     EmptyString;
     "Commands:";
     "  listen      Listen for incoming peer connection (requires port forwarding)";
     "  connect     Connect to a listening peer";
     "  interfaces  List available network interfaces";
     "  version     Print version information";
     EmptyString;
     "Flags for listen/connect:";
     "  --port            UDP port (listen: port to bind, connect: optional local port)";
     "  --address         Peer's IP:port (connect mode only, required)";
     "  --interface       Network interface name (required)";
     "  --xbox-mac        Xbox MAC address (auto-detected if omitted)";
     "  --key             Pre-shared key for authentication (strongly recommended)";
     "  --log             Log level: error|warn|info|debug|trace (default: info)";
     "  --stats-interval  Seconds between stats output, 0 to disable (default: 30)";
     "  --events-output   Write JSON Line events to: stdout, stderr, or a file path (disabled if empty)";
     EmptyString;
     "Examples:";
     "  # List network interfaces";
     "  xbslink-ng interfaces";
     EmptyString;
     "  # Listen for incoming connection (port forward UDP 31415)";
     Capture.quoted ["  xbslink-ng listen --port 31415 --interface "; Capture.dq; "Ethernet"; Capture.dq; " --xbox-mac 00:50:F2:1A:2B:3C"];
     EmptyString;
     "  # Connect to a listening peer";
     Capture.quoted ["  xbslink-ng connect --address 203.0.113.50:31415 --interface "; Capture.dq; "Ethernet"; Capture.dq; " --xbox-mac 00:50:F2:4D:5E:6F"];
     EmptyString;
     "  # With authentication (recommended)";
     Capture.quoted ["  xbslink-ng listen --port 31415 --interface "; Capture.dq; "Ethernet"; Capture.dq; " --xbox-mac 00:50:F2:1A:2B:3C --key "; Capture.dq; "mysecretkey"; Capture.dq];
     EmptyString;
     "Press Enter at any time to see current statistics.";
     EmptyString]%string.

(** The text of an error of [ListInterfaces]. *)
Definition listError (p : Capture.Pcap) (e : Capture.cerr) : string :=
  match e with
  | Capture.ErrListInterfaces e =>
      Capture.textLines [String.append "failed to list interfaces: " e; EmptyString; Capture.NpcapInstallHelp p]
  | _ => Capture.textLines ["npcap not installed"%string; EmptyString; Capture.NpcapInstallHelp p]
  end.

(** The exit code and the texts on standard output and standard error. *)
Definition runInterfaces (p : Capture.Pcap) : Z * string * string :=
  match Capture.CheckNpcapInstalled p with
  | Some _ =>
      (1, EmptyString, println ["Error: npcap not installed"%string; EmptyString; Capture.NpcapInstallHelp p])
  | None =>
      match Capture.ListInterfaces p with
      | Ok [] => (1, println ["No network interfaces found."%string; EmptyString; Capture.NpcapInstallHelp p], EmptyString)
      | Ok interfaces => (0, Capture.FormatInterfaceList interfaces, EmptyString)
      | Err e => (1, EmptyString, println [String.append "Error listing interfaces: " (listError p e)])
      | Panic => (2, EmptyString, EmptyString)
      end
  end.

(** The build and the machine: [Version], [runtime.GOARCH] and libpcap. *)
Record Env := mkEnv { Version : string; GOARCH : string; pcap : Capture.Pcap }.

(** What the process does: the [flag] package exits, the process prints on
    standard output and standard error and exits, or it runs the bridge. *)
Inductive action :=
| AFlags (code : Z)
| AExit (code : Z) (out err : string)
| ABridge (p : Params).

Definition ofLaunch (l : launch) : action :=
  match l with FlagExit c => AFlags c | Exit c err => AExit c EmptyString err | Launch p => ABridge p end.

Definition versionText (env : Env) : string :=
  println [String.concat EmptyString
    ["xbslink-ng "; Version env; " ("; Capture.GOOS (pcap env); "/"; GOARCH env; ")"]%string].

(** [os.Args] without the program's name. *)
Definition main (env : Env) (args : list string) : action :=
  match args with
  | [] => AExit 1 usage EmptyString
  | cmd :: args =>
      if bool_decide (cmd = "listen"%string) then ofLaunch (runListen args) else
      if bool_decide (cmd = "connect"%string) then ofLaunch (runConnect args) else
      if bool_decide (cmd = "interfaces"%string)
      then let '(code, out, err) := runInterfaces (pcap env) in AExit code out err else
      if bool_decide (cmd ∈ ["version"; "--version"; "-v"]%string) then AExit 0 (versionText env) EmptyString else
      if bool_decide (cmd ∈ ["help"; "--help"; "-h"]%string) then AExit 0 usage EmptyString else
      AExit 1 usage (println [String.append "Unknown command: " cmd; EmptyString])
  end.

(** ** Lemmas: flags *)

(** [--name value] for each setting. *)
Fixpoint settingArgs (l : list (string * string)) : list string :=
  match l with
  | [] => []
  | (name, v) :: l' => String.append "--" name :: v :: settingArgs l'
  end.

(** The settings one by one. *)
Fixpoint apply_settings (l : list (string * string)) (f : formal) : option formal :=
  match l with
  | [] => Some f
  | (name, v) :: l' => fv ← f !! name; fv' ← Set_ fv v; apply_settings l' (<[name := fv']> f)
  end.

(** A name the parser takes whole. *)
Definition goodName (name : string) : Prop := classify (String.append "--" name) = IsFlag name None.

Lemma apply_settings_cons name v l f fv fv' f' :
  f !! name = Some fv -> Set_ fv v = Some fv' -> apply_settings l (<[name := fv']> f) = Some f' ->
  apply_settings ((name, v) :: l) f = Some f'.
Proof. simpl. intros -> H. simpl. rewrite H. done. Qed.

Lemma Parse_settings l : forall f f', Forall (fun nv => goodName (fst nv)) l ->
  apply_settings l f = Some f' -> Parse (settingArgs l) f = inl f'.
Proof.
  induction l as [|[name v] l IH]; intros f f' Hg E; simpl in *; [by simplify_eq|].
  apply Forall_cons in Hg as [Hn Hg]. simpl in Hn. rewrite Hn.
  apply bind_Some in E as (fv & -> & E). apply bind_Some in E as (fv' & -> & E). by apply IH.
Qed.

(** ** Lemmas: values in range *)

Definition in_range (v : value) : Prop :=
  match v with VString _ => True | VUint n => 0 <= n <= maxUint64 end.

Definition uints_ok (f : formal) : Prop := map_Forall (fun _ => in_range) f.

Lemma digitsLoop_range base l : forall n r, 0 <= n <= maxUint64 ->
  digitsLoop base l n = Some r -> 0 <= r <= maxUint64.
Proof.
  induction l as [|c l IH]; intros n r Hn; simpl; [by intros; simplify_eq|].
  destruct (code c =? 95)%N; [by apply IH|].
  intros (d & _ & E)%bind_Some. repeat case_match; try done.
  eapply IH; [|exact E]. unfold maxUint64. pose proof (Z.mod_pos_bound (n * base + d) (2 ^ 64)). unfold wrap. lia.
Qed.

Lemma ParseUint_range s n : ParseUint s = Some n -> 0 <= n <= maxUint64.
Proof.
  unfold ParseUint. destruct (chars s) as [|c l]; [done|]. destruct (basePrefix (c :: l)) as [base ds].
  intros (m & Hm & E)%bind_Some. case_match; [done|]. simplify_eq.
  eapply digitsLoop_range; [|exact Hm]. unfold maxUint64. lia.
Qed.

Lemma Set_range v s v' : Set_ v s = Some v' -> in_range v'.
Proof.
  destruct v as [x|n]; simpl; [by intros; simplify_eq|].
  destruct (ParseUint s) as [m|] eqn:E; simpl; intros; simplify_eq. by eapply ParseUint_range.
Qed.

Lemma Parse_range n : forall args f f', (length args <= n)%nat -> uints_ok f ->
  Parse args f = inl f' -> uints_ok f'.
Proof.
  induction n as [|n IH]; intros [|s args] f f' Hl Hf E; simpl in *; simplify_eq; try done; [lia|].
  destruct (classify s) as [| | |name v]; simplify_eq; try done.
  destruct (f !! name) as [fv|]; [|done].
  assert (forall args' x, (length args' <= n)%nat ->
    match Set_ fv x with Some fv' => Parse args' (<[name := fv']> f) | None => inr (ErrInvalidValue name x) end
      = inl f' -> uints_ok f') as Hset.
  { intros args' x Hl' E'. destruct (Set_ fv x) as [fv'|] eqn:Es; [|done].
    eapply (IH _ _ _ Hl'); [|exact E']. apply map_Forall_insert_2; [by eapply Set_range|done]. }
  destruct v as [x|]; [apply (Hset args x); [lia|done]|].
  destruct args as [|x args]; [done|]. apply (Hset args x); [simpl in *; lia|done].
Qed.

Lemma getUint_range f name : uints_ok f -> 0 <= getUint f name <= maxUint64.
Proof.
  intros Hf. unfold getUint. destruct (f !! name) as [[s|n]|] eqn:E; [unfold maxUint64; lia| |unfold maxUint64; lia].
  exact (Hf _ _ E).
Qed.

Lemma flags_ok : uints_ok listenFlags /\ uints_ok connectFlags.
Proof.
  split; repeat (apply map_Forall_insert_2; [unfold in_range, maxUint64; (done || (vm_compute; split; discriminate))|]);
    apply map_Forall_empty.
Qed.

(** Runs settings whose values are accepted. *)
Ltac run_settings :=
  repeat (eapply apply_settings_cons;
    [reflexivity
    |first [cbn [Set_]; rewrite ParseUint_fmt_d by (unfold maxUint64 in *; lia); reflexivity | reflexivity]|]);
  reflexivity.

Lemma seconds_small n : 0 <= n <= 9223372036 -> seconds n = n * Transport.Second.
Proof.
  intros H. unfold seconds, Transport.Second. rewrite (swrap_small 64 n) by lia. apply swrap_small; lia.
Qed.

(** ** Claims *)

(** C32. Whatever the arguments, [listen] starts a bridge only in listening mode,
    with an interface and the port that was given, which is between 1 and
    65535; [connect] only in connecting mode, with an interface and a peer
    address with a colon, and a 16-bit local port. *)
Theorem launch_valid (args : list string) (p : Params) :
  (runListen args = Launch p ->
     mode p = Transport.ModeListen /\ ifaceName p <> EmptyString /\ peerAddr p = EmptyString /\
     1 <= port p <= 65535 /\
     exists fs, Parse args listenFlags = inl fs /\ port p = getUint fs "port") /\
  (runConnect args = Launch p ->
     mode p = Transport.ModeConnect /\ ifaceName p <> EmptyString /\
     Contains (peerAddr p) ":" = true /\ 0 <= port p <= 65535).
Proof.
  split.
  - unfold runListen. destruct (Parse args listenFlags) as [fs|e] eqn:E; [|done].
    case_bool_decide as Hi; [done|]. case_match eqn:Hp; [done|]. intros; simplify_eq/=.
    pose proof (getUint_range fs "port" (Parse_range _ _ _ _ (le_n _) (proj1 flags_ok) E)).
    reflect_all. assert (u16 (getUint fs "port") = getUint fs "port") as Hw by (apply Z.mod_small; lia).
    split_and!; try done; try lia. by exists fs.
  - unfold runConnect. destruct (Parse args connectFlags) as [fs|e] eqn:E; [|done].
    case_bool_decide as Ha; [done|]. case_bool_decide as Hi; [done|]. case_match eqn:Hc; [done|].
    intros; simplify_eq/=. reflect_all. split_and!; try done;
      pose proof (Z.mod_pos_bound (getUint fs "port") (2 ^ 16)); unfold wrap; lia.
Qed.

(** C33. The flags of a listener arrive as they were given: any interface name,
    address, key and outputs, any valid port, and any statistics interval up
    to 292 years. *)
Theorem listen_args (env : Env) (iface mac ky lg ev : string) (pt si : Z)
    (Hi : iface <> EmptyString) (Hp : 1 <= pt <= 65535) (Hs : 0 <= si <= 9223372036) :
  main env ["listen"; "--port"; fmt_d pt; "--interface"; iface; "--xbox-mac"; mac; "--key"; ky;
        "--log"; lg; "--stats-interval"; fmt_d si; "--events-output"; ev]%string
  = ABridge (mkParams Transport.ModeListen pt EmptyString iface mac ky lg (si * Transport.Second) ev).
Proof.
  unfold main. rewrite bool_decide_eq_true_2 by done. unfold runListen.
  change (_ :: _ :: _) with (settingArgs
    [("port", fmt_d pt); ("interface", iface); ("xbox-mac", mac); ("key", ky); ("log", lg);
     ("stats-interval", fmt_d si); ("events-output", ev)]%string).
  erewrite Parse_settings; [|by repeat constructor|run_settings].
  set (f := <[_ := _]> _).
  change (getString f "interface") with iface. change (getUint f "port") with pt.
  change (getUint f "stats-interval") with si. rewrite seconds_small by lia.
  rewrite bool_decide_eq_false_2 by done.
  destruct (Z.eqb_spec pt 0); [lia|]. destruct (Z.ltb_spec 65535 pt); [lia|].
  assert (u16 pt = pt) as -> by (apply Z.mod_small; lia). done.
Qed.

Definition ex_env : Env := mkEnv "dev" "amd64" Capture.ex_pcap.

Lemma listen_args_witness :
  main ex_env ["listen"; "--port"; fmt_d 3074; "--interface"; "eth0"; "--xbox-mac"; EmptyString; "--key"; "k";
        "--log"; "info"; "--stats-interval"; fmt_d 0; "--events-output"; "stdout"]%string
  = ABridge (mkParams Transport.ModeListen 3074 EmptyString "eth0" EmptyString "k" "info" 0 "stdout").
Proof. apply (listen_args ex_env "eth0" EmptyString "k" "info" "stdout" 3074 0); [done|lia|lia]. Defined.

Lemma launch_valid_witness :
  1 <= port (mkParams Transport.ModeListen 31415 EmptyString "eth0" EmptyString EmptyString "info" 30000000000 EmptyString)
    <= 65535.
Proof.
  refine (proj1 (proj2 (proj2 (proj2 (proj1 (launch_valid ["--interface"; "eth0"]%string _) _))))).
  vm_compute. reflexivity.
Defined.

(** [connect] does not check its local port: a number above 65535 is cut to
    its low 16 bits, and the bridge binds a port that was not asked for. *)
Theorem connect_port_truncated (env : Env) (addr iface : string) (n : Z)
    (Ha : Contains addr ":" = true) (Hi : iface <> EmptyString) (Hn : 0 <= n <= maxUint64) :
  main env ["connect"; "--address"; addr; "--interface"; iface; "--port"; fmt_d n]%string
  = ABridge (mkParams Transport.ModeConnect (n mod 65536) addr iface EmptyString EmptyString
      "info" (30 * Transport.Second) EmptyString).
Proof.
  unfold main. rewrite bool_decide_eq_false_2, bool_decide_eq_true_2 by done. unfold runConnect.
  change (_ :: _ :: _) with (settingArgs [("address", addr); ("interface", iface); ("port", fmt_d n)]%string).
  erewrite Parse_settings; [|by repeat constructor|run_settings].
  set (f := <[_ := _]> _). change (getString f "address") with addr.
  change (getString f "interface") with iface. change (getUint f "port") with n.
  rewrite bool_decide_eq_false_2 by (intros ->; done). rewrite bool_decide_eq_false_2, Ha by done. done.
Qed.

Lemma connect_port_truncated_witness :
  main ex_env ["connect"; "--address"; "10.0.0.1:31415"; "--interface"; "eth0"; "--port"; fmt_d 65537]%string
  = ABridge (mkParams Transport.ModeConnect 1 "10.0.0.1:31415" "eth0" EmptyString EmptyString
      "info" (30 * Transport.Second) EmptyString).
Proof. apply (connect_port_truncated ex_env "10.0.0.1:31415" "eth0" 65537); [done|done|unfold maxUint64; lia]. Defined.

(** A statistics interval of 9223372037 to 18446744073 seconds overflows the
    duration to a negative one, which disables the output that was asked for. *)
Theorem stats_interval_wraps (n : Z) (H : 9223372037 <= n <= 18446744073) : seconds n < 0.
Proof.
  unfold seconds, Transport.Second. rewrite (swrap_small 64 n) by lia. unfold swrap.
  change (2 ^ (64 - 1)) with 9223372036854775808. change (2 ^ 64) with 18446744073709551616.
  rewrite <-(Z.mod_unique (n * 1000000000 + 9223372036854775808) 18446744073709551616 1
    (n * 1000000000 + 9223372036854775808 - 18446744073709551616)) by lia.
  lia.
Qed.

Lemma stats_interval_wraps_witness : seconds 10000000000 < 0.
Proof. apply (stats_interval_wraps 10000000000). lia. Defined.

End Cli.
