(* ===== verification/Bridge.v ===== *)
(** * The bridge: internal/bridge/bridge.go, its data and its handlers

    The bridge's state, the statistics, and each handler as a function on that
    state; [BridgeRun] composes them into the goroutines of [Run].  The bridge
    and its transport share one codec object (cmd/xbslink-ng/main.go creates
    one and passes it to both), so the bridge's codec is the transport's.
    [emitted] is the sequence of calls of the emitter.  Log lines are not
    modelled.  Clock readings and results of writes are inputs. *)

From S2P Require Import Prelude GoLib GoFloat GoTime Sha256 Protocol Transport Capture Events.
Import GoLib GoFloat Protocol.

Module Bridge.

#[export] Existing Instance Transport.terr_eq_dec.
#[export] Existing Instance Transport.Mode_eq_dec.

(** ** Constants *)

Definition Millisecond : Z := 1000000.
Definition PingInterval : Z := 5 * Transport.Second.
Definition PongTimeout : Z := 2 * Transport.Second.
Definition MaxMissedPongs : Z := 3.
Definition RTTAlertThreshold : Z := 30 * Millisecond.
Definition RTTSpikeThreshold : float64 := f64_half.
Definition ChannelBufferSize : nat := 256.

Inductive State := StateDisconnected | StateConnecting | StateConnected.
#[export] Instance State_eq_dec : EqDecision State.
Proof. solve_decision. Defined.

Definition State_String (s : State) : string :=
  match s with
  | StateDisconnected => "DISCONNECTED"
  | StateConnecting => "CONNECTING"
  | StateConnected => "CONNECTED"
  end.

Inductive berr :=
| ErrPeerDisconnected
| ErrTransportRequired
| ErrCodecRequired
| ErrLoggerRequired
| ErrCaptureSet
| ErrConnection (e : Transport.terr).
#[export] Instance berr_eq_dec : EqDecision berr.
Proof. solve_decision. Defined.

(** ** Statistics *)

Record Stats := mkStats {
  TxPackets : Z;
  TxBytes : Z;
  RxPackets : Z;
  RxBytes : Z;
  RTTCurrent : Z;
  RTTAvg : Z;
  rttSamples : list Z;
  rttSum : Z;
  lastRTT : Z;
}.

Definition set_TxPackets (v : Z) (s : Stats) : Stats :=
  mkStats v (TxBytes s) (RxPackets s) (RxBytes s) (RTTCurrent s) (RTTAvg s) (rttSamples s)
    (rttSum s) (lastRTT s).
Definition set_TxBytes (v : Z) (s : Stats) : Stats :=
  mkStats (TxPackets s) v (RxPackets s) (RxBytes s) (RTTCurrent s) (RTTAvg s) (rttSamples s)
    (rttSum s) (lastRTT s).
Definition set_RxPackets (v : Z) (s : Stats) : Stats :=
  mkStats (TxPackets s) (TxBytes s) v (RxBytes s) (RTTCurrent s) (RTTAvg s) (rttSamples s)
    (rttSum s) (lastRTT s).
Definition set_RxBytes (v : Z) (s : Stats) : Stats :=
  mkStats (TxPackets s) (TxBytes s) (RxPackets s) v (RTTCurrent s) (RTTAvg s) (rttSamples s)
    (rttSum s) (lastRTT s).
Definition set_RTTCurrent (v : Z) (s : Stats) : Stats :=
  mkStats (TxPackets s) (TxBytes s) (RxPackets s) (RxBytes s) v (RTTAvg s) (rttSamples s)
    (rttSum s) (lastRTT s).
Definition set_RTTAvg (v : Z) (s : Stats) : Stats :=
  mkStats (TxPackets s) (TxBytes s) (RxPackets s) (RxBytes s) (RTTCurrent s) v (rttSamples
    s) (rttSum s) (lastRTT s).
Definition set_rttSamples (v : list Z) (s : Stats) : Stats :=
  mkStats (TxPackets s) (TxBytes s) (RxPackets s) (RxBytes s) (RTTCurrent s) (RTTAvg s) v
    (rttSum s) (lastRTT s).
Definition set_rttSum (v : Z) (s : Stats) : Stats :=
  mkStats (TxPackets s) (TxBytes s) (RxPackets s) (RxBytes s) (RTTCurrent s) (RTTAvg s)
    (rttSamples s) v (lastRTT s).
Definition set_lastRTT (v : Z) (s : Stats) : Stats :=
  mkStats (TxPackets s) (TxBytes s) (RxPackets s) (RxBytes s) (RTTCurrent s) (RTTAvg s)
    (rttSamples s) (rttSum s) v.

Definition zeroStats : Stats := mkStats 0 0 0 0 0 0 [] 0 0.

(** The number of samples the average is taken over. *)
Definition rttWindow : nat := 20.

Definition AddRTTSample (rtt : Z) (s : Stats) : Stats :=
  let s := set_RTTCurrent rtt s in
  let s := set_rttSamples (rttSamples s ++ [rtt]) s in
  let s := set_rttSum (i64 (rttSum s + rtt)) s in
  let s :=
    if (rttWindow <? length (rttSamples s))%nat then
      match rttSamples s with
      | x :: r => set_rttSamples r (set_rttSum (i64 (rttSum s - x)) s)
      | [] => s
      end
    else s in
  set_RTTAvg (Z.quot (rttSum s) (Z.of_nat (length (rttSamples s)))) s.

(** The spike, if there is one: the previous round trip and the current. *)
Definition CheckRTTSpike (s : Stats) : option (Z * Z) :=
  if (length (rttSamples s) <? 2)%nat || (lastRTT s =? 0) then None else
  let current := RTTCurrent s in
  let previous := lastRTT s in
  if (0 <? previous) &&
     f64_ltb (f64_mul (f64_of_Z previous) RTTSpikeThreshold) (f64_of_Z (i64 (current - previous)))
  then Some (previous, current) else None.

Definition SetLastRTT (rtt : Z) (s : Stats) : Stats := set_lastRTT rtt s.
Definition GetRTTCurrent (s : Stats) : Z := RTTCurrent s.

Definition toMs (d : Z) : float64 := f64_div (f64_of_Z d) (f64_of_Z Millisecond).

(** ** The bridge *)

(** A slice of the receive buffer: where it starts and how long it is. *)
Record bslice := mkSlice { off : nat; len : nat }.
#[export] Instance bslice_eq_dec : EqDecision bslice.
Proof. solve_decision. Defined.

Record Bridge := mkBridge {
  capture : option Capture.Capture;
  captureReady : bool;
  transport : Transport.Transport;
  stats : Stats;
  mode : Transport.Mode;
  statsInterval : Z;
  state : State;
  framesToSend : list (list byte);
  framesToInject : list bslice;
  done : bool;
  doneOnce : bool;
  pendingPing : Z;
  missedPongs : Z;
  emitted : list (Events.EventType * Events.Data);
}.

Definition set_capture (v : option Capture.Capture) (s : Bridge) : Bridge :=
  mkBridge v (captureReady s) (transport s) (stats s) (mode s) (statsInterval s) (state s)
    (framesToSend s) (framesToInject s) (done s) (doneOnce s) (pendingPing s) (missedPongs
    s) (emitted s).
Definition set_captureReady (v : bool) (s : Bridge) : Bridge :=
  mkBridge (capture s) v (transport s) (stats s) (mode s) (statsInterval s) (state s)
    (framesToSend s) (framesToInject s) (done s) (doneOnce s) (pendingPing s) (missedPongs
    s) (emitted s).
Definition set_transport (v : Transport.Transport) (s : Bridge) : Bridge :=
  mkBridge (capture s) (captureReady s) v (stats s) (mode s) (statsInterval s) (state s)
    (framesToSend s) (framesToInject s) (done s) (doneOnce s) (pendingPing s) (missedPongs
    s) (emitted s).
Definition set_stats (v : Stats) (s : Bridge) : Bridge :=
  mkBridge (capture s) (captureReady s) (transport s) v (mode s) (statsInterval s) (state s)
    (framesToSend s) (framesToInject s) (done s) (doneOnce s) (pendingPing s) (missedPongs
    s) (emitted s).
Definition set_mode (v : Transport.Mode) (s : Bridge) : Bridge :=
  mkBridge (capture s) (captureReady s) (transport s) (stats s) v (statsInterval s) (state
    s) (framesToSend s) (framesToInject s) (done s) (doneOnce s) (pendingPing s)
    (missedPongs s) (emitted s).
Definition set_statsInterval (v : Z) (s : Bridge) : Bridge :=
  mkBridge (capture s) (captureReady s) (transport s) (stats s) (mode s) v (state s)
    (framesToSend s) (framesToInject s) (done s) (doneOnce s) (pendingPing s) (missedPongs
    s) (emitted s).
Definition set_state (v : State) (s : Bridge) : Bridge :=
  mkBridge (capture s) (captureReady s) (transport s) (stats s) (mode s) (statsInterval s) v
    (framesToSend s) (framesToInject s) (done s) (doneOnce s) (pendingPing s) (missedPongs
    s) (emitted s).
Definition set_framesToSend (v : list (list byte)) (s : Bridge) : Bridge :=
  mkBridge (capture s) (captureReady s) (transport s) (stats s) (mode s) (statsInterval s)
    (state s) v (framesToInject s) (done s) (doneOnce s) (pendingPing s) (missedPongs s)
    (emitted s).
Definition set_framesToInject (v : list bslice) (s : Bridge) : Bridge :=
  mkBridge (capture s) (captureReady s) (transport s) (stats s) (mode s) (statsInterval s)
    (state s) (framesToSend s) v (done s) (doneOnce s) (pendingPing s) (missedPongs s)
    (emitted s).
Definition set_done (v : bool) (s : Bridge) : Bridge :=
  mkBridge (capture s) (captureReady s) (transport s) (stats s) (mode s) (statsInterval s)
    (state s) (framesToSend s) (framesToInject s) v (doneOnce s) (pendingPing s)
    (missedPongs s) (emitted s).
Definition set_doneOnce (v : bool) (s : Bridge) : Bridge :=
  mkBridge (capture s) (captureReady s) (transport s) (stats s) (mode s) (statsInterval s)
    (state s) (framesToSend s) (framesToInject s) (done s) v (pendingPing s) (missedPongs s)
    (emitted s).
Definition set_pendingPing (v : Z) (s : Bridge) : Bridge :=
  mkBridge (capture s) (captureReady s) (transport s) (stats s) (mode s) (statsInterval s)
    (state s) (framesToSend s) (framesToInject s) (done s) (doneOnce s) v (missedPongs s)
    (emitted s).
Definition set_missedPongs (v : Z) (s : Bridge) : Bridge :=
  mkBridge (capture s) (captureReady s) (transport s) (stats s) (mode s) (statsInterval s)
    (state s) (framesToSend s) (framesToInject s) (done s) (doneOnce s) (pendingPing s) v
    (emitted s).
Definition set_emitted (v : list (Events.EventType * Events.Data)) (s : Bridge) : Bridge :=
  mkBridge (capture s) (captureReady s) (transport s) (stats s) (mode s) (statsInterval s)
    (state s) (framesToSend s) (framesToInject s) (done s) (doneOnce s) (pendingPing s)
    (missedPongs s) v.

Record Config := mkConfig {
  cfgCapture : option Capture.Capture;
  cfgTransport : option Transport.Transport;
  cfgCodec : bool;
  cfgLogger : bool;
  cfgMode : Transport.Mode;
  cfgStatsInterval : Z;
}.

Definition New (cfg : Config) : outcome berr Bridge :=
  match cfgTransport cfg with
  | None => Err ErrTransportRequired
  | Some t =>
      if negb (cfgCodec cfg) then Err ErrCodecRequired else
      if negb (cfgLogger cfg) then Err ErrLoggerRequired else
      Ok (mkBridge (cfgCapture cfg) (bool_decide (cfgCapture cfg ≠ None)) t zeroStats
            (cfgMode cfg) (cfgStatsInterval cfg) StateDisconnected [] [] false false 0 0 [])
  end.

(** A second close of [captureReady] would panic. *)
Definition SetCapture (cap : option Capture.Capture) (b : Bridge) : Bridge * outcome berr unit :=
  match capture b with
  | Some _ => (b, Err ErrCaptureSet)
  | None =>
      let b := set_capture cap b in
      if captureReady b then (b, Panic) else (set_captureReady true b, Ok tt)
  end.

Definition HasCapture (b : Bridge) : bool := bool_decide (capture b ≠ None).

Definition emit (t : Events.EventType) (d : Events.Data) (b : Bridge) : Bridge :=
  set_emitted (emitted b ++ [(t, d)]) b.

Definition addrString (a : Transport.UDPAddr) : string :=
  udp_String (Transport.IP a) (Transport.Port a) (Transport.Zone a).

Definition setState (st : State) (b : Bridge) : Bridge :=
  let prev := state b in
  let b := set_state st b in
  if bool_decide (prev ≠ st) then
    let peer :=
      if bool_decide (st = StateConnected) then
        match Transport.PeerAddr (transport b) with
        | Some a => addrString a
        | None => EmptyString
        end
      else EmptyString in
    emit Events.EventStateChanged
      (Events.DStateChanged (Events.mkStateChangedData (State_String st) peer)) b
  else b.

Definition upd_stats (f : Stats -> Stats) (b : Bridge) : Bridge := set_stats (f (stats b)) b.
Definition upd_transport (f : Transport.Transport -> Transport.Transport) (b : Bridge) : Bridge :=
  set_transport (f (transport b)) b.

(** [close(b.done)] inside [doneOnce.Do]; [None] is the panic of closing a
    closed channel. *)
Definition closeDone (b : Bridge) : option Bridge :=
  if done b then None else Some (set_done true b).
Definition doneOnceClose (b : Bridge) : option Bridge :=
  if doneOnce b then Some b else closeDone (set_doneOnce true b).

(** ** Handlers *)

(** A non-blocking send on a channel of [ChannelBufferSize] elements. *)
Definition trySend {A} (x : A) (q : list A) : list A :=
  if (length q <? ChannelBufferSize)%nat then q ++ [x] else q.

(** The part of [captureLoop] after a frame was read. *)
Definition queueFrame (frame : list byte) (b : Bridge) : Bridge :=
  set_framesToSend (trySend frame (framesToSend b)) b.

(** The frame is a slice of the receive buffer, and is queued as such. *)
Definition handleFrame (frame : bslice) (b : Bridge) : Bridge :=
  let b := upd_stats (fun s => set_RxPackets (u64 (RxPackets s + 1)) s) b in
  let b := upd_stats (fun s => set_RxBytes (u64 (RxBytes s + Z.of_nat (len frame))) s) b in
  set_framesToInject (trySend frame (framesToInject b)) b.

Definition handlePong (timestamp now : Z) (b : Bridge) : Bridge :=
  if pendingPing b =? 0 then b else
  if negb (timestamp =? pendingPing b) then b else
  let rtt := i64 (now - timestamp) in
  let b := set_missedPongs 0 (set_pendingPing 0 b) in
  let previousRTT := GetRTTCurrent (stats b) in
  let b := upd_stats (SetLastRTT previousRTT) b in
  let b := upd_stats (AddRTTSample rtt) b in
  let isSpike := bool_decide (CheckRTTSpike (stats b) ≠ None) in
  let exceedsThreshold := RTTAlertThreshold <? rtt in
  emit Events.EventLatency
    (Events.DLatency (Events.mkLatencyData (toMs rtt) isSpike exceedsThreshold)) b.

Definition handleBye (b : Bridge) : option Bridge :=
  doneOnceClose (setState StateDisconnected b).

Definition missedMsg (missed : Z) : string :=
  String.concat EmptyString ["peer unresponsive (missed "; fmt_d missed; " pongs)"]%string.

(** The part of [sendPing] that holds [pingMu]: [inl missed] gives the peer up,
    [inr ts] is the time stamp to send. *)
Definition pingCheck (now : Z) (b : Bridge) : Bridge * (Z + Z) :=
  let start b := (set_pendingPing now b, inr now) in
  if negb (pendingPing b =? 0) then
    let missed := i32 (missedPongs b + 1) in
    let b := set_missedPongs missed b in
    if MaxMissedPongs <=? missed then (b, inl missed) else start b
  else start b.

Definition reportMissed (missed : Z) (b : Bridge) : Bridge :=
  emit Events.EventError (Events.DError (Events.mkErrorData (missedMsg missed))) b.

Definition encodeMsg (enc : Codec -> Codec * list byte) (b : Bridge) : Bridge * list byte :=
  let '(c, w) := enc (Transport.codec (transport b)) in
  (upd_transport (Transport.set_codec c) b, w).

Definition sendMsg (w : list byte) (io : option Transport.ioerr) (b : Bridge)
    : Bridge * outcome Transport.terr unit :=
  let '(t, r) := Transport.Send w io (transport b) in (set_transport t b, r).

(** The values [printStats] reads, in order, each by itself: four atomic loads
    and two reads under [rttMu]. *)
Definition loadStat (k : nat) (s : Stats) : Z :=
  match k with
  | 0%nat => TxPackets s
  | 1%nat => TxBytes s
  | 2%nat => RxPackets s
  | 3%nat => RxBytes s
  | 4%nat => GetRTTCurrent s
  | _ => RTTAvg s
  end.

(** The event [printStats] emits once it has read all six. *)
Definition emitStats (r : list Z) (b : Bridge) : Bridge :=
  match r with
  | [txPkts; txBytes; rxPkts; rxBytes; rtt; rttAvg] =>
      emit Events.EventStats
        (Events.DStats (Events.mkStatsData txPkts txBytes rxPkts rxBytes (toMs rtt) (toMs rttAvg))) b
  | _ => b
  end.

(** [printStats] when nothing interrupts it. *)
Definition printStats (b : Bridge) : Bridge := emitStats ((fun k => loadStat k (stats b)) <$> seq 0 6) b.

Section handlers.
Context `{M : Mac}.

Definition handlePing (timestamp : Z) (io : option Transport.ioerr) (b : Bridge) : Bridge :=
  let '(b, pong) := encodeMsg (EncodePong timestamp) b in
  fst (sendMsg pong io b).

Definition sendPing (now : Z) (io : option Transport.ioerr) (b : Bridge) : option Bridge :=
  let '(b, r) := pingCheck now b in
  match r with
  | inl missed => doneOnceClose (setState StateDisconnected (reportMissed missed b))
  | inr timestamp =>
      let '(b, ping) := encodeMsg (EncodePing timestamp) b in
      Some (fst (sendMsg ping io b))
  end.

(** [sendLoop]'s [EncodeFrame]. *)
Definition encodeFrame (frame : list byte) (b : Bridge) : Bridge * outcome perr (list byte) :=
  let '(c, r) := EncodeFrame frame (Transport.codec (transport b)) in
  (upd_transport (Transport.set_codec c) b, r).

(** The counters of a frame that was sent. *)
Definition countTx (frame : list byte) (b : Bridge) : Bridge :=
  let b := upd_stats (fun s => set_TxPackets (u64 (TxPackets s + 1)) s) b in
  upd_stats (fun s => set_TxBytes (u64 (TxBytes s + Z.of_nat (length frame))) s) b.

(** The first part of [Run]: connect or wait for the peer.  [Ok true] is a
    connection, [Ok false] a graceful return because the context is done;
    no result means that the transport is still waiting. *)
Definition connectPhase (wi : list Transport.wait_in) (ci : list Transport.connect_in)
    (ctxErr : bool) (b : Bridge) : Bridge * option (outcome berr bool) :=
  let b := setState StateConnecting b in
  let '(t, r) :=
    if bool_decide (mode b = Transport.ModeListen) then Transport.WaitForPeer wi (transport b)
    else let '((t, _, _), r) := Transport.Connect ci (transport b) in (t, r) in
  let b := set_transport t b in
  match r with
  | None => (b, None)
  | Some Panic => (b, Some Panic)
  | Some (Err e) => (b, Some (if ctxErr then Ok false else Err (ErrConnection e)))
  | Some (Ok _) => (setState StateConnected b, Some (Ok true))
  end.

End handlers.

Definition GetStats (b : Bridge) : Stats := stats b.

(** ** Display *)

Definition formatNumber (n : Z) : string :=
  if n <? 1000 then fmt_d n else
  if n <? 1000000 then String.concat EmptyString [fmt_d (n / 1000); ","; fmt_0d 3 (n mod 1000)]%string
  else String.concat EmptyString
    [fmt_d (n / 1000000); ","; fmt_0d 3 ((n / 1000) mod 1000); ","; fmt_0d 3 (n mod 1000)]%string.

Definition KB : Z := 1024.
Definition MB : Z := 1024 * KB.
Definition GB : Z := 1024 * MB.

Definition formatBytes (b : Z) : string :=
  if GB <=? b then String.append (fmt_f1 (f64_div (f64_of_Z b) (f64_of_Z GB))) " GB" else
  if MB <=? b then String.append (fmt_f1 (f64_div (f64_of_Z b) (f64_of_Z MB))) " MB" else
  if KB <=? b then String.append (fmt_d (b / KB)) " KB"
  else String.append (fmt_d b) " B".

(** The line [printStats] logs, from the first five values it read. *)
Definition statsLine (r : list Z) : string :=
  match r with
  | txPkts :: txBytes :: rxPkts :: rxBytes :: rtt :: _ =>
      String.concat EmptyString
        ["TX: "; formatNumber txPkts; " pkts ("; formatBytes txBytes;
         ") | RX: "; formatNumber rxPkts; " pkts ("; formatBytes rxBytes;
         ") | RTT: "; String.string_of_list_ascii (GoTime.durationText (GoTime.Round rtt Millisecond))]%string
  | _ => EmptyString
  end.

Definition addrEqual (a b : option Transport.UDPAddr) : bool :=
  match a, b with
  | Some a, Some b =>
      Transport.IP_Equal (Transport.IP a) (Transport.IP b) && (Transport.Port a =? Transport.Port b)
  | None, None => true
  | _, _ => false
  end.

End Bridge.
