(* ===== verification/BridgeProps.v ===== *)
(** * Properties of the bridge's handlers

    Statistics: the moving average and the spike test.  Keep-alive: the ping
    and pong handlers against a counter of unanswered pings.  State changes,
    connection, and the formatting of numbers. *)

From S2P Require Import Prelude GoLib GoFloat Json GoDecimal Sha256 Protocol Transport TransportProps.
From S2P Require Import Capture Events Bridge.
Import GoLib GoFloat Json GoDecimal Protocol Bridge.

Module BridgeProps.

(** ** Specifications *)

(** The last [n] elements. *)
Definition lastn {A} (n : nat) (l : list A) : list A := drop (length l - n) l.

Definition sumZ (l : list Z) : Z := foldr Z.add 0 l.

(** The statistics after the round trips of a history. *)
Definition sampled (l : list Z) : Stats := foldl (fun s rtt => AddRTTSample rtt s) zeroStats l.

(** The keep-alive protocol: the ping last sent, and how many pings were sent
    since the last answer; [None] once the peer is given up. *)
Definition kstate : Type := option (Z * nat).

Inductive kevent := KTick (now : Z) (io : option Transport.ioerr) | KPong (timestamp now : Z).

Definition kspec (k : kstate) (e : kevent) : kstate :=
  match k, e with
  | None, _ => None
  | Some (last, n), KTick now _ => if (n <? 3)%nat then Some (now, S n) else None
  | Some (last, n), KPong ts _ => if (0 <? n)%nat && (ts =? last) then Some (last, 0%nat) else k
  end.

(** The handlers a keep-alive event runs. *)
Definition kstep `{Mac} (e : kevent) (b : Bridge) : option Bridge :=
  match e with
  | KTick now io => sendPing now io b
  | KPong ts now => Some (handlePong ts now b)
  end.

Fixpoint krun `{Mac} (es : list kevent) (b : Bridge) : option Bridge :=
  match es with
  | [] => Some b
  | e :: es' => b1 ← kstep e b; krun es' b1
  end.

Definition ktimes_ok (e : kevent) : Prop := match e with KTick now _ => now ≠ 0 | _ => True end.

(** The bridge is in a state of the keep-alive protocol. *)
Definition kabs (k : kstate) (b : Bridge) : Prop :=
  match k with
  | Some (last, n) =>
      done b = false /\ doneOnce b = false /\ (n <= 3)%nat /\
      missedPongs b = Z.of_nat (n - 1) /\
      ((n = 0%nat /\ pendingPing b = 0) \/ ((0 < n)%nat /\ pendingPing b = last /\ last ≠ 0))
  | None =>
      done b = true /\ doneOnce b = true /\ state b = StateDisconnected /\
      (Events.EventError, Events.DError (Events.mkErrorData (missedMsg 3))) ∈ emitted b
  end.

(** The event of a state change. *)
Definition stateEvent (b : Bridge) (st : State) : Events.EventType * Events.Data :=
  (Events.EventStateChanged,
   Events.DStateChanged (Events.mkStateChangedData (State_String st)
     (if bool_decide (st = StateConnected)
      then match Transport.peerAddr (transport b) with Some a => addrString a | None => EmptyString end
      else EmptyString))).

(** The states of a sequence that differ from the one before. *)
Fixpoint changes (prev : State) (l : list State) : list State :=
  match l with
  | [] => []
  | st :: l' => if bool_decide (prev = st) then changes st l' else st :: changes st l'
  end.

Definition removeCommas (s : string) : list Ascii.ascii :=
  filter (fun c => c ≠ Ascii.ascii_of_nat 44) (String.list_ascii_of_string s).

(** ** Lemmas: statistics *)

Lemma swrap_add_l w a b : 0 < w -> swrap w (swrap w a + b) = swrap w (a + b).
Proof.
  intros. unfold swrap. f_equal.
  replace ((a + 2 ^ (w - 1)) mod 2 ^ w - 2 ^ (w - 1) + b + 2 ^ (w - 1))
    with ((a + 2 ^ (w - 1)) mod 2 ^ w + b) by lia.
  rewrite Zplus_mod_idemp_l. f_equal. lia.
Qed.

Lemma sumZ_app a b : sumZ (a ++ b) = sumZ a + sumZ b.
Proof. induction a as [|x a IH]; csimpl; [lia|]. unfold sumZ in *. simpl. lia. Qed.

Lemma tail_drop {A} (l : list A) : forall n, tail (drop n l) = drop (S n) l.
Proof. induction l as [|x l IH]; intros [|n]; [done..|apply IH]. Qed.

Lemma lastn_snoc {A} n (l : list A) x : (0 < n)%nat ->
  lastn n (l ++ [x]) =
    if (n <? S (length (lastn n l)))%nat then tail (lastn n l ++ [x]) else lastn n l ++ [x].
Proof.
  intros Hn. unfold lastn. rewrite length_app, length_drop. simpl length.
  destruct (decide (n <= length l)%nat) as [Hl|Hl].
  - rewrite (proj2 (Nat.ltb_lt _ _)) by lia.
    replace (length l + 1 - n)%nat with (S (length l - n)) by lia.
    rewrite <- (drop_app_le l [x]) by lia. by rewrite tail_drop.
  - rewrite (proj2 (Nat.ltb_ge _ _)) by lia.
    replace (length l + 1 - n)%nat with 0%nat by lia.
    replace (length l - n)%nat with 0%nat by lia. by rewrite !drop_0.
Qed.

Lemma length_lastn {A} n (l : list A) : length (lastn n l) = Nat.min n (length l).
Proof. unfold lastn. rewrite length_drop. lia. Qed.

Lemma sampled_snoc l x : sampled (l ++ [x]) = AddRTTSample x (sampled l).
Proof. unfold sampled. by rewrite foldl_app. Qed.

Lemma sampled_window l :
  rttSamples (sampled l) = lastn rttWindow l /\ rttSum (sampled l) = i64 (sumZ (lastn rttWindow l)).
Proof.
  induction l as [|x l [IH1 IH2]] using rev_ind; [done|].
  rewrite sampled_snoc, lastn_snoc by (unfold rttWindow; lia). unfold AddRTTSample.
  cbn [rttSamples rttSum set_RTTCurrent set_rttSamples set_rttSum set_RTTAvg].
  rewrite IH1, IH2, length_app. simpl length. rewrite Nat.add_1_r.
  destruct (rttWindow <? S (length (lastn rttWindow l)))%nat eqn:E.
  - destruct (lastn rttWindow l) as [|y r] eqn:El; [done|]. cbn [app tail].
    cbn [rttSamples rttSum set_RTTCurrent set_rttSamples set_rttSum set_RTTAvg].
    split; [done|]. rewrite <- Z.add_opp_r, swrap_add_l, <- Z.add_assoc, swrap_add_l by lia. f_equal.
    rewrite sumZ_app. unfold sumZ. simpl. lia.
  - cbn [rttSamples rttSum set_RTTCurrent set_rttSamples set_rttSum set_RTTAvg].
    split; [done|]. rewrite swrap_add_l, sumZ_app by lia. f_equal. unfold sumZ. simpl. lia.
Qed.

Lemma sampled_avg l : l ≠ [] ->
  RTTAvg (sampled l) = Z.quot (i64 (sumZ (lastn rttWindow l))) (Z.of_nat (length (lastn rttWindow l))).
Proof.
  intros Hl. destruct (sampled_window l) as [<- <-].
  destruct l as [|x l _] using rev_ind; [done|]. rewrite sampled_snoc. done.
Qed.

Lemma sumZ_bounds lo hi l : Forall (fun x => lo <= x <= hi) l ->
  lo * Z.of_nat (length l) <= sumZ l <= hi * Z.of_nat (length l).
Proof. induction 1 as [|x l Hx _ IH]; unfold sumZ in *; simpl; lia. Qed.

(** ** Lemmas: keep-alive *)

(** What sending leaves alone. *)
Lemma sendMsg_same w io b :
  let b' := fst (sendMsg w io b) in
  done b' = done b /\ doneOnce b' = doneOnce b /\ missedPongs b' = missedPongs b /\
  pendingPing b' = pendingPing b /\ state b' = state b /\ emitted b' = emitted b.
Proof. unfold sendMsg. by destruct (Transport.Send w io (transport b)). Qed.

Lemma encodeMsg_same enc b :
  let b' := fst (encodeMsg enc b) in
  done b' = done b /\ doneOnce b' = doneOnce b /\ missedPongs b' = missedPongs b /\
  pendingPing b' = pendingPing b /\ state b' = state b /\ emitted b' = emitted b.
Proof. unfold encodeMsg. by destruct (enc _). Qed.

Lemma kabs_same k b b' :
  done b' = done b /\ doneOnce b' = doneOnce b /\ missedPongs b' = missedPongs b /\
  pendingPing b' = pendingPing b /\ state b' = state b /\ emitted b' = emitted b ->
  kabs k b -> kabs k b'.
Proof. intros (E1 & E2 & E3 & E4 & E5 & E6). unfold kabs. by rewrite E1, E2, E3, E4, E5, E6. Qed.

Section keepalive.
Context `{M : Mac}.

(** [sendPing] without the ping itself. *)
Definition settled (now : Z) (b : Bridge) : option Bridge :=
  let '(b, r) := pingCheck now b in
  match r with
  | inl missed => doneOnceClose (setState StateDisconnected (reportMissed missed b))
  | inr _ => Some b
  end.

Lemma sendPing_kabs k now io b b1 :
  settled now b = Some b1 -> kabs k b1 -> exists b', sendPing now io b = Some b' /\ kabs k b'.
Proof.
  unfold settled, sendPing. destruct (pingCheck now b) as [b0 [missed|ts]]; intros E Hk; [eauto|]. simplify_eq.
  pose proof (encodeMsg_same (EncodePing ts) b1) as He.
  destruct (encodeMsg (EncodePing ts) b1) as [b2 w]. cbn [fst] in He.
  eexists; split; [done|]. eapply kabs_same; [apply sendMsg_same|]. by eapply kabs_same.
Qed.

Lemma settled_kabs k now b : now ≠ 0 -> kabs k b ->
  exists b1, settled now b = Some b1 /\ kabs (kspec k (KTick now None)) b1.
Proof.
  intros Hnow Hk. unfold settled, pingCheck. destruct k as [[last n]|]; cbn [kspec kabs] in *.
  - destruct Hk as (Hd & Ho & Hn & Hm & Hp).
    destruct (pendingPing b =? 0) eqn:E; cbn [negb]; reflect_all.
    + assert (n = 0%nat) as -> by (destruct Hp as [[? ?]|(? & ? & ?)]; [done|congruence]). eexists. split; [done|].
      cbn. repeat split; auto; lia.
    + rewrite Hm, swrap_small by lia. destruct (n <? 3)%nat eqn:E3; reflect_all.
      * rewrite (proj2 (Z.leb_gt _ _)) by (unfold MaxMissedPongs; lia).
        eexists. split; [done|]. cbn. repeat split; auto; lia.
      * assert (n = 3%nat) as -> by lia. change (MaxMissedPongs <=? Z.of_nat (3 - 1) + 1) with true.
        cbv iota. unfold doneOnceClose, setState, reportMissed. cbn.
        destruct (bool_decide _); cbn; rewrite Ho; cbn; unfold closeDone; cbn; rewrite Hd; cbn;
          (eexists; split; [done|]); cbn; repeat split; rewrite ?elem_of_app, ?list_elem_of_singleton; auto.
  - destruct Hk as (Hd & Ho & Hst & Hem).
    destruct (pendingPing b =? 0) eqn:E; cbn [negb]; [eexists; split; [done|]; done|].
    destruct (MaxMissedPongs <=? i32 (missedPongs b + 1)).
    + unfold doneOnceClose, setState, reportMissed, emit. cbn. rewrite Hst, bool_decide_eq_false_2 by (intros Hn; by apply Hn).
      cbn. rewrite Ho. cbn.
      eexists. split; [done|]. cbn. repeat split; auto. apply elem_of_app. auto.
    + eexists. split; [done|]. done.
Qed.

Lemma handlePong_kabs k ts now b : kabs k b -> kabs (kspec k (KPong ts now)) (handlePong ts now b).
Proof.
  intros Hk. unfold handlePong.
  destruct k as [[last n]|]; cbn [kspec kabs] in *.
  - destruct Hk as (Hd & Ho & Hn & Hm & [[-> Hp]|(Hn0 & Hp & Hl)]).
    + rewrite Hp. cbn. auto 10.
    + rewrite Hp, (proj2 (Z.eqb_neq last 0)), (proj2 (Nat.ltb_lt _ _)) by done. cbn [andb].
      destruct (ts =? last); cbn; repeat split; auto; lia.
  - destruct Hk as (Hd & Ho & Hst & Hem). repeat case_match; cbn; repeat split; auto.
    apply elem_of_app. auto.
Qed.

Lemma kstep_kabs k e b : ktimes_ok e -> kabs k b ->
  exists b', kstep e b = Some b' /\ kabs (kspec k e) b'.
Proof.
  intros Ht Hk. destruct e as [now io|ts now]; cbn [kstep].
  - destruct (settled_kabs k now b Ht Hk) as (b1 & E & H1).
    destruct (sendPing_kabs _ now io _ _ E H1) as (b' & E' & H').
    exists b'. split; [done|]. by destruct k as [[? ?]|].
  - eexists. split; [done|]. by apply handlePong_kabs.
Qed.

End keepalive.

(** What the first part of [sendPing] and the statistics event change. *)
Lemma pingCheck_same now b b' r : pingCheck now b = (b', r) ->
  b' = set_pendingPing (pendingPing b') (set_missedPongs (missedPongs b') b).
Proof. destruct b. unfold pingCheck. intros E. repeat case_match; by simplify_eq/=. Qed.

Lemma emitStats_same r b : emitStats r b = set_emitted (emitted (emitStats r b)) b.
Proof. destruct b. unfold emitStats. by do 7 (destruct r; try done). Qed.

Lemma doneOnceClose_same b b' : doneOnceClose b = Some b' -> b' = set_done (done b') (set_doneOnce (doneOnce b') b).
Proof. destruct b. unfold doneOnceClose, closeDone. intros E. repeat case_match; by simplify_eq/=. Qed.

Lemma setState_same st b : setState st b = set_emitted (emitted (setState st b)) (set_state st b).
Proof. destruct b. unfold setState. by case_bool_decide. Qed.

(** ** Lemmas: decimal digits *)

Lemma removeCommas_append s t : removeCommas (String.append s t) = removeCommas s ++ removeCommas t.
Proof. unfold removeCommas. fold (chars (String.append s t)). by rewrite chars_append, filter_app. Qed.

Lemma removeCommas_digits s : digits (chars s) -> removeCommas s = chars s.
Proof.
  unfold removeCommas, chars. induction (String.list_ascii_of_string s) as [|c l IH]; [done|].
  intros [Hc Hl]%Forall_cons. rewrite filter_cons_True; [by rewrite IH|]. by intros ->.
Qed.

Lemma fmt_d_commas n : 0 <= n -> removeCommas (fmt_d n) = chars (fmt_d n).
Proof. intros Hn. apply removeCommas_digits. by apply fmt_d_decimal. Qed.

Lemma fmt_0d_commas n : 0 <= n < 1000 -> removeCommas (fmt_0d 3 n) = chars (fmt_0d 3 n).
Proof. intros Hn. apply removeCommas_digits. by apply (fmt_0d_digits 3); [|lia]. Qed.

Lemma length_fmt_d n : 1000 <= n -> (4 <= String.length (fmt_d n))%nat.
Proof.
  intros Hn. rewrite <- chars_length. destruct (fmt_d_decimal n) as [[Hd _] Hr]; [lia|].
  pose proof (readDigits_bound _ Hd) as Hb. rewrite Hr in Hb.
  destruct (Nat.le_gt_cases 4 (length (chars (fmt_d n)))) as [|Hg]; [done|].
  assert (10 ^ Z.of_nat (length (chars (fmt_d n))) <= 10 ^ 3) by (apply Z.pow_le_mono_r; lia). lia.
Qed.

(** ** Lemmas: states and connection *)

Lemma setState_state st b : state (setState st b) = st.
Proof. unfold setState. by case_bool_decide. Qed.

Lemma setState_transport st b : transport (setState st b) = transport b.
Proof. unfold setState. by case_bool_decide. Qed.

Lemma setState_emitted st b :
  emitted (setState st b) =
    emitted b ++ (if bool_decide (state b = st) then [] else [stateEvent b st]).
Proof.
  unfold setState, stateEvent. destruct (decide (state b = st)) as [->|Hn].
  - rewrite (bool_decide_eq_true_2 (st = st)), bool_decide_eq_false_2, app_nil_r by auto. done.
  - rewrite (bool_decide_eq_false_2 (state b = st)), bool_decide_eq_true_2 by done. done.
Qed.

Section connection.
Context `{M : Mac}.

Lemma WaitForPeer_connected ins t t' :
  Transport.WaitForPeer ins t = (t', Some (Ok tt)) -> Transport.connected t' = true.
Proof.
  unfold Transport.WaitForPeer. case_match; [done|]. intros HL.
  apply (loop_return (fun _ => True)) in HL as (i & s & _ & _ & E); [|done..].
  by apply TransportProps.waitBody_ok in E as (? & ? & ? & ? & _ & _ & _ & _ & ->).
Qed.

Lemma Connect_connected ins t t' k ds :
  Transport.Connect ins t = ((t', k, ds), Some (Ok tt)) -> Transport.connected t' = true.
Proof.
  unfold Transport.Connect. case_match; [done|]. intros HL.
  apply (loop_return (fun _ => True)) in HL as (i & [[s n] ds0] & _ & _ & E); [|done..].
  unfold Transport.connectBody in E. case_match; [done|].
  destruct (Transport.attemptHandshake _ _) as [t1 [[[]|e|]|]] eqn:Ea; simplify_eq/=;
    [|by repeat case_match].
  unfold Transport.attemptHandshake in Ea. repeat case_match; simplify_eq.
  apply (loop_return (fun _ => True)) in Ea as (j & s1 & _ & _ & E); [|done..].
  by apply TransportProps.hsBody_ok in E as (? & ? & ? & ? & _ & _ & _ & _ & _ & _ & ->).
Qed.

End connection.

(** ** Claims *)


(** C31. The statistics keep a moving window: after any sequence of round
    trips the samples are the last twenty, the average is their sum divided by
    their number, and as long as round trips are between [lo] and [hi], with
    [hi] below 2^58 nanoseconds (nine years), so is the average. *)
Theorem rtt_window (l : list Z) (lo hi : Z) :
  l <> [] -> 0 <= lo -> hi < 2 ^ 58 -> Forall (fun x => lo <= x <= hi) l ->
  let s := sampled l in
  rttSamples s = lastn 20 l /\ Some (RTTCurrent s) = last l /\
  RTTAvg s = Z.quot (sumZ (lastn 20 l)) (Z.of_nat (length (lastn 20 l))) /\ lo <= RTTAvg s <= hi.
Proof.
  intros Hl Hlo Hhi HF s. destruct (sampled_window l) as [Hw Hs].
  assert (Forall (fun x => lo <= x <= hi) (lastn 20 l)) as HF' by (by apply Forall_drop).
  apply sumZ_bounds in HF' as Hb. pose proof (length_lastn 20 l) as Hlen.
  assert (0 < length l)%nat by (destruct l; [done|simpl; lia]).
  assert (RTTAvg s = Z.quot (sumZ (lastn 20 l)) (Z.of_nat (length (lastn 20 l)))) as Ha.
  { unfold s. rewrite sampled_avg by done. f_equal. apply swrap_small; unfold rttWindow; [lia|].
    change (2 ^ (64 - 1)) with (32 * 2 ^ 58). nia. }
  split; [done|]. split.
  { clear -Hl. destruct l as [|x l _] using rev_ind; [done|]. unfold s. rewrite sampled_snoc, last_snoc.
    unfold AddRTTSample. cbn. by repeat case_match. }
  split; [done|]. rewrite Ha, Z.quot_div_nonneg by nia.
  split; [apply Z.div_le_lower_bound; lia|apply Z.div_le_upper_bound; lia].
Qed.

(** C37. The spike test, done in floating point, is exact below 2^53
    nanoseconds (104 days): it fires, with two samples, exactly when the round
    trip grew by more than half of the previous one. *)
Theorem spike_exact (s : Stats) :
  0 <= lastRTT s < 2 ^ 53 -> 0 <= RTTCurrent s < 2 ^ 53 ->
  CheckRTTSpike s =
    if (2 <=? length (rttSamples s))%nat && (0 <? lastRTT s) && (3 * lastRTT s <? 2 * RTTCurrent s)
    then Some (lastRTT s, RTTCurrent s) else None.
Proof.
  intros Hp Hc. unfold CheckRTTSpike, RTTSpikeThreshold.
  rewrite Nat.leb_antisym. destruct (length (rttSamples s) <? 2)%nat; cbn [negb orb andb]; [done|].
  destruct (decide (lastRTT s = 0)) as [->|Hz]; [done|].
  rewrite (proj2 (Z.eqb_neq _ _)), (proj2 (Z.ltb_lt 0 _)) by lia. cbn [andb].
  rewrite swrap_small, half_lt_exact by lia.
  replace (lastRTT s <? 2 * (RTTCurrent s - lastRTT s)) with (3 * lastRTT s <? 2 * RTTCurrent s); [done|].
  destruct (Z.ltb_spec (3 * lastRTT s) (2 * RTTCurrent s)); symmetry; [apply Z.ltb_lt|apply Z.ltb_ge]; lia.
Qed.

(** C10. Keep-alive: over any interleaving of ping ticks and received pongs
    the bridge implements the protocol in which a pong counts only if it
    answers the latest ping, and the peer is given up exactly at the tick that
    finds three pings in a row unanswered.  Then, and only then, the bridge
    reports the error, goes to the disconnected state and closes [done];
    nothing panics. *)
Theorem keepalive_refines `{Mac} (es : list kevent) (k : kstate) (b : Bridge) :
  Forall ktimes_ok es -> kabs k b ->
  exists b', krun es b = Some b' /\ kabs (foldl kspec k es) b'.
Proof.
  intros Ht. revert k b. induction Ht as [|e es He Ht IH]; intros k b Hk; [by exists b|].
  destruct (kstep_kabs k e b He Hk) as (b1 & E & H1). cbn [krun foldl]. rewrite E. by apply IH.
Qed.

(** The state events tell the state: after any sequence of [setState]
    calls the bridge is in the last state, and the events emitted are one for
    each call that changed it, in order; repeated calls are silent. *)
Theorem setState_events (sts : list State) (b : Bridge) :
  let b' := foldl (fun b st => setState st b) b sts in
  state b' = default (state b) (last sts) /\
  emitted b' = emitted b ++ (stateEvent b <$> changes (state b) sts).
Proof.
  revert b. induction sts as [|st sts IH]; intros b; cbn [foldl]; [by rewrite app_nil_r|].
  destruct (IH (setState st b)) as [IH1 IH2]. cbv zeta. rewrite IH1, IH2. clear IH IH1 IH2.
  rewrite setState_state, setState_emitted. split.
  - rewrite last_cons. by destruct (last sts).
  - unfold stateEvent at 2. rewrite setState_transport. fold (stateEvent b).
    cbn [changes]. rewrite <- app_assoc. f_equal. by case_bool_decide.
Qed.

(** A bridge that got past its connection phase has a connected
    transport and is in the connected state, and it has announced first the
    attempt, then the connection with the peer's address. *)
Theorem connectPhase_connected `{Mac} (wi : list Transport.wait_in) (ci : list Transport.connect_in)
    (ctxErr : bool) (b b' : Bridge) :
  state b = StateDisconnected -> connectPhase wi ci ctxErr b = (b', Some (Ok true)) ->
  Transport.connected (transport b') = true /\ state b' = StateConnected /\
  emitted b' = emitted b ++ [stateEvent b' StateConnecting; stateEvent b' StateConnected].
Proof.
  intros Hst E. unfold connectPhase in E.
  destruct (if bool_decide _ then _ else _) as [t r] eqn:Et.
  assert (r = Some (Ok tt) -> Transport.connected t = true) as Hc.
  { intros ->. case_bool_decide; [by eapply WaitForPeer_connected|].
    destruct (Transport.Connect _ _) as [[[t1 k] ds] r1] eqn:Ec. simplify_eq. by eapply Connect_connected. }
  destruct r as [[[]|e|]|]; simplify_eq/=; try (by destruct ctxErr).
  rewrite setState_transport, setState_state, setState_emitted. split; [by apply Hc|]. split; [done|].
  cbn [emitted set_transport].
  change (state (set_transport t (setState StateConnecting b))) with (state (setState StateConnecting b)).
  rewrite setState_state, setState_emitted, Hst, !bool_decide_eq_false_2 by done.
  rewrite <- app_assoc. unfold stateEvent. by rewrite setState_transport.
Qed.

(** The digits of a formatted number are always those of the number. *)
Theorem formatNumber_digits (n : Z) :
  0 <= n -> removeCommas (formatNumber n) = chars (fmt_d n).
Proof.
  intros Hn. unfold formatNumber.
  destruct (n <? 1000) eqn:E1; [by apply fmt_d_commas|]. reflect_all.
  pose proof (Z.mod_pos_bound n 1000). pose proof (Z.div_mod n 1000).
  assert (forall a b, 0 < a -> 0 <= b < 1000 ->
    chars (fmt_d (a * 1000 + b)) = chars (fmt_d a) ++ removeCommas (fmt_0d 3 b)) as Ht.
  { intros a b Ha Hb. by rewrite fmt_d_thousands, chars_append, fmt_0d_commas by lia. }
  assert (0 < n / 1000) by (apply Z.div_str_pos; lia).
  pose proof (Ht (n / 1000) (n mod 1000)) as Hn1.
  replace (n / 1000 * 1000 + n mod 1000) with n in Hn1 by lia. rewrite Hn1 by lia. clear Hn1.
  destruct (n <? 1000000) eqn:E2; reflect_all.
  - cbn [String.concat]. by rewrite !removeCommas_append, fmt_d_commas by lia.
  - pose proof (Z.mod_pos_bound (n / 1000) 1000). pose proof (Z.div_mod (n / 1000) 1000) as Hd.
    assert (0 < n / 1000 / 1000) by (rewrite Z.div_div by lia; apply Z.div_str_pos; lia).
    pose proof (Ht (n / 1000 / 1000) ((n / 1000) mod 1000)) as Hn2.
    replace (n / 1000 / 1000 * 1000 + (n / 1000) mod 1000) with (n / 1000) in Hn2 by lia.
    rewrite Hn2 by lia. clear Hn2. rewrite Z.div_div in * by lia. change (1000 * 1000) with 1000000 in *.
    cbn [String.concat]. rewrite !removeCommas_append, fmt_d_commas by lia. by rewrite <- app_assoc.
Qed.

(** From a thousand million on the formatted number is not grouped in
    threes: its first group has four digits or more. *)
Theorem formatNumber_ungrouped (n : Z) :
  10 ^ 9 <= n ->
  exists g rest, formatNumber n = String.append g (String.append "," rest) /\ (4 <= String.length g)%nat /\
    removeCommas g = String.list_ascii_of_string g.
Proof.
  intros Hn. unfold formatNumber. rewrite !(proj2 (Z.ltb_ge _ _)) by lia.
  assert (1000 <= n / 1000000) by (apply Z.div_le_lower_bound; lia).
  eexists (fmt_d (n / 1000000)), _. split; [reflexivity|].
  split; [by apply length_fmt_d|apply fmt_d_commas; lia].
Qed.

(** ** Witnesses *)

Definition ex_transport : Transport.Transport :=
  Transport.mkTransport Transport.ConnOpen
    (Some (Transport.mkUDPAddr [xc0; xa8; x01; x64] 31415 EmptyString))
    Transport.ModeListen (NewCodec []) [] true false [].

Definition ex_bridge : Bridge :=
  mkBridge None false ex_transport zeroStats Transport.ModeListen 0 StateConnected
    [] [] false false 0 0 [].

Definition ex_ticks : list kevent := [KTick 1 None; KTick 2 None; KTick 3 None; KTick 4 None].

Lemma rtt_window_witness : RTTAvg (sampled [10; 20; 40]) = 23 /\ 10 <= RTTAvg (sampled [10; 20; 40]) <= 40.
Proof.
  split; [reflexivity|].
  apply (rtt_window [10; 20; 40] 10 40); [done|lia|lia|repeat constructor; lia].
Defined.

Lemma spike_exact_witness :
  CheckRTTSpike (mkStats 0 0 0 0 31000000 0 [20000000; 31000000] 51000000 20000000)
    = Some (20000000, 31000000).
Proof.
  rewrite (spike_exact (mkStats 0 0 0 0 31000000 0 [20000000; 31000000] 51000000 20000000));
    [reflexivity|simpl; lia|simpl; lia].
Defined.

Lemma keepalive_refines_witness :
  exists b', krun ex_ticks ex_bridge = Some b' /\ done b' = true /\
    foldl kspec (Some (0, 0%nat)) (take 3 ex_ticks) = Some (3, 3%nat).
Proof.
  destruct (keepalive_refines ex_ticks (Some (0, 0%nat)) ex_bridge) as (b' & E & Hk).
  - repeat constructor; done.
  - cbn. repeat split; auto; lia.
  - exists b'. split; [exact E|]. split; [exact (proj1 Hk)|reflexivity].
Defined.

Definition ex_wait : list Transport.wait_in :=
  [Transport.mkWait false
     (Transport.RData (MsgHello :: be_put 2 1 ++ replicate 16 x07)
        (Transport.mkUDPAddr [x0a; x00; x00; x02] 4000 EmptyString)) None].
Definition ex_connect : Bridge * option (outcome berr bool) :=
  connectPhase ex_wait [] false (set_state StateDisconnected ex_bridge).

Lemma connectPhase_connected_witness : state (fst ex_connect) = StateConnected.
Proof.
  destruct (connectPhase_connected ex_wait [] false (set_state StateDisconnected ex_bridge) (fst ex_connect))
    as (_ & H & _); [reflexivity| |exact H].
  transitivity (fst ex_connect, snd ex_connect); [apply surjective_pairing|].
  apply (f_equal (pair (fst ex_connect))). vm_compute. reflexivity.
Defined.

Lemma formatNumber_digits_witness : removeCommas (formatNumber 1234567) = String.list_ascii_of_string "1234567".
Proof. apply (formatNumber_digits 1234567). lia. Defined.

Lemma formatNumber_ungrouped_witness :
  formatNumber 1234567890 = "1234,567,890"%string /\
  exists g rest, formatNumber 1234567890 = String.append g (String.append "," rest) /\
    (4 <= String.length g)%nat.
Proof.
  split; [reflexivity|].
  destruct (formatNumber_ungrouped 1234567890) as (g & rest & E & Hg & _); [lia|]. exists g, rest. auto.
Defined.

End BridgeProps.
