(* ===== verification/BridgeRun.v ===== *)
(** * The bridge: the goroutines of [Run]

    [Run] starts seven goroutines and waits.  Each is a state machine whose
    program counter names the point its next step starts from; a step is one
    channel operation, one critical section, one atomic read, or one call of
    the codec, the transport or the capture, and the steps of the goroutines interleave in
    any order.  What the outside world decides is in the step's label: what a
    read yields, whether a write fails, the time, the Enter key, the
    cancellation of the context, a call of [SetCapture].

    The receive buffer is one object: the frames queued for injection are
    slices of it.  A step that would panic, or that calls a method on a nil
    pcap handle, sets [fault]; nothing runs after it. *)

From S2P Require Import Prelude Sha256 Protocol Transport Capture Bridge.
Import Protocol Bridge.

Module BridgeRun.

(** ** Program counters *)

Inductive capPc := CapWaitReady | CapTop | CapRead | CapPut (frame : list byte) | CapExit.
Inductive sendPc :=
  SendSelect | SendEncode (frame : list byte) | SendWrite (frame wire : list byte) | SendExit.
Inductive recvPc :=
  RecvStart | RecvTop | RecvRead | RecvDecode (n : nat) (addr : Transport.UDPAddr)
| RecvPong (timestamp : Z) | RecvSend (wire : list byte) | RecvExit.
Inductive injPc := InjWaitReady | InjSelect | InjWrite (frame : bslice) | InjExit.
(** [PingReport] to [PingClose]: the peer is given up. *)
Inductive pingPc :=
  PingSelect | PingEncode (timestamp : Z) | PingSend (wire : list byte) | PingReport (missed : Z) | PingState
| PingClose | PingExit.
(** [StatsNone]: the goroutine was not started, the interval is 0.  [StatsPrint]
    has what [printStats] has read so far. *)
Inductive statsPc := StatsNone | StatsSelect | StatsPrint (read : list Z) | StatsExit.
Inductive stdinPc := StdinSelect | StdinForward | StdinExit.
(** [peer]: whether the peer's disconnect ended the bridge. *)
Inductive runPc :=
  RunSelect | RunDecide | RunBye | RunCloseDone | RunCloseTransport (peer : bool)
| RunCloseCapture (peer : bool) | RunWait (peer : bool) | RunReturn (r : outcome berr unit).

Inductive faultKind := DoubleClose | DecodePanic | NilHandleCall.

(** ** The system *)

Record Sys := mkSys {
  br : Bridge;
  ctx : bool;
  recvBuf : list byte;
  recvPeer : option Transport.UDPAddr;
  capturePc : capPc;
  sendPc_ : sendPc;
  recvPc_ : recvPc;
  injectPc : injPc;
  pingPc_ : pingPc;
  statsPc_ : statsPc;
  stdinPc_ : stdinPc;
  runPc_ : runPc;
  injected : list (list byte);
  fault : option faultKind;
}.

Definition set_br (v : Bridge) (s : Sys) : Sys :=
  mkSys v (ctx s) (recvBuf s) (recvPeer s) (capturePc s) (sendPc_ s) (recvPc_ s) (injectPc
    s) (pingPc_ s) (statsPc_ s) (stdinPc_ s) (runPc_ s) (injected s) (fault s).
Definition set_ctx (v : bool) (s : Sys) : Sys :=
  mkSys (br s) v (recvBuf s) (recvPeer s) (capturePc s) (sendPc_ s) (recvPc_ s) (injectPc s)
    (pingPc_ s) (statsPc_ s) (stdinPc_ s) (runPc_ s) (injected s) (fault s).
Definition set_recvBuf (v : list byte) (s : Sys) : Sys :=
  mkSys (br s) (ctx s) v (recvPeer s) (capturePc s) (sendPc_ s) (recvPc_ s) (injectPc s)
    (pingPc_ s) (statsPc_ s) (stdinPc_ s) (runPc_ s) (injected s) (fault s).
Definition set_recvPeer (v : option Transport.UDPAddr) (s : Sys) : Sys :=
  mkSys (br s) (ctx s) (recvBuf s) v (capturePc s) (sendPc_ s) (recvPc_ s) (injectPc s)
    (pingPc_ s) (statsPc_ s) (stdinPc_ s) (runPc_ s) (injected s) (fault s).
Definition set_capturePc (v : capPc) (s : Sys) : Sys :=
  mkSys (br s) (ctx s) (recvBuf s) (recvPeer s) v (sendPc_ s) (recvPc_ s) (injectPc s)
    (pingPc_ s) (statsPc_ s) (stdinPc_ s) (runPc_ s) (injected s) (fault s).
Definition set_sendPc_ (v : sendPc) (s : Sys) : Sys :=
  mkSys (br s) (ctx s) (recvBuf s) (recvPeer s) (capturePc s) v (recvPc_ s) (injectPc s)
    (pingPc_ s) (statsPc_ s) (stdinPc_ s) (runPc_ s) (injected s) (fault s).
Definition set_recvPc_ (v : recvPc) (s : Sys) : Sys :=
  mkSys (br s) (ctx s) (recvBuf s) (recvPeer s) (capturePc s) (sendPc_ s) v (injectPc s)
    (pingPc_ s) (statsPc_ s) (stdinPc_ s) (runPc_ s) (injected s) (fault s).
Definition set_injectPc (v : injPc) (s : Sys) : Sys :=
  mkSys (br s) (ctx s) (recvBuf s) (recvPeer s) (capturePc s) (sendPc_ s) (recvPc_ s) v
    (pingPc_ s) (statsPc_ s) (stdinPc_ s) (runPc_ s) (injected s) (fault s).
Definition set_pingPc_ (v : pingPc) (s : Sys) : Sys :=
  mkSys (br s) (ctx s) (recvBuf s) (recvPeer s) (capturePc s) (sendPc_ s) (recvPc_ s)
    (injectPc s) v (statsPc_ s) (stdinPc_ s) (runPc_ s) (injected s) (fault s).
Definition set_statsPc_ (v : statsPc) (s : Sys) : Sys :=
  mkSys (br s) (ctx s) (recvBuf s) (recvPeer s) (capturePc s) (sendPc_ s) (recvPc_ s)
    (injectPc s) (pingPc_ s) v (stdinPc_ s) (runPc_ s) (injected s) (fault s).
Definition set_stdinPc_ (v : stdinPc) (s : Sys) : Sys :=
  mkSys (br s) (ctx s) (recvBuf s) (recvPeer s) (capturePc s) (sendPc_ s) (recvPc_ s)
    (injectPc s) (pingPc_ s) (statsPc_ s) v (runPc_ s) (injected s) (fault s).
Definition set_runPc_ (v : runPc) (s : Sys) : Sys :=
  mkSys (br s) (ctx s) (recvBuf s) (recvPeer s) (capturePc s) (sendPc_ s) (recvPc_ s)
    (injectPc s) (pingPc_ s) (statsPc_ s) (stdinPc_ s) v (injected s) (fault s).
Definition set_injected (v : list (list byte)) (s : Sys) : Sys :=
  mkSys (br s) (ctx s) (recvBuf s) (recvPeer s) (capturePc s) (sendPc_ s) (recvPc_ s)
    (injectPc s) (pingPc_ s) (statsPc_ s) (stdinPc_ s) (runPc_ s) v (fault s).
Definition set_fault (v : option faultKind) (s : Sys) : Sys :=
  mkSys (br s) (ctx s) (recvBuf s) (recvPeer s) (capturePc s) (sendPc_ s) (recvPc_ s)
    (injectPc s) (pingPc_ s) (statsPc_ s) (stdinPc_ s) (runPc_ s) (injected s) v.

(** [make([]byte, 65536)] in [recvLoop]. *)
Definition recvBufSize : nat := Z.to_nat 65536.

(** The goroutines as [Run] starts them, the connection being established. *)
Definition startWith (buf : list byte) (b : Bridge) : Sys :=
  mkSys b false buf None CapWaitReady SendSelect RecvStart InjWaitReady
    PingSelect (if 0 <? statsInterval b then StatsSelect else StatsNone) StdinSelect RunSelect
    [] None.

Definition start (b : Bridge) : Sys := startWith (make_bytes recvBufSize) b.

Definition upd_br (f : Bridge -> Bridge) (s : Sys) : Sys := set_br (f (br s)) s.

(** The bytes a slice of the receive buffer has now. *)
Definition bytesOf (s : Sys) (sl : bslice) : list byte := slice (off sl) (off sl + len sl) (recvBuf s).

(** ** captureLoop *)

Inductive capLabel := CCtx | CReady | CTop | CRead (r : Capture.pcap_read) | CPut.

Definition captureLoop (l : capLabel) (s : Sys) : option Sys :=
  match l, capturePc s with
  | CCtx, CapWaitReady => if ctx s then Some (set_capturePc CapExit s) else None
  | CReady, CapWaitReady => if captureReady (br s) then Some (set_capturePc CapTop s) else None
  | CTop, CapTop => Some (set_capturePc (if ctx s then CapExit else CapRead) s)
  | CRead r, CapRead =>
      match capture (br s) with
      | None => Some (set_capturePc CapExit s)
      | Some cap =>
          match Capture.ReadPacket r cap with
          | Capture.NilHandle => Some (set_fault (Some NilHandleCall) s)
          | Capture.HErr _ => Some (set_capturePc CapTop s)
          | Capture.HRet None => Some (set_capturePc CapTop s)
          | Capture.HRet (Some frame) => Some (set_capturePc (CapPut frame) s)
          end
      end
  | CPut, CapPut frame => Some (set_capturePc CapTop (upd_br (queueFrame frame) s))
  | _, _ => None
  end.

(** ** injectLoop *)

Inductive injLabel := ICtx | IReady | ITake | IWrite (w : option Capture.pcaperr).

Definition injectLoop (l : injLabel) (s : Sys) : option Sys :=
  match l, injectPc s with
  | ICtx, InjWaitReady => if ctx s then Some (set_injectPc InjExit s) else None
  | IReady, InjWaitReady => if captureReady (br s) then Some (set_injectPc InjSelect s) else None
  | ICtx, InjSelect => if ctx s then Some (set_injectPc InjExit s) else None
  | ITake, InjSelect =>
      match framesToInject (br s) with
      | [] => None
      | frame :: q => Some (set_injectPc (InjWrite frame) (upd_br (set_framesToInject q) s))
      end
  | IWrite w, InjWrite frame =>
      match capture (br s) with
      | None => Some (set_injectPc InjSelect s)
      | Some cap =>
          match Capture.WritePacket (bytesOf s frame) w cap with
          | Capture.NilHandle => Some (set_fault (Some NilHandleCall) s)
          | Capture.HErr _ => Some (set_injectPc InjSelect s)
          | Capture.HRet out => Some (set_injectPc InjSelect (set_injected (injected s ++ [out]) s))
          end
      end
  | _, _ => None
  end.

(** ** statsLoop and stdinLoop *)

Inductive statsLabel := TCtx | TTick | TLoad | TPrint.

Definition statsLoop (l : statsLabel) (s : Sys) : option Sys :=
  match l, statsPc_ s with
  | TCtx, StatsSelect => if ctx s then Some (set_statsPc_ StatsExit s) else None
  | TTick, StatsSelect => Some (set_statsPc_ (StatsPrint []) s)
  | TLoad, StatsPrint read =>
      if (length read <? 6)%nat
      then Some (set_statsPc_ (StatsPrint (read ++ [loadStat (length read) (stats (br s))])) s) else None
  | TPrint, StatsPrint read =>
      if (length read <? 6)%nat then None else Some (set_statsPc_ StatsSelect (upd_br (emitStats read) s))
  | _, _ => None
  end.

(** Enter reaches the loop only if it is at its select, and is forwarded only
    to a statistics goroutine that is at its own; both sends are non-blocking. *)
Inductive stdinLabel := DEnter | DCtx | DForward.

Definition stdinLoop (l : stdinLabel) (s : Sys) : option Sys :=
  match l, stdinPc_ s with
  | DEnter, StdinSelect => Some (set_stdinPc_ StdinForward s)
  | DEnter, _ => Some s
  | DCtx, StdinSelect => if ctx s then Some (set_stdinPc_ StdinExit s) else None
  | DForward, StdinForward =>
      let s := set_stdinPc_ StdinSelect s in
      Some (match statsPc_ s with StatsSelect => set_statsPc_ (StatsPrint []) s | _ => s end)
  | _, _ => None
  end.

Section goroutines.
Context `{M : Mac}.

(** ** sendLoop *)

Inductive sendLabel := SCtx | STake | SEncode | SWrite (io : option Transport.ioerr).

Definition sendLoop (l : sendLabel) (s : Sys) : option Sys :=
  match l, sendPc_ s with
  | SCtx, SendSelect => if ctx s then Some (set_sendPc_ SendExit s) else None
  | STake, SendSelect =>
      match framesToSend (br s) with
      | [] => None
      | frame :: q => Some (set_sendPc_ (SendEncode frame) (upd_br (set_framesToSend q) s))
      end
  | SEncode, SendEncode frame =>
      let '(b, r) := encodeFrame frame (br s) in
      let s := set_br b s in
      Some (match r with
            | Ok encoded => set_sendPc_ (SendWrite frame encoded) s
            | _ => set_sendPc_ SendSelect s
            end)
  | SWrite io, SendWrite frame encoded =>
      let '(b, r) := sendMsg encoded io (br s) in
      let s := set_br b s in
      Some (set_sendPc_ SendSelect
              (match r with Ok _ => upd_br (countTx frame) s | _ => s end))
  | _, _ => None
  end.

(** ** recvLoop *)

Inductive recvLabel :=
  RStart | RTop | RRead (r : Transport.read_result) | RDecode (now : Z)
| REncode | RSend (io : option Transport.ioerr).

(** Where the payload of a message starts in its datagram. *)
Definition payloadOff (c : Codec) : nat := if IsSecure c then 1 + NonceSize else 1.

(** The dispatch on a decoded message. *)
Definition dispatch (msg : Message) (now : Z) (s : Sys) : Sys :=
  let top := set_recvPc_ RecvTop s in
  if bool_decide (Type_ msg = MsgFrame) then
    upd_br (handleFrame (mkSlice (payloadOff (Transport.codec (transport (br s))))
                           (length (Frame msg)))) top
  else if bool_decide (Type_ msg = MsgPing) then set_recvPc_ (RecvPong (Timestamp msg)) s
  else if bool_decide (Type_ msg = MsgPong) then upd_br (handlePong (Timestamp msg) now) top
  else if bool_decide (Type_ msg = MsgBye) then
    match handleBye (br s) with
    | None => set_fault (Some DoubleClose) s
    | Some b => set_br b top
    end
  else top.

(** One [Recv] into the buffer: the datagram is copied, the rest of the buffer
    keeps its bytes. *)
Definition recvInto (r : Transport.read_result) (s : Sys) : Sys :=
  let fail := set_recvPc_ (if ctx s then RecvExit else RecvTop) s in
  match Transport.Recv recvBufSize r (transport (br s)) with
  | Ok (Transport.RData data addr) =>
      set_recvPc_ (RecvDecode (length data) addr)
        (set_recvBuf (go_copy (recvBuf s) 0 (length data) data) s)
  | Ok Transport.RTimeout => set_recvPc_ RecvTop s
  | _ => fail
  end.

Definition recvLoop (l : recvLabel) (s : Sys) : option Sys :=
  match l, recvPc_ s with
  | RStart, RecvStart =>
      Some (set_recvPc_ RecvTop (set_recvPeer (Transport.PeerAddr (transport (br s))) s))
  | RTop, RecvTop => Some (set_recvPc_ (if ctx s then RecvExit else RecvRead) s)
  | RRead r, RecvRead => Some (recvInto r s)
  | RDecode now, RecvDecode n addr =>
      if bool_decide (recvPeer s ≠ None) && negb (addrEqual (Some addr) (recvPeer s))
      then Some (set_recvPc_ RecvTop s) else
      let '(c, r) := Decode (slice 0 n (recvBuf s)) (Transport.codec (transport (br s))) in
      let s := upd_br (upd_transport (Transport.set_codec c)) s in
      Some (match r with
            | Panic => set_fault (Some DecodePanic) s
            | Err _ => set_recvPc_ RecvTop s
            | Ok msg => dispatch msg now s
            end)
  | REncode, RecvPong timestamp =>
      let '(b, pong) := encodeMsg (EncodePong timestamp) (br s) in
      Some (set_recvPc_ (RecvSend pong) (set_br b s))
  | RSend io, RecvSend pong =>
      let '(b, _) := sendMsg pong io (br s) in Some (set_recvPc_ RecvTop (set_br b s))
  | _, _ => None
  end.

(** ** pingLoop *)

Inductive pingLabel :=
  PCtx | PTick (now : Z) | PEncode | PSend (io : option Transport.ioerr) | PReport | PState | PClose.

Definition pingLoop (l : pingLabel) (s : Sys) : option Sys :=
  match l, pingPc_ s with
  | PCtx, PingSelect => if ctx s then Some (set_pingPc_ PingExit s) else None
  | PTick now, PingSelect =>
      let '(b, r) := pingCheck now (br s) in
      Some (set_pingPc_ (match r with inl missed => PingReport missed | inr ts => PingEncode ts end) (set_br b s))
  | PEncode, PingEncode timestamp =>
      let '(b, ping) := encodeMsg (EncodePing timestamp) (br s) in
      Some (set_pingPc_ (PingSend ping) (set_br b s))
  | PSend io, PingSend ping =>
      let '(b, _) := sendMsg ping io (br s) in Some (set_pingPc_ PingSelect (set_br b s))
  | PReport, PingReport missed => Some (set_pingPc_ PingState (upd_br (reportMissed missed) s))
  | PState, PingState => Some (set_pingPc_ PingClose (upd_br (setState StateDisconnected) s))
  | PClose, PingClose =>
      Some (match doneOnceClose (br s) with
            | None => set_fault (Some DoubleClose) s
            | Some b => set_pingPc_ PingSelect (set_br b s)
            end)
  | _, _ => None
  end.

(** ** Run after the goroutines are started *)

(** [wg.Wait()] passes. *)
Definition allExited (s : Sys) : bool :=
  match capturePc s, sendPc_ s, recvPc_ s, injectPc s, pingPc_ s, stdinPc_ s with
  | CapExit, SendExit, RecvExit, InjExit, PingExit, StdinExit =>
      match statsPc_ s with StatsNone | StatsExit => true | _ => false end
  | _, _, _, _, _, _ => false
  end.

Inductive runLabel :=
  UWake | UDecide | UBye (io : option Transport.ioerr) | UCloseDone | UCloseTransport
| UCloseCapture | UWait.

Definition run (l : runLabel) (s : Sys) : option Sys :=
  match l, runPc_ s with
  | UWake, RunSelect => if ctx s || done (br s) then Some (set_runPc_ RunDecide s) else None
  | UDecide, RunDecide =>
      Some (set_runPc_ (if done (br s) then RunCloseTransport true else RunBye) s)
  | UBye io, RunBye =>
      Some (set_runPc_ RunCloseDone (upd_br (upd_transport (fun t => fst (Transport.SendBye io t))) s))
  | UCloseDone, RunCloseDone =>
      Some (match closeDone (br s) with
            | None => set_fault (Some DoubleClose) s
            | Some b => set_runPc_ (RunCloseTransport false) (set_br b s)
            end)
  | UCloseTransport, RunCloseTransport peer =>
      Some (set_runPc_ (RunCloseCapture peer) (upd_br (upd_transport (fun t => fst (Transport.Close None t))) s))
  | UCloseCapture, RunCloseCapture peer =>
      Some (set_runPc_ (RunWait peer)
              (upd_br (fun b => set_capture (Capture.Close <$> capture b) b) s))
  | UWait, RunWait peer =>
      if allExited s
      then Some (set_runPc_ (RunReturn (if peer then Err ErrPeerDisconnected else Ok tt))
                   (upd_br (setState StateDisconnected) s))
      else None
  | _, _ => None
  end.

(** ** The system's steps *)

Inductive label :=
| LCancel
| LSetCapture (cap : Capture.Capture)
| LCapture (l : capLabel)
| LSend (l : sendLabel)
| LRecv (l : recvLabel)
| LInject (l : injLabel)
| LPing (l : pingLabel)
| LStats (l : statsLabel)
| LStdin (l : stdinLabel)
| LRun (l : runLabel).

Definition goStep (l : label) (s : Sys) : option Sys :=
  match l with
  | LCancel => Some (set_ctx true s)
  | LSetCapture cap =>
      match SetCapture (Some cap) (br s) with
      | (b, Panic) => Some (set_fault (Some DoubleClose) (set_br b s))
      | (b, _) => Some (set_br b s)
      end
  | LCapture l => captureLoop l s
  | LSend l => sendLoop l s
  | LRecv l => recvLoop l s
  | LInject l => injectLoop l s
  | LPing l => pingLoop l s
  | LStats l => statsLoop l s
  | LStdin l => stdinLoop l s
  | LRun l => run l s
  end.

Definition step (l : label) (s : Sys) : option Sys :=
  match fault s with
  | Some _ => None
  | None => goStep l s
  end.

Fixpoint steps (ls : list label) (s : Sys) : option Sys :=
  match ls with
  | [] => Some s
  | l :: ls' => s' ← step l s; steps ls' s'
  end.

Definition stepR (s s' : Sys) : Prop := exists l, step l s = Some s'.
Definition reachable (b : Bridge) (s : Sys) : Prop := rtc stepR (start b) s.

(** ** Run *)

Inductive run_out := Returned (r : outcome berr unit) | Crashed | Blocked.

(** The whole of [Run]: the connection phase and, when it succeeds, the
    goroutines under a schedule.  The result has the bridge, whether the
    context is done, and whether [Run] returned, crashed or is still blocked
    when the inputs end. *)
Definition Run (wi : list Transport.wait_in) (ci : list Transport.connect_in) (ctxErr : bool)
    (ls : list label) (b : Bridge) : Bridge * bool * run_out :=
  match connectPhase wi ci ctxErr b with
  | (b, None) => (b, false, Blocked)
  | (b, Some Panic) => (b, ctxErr, Crashed)
  | (b, Some (Err e)) => (b, ctxErr, Returned (Err e))
  | (b, Some (Ok false)) => (b, ctxErr, Returned (Ok tt))
  | (b, Some (Ok true)) =>
      match steps ls (start b) with
      | None => (b, false, Blocked)
      | Some s =>
          (br s, ctx s,
           match fault s with
           | Some _ => Crashed
           | None => match runPc_ s with RunReturn r => Returned r | _ => Blocked end
           end)
      end
  end.

End goroutines.

End BridgeRun.
