(* ===== verification/BridgeRunProps.v ===== *)
(** * Properties of the running bridge

    Invariants of every reachable state, by induction on the steps; what is
    forwarded and in which order; when [Run] returns; and the interleavings in
    which the bridge goes wrong. *)

From S2P Require Import Prelude Sha256 Protocol ProtocolProps Transport TransportProps.
From S2P Require Import Capture Bridge BridgeProps BridgeRun.
Import Protocol ProtocolProps Bridge BridgeRun.

Module BridgeRunProps.

(** ** Specifications *)

(** A slice a FRAME datagram leaves in the receive buffer. *)
Definition slice_ok (sl : bslice) : Prop :=
  (off sl + len sl <= recvBufSize)%nat /\ (MinEthernetFrame <= len sl <= MaxFrameSize)%nat.

(** The slice the injecting goroutine holds. *)
Definition injHeld (p : injPc) : list bslice := match p with InjWrite sl => [sl] | _ => [] end.

(** What holds in every reachable state. *)
Record sys_inv (s : Sys) : Prop := {
  inv_send : (length (framesToSend (br s)) <= ChannelBufferSize)%nat;
  inv_inject : (length (framesToInject (br s)) <= ChannelBufferSize)%nat;
  inv_slices : Forall slice_ok (framesToInject (br s) ++ injHeld (injectPc s));
  inv_buf : length (recvBuf s) = recvBufSize;
  inv_decode : forall n a, recvPc_ s = RecvDecode n a -> (n <= recvBufSize)%nat;
  inv_exit : sendPc_ s = SendExit -> ctx s = true;
  inv_return : forall r, runPc_ s = RunReturn r ->
    sendPc_ s = SendExit /\ done (br s) = true;
  inv_once : doneOnce (br s) = true -> done (br s) = true;
  inv_wait : forall p, runPc_ s = RunWait p -> done (br s) = true;
  inv_closecap : forall p, runPc_ s = RunCloseCapture p -> done (br s) = true;
  inv_closetr : forall p, runPc_ s = RunCloseTransport p -> done (br s) = true;
  inv_fault : fault s <> Some DecodePanic;
}.

(** ** Lemmas: what the handlers leave alone *)

(** The codec the bridge and its transport share. *)
Abbreviation codecOf s := (Transport.codec (transport (br s))).

(** The datagrams the transport has sent. *)
Abbreviation sentBy b := (Transport.sent (transport b)).

#[local] Opaque recvBufSize.

(** Unfold one goroutine's step on a label, keeping the cases that exist. *)
Ltac step_cases E :=
  repeat match type of E with
  | context [match ?x with _ => _ end] => destruct x eqn:?; try discriminate E
  end; try (injection E as <-).

Create HintDb sysinv.

Section lemmas.
Context `{M : Mac}.

Lemma trySend_length {A} (x : A) q :
  (length q <= ChannelBufferSize)%nat -> (length (trySend x q) <= ChannelBufferSize)%nat.
Proof.
  intros. unfold trySend. destruct (Nat.ltb_spec (length q) ChannelBufferSize); [|done].
  rewrite length_app. simpl. lia.
Qed.

Lemma trySend_Forall {A} (P : A -> Prop) x q : P x -> Forall P q -> Forall P (trySend x q).
Proof. intros. unfold trySend. case_match; [|done]. apply Forall_app. auto. Qed.

Lemma parse_frame t p msg : parsePayload t p = Ok msg -> Type_ msg = MsgFrame ->
  Frame msg = p /\ (MinEthernetFrame <= length p <= MaxFrameSize)%nat.
Proof.
  intros E Ht. pose proof (parsePayload_type _ _ _ E) as Hty.
  unfold parsePayload in E. rewrite bool_decide_eq_true_2 in E by congruence.
  destruct (Nat.ltb_spec (length p) MinEthernetFrame); [done|].
  destruct (Nat.ltb_spec MaxFrameSize (length p)); [done|].
  injection E as E. split; [by rewrite <- E|lia].
Qed.

(** Where the payload is in the datagram. *)
Lemma decode_payload data c c' t p : decode data c = (c', Ok (t, p)) ->
  p = slice (payloadOff c) (payloadOff c + length p) data /\
  (payloadOff c + length p <= length data)%nat.
Proof.
  intros E. unfold payloadOff, IsSecure. destruct (secureMode c) eqn:Hs.
  - destruct (decode_secure_cases data c Hs) as [[E' _]|(t' & n & p' & sig & -> & Hl & Hn & E')];
      rewrite E' in E; [done|].
    assert (p' = p) as -> by (repeat case_match; simplify_eq; done).
    rewrite signed_app. change (t' :: ?l) with ([t'] ++ l). rewrite app_assoc.
    split; [symmetry; apply slice_app_mid|]; unfold NonceSize; len.
  - destruct data as [|t' p']; [by rewrite decode_empty in E|].
    rewrite decode_insecure in E by done. simplify_eq.
    split; [|simpl; lia]. symmetry. by apply (slice_suffix [t] p).
Qed.

(** A FRAME message's frame, where it is in the datagram. *)
Lemma Decode_frame data c c' msg :
  Decode data c = (c', Ok msg) -> Type_ msg = MsgFrame ->
  Frame msg = slice (payloadOff c) (payloadOff c + length (Frame msg)) data /\
  (payloadOff c + length (Frame msg) <= length data)%nat /\
  (MinEthernetFrame <= length (Frame msg) <= MaxFrameSize)%nat.
Proof.
  unfold Decode. unfold_prog. intros E Ht.
  destruct (decode data c) as [c1 [[t p]|e|]] eqn:Ed; [|done..].
  injection E as -> E. apply decode_payload in Ed as [Hp Hl].
  destruct (parse_frame _ _ _ E Ht) as [-> Hb]. auto.
Qed.

(** The fields of the bridge the invariant is about. *)
Definition core (b : Bridge) : list (list byte) * list bslice * bool * bool :=
  (framesToSend b, framesToInject b, done b, doneOnce b).

Lemma core_setState st b : core (setState st b) = core b.
Proof. unfold setState. by case_bool_decide. Qed.
Lemma core_sendMsg w io b b' r : sendMsg w io b = (b', r) -> core b' = core b.
Proof. unfold sendMsg. destruct (Transport.Send _ _ _). by intros [= <- _]. Qed.
Lemma core_encodeMsg enc b b' w : encodeMsg enc b = (b', w) -> core b' = core b.
Proof. unfold encodeMsg. destruct (enc _). by intros [= <- _]. Qed.
Lemma core_encodeFrame f b b' r : encodeFrame f b = (b', r) -> core b' = core b.
Proof. unfold encodeFrame. destruct (EncodeFrame _ _). by intros [= <- _]. Qed.
Lemma core_handlePong ts now b : core (handlePong ts now b) = core b.
Proof. unfold handlePong. by repeat case_match. Qed.
Lemma core_handleBye b b' : handleBye b = Some b' ->
  (core b' = core b \/ core b' = (framesToSend b, framesToInject b, true, true)).
Proof.
  unfold handleBye, doneOnceClose, closeDone. pose proof (core_setState StateDisconnected b) as E.
  intros E'. repeat case_match; simplify_eq; [left; apply core_setState|right].
  unfold core in *. cbn. congruence.
Qed.
Lemma core_doneOnceClose b b' : doneOnceClose b = Some b' ->
  (core b' = core b \/ core b' = (framesToSend b, framesToInject b, true, true)).
Proof. unfold doneOnceClose, closeDone. intros E. repeat case_match; simplify_eq; auto. Qed.
Lemma core_pingCheck now b b' r : pingCheck now b = (b', r) -> core b' = core b.
Proof. by intros ->%BridgeProps.pingCheck_same. Qed.
Lemma core_emitStats r b : core (emitStats r b) = core b.
Proof. by rewrite BridgeProps.emitStats_same. Qed.

(** The invariant after a change of the bridge that keeps or closes [done]. *)
Lemma inv_set_br s b :
  sys_inv s ->
  core b = core (br s) \/ core b = (framesToSend (br s), framesToInject (br s), true, true) ->
  sys_inv (set_br b s).
Proof.
  intros [] [E|E]; unfold core in E; injection E as E1 E2 E3 E4; constructor; cbn;
    rewrite ?E1, ?E2, ?E3, ?E4; auto;
    intros r Hr; destruct (inv_return0 r Hr); auto.
Qed.

Lemma inv_core s b : sys_inv s -> core b = core (br s) -> sys_inv (set_br b s).
Proof. intros. apply inv_set_br; auto. Qed.
Lemma inv_countTx f s : sys_inv s -> sys_inv (upd_br (countTx f) s).
Proof. intros. by apply inv_core. Qed.

(** Changes the invariant does not look at. *)
Lemma inv_capturePc p s : sys_inv s -> sys_inv (set_capturePc p s).
Proof. by destruct 1; constructor. Qed.
Lemma inv_statsPc p s : sys_inv s -> sys_inv (set_statsPc_ p s).
Proof. by destruct 1; constructor. Qed.
Lemma inv_stdinPc p s : sys_inv s -> sys_inv (set_stdinPc_ p s).
Proof. by destruct 1; constructor. Qed.
Lemma inv_pingPc p s : sys_inv s -> sys_inv (set_pingPc_ p s).
Proof. by destruct 1; constructor. Qed.
Lemma inv_recvPeer p s : sys_inv s -> sys_inv (set_recvPeer p s).
Proof. by destruct 1; constructor. Qed.
Lemma inv_injected l s : sys_inv s -> sys_inv (set_injected l s).
Proof. by destruct 1; constructor. Qed.
Lemma inv_faulty f s : f <> DecodePanic -> sys_inv s -> sys_inv (set_fault (Some f) s).
Proof. destruct 2; constructor; cbn; auto; congruence. Qed.
Lemma inv_ctx s : sys_inv s -> sys_inv (set_ctx true s).
Proof. by destruct 1; constructor. Qed.

(** Changes of program counters the invariant looks at. *)
Lemma inv_sendPc p s :
  sys_inv s -> sendPc_ s <> SendExit -> (p = SendExit -> ctx s = true) -> sys_inv (set_sendPc_ p s).
Proof.
  intros [] Hp Hc; constructor; cbn; auto. intros r Hr. by destruct (inv_return0 r Hr).
Qed.
Lemma inv_recvPc p s :
  sys_inv s -> (forall n a, p = RecvDecode n a -> (n <= recvBufSize)%nat) -> sys_inv (set_recvPc_ p s).
Proof. intros [] Hp; by constructor. Qed.
Lemma inv_injectPc p s : sys_inv s -> Forall slice_ok (injHeld p) -> sys_inv (set_injectPc p s).
Proof.
  intros [] Hp; constructor; cbn; auto. apply Forall_app. split; [|done].
  by apply Forall_app in inv_slices0 as [? _].
Qed.
Lemma inv_runPc p s :
  sys_inv s ->
  match p with
  | RunCloseTransport _ | RunCloseCapture _ | RunWait _ => done (br s) = true
  | RunReturn _ => sendPc_ s = SendExit /\ done (br s) = true
  | _ => True
  end -> sys_inv (set_runPc_ p s).
Proof. intros [] Hp; constructor; cbn; auto; intros; subst; auto. Qed.

(** Changes of the queues. *)
Lemma inv_queueFrame f s : sys_inv s -> sys_inv (upd_br (queueFrame f) s).
Proof. intros []; constructor; cbn; auto. by apply trySend_length. Qed.
Lemma inv_takeFrame f q s : sys_inv s -> framesToSend (br s) = f :: q ->
  sys_inv (upd_br (set_framesToSend q) s).
Proof. intros [] E; constructor; cbn; auto. rewrite E in *. simpl in *. lia. Qed.
Lemma inv_takeInject sl q s : sys_inv s -> framesToInject (br s) = sl :: q ->
  sys_inv (upd_br (set_framesToInject q) s) /\ slice_ok sl.
Proof.
  intros [] E. rewrite E in *. simpl in *. inversion inv_slices0; subst.
  split; [constructor; cbn; auto; lia|done].
Qed.
Lemma inv_handleFrame sl s : sys_inv s -> slice_ok sl -> sys_inv (upd_br (handleFrame sl) s).
Proof.
  intros [] Hsl; constructor; cbn; auto; [by apply trySend_length|].
  apply Forall_app in inv_slices0 as [? ?]. apply Forall_app. split; [by apply trySend_Forall|done].
Qed.

Hint Resolve inv_capturePc inv_statsPc inv_stdinPc inv_pingPc inv_recvPeer inv_injected inv_faulty
  inv_ctx inv_queueFrame : sysinv.

Lemma captureLoop_inv l s s' : sys_inv s -> captureLoop l s = Some s' -> sys_inv s'.
Proof. intros H E. destruct l; unfold captureLoop in E; step_cases E; auto with sysinv. Qed.

Lemma injectLoop_inv l s s' : sys_inv s -> injectLoop l s = Some s' -> sys_inv s'.
Proof.
  intros H E. destruct l; unfold injectLoop in E; step_cases E;
    first [by auto with sysinv|apply inv_injectPc; auto with sysinv; by constructor|idtac].
  edestruct inv_takeInject as [? ?]; [done..|]. apply inv_injectPc; [done|by constructor].
Qed.

Lemma statsLoop_inv l s s' : sys_inv s -> statsLoop l s = Some s' -> sys_inv s'.
Proof.
  intros H E. destruct l; unfold statsLoop in E; step_cases E; auto with sysinv.
  apply inv_statsPc, inv_set_br; auto using core_emitStats.
Qed.

Lemma stdinLoop_inv l s s' : sys_inv s -> stdinLoop l s = Some s' -> sys_inv s'.
Proof. intros H E. destruct l; unfold stdinLoop in E; step_cases E; auto with sysinv. Qed.

Lemma sendLoop_inv l s s' : sys_inv s -> sendLoop l s = Some s' -> sys_inv s'.
Proof.
  intros H E. destruct l; unfold sendLoop in E; step_cases E;
    (apply inv_sendPc; [|cbn; congruence|done]);
    eauto using inv_core, inv_countTx, inv_takeFrame, core_encodeFrame, core_sendMsg.
Qed.

Lemma dispatch_inv msg now s n :
  sys_inv s -> (n <= recvBufSize)%nat ->
  (Type_ msg = MsgFrame ->
     (payloadOff (Transport.codec (transport (br s))) + length (Frame msg) <= n)%nat /\
     (MinEthernetFrame <= length (Frame msg) <= MaxFrameSize)%nat) ->
  sys_inv (dispatch msg now s).
Proof.
  intros H Hn Hf. unfold dispatch. repeat case_bool_decide.
  - destruct (Hf ltac:(done)) as [? ?]. apply inv_handleFrame; [by apply inv_recvPc|]. split; cbn; lia.
  - by apply inv_recvPc.
  - apply inv_core; [by apply inv_recvPc|apply core_handlePong].
  - destruct (handleBye (br s)) as [b|] eqn:E; [|by apply inv_faulty].
    apply inv_set_br; [by apply inv_recvPc|]. by apply core_handleBye in E.
  - by apply inv_recvPc.
Qed.

Lemma recvInto_inv r s : sys_inv s -> sys_inv (recvInto r s).
Proof.
  intros H. unfold recvInto.
  destruct (Transport.Recv _ _ _) as [[|e|data addr]|e|] eqn:E;
    try (apply inv_recvPc; [done|]; intros; repeat case_match; done).
  assert (length data <= recvBufSize)%nat as Hd.
  { unfold Transport.Recv in E. repeat case_match; simplify_eq. rewrite length_take. lia. }
  apply inv_recvPc; [|intros; by simplify_eq].
  destruct H; constructor; cbn; auto. rewrite length_go_copy; lia.
Qed.

Lemma payloadOff_Decode data c c' r : Decode data c = (c', r) -> payloadOff c' = payloadOff c.
Proof.
  intros E. apply TransportProps.Decode_same_key in E as [_ E]. unfold payloadOff, IsSecure. by rewrite E.
Qed.

Lemma recvLoop_inv l s s' : sys_inv s -> recvLoop l s = Some s' -> sys_inv s'.
Proof.
  intros H E. destruct l; unfold recvLoop in E; step_cases E; try (apply inv_recvPc; [|done]);
    eauto using inv_core, inv_recvPeer, core_encodeMsg, core_sendMsg, recvInto_inv.
  - pose proof (inv_decode _ H _ _ Heqr) as Hn. apply (dispatch_inv _ _ _ n); [by apply inv_core|done|].
    intros Ht. destruct (Decode_frame _ _ _ _ Heqp Ht) as (_ & Hl & Hb). split; [|done].
    cbn. rewrite (payloadOff_Decode _ _ _ _ Heqp). rewrite length_slice in Hl; [lia|].
    by rewrite (inv_buf _ H).
  - by apply Decode_not_panic in Heqp.
Qed.

Lemma pingLoop_inv l s s' : sys_inv s -> pingLoop l s = Some s' -> sys_inv s'.
Proof.
  intros H E. destruct l; unfold pingLoop in E; step_cases E;
    eauto using inv_core, core_encodeMsg, core_sendMsg, inv_pingPc, inv_faulty, inv_set_br, core_pingCheck,
      core_setState, core_doneOnceClose.
Qed.

Lemma allExited_send s : allExited s = true -> sendPc_ s = SendExit.
Proof. unfold allExited. by repeat case_match. Qed.
Lemma core_done_setState st b : done (setState st b) = done b.
Proof. unfold setState. by case_bool_decide. Qed.

Lemma run_inv l s s' : sys_inv s -> run l s = Some s' -> sys_inv s'.
Proof.
  intros H E. destruct l; unfold run in E; step_cases E; try (apply inv_runPc; [|done]);
    eauto using inv_core, inv_faulty.
  - unfold closeDone in Heqo. destruct (done (br s)); simplify_eq.
    apply inv_runPc; [|done]. destruct H; constructor; cbn; auto.
    intros r Hr. by destruct (inv_return0 r Hr).
  - apply inv_runPc; [by apply inv_core|]. by apply (inv_closetr _ H _ Heqr).
  - apply inv_runPc; [by apply inv_core|]. by apply (inv_closecap _ H _ Heqr).
  - apply inv_runPc; [by apply inv_core, core_setState|]. cbn. split; [by apply allExited_send|].
    rewrite core_done_setState. by apply (inv_wait _ H _ Heqr).
  - apply inv_runPc; [by apply inv_core, core_setState|]. cbn. split; [by apply allExited_send|].
    rewrite core_done_setState. by apply (inv_wait _ H _ Heqr).
Qed.

Lemma core_SetCapture cap b b' r : SetCapture cap b = (b', r) -> core b' = core b.
Proof. unfold SetCapture. intros E. by repeat case_match; simplify_eq. Qed.

Lemma step_inv l s s' : sys_inv s -> step l s = Some s' -> sys_inv s'.
Proof.
  intros H E. unfold step in E. destruct (fault s); [done|]. destruct l as [|cap|l|l|l|l|l|l|l|l]; cbn in E.
  - injection E as <-. by apply inv_ctx.
  - destruct (SetCapture (Some cap) (br s)) as [b r] eqn:Ec. apply core_SetCapture in Ec.
    step_cases E; try (by apply inv_core); by apply inv_faulty, inv_core.
  - by eapply captureLoop_inv.
  - by eapply sendLoop_inv.
  - by eapply recvLoop_inv.
  - by eapply injectLoop_inv.
  - by eapply pingLoop_inv.
  - by eapply statsLoop_inv.
  - by eapply stdinLoop_inv.
  - by eapply run_inv.
Qed.

(** A bridge as [New] makes it, whatever happened to its transport since. *)
Definition fresh_bridge (b : Bridge) : Prop :=
  framesToSend b = [] /\ framesToInject b = [] /\ doneOnce b = false /\ done b = false.

Lemma setState_fresh st b : fresh_bridge b -> fresh_bridge (setState st b).
Proof. intros H. unfold setState. by case_bool_decide. Qed.

Lemma start_inv b : fresh_bridge b -> sys_inv (start b).
Proof.
  intros (E1 & E2 & E3 & E4). constructor; cbn; rewrite ?E1, ?E2, ?E3, ?E4; try done; try (simpl; lia).
Qed.

Lemma reachable_inv b s : fresh_bridge b -> reachable b s -> sys_inv s.
Proof.
  intros Hb Hr. unfold reachable in Hr. apply start_inv in Hb. revert Hb.
  induction Hr as [|s1 s2 s3 [l Hl] _ IH]; [done|]. eauto using step_inv.
Qed.

(** ** Lemmas: transmission *)

(** The frame a FRAME datagram carries. *)
Definition wireFrame (c : Codec) (w : list byte) : option (list byte) :=
  match w with
  | t :: _ =>
      if bool_decide (t = MsgFrame)
      then Some (slice (payloadOff c) (length w - (if IsSecure c then HMACSize else 0)) w)
      else None
  | [] => None
  end.

Definition wireFrames (c : Codec) (ds : list (list byte * Transport.UDPAddr)) : list (list byte) :=
  omap (fun d => wireFrame c (fst d)) ds.

(** The frames on their way out, the oldest first: those sent, the one the
    sender holds, the queue, the one the capture goroutine holds. *)
Definition txLine (s : Sys) : list (list byte) :=
  wireFrames (Transport.codec (transport (br s))) (Transport.sent (transport (br s))) ++
  match sendPc_ s with SendEncode f => [f] | SendWrite f _ => [f] | _ => [] end ++
  framesToSend (br s) ++
  match capturePc s with CapPut f => [f] | _ => [] end.

(** The frames the capture handle yields during a sequence of steps. *)
Definition capturedFrames (ls : list label) : list (list byte) :=
  omap (fun l => match l with
                 | LCapture (CRead (Capture.PData f)) => if (length f =? 0)%nat then None else Some f
                 | _ => None
                 end) ls.

(** The datagrams goroutines are about to send are what they were encoded as. *)
Definition tx_wf (s : Sys) : Prop :=
  let c := Transport.codec (transport (br s)) in
  match sendPc_ s with SendWrite f w => wireFrame c w = Some f | _ => True end /\
  match recvPc_ s with RecvSend w => wireFrame c w = None | _ => True end /\
  match pingPc_ s with PingSend w => wireFrame c w = None | _ => True end.

Lemma encode_wire t p c :
  wireFrame c (encode t p c).2 = if bool_decide (t = MsgFrame) then Some p else None.
Proof.
  unfold wireFrame, payloadOff, IsSecure. destruct (secureMode c) eqn:Hs.
  - rewrite encode_secure by done. cbv zeta. cbn [snd].
    set (n := u64 (sendNonce c + 1)). set (m := mac _ _).
    assert (length m = 32%nat) as Hm by apply mac_length.
    rewrite signed_app. change (t :: be_put 8 n ++ p ++ m) with ([t] ++ be_put 8 n ++ p ++ m).
    case_bool_decide; [|done]. f_equal. rewrite app_assoc. cbn [app].
    change (t :: be_put 8 n ++ p ++ m) with ((t :: be_put 8 n) ++ p ++ m).
    apply slice_app_mid; unfold NonceSize, HMACSize; len.
  - rewrite encode_insecure by done. cbn [snd]. case_bool_decide; [|done]. f_equal.
    apply (slice_suffix [t] p); len.
Qed.

Lemma wireFrame_key c c' w : same_key c' c -> wireFrame c' w = wireFrame c w.
Proof. intros [_ E]. unfold wireFrame, payloadOff, IsSecure. by rewrite E. Qed.

Lemma wireFrames_key c c' ds : same_key c' c -> wireFrames c' ds = wireFrames c ds.
Proof.
  intros Hk. unfold wireFrames. induction ds as [|d ds IH]; csimpl; [done|].
  by rewrite (wireFrame_key _ _ _ Hk), IH.
Qed.

(** A change of the bridge that sends no FRAME and leaves the queue alone. *)
Definition quiet (b b' : Bridge) : Prop :=
  same_key (Transport.codec (transport b')) (Transport.codec (transport b)) /\
  wireFrames (Transport.codec (transport b)) (Transport.sent (transport b')) =
    wireFrames (Transport.codec (transport b)) (Transport.sent (transport b)) /\
  framesToSend b' = framesToSend b.

Lemma quiet_same b b' : transport b' = transport b -> framesToSend b' = framesToSend b -> quiet b b'.
Proof. intros E1 E2. unfold quiet. by rewrite E1, E2. Qed.

Lemma quiet_codec b c : same_key c (Transport.codec (transport b)) ->
  quiet b (upd_transport (Transport.set_codec c) b).
Proof. by intros. Qed.

Lemma Send_sent w io t t' r : Transport.Send w io t = (t', r) ->
  Transport.codec t' = Transport.codec t /\
  ((r <> Ok tt /\ t' = t) \/
   (r = Ok tt /\ exists a, Transport.sent t' = Transport.sent t ++ [(w, a)])).
Proof.
  unfold Transport.Send, Transport.writeToUDP. intros E.
  repeat case_match; simplify_eq/=; split; eauto; left; done.
Qed.

Lemma quiet_sendMsg w io b b' r :
  wireFrame (Transport.codec (transport b)) w = None -> sendMsg w io b = (b', r) -> quiet b b'.
Proof.
  intros Hw. unfold sendMsg. destruct (Transport.Send w io (transport b)) as [t r'] eqn:E.
  intros [= <- <-]. apply Send_sent in E as [Ec [[_ ->]|[_ [a Es]]]]; [done|].
  unfold quiet. cbn. rewrite Ec, Es. split; [done|]. split; [|done].
  unfold wireFrames. rewrite omap_app. csimpl. by rewrite Hw, app_nil_r.
Qed.

Lemma quiet_handlePong ts now b : quiet b (handlePong ts now b).
Proof. apply quiet_same; unfold handlePong; by repeat case_match. Qed.
Lemma quiet_setState st b : quiet b (setState st b).
Proof. apply quiet_same; unfold setState; by case_bool_decide. Qed.
Lemma quiet_handleBye b b' : handleBye b = Some b' -> quiet b b'.
Proof.
  unfold handleBye, doneOnceClose, closeDone, setState. intros E.
  apply quiet_same; repeat case_match; by simplify_eq/=.
Qed.
Lemma quiet_pingCheck now b b' r : pingCheck now b = (b', r) -> quiet b b'.
Proof. by intros ->%BridgeProps.pingCheck_same. Qed.
Lemma quiet_doneOnceClose b b' : doneOnceClose b = Some b' -> quiet b b'.
Proof. unfold doneOnceClose, closeDone. intros E. apply quiet_same; repeat case_match; by simplify_eq/=. Qed.
Lemma quiet_emitStats r b : quiet b (emitStats r b).
Proof. by rewrite BridgeProps.emitStats_same. Qed.
Lemma quiet_Close b : quiet b (upd_transport (fun t => fst (Transport.Close None t)) b).
Proof. unfold quiet, upd_transport. cbn. unfold Transport.Close. by case_match. Qed.

Lemma encodeMsg_encode t p b b' w :
  encodeMsg (encode t p) b = (b', w) -> t <> MsgFrame ->
  quiet b b' /\ wireFrame (Transport.codec (transport b')) w = None.
Proof.
  unfold encodeMsg. intros E Ht. pose proof (encode_wire t p (Transport.codec (transport b))) as Hw.
  pose proof (TransportProps.encode_keys t p (Transport.codec (transport b))) as Hk.
  destruct (encode t p _) as [c w'] eqn:Ee. injection E as <- <-. cbn in *.
  split; [by apply quiet_codec|]. rewrite (wireFrame_key (Transport.codec (transport b))) by done.
  by rewrite Hw, bool_decide_eq_false_2.
Qed.

Lemma quiet_SendBye io b : quiet b (upd_transport (fun t => fst (Transport.SendBye io t)) b).
Proof.
  unfold quiet, upd_transport. cbn. unfold Transport.SendBye. case_match; [done|].
  unfold EncodeBye. set (c := Transport.codec (transport b)).
  pose proof (encode_wire MsgBye [] c) as Hw. pose proof (TransportProps.encode_keys MsgBye [] c) as Hk.
  destruct (encode MsgBye [] c) as [c' bye]. cbn in Hw, Hk. unfold Transport.writeToUDP.
  repeat case_match; simplify_eq/=; (split; [done|split; [|done]]); try done.
  unfold wireFrames. rewrite omap_app. csimpl. by rewrite Hw, app_nil_r.
Qed.

(** The parts of [tx_wf] on the receiving and the pinging goroutine. *)
Definition recv_ok (s : Sys) : Prop :=
  match recvPc_ s with RecvSend w => wireFrame (codecOf s) w = None | _ => True end.
Definition ping_ok (s : Sys) : Prop :=
  match pingPc_ s with PingSend w => wireFrame (codecOf s) w = None | _ => True end.

Lemma tx_quiet s s' :
  tx_wf s -> quiet (br s) (br s') -> sendPc_ s' = sendPc_ s -> capturePc s' = capturePc s ->
  recvPc_ s' = recvPc_ s \/ recv_ok s' -> pingPc_ s' = pingPc_ s \/ ping_ok s' ->
  tx_wf s' /\ txLine s' = txLine s.
Proof.
  intros (H1 & H2 & H3) (Hk & Hs & Hf) Es Ec Hr Hp. split.
  - unfold tx_wf. repeat split.
    + rewrite Es. destruct (sendPc_ s); try done. by rewrite (wireFrame_key (codecOf s)).
    + destruct Hr as [Hr|Hr]; [|done]. rewrite Hr. destruct (recvPc_ s); try done.
      by rewrite (wireFrame_key (codecOf s)).
    + destruct Hp as [Hp|Hp]; [|done]. rewrite Hp. destruct (pingPc_ s); try done.
      by rewrite (wireFrame_key (codecOf s)).
  - unfold txLine. by rewrite Es, Ec, Hf, (wireFrames_key (codecOf s)), Hs.
Qed.

Ltac quiet_step :=
  apply tx_quiet; cbn; auto; try (by apply quiet_same); try (by right; unfold recv_ok, ping_ok).

Ltac quiet_by tac := apply tx_quiet; cbn; try done; try (by left); try (by right); tac.

Lemma injectLoop_tx l s s' : tx_wf s -> injectLoop l s = Some s' -> tx_wf s' /\ txLine s' = txLine s.
Proof. intros H E. destruct l; unfold injectLoop in E; step_cases E; quiet_step. Qed.

Lemma statsLoop_tx l s s' : tx_wf s -> statsLoop l s = Some s' -> tx_wf s' /\ txLine s' = txLine s.
Proof. intros H E. destruct l; unfold statsLoop in E; step_cases E; try (by quiet_step). quiet_by ltac:(apply quiet_emitStats). Qed.

Lemma stdinLoop_tx l s s' : tx_wf s -> stdinLoop l s = Some s' -> tx_wf s' /\ txLine s' = txLine s.
Proof. intros H E. destruct l; unfold stdinLoop in E; step_cases E; quiet_step. Qed.

Lemma dispatch_tx msg now s : tx_wf s -> tx_wf (dispatch msg now s) /\ txLine (dispatch msg now s) = txLine s.
Proof.
  intros H. unfold dispatch. repeat case_bool_decide; try (by quiet_step).
  - quiet_by ltac:(apply quiet_handlePong).
  - destruct (handleBye (br s)) as [b|] eqn:E; [|quiet_step].
    quiet_by ltac:(by apply quiet_handleBye).
Qed.

Lemma recvLoop_tx l s s' : tx_wf s -> recvLoop l s = Some s' -> tx_wf s' /\ txLine s' = txLine s.
Proof.
  intros H E. destruct l; unfold recvLoop in E; step_cases E; try (by quiet_step).
  - unfold recvInto. destruct (Transport.Recv _ _ _) as [[]| |]; try case_match; quiet_step.
  - apply TransportProps.Decode_same_key in Heqp.
    set (s1 := upd_br (upd_transport (Transport.set_codec c)) s).
    assert (tx_wf s1 /\ txLine s1 = txLine s) as [H1 E1].
    { apply tx_quiet; cbn; auto. by apply quiet_codec. }
    destruct (dispatch_tx a now s1 H1) as [? E2]. by rewrite E2.
  - apply TransportProps.Decode_same_key in Heqp.
    quiet_by ltac:(by apply quiet_codec).
  - apply TransportProps.Decode_same_key in Heqp. quiet_by ltac:(by apply quiet_codec).
  - unfold EncodePong in Heqp. apply encodeMsg_encode in Heqp as [? ?]; [|done].
    apply tx_quiet; cbn; auto.
  - pose proof H as (_ & H2 & _). rewrite Heqr in H2.
    quiet_by ltac:(by eapply quiet_sendMsg).
Qed.

Lemma pingLoop_tx l s s' : tx_wf s -> pingLoop l s = Some s' -> tx_wf s' /\ txLine s' = txLine s.
Proof.
  intros H E. destruct l; unfold pingLoop in E; step_cases E; try (by quiet_step).
  - quiet_by ltac:(by eapply quiet_pingCheck).
  - quiet_by ltac:(by eapply quiet_pingCheck).
  - unfold EncodePing in Heqp0. apply encodeMsg_encode in Heqp0 as [? ?]; [|done].
    apply tx_quiet; cbn; auto.
  - pose proof H as (_ & _ & H3). rewrite Heqp in H3.
    quiet_by ltac:(by eapply quiet_sendMsg).
  - quiet_by ltac:(apply quiet_setState).
  - quiet_by ltac:(by eapply quiet_doneOnceClose).
Qed.

Lemma run_tx l s s' : tx_wf s -> run l s = Some s' -> tx_wf s' /\ txLine s' = txLine s.
Proof.
  intros H E. destruct l; unfold run in E; step_cases E; try (by quiet_step);
    apply tx_quiet; cbn; auto; auto using quiet_SendBye, quiet_Close, quiet_setState.
  unfold closeDone in Heqo. case_match; simplify_eq. by apply quiet_same.
Qed.

(** ** Lemmas: what is sent is added to the record *)

Lemma sendMsg_sent w io b b' r : sendMsg w io b = (b', r) -> sentBy b `prefix_of` sentBy b'.
Proof.
  unfold sendMsg. destruct (Transport.Send _ _ _) as [t r'] eqn:E. intros [= <- _]. cbn.
  apply Send_sent in E as [_ [[_ ->]|[_ [a ->]]]]; [done|]. by exists [(w, a)].
Qed.

Lemma SendBye_sent io t : Transport.sent t `prefix_of` Transport.sent (fst (Transport.SendBye io t)).
Proof.
  unfold Transport.SendBye. case_match; [done|]. destruct (EncodeBye _) as [c bye]. unfold Transport.writeToUDP.
  repeat case_match; simplify_eq/=; try done. by eexists.
Qed.

Lemma dispatch_sent msg now s : sentBy (br (dispatch msg now s)) = sentBy (br s).
Proof.
  unfold dispatch. repeat case_bool_decide; try done.
  - cbn. unfold handlePong. destruct (pendingPing _ =? 0); [done|]. by destruct (negb _).
  - destruct (handleBye (br s)) as [b|] eqn:E; [|done]. unfold handleBye, doneOnceClose, closeDone, setState in E.
    cbn. repeat case_match; by simplify_eq/=.
Qed.

Lemma step_sent l s s' : step l s = Some s' -> sentBy (br s) `prefix_of` sentBy (br s').
Proof.
  intros E. unfold step in E. destruct (fault s); [done|].
  destruct l as [|cap|l|l|l|l|l|l|l|l]; cbn in E.
  - by injection E as <-.
  - unfold SetCapture in E. destruct (capture (br s)); [by injection E as <-|].
    cbn in E. destruct (captureReady (br s)); by injection E as <-.
  - destruct l; unfold captureLoop in E; by step_cases E.
  - destruct l; unfold sendLoop in E; step_cases E; try done; cbn; try (by eapply sendMsg_sent);
      unfold encodeFrame in Heqp; destruct (EncodeFrame _ _); by simplify_eq.
  - destruct l; unfold recvLoop in E; step_cases E; try done; cbn; try (by eapply sendMsg_sent).
    + unfold recvInto. by repeat case_match.
    + by rewrite dispatch_sent.
    + unfold encodeMsg in Heqp. destruct (EncodePong _ _). by simplify_eq.
  - destruct l; unfold injectLoop in E; by step_cases E.
  - destruct l; unfold pingLoop in E; step_cases E; try done; cbn; try (by eapply sendMsg_sent).
    + by apply BridgeProps.pingCheck_same in Heqp0 as ->.
    + by apply BridgeProps.pingCheck_same in Heqp0 as ->.
    + unfold encodeMsg in Heqp0. destruct (EncodePing _ _). by simplify_eq.
    + by rewrite BridgeProps.setState_transport.
    + unfold doneOnceClose, closeDone in Heqo. by repeat case_match; simplify_eq/=.
  - destruct l; unfold statsLoop in E; step_cases E; try done. cbn. by rewrite BridgeProps.emitStats_same.
  - destruct l; unfold stdinLoop in E; by step_cases E.
  - destruct l; unfold run in E; step_cases E; try done; cbn.
    + apply SendBye_sent.
    + unfold closeDone in Heqo. by case_match; simplify_eq/=.
    + unfold Transport.Close. by case_match.
    + by rewrite BridgeProps.setState_transport.
    + by rewrite BridgeProps.setState_transport.
Qed.

Lemma steps_sent ls : forall s s', steps ls s = Some s' -> sentBy (br s) `prefix_of` sentBy (br s').
Proof.
  induction ls as [|l ls IH]; intros s s' E; cbn in E; [by simplify_eq|].
  destruct (step l s) as [s1|] eqn:E1; [|done]. etrans; [by eapply step_sent|by apply IH].
Qed.

(** What the capture goroutine adds to the line of frames. *)
Lemma captureLoop_tx l s s' : tx_wf s -> captureLoop l s = Some s' ->
  tx_wf s' /\ txLine s' `sublist_of` txLine s ++ capturedFrames [LCapture l].
Proof.
  intros H E. unfold captureLoop in E. split.
  { destruct l; step_cases E; exact H. }
  unfold txLine, capturedFrames. destruct l; step_cases E; cbn; rewrite ?Heqc, ?app_nil_r; try done;
    try (by apply sublist_inserts_r).
  - unfold Capture.ReadPacket in Heqh. destruct (Capture.handle c); [done|].
    destruct r as [|e|data]; [done..|]. destruct (length data =? 0)%nat; [done|].
    rewrite go_copy_full in Heqh by (unfold make_bytes; by rewrite ?length_replicate).
    simplify_eq. by rewrite <- !app_assoc.
  - apply sublist_app; [done|]. apply sublist_app; [done|]. unfold trySend. case_match; [done|].
    by apply sublist_inserts_r.
Qed.

Lemma encodeFrame_wire f b b' r : encodeFrame f b = (b', r) ->
  quiet b b' /\ Transport.sent (transport b') = Transport.sent (transport b) /\
  (forall w, r = Ok w -> wireFrame (Transport.codec (transport b')) w = Some f).
Proof.
  unfold encodeFrame, EncodeFrame. set (c := Transport.codec (transport b)). intros E.
  destruct (_ || _); [by injection E as <- <-|].
  pose proof (encode_wire MsgFrame f c) as Hw. pose proof (TransportProps.encode_keys MsgFrame f c) as Hk.
  destruct (encode MsgFrame f c) as [c' w'] eqn:Ee. injection E as <- <-. cbn in *.
  split; [by apply quiet_codec|]. split; [done|]. intros w [= <-].
  by rewrite (wireFrame_key c) by done.
Qed.

(** The parts of [tx_wf] survive a change that keeps the key. *)
Lemma pcs_key (s : Sys) c :
  same_key c (codecOf s) -> tx_wf s ->
  match recvPc_ s with RecvSend w => wireFrame c w = None | _ => True end /\
  match pingPc_ s with PingSend w => wireFrame c w = None | _ => True end.
Proof.
  intros Hk (_ & H2 & H3). split; [destruct (recvPc_ s)|destruct (pingPc_ s)]; try done;
    by rewrite (wireFrame_key (codecOf s)).
Qed.

(** A frame the sender takes, encodes and sends keeps its place in the line. *)
Lemma sendLoop_tx l s s' : tx_wf s -> sendLoop l s = Some s' ->
  tx_wf s' /\ txLine s' `sublist_of` txLine s.
Proof.
  intros H E. destruct l; unfold sendLoop in E; step_cases E; unfold txLine;
    try (destruct (encodeFrame_wire _ _ _ _ Heqp) as ((Hk & Hs & Hf) & _ & Hw);
         pose proof (pcs_key s _ Hk H));
    try (unfold sendMsg in Heqp; destruct (Transport.Send _ _ _) as [t r] eqn:Es;
         apply Send_sent in Es as [Ec Es]; simplify_eq).
  - split; [by destruct H as (_ & ? & ?)|]. cbn. by rewrite Heqs0.
  - split; [by destruct H as (_ & ? & ?)|]. cbn. by rewrite Heqs0, Heql.
  - split; [by unfold tx_wf; cbn; auto|]. cbn. by rewrite Heqs0, Hf, (wireFrames_key (codecOf s)), Hs.
  - split; [done|]. cbn. rewrite Heqs0, Hf, (wireFrames_key (codecOf s)), Hs by done.
    apply sublist_app; [done|by apply sublist_cons].
  - split; [done|]. cbn. rewrite Heqs0, Hf, (wireFrames_key (codecOf s)), Hs by done.
    apply sublist_app; [done|by apply sublist_cons].
  - pose proof H as (H1 & _). rewrite Heqs0 in H1. destruct Es as [[? _]|[_ [a' Es]]]; [by destruct a|].
    split; [destruct H as (_ & ? & ?); unfold tx_wf; cbn; by rewrite Ec|].
    cbn. rewrite Heqs0, Ec, Es. unfold wireFrames. rewrite omap_app. csimpl. rewrite H1.
    by rewrite <- app_assoc.
  - destruct Es as [[_ ->]|[? _]]; [|done]. split; [by destruct H as (_ & ? & ?)|].
    cbn. rewrite Heqs0. apply sublist_app; [done|by apply sublist_cons].
  - destruct Es as [[_ ->]|[? _]]; [|done]. split; [by destruct H as (_ & ? & ?)|].
    cbn. rewrite Heqs0. apply sublist_app; [done|by apply sublist_cons].
Qed.

Lemma step_tx l s s' : tx_wf s -> step l s = Some s' ->
  tx_wf s' /\ txLine s' `sublist_of` txLine s ++ capturedFrames [l].
Proof.
  intros H E. unfold step in E. destruct (fault s); [done|].
  assert (forall s', tx_wf s' /\ txLine s' = txLine s ->
            tx_wf s' /\ txLine s' `sublist_of` txLine s ++ capturedFrames [l]) as Hq.
  { intros s1 [? ->]. split; [done|]. by apply sublist_inserts_r. }
  destruct l as [|cap|l|l|l|l|l|l|l|l]; cbn in E; [..|apply Hq; by eapply run_tx].
  - apply Hq. injection E as <-. quiet_step.
  - apply Hq. unfold SetCapture in E.
    destruct (capture (br s)); [injection E as <-; quiet_step|].
    cbn in E. destruct (captureReady (br s)); injection E as <-; quiet_step.
  - by apply captureLoop_tx.
  - destruct (sendLoop_tx _ _ _ H E). split; [done|]. by apply sublist_inserts_r.
  - apply Hq; by eapply recvLoop_tx.
  - apply Hq; by eapply injectLoop_tx.
  - apply Hq; by eapply pingLoop_tx.
  - apply Hq; by eapply statsLoop_tx.
  - apply Hq; by eapply stdinLoop_tx.
Qed.

Lemma capturedFrames_cons l ls : capturedFrames (l :: ls) = capturedFrames [l] ++ capturedFrames ls.
Proof. unfold capturedFrames. cbn [omap list_omap]. by case_match. Qed.

Lemma steps_tx ls : forall s s', tx_wf s -> steps ls s = Some s' ->
  tx_wf s' /\ txLine s' `sublist_of` txLine s ++ capturedFrames ls.
Proof.
  induction ls as [|l ls IH]; intros s s' H E; cbn [steps] in E.
  - injection E as <-. split; [done|]. by apply sublist_inserts_r.
  - destruct (step l s) as [s1|] eqn:E1; cbn [mbind option_bind] in E; [|done].
    destruct (step_tx _ _ _ H E1) as [H1 Hs1]. destruct (IH _ _ H1 E) as [H2 Hs2].
    split; [done|]. rewrite capturedFrames_cons, app_assoc. etrans; [exact Hs2|].
    by apply sublist_app.
Qed.

End lemmas.
End BridgeRunProps.
