(* ===== verification/BridgeClaims.v ===== *)
(** * What the running bridge guarantees, and where it fails

    The theorems on every reachable state, and the interleavings that lead to
    a rejected frame, a panic or a call on a nil handle. *)

From S2P Require Import Prelude Sha256 Protocol ProtocolProps Transport TransportProps.
From S2P Require Import Capture Events Bridge BridgeProps BridgeRun BridgeRunProps.
Import Protocol ProtocolProps Bridge BridgeRun BridgeRunProps.

Module BridgeClaims.

Lemma recvBufSize_big : (1515 <= recvBufSize)%nat.
Proof. unfold recvBufSize. lia. Qed.

#[local] Opaque recvBufSize.

(** ** Specifications *)

(** A connected bridge as [Run] has it when it starts the goroutines: its
    transport is connected to the peer [a], with an open capture. *)
Record connected_bridge (b : Bridge) (a : Transport.UDPAddr) : Prop := {
  cb_fresh : fresh_bridge b;
  cb_conn : Transport.conn (transport b) = Transport.ConnOpen;
  cb_connected : Transport.connected (transport b) = true;
  cb_closed : Transport.closed (transport b) = false;
  cb_peer : Transport.peerAddr (transport b) = Some a;
  cb_capture : exists c, capture b = Some c /\ Capture.handle c = Capture.HandleOpen;
  cb_ready : captureReady b = true;
}.

(** The labels that read a datagram into the receive buffer. *)
Definition isRead (l : label) : bool := match l with LRecv (RRead _) => true | _ => false end.

(** ** Lemmas: running a schedule *)

(** Reduce a state built by setters to a flat record. *)
Ltac flatten :=
  cbv beta iota delta [
    br ctx recvBuf recvPeer capturePc sendPc_ recvPc_ injectPc pingPc_ statsPc_ stdinPc_ runPc_
    injected fault set_br set_ctx set_recvBuf set_recvPeer set_capturePc set_sendPc_ set_recvPc_
    set_injectPc set_pingPc_ set_statsPc_ set_stdinPc_ set_runPc_ set_injected set_fault capture
    captureReady transport stats mode statsInterval state framesToSend framesToInject done
    doneOnce pendingPing missedPongs emitted set_capture set_captureReady set_transport
    set_stats set_mode set_statsInterval set_state set_framesToSend set_framesToInject set_done
    set_doneOnce set_pendingPing set_missedPongs set_emitted Transport.conn Transport.peerAddr
    Transport.mode Transport.codec Transport.challenge Transport.connected Transport.closed
    Transport.sent Transport.set_codec Transport.set_peer Transport.set_challenge
    Transport.set_connected Transport.set_conn Transport.log_sent upd_br upd_transport upd_stats
    startWith].

Lemma steps_cons `{M : Mac} l ls s s1 s2 : step l s = Some s1 -> steps ls s1 = Some s2 -> steps (l :: ls) s = Some s2.
Proof. intros E1 E2. cbn. by rewrite E1. Qed.

(** One step of a schedule on a state in constructor form. *)
Ltac run_step := eapply steps_cons; [cbn; flatten; reflexivity|].

Section claims.
Context `{M : Mac}.

Lemma steps_rtc ls : forall s s', steps ls s = Some s' -> rtc stepR s s'.
Proof.
  induction ls as [|l ls IH]; intros s s' E; cbn in E; [by injection E as ->|].
  destruct (step l s) as [s1|] eqn:E1; [|done]. eapply rtc_l; [by exists l|by apply IH].
Qed.

Lemma step_read s w a :
  fault s = None -> recvPc_ s = RecvRead -> Transport.conn (transport (br s)) = Transport.ConnOpen ->
  Transport.closed (transport (br s)) = false -> (length w <= recvBufSize)%nat ->
  step (LRecv (RRead (Transport.RData w a))) s =
    Some (set_recvPc_ (RecvDecode (length w) a)
            (set_recvBuf (go_copy (recvBuf s) 0 (length w) w) s)).
Proof.
  intros Hf Hp Hc Hcl Hw. unfold step, goStep, recvLoop. rewrite Hf, Hp.
  unfold recvInto, Transport.Recv, Transport.conn_read. by rewrite Hcl, Hc, take_ge.
Qed.

Lemma step_decode s now n a c msg :
  fault s = None -> recvPc_ s = RecvDecode n a -> recvPeer s = Some a ->
  Decode (slice 0 n (recvBuf s)) (codecOf s) = (c, Ok msg) ->
  step (LRecv (RDecode now)) s =
    Some (dispatch msg now (upd_br (upd_transport (Transport.set_codec c)) s)).
Proof.
  intros Hf Hp Ha Hd. unfold step, goStep, recvLoop. rewrite Hf, Hp, Hd, Ha.
  assert (addrEqual (Some a) (Some a) = true) as -> by apply (TransportProps.addrEqual_refl (Some a)).
  by rewrite andb_false_r.
Qed.

Lemma slice_go_copy {A} (buf w : list A) :
  (length w <= length buf)%nat -> slice 0 (length w) (go_copy buf 0 (length w) w) = w.
Proof.
  intros. unfold go_copy. rewrite Nat.sub_0_r, Nat.min_id, take_0, firstn_all. cbn [app].
  by apply slice_prefix.
Qed.

Lemma slice_slice0 {A} (l : list A) lo hi n : (hi <= n)%nat -> slice lo hi (slice 0 n l) = slice lo hi l.
Proof.
  intros. unfold slice. rewrite drop_0, Nat.sub_0_r, skipn_firstn_comm, take_take. f_equal. lia.
Qed.

Lemma Decode_insecure_frame c f : secureMode c = false ->
  (MinEthernetFrame <= length f <= MaxFrameSize)%nat ->
  Decode (MsgFrame :: f) c = (c, Ok (mkMessage MsgFrame f 0 [] [] 0)).
Proof.
  intros Hs Hf. unfold Decode. unfold_prog. rewrite decode_insecure by done. cbn [fst snd].
  by rewrite (parse_payload c (AFrame f)).
Qed.

(** Only a read changes the receive buffer. *)
Lemma step_recvBuf l s s' : isRead l = false -> step l s = Some s' -> recvBuf s' = recvBuf s.
Proof.
  intros Hl E. unfold step in E. destruct (fault s); [done|].
  destruct l as [|cap|l|l|l|l|l|l|l|l]; cbn in E.
  - by injection E as <-.
  - destruct (SetCapture _ _) as [b []]; by injection E as <-.
  - destruct l; unfold captureLoop in E; by step_cases E.
  - destruct l; unfold sendLoop in E; by step_cases E.
  - destruct l; try done; unfold recvLoop in E; step_cases E; try done.
    clear Heqb. unfold dispatch. repeat case_bool_decide; try done. by destruct (handleBye _).
  - destruct l; unfold injectLoop in E; by step_cases E.
  - destruct l; unfold pingLoop in E; by step_cases E.
  - destruct l; unfold statsLoop in E; by step_cases E.
  - destruct l; unfold stdinLoop in E; by step_cases E.
  - destruct l; unfold run in E; by step_cases E.
Qed.

Lemma steps_recvBuf ls : forall s s', Forall (fun l => isRead l = false) ls ->
  steps ls s = Some s' -> recvBuf s' = recvBuf s.
Proof.
  induction ls as [|l ls IH]; intros s s' Hl E; cbn in E; [by injection E as ->|].
  destruct (step l s) as [s1|] eqn:E1; [|done]. inversion Hl; subst.
  rewrite (IH s1 s') by done. by eapply step_recvBuf.
Qed.

(** One datagram received and dispatched; one frame injected. *)
Definition recvDatagram (w : list byte) (a : Transport.UDPAddr) : list label :=
  [LRecv RTop; LRecv (RRead (Transport.RData w a)); LRecv (RDecode 0)].
Definition injectOne : list label := [LInject ITake; LInject (IWrite None)].

Lemma steps_app l1 : forall l2 s, steps (l1 ++ l2) s = (s' ← steps l1 s; steps l2 s').
Proof.
  induction l1 as [|l l1 IH]; intros l2 s; [done|]. cbn. destruct (step l s); [apply IH|done].
Qed.

Lemma set_codec_id s : upd_br (upd_transport (Transport.set_codec (codecOf s))) s = s.
Proof. by destruct s as [[? ? [] ? ? ? ? ? ? ? ? ? ? ?] ? ? ? ? ? ? ? ? ? ? ? ? ?]. Qed.

Lemma bytesOf_same s s' sl : recvBuf s' = recvBuf s -> bytesOf s' sl = bytesOf s sl.
Proof. unfold bytesOf. by intros ->. Qed.

Lemma inject_one s sl q cap :
  fault s = None -> injectPc s = InjSelect -> framesToInject (br s) = sl :: q ->
  capture (br s) = Some cap -> Capture.handle cap = Capture.HandleOpen ->
  (14 <= length (bytesOf s sl))%nat ->
  steps injectOne s =
    Some (set_injectPc InjSelect
           (set_injected (injected s ++ [bytesOf s sl]) (upd_br (set_framesToInject q) s))).
Proof.
  intros Hf Hp Hq Hc Hh Hl. unfold injectOne.
  eapply steps_cons; [unfold step, goStep, injectLoop; by rewrite Hf, Hp, Hq|].
  eapply steps_cons; [|reflexivity]. unfold step, goStep, injectLoop. cbn [fault injectPc br capture set_injectPc upd_br set_br set_framesToInject]. rewrite Hf, Hc.
  unfold Capture.WritePacket. rewrite (bytesOf_same s) by reflexivity.
  rewrite (proj2 (Nat.ltb_ge _ _)) by done. by rewrite Hh.
Qed.

Lemma inject_two s sl1 sl2 cap :
  fault s = None -> injectPc s = InjSelect -> framesToInject (br s) = [sl1; sl2] ->
  capture (br s) = Some cap -> Capture.handle cap = Capture.HandleOpen ->
  (14 <= length (bytesOf s sl1))%nat -> (14 <= length (bytesOf s sl2))%nat ->
  exists s', steps (injectOne ++ injectOne) s = Some s' /\ fault s' = None /\
    injected s' = injected s ++ [bytesOf s sl1; bytesOf s sl2].
Proof.
  intros Hf Hp Hq Hc Hh H1 H2. rewrite steps_app, (inject_one s sl1 [sl2] cap) by done.
  cbn [mbind option_bind]. rewrite (inject_one _ sl2 [] cap) by done.
  eexists. split; [reflexivity|]. split; [done|]. cbn [injected set_injectPc set_injected].
  by rewrite <- app_assoc.
Qed.

(** The receiving and the injecting goroutine at their loops. *)
Definition receiving (b : Bridge) (a : Transport.UDPAddr) : Sys :=
  set_injectPc InjSelect (set_recvPc_ RecvTop (set_recvPeer (Some a) (start b))).

Lemma receiving_steps b a : connected_bridge b a ->
  steps [LRecv RStart; LInject IReady] (start b) = Some (receiving b a).
Proof.
  intros []. eapply steps_cons; [cbn; unfold Transport.PeerAddr; by rewrite cb_peer0|].
  eapply steps_cons; [|reflexivity]. unfold step, goStep, injectLoop. cbn. by rewrite cb_ready0.
Qed.

(** A BYE closes [done] the first time. *)
Lemma handleBye_fresh b : done b = false -> doneOnce b = false ->
  exists b', handleBye b = Some b' /\ done b' = true /\ doneOnce b' = true /\
    transport b' = transport b /\ capture b' = capture b /\ state b' = StateDisconnected.
Proof.
  intros Hd Ho. unfold handleBye, doneOnceClose, closeDone, setState.
  case_bool_decide; cbn; rewrite Ho; cbn; rewrite Hd; eexists; (split; [reflexivity|]); done.
Qed.

Lemma Decode_insecure_bye c : secureMode c = false -> Decode [MsgBye] c = (c, Ok (zeroMessage MsgBye)).
Proof. intros Hs. unfold Decode. unfold_prog. by rewrite decode_insecure. Qed.

(** The decoding step on a BYE from the peer. *)
Lemma step_bye s n a w c msg :
  fault s = None -> recvPc_ s = RecvDecode n a -> recvPeer s = Some a -> slice 0 n (recvBuf s) = w ->
  Decode w (codecOf s) = (c, Ok msg) -> Type_ msg = MsgBye ->
  done (br s) = false -> doneOnce (br s) = false ->
  exists b', step (LRecv (RDecode 0)) s = Some (set_br b' (set_recvPc_ RecvTop s)) /\
    done b' = true /\ doneOnce b' = true /\ capture b' = capture (br s) /\ state b' = StateDisconnected /\
    Transport.closed (transport b') = Transport.closed (transport (br s)).
Proof.
  intros Hf Hp Ha Hw Hd Ht Hdn Ho. rewrite (step_decode s 0 n a c msg) by (by rewrite ?Hw).
  unfold dispatch. rewrite Ht, !(bool_decide_eq_false_2 (MsgBye = _)), bool_decide_eq_true_2 by done.
  destruct (handleBye_fresh (upd_transport (Transport.set_codec c) (br s)) Hdn Ho)
    as (b' & E & Hd' & Ho' & Htr & Hcap & Hst). cbn [br upd_br set_br]. rewrite E.
  exists b'. split; [reflexivity|]. by rewrite Htr.
Qed.

(** A state in which the receiving goroutine is about to read, [Run] waits,
    and the peer has not disconnected. *)
Record awaiting (s : Sys) (a : Transport.UDPAddr) : Prop := {
  aw_fault : fault s = None;
  aw_recv : recvPc_ s = RecvRead;
  aw_run : runPc_ s = RunSelect;
  aw_peer : recvPeer s = Some a;
  aw_conn : Transport.conn (transport (br s)) = Transport.ConnOpen;
  aw_closed : Transport.closed (transport (br s)) = false;
  aw_done : done (br s) = false;
  aw_once : doneOnce (br s) = false;
  aw_buf : length (recvBuf s) = recvBufSize;
}.

Definition is_bye (c : Codec) (w : list byte) : Prop :=
  (length w <= recvBufSize)%nat /\ exists c' msg, Decode w c = (c', Ok msg) /\ Type_ msg = MsgBye.

(** The receiving goroutine has read a BYE: the state, ready to decode it. *)
Definition gotBye (s : Sys) (w : list byte) (a : Transport.UDPAddr) : Sys :=
  set_recvPc_ (RecvDecode (length w) a) (set_recvBuf (go_copy (recvBuf s) 0 (length w) w) s).

Lemma step_read_bye s a w : awaiting s a -> (length w <= recvBufSize)%nat ->
  step (LRecv (RRead (Transport.RData w a))) s = Some (gotBye s w a).
Proof. intros [] Hw. by apply step_read. Qed.

Lemma step_decode_bye s s' a w :
  awaiting s a -> is_bye (codecOf s) w -> fault s' = None -> recvPc_ s' = RecvDecode (length w) a ->
  recvPeer s' = recvPeer s -> recvBuf s' = recvBuf (gotBye s w a) -> br s' = br s ->
  exists b', step (LRecv (RDecode 0)) s' = Some (set_br b' (set_recvPc_ RecvTop s')) /\
    done b' = true /\ doneOnce b' = true /\ capture b' = capture (br s) /\ state b' = StateDisconnected.
Proof.
  intros [] [Hw (c & msg & Hd & Ht)] Hf Hp Ha Hb Hbr.
  destruct (step_bye s' (length w) a w c msg) as (b' & E & H1 & H2 & H3 & H4 & _); try (by rewrite ?Hbr).
  - by rewrite Ha.
  - rewrite Hb. cbn. apply slice_go_copy. rewrite aw_buf0. done.
  - rewrite Hbr in *. by exists b'.
Qed.

(** A BYE read while [Run] decides that the shutdown is its own. *)
Definition byeRace (w : list byte) (a : Transport.UDPAddr) : list label :=
  [LRecv (RRead (Transport.RData w a)); LRun UWake; LRun UDecide].

Lemma bye_race s a w : awaiting s a -> ctx s = true -> is_bye (codecOf s) w ->
  exists s1 s2 s3, steps (byeRace w a) s = Some s1 /\ runPc_ s1 = RunBye /\ done (br s1) = false /\
    steps [LRecv (RDecode 0); LRun (UBye None)] s1 = Some s2 /\ fault s2 = None /\ doneOnce (br s2) = true /\
    step (LRun UCloseDone) s2 = Some s3 /\ fault s3 = Some DoubleClose.
Proof.
  intros Haw Hx Hw. pose proof Haw as [].
  set (s1 := set_runPc_ RunBye (set_runPc_ RunDecide (gotBye s w a))).
  destruct (step_decode_bye s s1 a w) as (b' & E & Hdn & Ho & _); try done.
  exists s1. do 2 eexists. split.
  { eapply steps_cons; [apply step_read_bye; [done|apply Hw]|].
    eapply steps_cons; [unfold step, goStep, run; cbn; by rewrite aw_fault0, aw_run0, Hx|].
    eapply steps_cons; [unfold step, goStep, run; cbn; rewrite aw_fault0; by rewrite aw_done0|]. reflexivity. }
  split; [done|]. split; [done|]. split.
  { eapply steps_cons; [exact E|]. eapply steps_cons; [unfold step, goStep, run; cbn; by rewrite aw_fault0|]. reflexivity. }
  split; [done|]. split; [exact Ho|].
  split; [unfold step, goStep, run; cbn; rewrite aw_fault0; unfold closeDone; cbn; by rewrite Hdn|done].
Qed.

(** A BYE read and handled, and [Run] closing the transport and the capture. *)
Definition byeHandled (w : list byte) (a : Transport.UDPAddr) : list label :=
  [LRecv (RRead (Transport.RData w a)); LRecv (RDecode 0); LRun UWake; LRun UDecide;
   LRun UCloseTransport; LRun UCloseCapture].

Lemma bye_nil_handle s a w cap r : awaiting s a -> ctx s = false -> is_bye (codecOf s) w ->
  capturePc s = CapTop -> capture (br s) = Some cap ->
  exists s1 s2, steps (byeHandled w a ++ [LCapture CTop]) s = Some s1 /\ fault s1 = None /\ ctx s1 = false /\
    runPc_ s1 = RunWait true /\ capturePc s1 = CapRead /\
    step (LCapture (CRead r)) s1 = Some s2 /\ fault s2 = Some NilHandleCall.
Proof.
  intros Haw Hx Hw Hcp Hcap. pose proof Haw as [].
  destruct (step_decode_bye s (gotBye s w a) a w) as (b' & E & Hdn & _ & Hc' & _); try done.
  rewrite Hcap in Hc'. do 2 eexists. split.
  { eapply steps_cons; [apply step_read_bye; [done|apply Hw]|].
    eapply steps_cons; [exact E|].
    eapply steps_cons; [unfold step, goStep, run; cbn; by rewrite aw_fault0, aw_run0, Hdn, orb_true_r|].
    eapply steps_cons; [unfold step, goStep, run; cbn; rewrite aw_fault0; by rewrite Hdn|].
    eapply steps_cons; [unfold step, goStep, run; cbn; by rewrite aw_fault0|].
    eapply steps_cons; [unfold step, goStep, run; cbn; by rewrite aw_fault0|].
    eapply steps_cons; [unfold step, goStep, captureLoop; cbn; by rewrite aw_fault0, Hcp, Hx|]. reflexivity. }
  split; [done|]. split; [done|]. split; [done|]. split; [done|].
  split; [unfold step, goStep, captureLoop; cbn; rewrite aw_fault0, Hc'; reflexivity|done].
Qed.

(** Two messages encoded in one order and received in the other. *)
Lemma inverted_codec c r f now :
  secureMode c = true -> same_key c r -> is_i64 now ->
  0 <= sendNonce c -> sendNonce c + 2 < 2 ^ 64 -> recvNonce r <= sendNonce c ->
  (14 <= length f <= 1514)%nat ->
  exists c1 wf c2 wp r', EncodeFrame f c = (c1, Ok wf) /\ EncodePing now c1 = (c2, wp) /\
    Decode wp r = (r', Ok (mkMessage MsgPing [] 0 [] [] now)) /\
    Decode wf r' = (r', Err ErrReplayDetected) /\ wireFrame c2 wf = Some f.
Proof.
  intros Hs Hk Hnow Hn0 Hn2 Hrn Hf.
  pose proof (send_secure (AFrame f) c Hf Hs) as Ef. cbn [send amsg_type amsg_payload] in Ef. cbv zeta in Ef.
  set (n1 := u64 (sendNonce c + 1)) in *. set (c1 := set_sendNonce n1 c) in *.
  assert (n1 = sendNonce c + 1) as En1 by (apply wrap_small; lia).
  pose proof (send_secure (APing now) c1 Hnow Hs) as Ep.
  pose proof (Decode_sent_secure c1 r (APing now) Hk Hs Hnow) as Dp. cbv zeta in Ep, Dp.
  assert (u64 (sendNonce c1 + 1) = sendNonce c + 2) as En2
    by (cbn; rewrite En1; rewrite wrap_small; lia).
  rewrite En2 in Ep, Dp. cbn [isHandshake] in Dp.
  cbn [send] in Ep. destruct (EncodePing now c1) as [c2 wp] eqn:E2. injection Ep as -> ->.
  set (r' := set_recvNonce (sendNonce c + 2) r).
  eexists c1, _, _, _, r'. split; [exact Ef|]. split; [exact E2|].
  split; [apply Dp; right; right; lia|]. split.
  - destruct Hk as [Hk Hm]. unfold Decode. unfold_prog.
    rewrite Hk. change (key r) with (key r').
    rewrite decode_genuine by first [cbn; congruence|rewrite En1; unfold is_u64; lia].
    cbn [isHandshake]. cbn. rewrite En1, (proj2 (Z.ltb_lt _ _)), (proj2 (Z.leb_le _ _)) by lia. done.
  - pose proof (encode_wire MsgFrame f c) as Hw. rewrite encode_secure in Hw by done.
    cbv zeta in Hw. cbn [snd] in Hw. rewrite bool_decide_eq_true_2 in Hw by done.
    rewrite <- Hw. by apply wireFrame_key.
Qed.

(** ** Claims *)

(** C11. In every reachable state of every schedule: both queues are within
    their capacity, every queued slice lies in the receive buffer and is as
    long as a legal Ethernet frame, [done] is closed whenever its [Once] has
    run, and decoding has not panicked. *)
Theorem bridge_invariant (b : Bridge) (s : Sys) :
  fresh_bridge b -> reachable b s ->
  (length (framesToSend (br s)) <= 256)%nat /\ (length (framesToInject (br s)) <= 256)%nat /\
  Forall (fun sl => (off sl + len sl <= length (recvBuf s))%nat /\ (14 <= len sl <= 1514)%nat)
    (framesToInject (br s)) /\
  (doneOnce (br s) = true -> done (br s) = true) /\ fault s <> Some DecodePanic.
Proof.
  intros Hb Hr. destruct (reachable_inv _ _ Hb Hr).
  split_and!; [exact inv_send0|exact inv_inject0| |exact inv_once0|exact inv_fault0].
  apply Forall_app in inv_slices0 as [Hs _]. eapply Forall_impl; [exact Hs|].
  intros sl [H1 H2]. by rewrite inv_buf0.
Qed.

(** [Run] never returns before its context is cancelled: after the peer
    disconnects, by BYE or by silence, [Run] stays blocked, and does not return
    [ErrPeerDisconnected], for as long as the application lives. *)
Theorem run_returns_only_when_cancelled (b : Bridge) (s : Sys) (r : outcome berr unit) :
  fresh_bridge b -> reachable b s -> runPc_ s = RunReturn r -> ctx s = true /\ done (br s) = true.
Proof.
  intros Hb Hr Hp. destruct (reachable_inv _ _ Hb Hr).
  destruct (inv_return0 r Hp) as [Hx Hd]. auto.
Qed.

(** A received frame is queued as it came: when the receiving goroutine
    decodes a FRAME datagram from the peer and the queue has room, the slice
    it queues has the bytes of the frame, and keeps them as long as no other
    datagram is read. *)
Theorem queued_frame_intact (s : Sys) (now : Z) (n : nat) (a : Transport.UDPAddr) (c : Codec) (msg : Message) :
  sys_inv s -> fault s = None -> recvPc_ s = RecvDecode n a -> recvPeer s = Some a ->
  Decode (slice 0 n (recvBuf s)) (codecOf s) = (c, Ok msg) -> Type_ msg = MsgFrame ->
  (length (framesToInject (br s)) < ChannelBufferSize)%nat ->
  exists s1 sl, step (LRecv (RDecode now)) s = Some s1 /\
    framesToInject (br s1) = framesToInject (br s) ++ [sl] /\
    forall ls s2, Forall (fun l => isRead l = false) ls -> steps ls s1 = Some s2 ->
      bytesOf s2 sl = Frame msg.
Proof.
  intros Hi Hf Hp Ha Hd Ht Hq. rewrite (step_decode s now n a c msg) by done.
  destruct (Decode_frame _ _ _ _ Hd Ht) as (Hfr & Hl & _).
  unfold dispatch. rewrite bool_decide_eq_true_2 by done. cbn [br upd_br set_br].
  eexists _, _. split; [reflexivity|]. split.
  - cbn. unfold trySend. by rewrite (proj2 (Nat.ltb_lt _ _)).
  - intros ls s2 Hls Es. apply steps_recvBuf in Es; [|done]. unfold bytesOf. rewrite Es. cbn.
    rewrite (payloadOff_Decode _ _ _ _ Hd). rewrite Hfr at 2.
    rewrite length_slice in Hl by (rewrite (inv_buf _ Hi); by eapply inv_decode).
    by rewrite slice_slice0 by lia.
Qed.

(** The start of a connected bridge's receiving goroutine. *)
Lemma start_awaiting b a : connected_bridge b a ->
  exists s, steps [LRecv RStart; LRecv RTop] (start b) = Some s /\
    awaiting s a /\ ctx s = false /\ codecOf s = Transport.codec (transport b) /\
    capturePc s = CapWaitReady /\ capture (br s) = capture b /\ captureReady (br s) = captureReady b.
Proof.
  intros [(_ & _ & Ho & Hdn) Hc _ Hcl Hp _ _]. eexists. split; [reflexivity|].
  split; [constructor; first [apply length_replicate|done]|done].
Qed.

(** C28. Shutting down while the peer says goodbye can panic: when the context is
    cancelled and [Run] has decided that the shutdown is its own, with [done]
    still open, a BYE handled before [Run] closes [done] closes it, and then
    [Run]'s own close panics. *)
Theorem shutdown_double_close (b : Bridge) (a : Transport.UDPAddr) (w : list byte) :
  connected_bridge b a -> is_bye (Transport.codec (transport b)) w ->
  exists s1 s2 s3,
    steps ([LRecv RStart; LRecv RTop; LCancel] ++ byeRace w a) (start b) = Some s1 /\
    runPc_ s1 = RunBye /\ done (br s1) = false /\
    steps [LRecv (RDecode 0); LRun (UBye None)] s1 = Some s2 /\ fault s2 = None /\ doneOnce (br s2) = true /\
    step (LRun UCloseDone) s2 = Some s3 /\ fault s3 = Some DoubleClose.
Proof.
  intros Hb Hw. destruct (start_awaiting b a Hb) as (s0 & E0 & Haw & _ & Hc & _).
  destruct (bye_race (set_ctx true s0) a w) as (s1 & s2 & s3 & E & H);
    [by destruct Haw; constructor|done|cbn; by rewrite Hc|].
  exists s1, s2, s3. split; [|exact H].
  change [LRecv RStart; LRecv RTop; LCancel] with ([LRecv RStart; LRecv RTop] ++ [LCancel]).
  rewrite <- app_assoc, steps_app, E0. cbn [mbind option_bind]. rewrite steps_app.
  assert (steps [LCancel] s0 = Some (set_ctx true s0)) as ->; [|exact E].
  destruct Haw. unfold steps, step. by rewrite aw_fault0.
Qed.

(** C29. A peer's goodbye makes the capture goroutine use a closed capture: the
    BYE is handled, [Run] closes the transport and the capture and waits for
    the goroutines, the context is not cancelled and so the capture goroutine
    goes on, and its next read, whatever the handle would have yielded, is a
    call on a nil handle. *)
Theorem disconnect_nil_handle (b : Bridge) (a : Transport.UDPAddr) (w : list byte) (r : Capture.pcap_read) :
  connected_bridge b a -> is_bye (Transport.codec (transport b)) w ->
  exists s1 s2,
    steps ([LRecv RStart; LRecv RTop; LCapture CReady] ++ byeHandled w a ++ [LCapture CTop]) (start b) = Some s1 /\
    fault s1 = None /\ ctx s1 = false /\ runPc_ s1 = RunWait true /\ capturePc s1 = CapRead /\
    step (LCapture (CRead r)) s1 = Some s2 /\ fault s2 = Some NilHandleCall.
Proof.
  intros Hb Hw. destruct (start_awaiting b a Hb) as (s0 & E0 & Haw & Hx & Hc & Hcp & Hcap & Hr).
  destruct Hb as [_ _ _ _ _ (cap & Hcap' & _) Hready].
  destruct (bye_nil_handle (set_capturePc CapTop s0) a w cap r) as (s1 & s2 & E & H);
    [by destruct Haw; constructor|done|cbn; by rewrite Hc|done|cbn; congruence|].
  exists s1, s2. split; [|exact H].
  change [LRecv RStart; LRecv RTop; LCapture CReady] with ([LRecv RStart; LRecv RTop] ++ [LCapture CReady]).
  rewrite <- app_assoc, steps_app, E0. cbn [mbind option_bind]. rewrite steps_app.
  assert (steps [LCapture CReady] s0 = Some (set_capturePc CapTop s0)) as ->; [|exact E].
  destruct Haw. unfold steps, step, goStep, captureLoop. by rewrite aw_fault0, Hcp, Hr, Hready.
Qed.

(** C27. The nonces of the wire can be out of order: encoding and sending are
    two steps, and a ping encoded after a frame can be sent before it.  The
    receiver, which accepts the ping, then rejects the genuine frame as a
    replay. *)
Theorem nonce_inversion (b : Bridge) (a : Transport.UDPAddr) (r : Codec) (f : list byte) (now : Z) :
  connected_bridge b a -> secureMode (Transport.codec (transport b)) = true ->
  pendingPing b = 0 -> is_i64 now ->
  same_key (Transport.codec (transport b)) r ->
  0 <= sendNonce (Transport.codec (transport b)) -> sendNonce (Transport.codec (transport b)) + 2 < 2 ^ 64 ->
  recvNonce r <= sendNonce (Transport.codec (transport b)) ->
  (14 <= length f <= 1514)%nat ->
  exists s wp wf r',
    steps [LCapture CReady; LCapture CTop; LCapture (CRead (Capture.PData f)); LCapture CPut;
           LSend STake; LSend SEncode; LPing (PTick now); LPing PEncode; LPing (PSend None);
           LSend (SWrite None)] (start b) = Some s /\
    Transport.sent (transport (br s)) = Transport.sent (transport b) ++ [(wp, a); (wf, a)] /\
    wireFrame (codecOf s) wf = Some f /\
    Decode wp r = (r', Ok (mkMessage MsgPing [] 0 [] [] now)) /\
    Decode wf r' = (r', Err ErrReplayDetected).
Proof.
  intros [(Hq & _) Hc Hcon Hcl Hp (cap & Hcap & Hh) Hr] Hs Hpp Hnow Hk Hn0 Hn2 Hrn Hf.
  destruct (inverted_codec _ r f now Hs Hk Hnow Hn0 Hn2 Hrn Hf)
    as (c1 & wf & c2 & wp & r' & E1 & E2 & D1 & D2 & Hw).
  unfold start. generalize (make_bytes recvBufSize) as buf. intros buf.
  destruct b as [cap0 rdy [cn pa md cod ch con cl snt] st md' si stt fs fi dn dno pp mp em].
  cbn in Hq, Hc, Hcon, Hcl, Hp, Hcap, Hr, Hpp, E1. subst.
  assert (Capture.ReadPacket (Capture.PData f) cap = Capture.HRet (Some f)) as Er.
  { unfold Capture.ReadPacket. rewrite Hh, (proj2 (Nat.eqb_neq (length f) 0)) by lia.
    by rewrite go_copy_full by (unfold make_bytes; by rewrite ?length_replicate). }
  eexists _, wp, wf, r'. split; [|split; [|split; [|split]]]; [| | |exact D1|exact D2].
  - run_step. run_step.
    eapply steps_cons; [unfold step, goStep, captureLoop; cbn; rewrite Er; cbn; flatten; reflexivity|].
    run_step. run_step.
    eapply steps_cons; [unfold step, goStep, sendLoop, encodeFrame; cbn; rewrite E1; cbn; flatten; reflexivity|].
    run_step.
    eapply steps_cons; [unfold step, goStep, pingLoop, encodeMsg; cbn; rewrite E2; cbn; flatten; reflexivity|].
    run_step. run_step. reflexivity.
  - cbn. by rewrite <- app_assoc.
  - exact Hw.
Qed.

(** ** Statistics without an interval *)

Definition isStats (e : Events.EventType * Events.Data) : bool :=
  match fst e with Events.EventStats => true | _ => false end.

Definition statsEvents (b : Bridge) : list (Events.EventType * Events.Data) :=
  List.filter isStats (emitted b).

(** A change that emits no statistics. *)
Lemma emit_other t d b : t <> Events.EventStats -> statsEvents (emit t d b) = statsEvents b.
Proof.
  intros H. unfold statsEvents, emit. cbn [emitted set_emitted]. rewrite List.filter_app. cbn.
  destruct t; cbn; try done; apply app_nil_r.
Qed.

Lemma setState_noStats st b : statsEvents (setState st b) = statsEvents b.
Proof. unfold setState. case_bool_decide; [|done]. by rewrite emit_other. Qed.

Lemma doneOnceClose_noStats b b' : doneOnceClose b = Some b' -> statsEvents b' = statsEvents b.
Proof. unfold doneOnceClose, closeDone. intros E. repeat case_match; by simplify_eq/=. Qed.

Lemma handlePong_noStats ts now b : statsEvents (handlePong ts now b) = statsEvents b.
Proof.
  unfold handlePong. destruct (pendingPing b =? 0); [done|]. destruct (negb _); [done|]. cbv zeta.
  by rewrite emit_other.
Qed.

Lemma handleBye_noStats b b' : handleBye b = Some b' -> statsEvents b' = statsEvents b.
Proof. unfold handleBye. intros E. apply doneOnceClose_noStats in E. by rewrite E, setState_noStats. Qed.

Lemma pingCheck_noStats now b b' r : pingCheck now b = (b', r) -> statsEvents b' = statsEvents b.
Proof. by intros ->%BridgeProps.pingCheck_same. Qed.

Lemma sendMsg_emitted w io b b' r : sendMsg w io b = (b', r) -> emitted b' = emitted b.
Proof. unfold sendMsg. destruct (Transport.Send _ _ _). by intros [= <- _]. Qed.
Lemma encodeMsg_emitted enc b b' w : encodeMsg enc b = (b', w) -> emitted b' = emitted b.
Proof. unfold encodeMsg. destruct (enc _). by intros [= <- _]. Qed.
Lemma encodeFrame_emitted f b b' r : encodeFrame f b = (b', r) -> emitted b' = emitted b.
Proof. unfold encodeFrame. destruct (EncodeFrame _ _). by intros [= <- _]. Qed.

Lemma dispatch_noStats msg now s : statsPc_ (dispatch msg now s) = statsPc_ s /\
  statsEvents (br (dispatch msg now s)) = statsEvents (br s).
Proof.
  unfold dispatch. repeat case_bool_decide; try done.
  - split; [done|]. apply handlePong_noStats.
  - destruct (handleBye (br s)) as [b|] eqn:E; [|done]. split; [done|]. by apply handleBye_noStats.
Qed.

(** Closes the cases of a step that emits nothing. *)
Ltac no_emission := split; [done|]; unfold statsEvents; cbn; f_equal;
  first [done | by eapply sendMsg_emitted | by eapply encodeMsg_emitted | by eapply encodeFrame_emitted].

Lemma step_noStats l s s' : statsPc_ s = StatsNone -> step l s = Some s' ->
  statsPc_ s' = StatsNone /\ statsEvents (br s') = statsEvents (br s).
Proof.
  intros Hn E. unfold step in E. destruct (fault s); [done|].
  destruct l as [|cap|l|l|l|l|l|l|l|l]; cbn in E.
  - by injection E as <-.
  - unfold SetCapture in E. destruct (capture (br s)); [by injection E as <-|].
    cbn in E. destruct (captureReady (br s)); by injection E as <-.
  - destruct l; unfold captureLoop in E; by step_cases E.
  - destruct l; unfold sendLoop in E; step_cases E; try done; no_emission.
  - destruct l; unfold recvLoop in E; step_cases E; try done; try no_emission.
    + unfold recvInto. destruct (Transport.Recv _ _ _) as [[]| |]; try case_match; done.
    + destruct (dispatch_noStats a now (upd_br (upd_transport (Transport.set_codec c)) s)) as [H1 H2].
      by rewrite H1, H2.
  - destruct l; unfold injectLoop in E; by step_cases E.
  - destruct l; unfold pingLoop in E; step_cases E; try done; try no_emission.
    + split; [done|]. by eapply pingCheck_noStats.
    + split; [done|]. by eapply pingCheck_noStats.
    + split; [done|]. by apply emit_other.
    + split; [done|]. apply setState_noStats.
    + split; [done|]. by eapply doneOnceClose_noStats.
  - destruct l; unfold statsLoop in E; by rewrite Hn in E.
  - destruct l; unfold stdinLoop in E; step_cases E; try done; cbn in *; congruence.
  - destruct l; unfold run in E; step_cases E; try done; cbn.
    + unfold closeDone in Heqo. case_match; by simplify_eq.
    + split; [done|]. apply setState_noStats.
    + split; [done|]. apply setState_noStats.
Qed.

(** C38. With a statistics interval of zero or less, no statistics are ever
    printed: pressing Enter, too, only reaches a goroutine that was never
    started. *)
Theorem enter_prints_nothing (b : Bridge) (s : Sys) (Hi : statsInterval b <= 0) (Hr : reachable b s) :
  statsEvents (br s) = statsEvents b.
Proof.
  assert (forall s0, rtc stepR s0 s -> statsPc_ s0 = StatsNone -> statsEvents (br s) = statsEvents (br s0)) as H.
  { induction 1 as [|s1 s2 s3 [l E] _ IH]; [done|]. intros Hn.
    destruct (step_noStats _ _ _ Hn E) as [Hn2 <-]. by apply IH. }
  apply (H (start b)); [exact Hr|]. cbn. by rewrite (proj2 (Z.ltb_ge _ _)).
Qed.

End claims.

(** ** Witnesses *)

Definition ex_peer : Transport.UDPAddr := Transport.mkUDPAddr [xc0; xa8; x01; x64] 31415 EmptyString.

Definition ex_rnd : list byte := replicate ChallengeSize x00.

(** The two transports before the handshake. *)
Definition ex_listening (key : list byte) : Transport.Transport :=
  Transport.mkTransport Transport.ConnOpen None Transport.ModeListen (NewCodec key) [] false false [].
Definition ex_connecting (key : list byte) : Transport.Transport :=
  Transport.mkTransport Transport.ConnOpen (Some ex_peer) Transport.ModeConnect (NewCodec key) [] false false [].

Definition ex_hello (key : list byte) : list byte := (TransportProps.helloOf ex_rnd (ex_connecting key)).2.
Definition ex_ack (key : list byte) : list byte := (TransportProps.ackOf ex_rnd (ex_listening key)).2.

Definition ex_codec (key : list byte) : Codec :=
  mkCodec key (if (0 <? length key)%nat then 1 else 0) 0 (0 <? length key)%nat.

Definition ex_capture : Capture.Capture := Capture.mkCapture Capture.HandleOpen (replicate 6 x02) "eth0".

(** A bridge as [New] makes it, and the bridge it is once a peer's HELLO was
    answered. *)
Definition ex_new (key : list byte) : Bridge :=
  mkBridge (Some ex_capture) true (ex_listening key) zeroStats Transport.ModeListen 0 StateDisconnected
    [] [] false false 0 0 [].

Definition ex_live (key : list byte) : Bridge :=
  mkBridge (Some ex_capture) true
    (Transport.mkTransport Transport.ConnOpen (Some ex_peer) Transport.ModeListen (ex_codec key) ex_rnd
       true false [(ex_ack key, ex_peer)])
    zeroStats Transport.ModeListen 0 StateConnected [] [] false false 0 0
    [(Events.EventStateChanged, Events.DStateChanged (Events.mkStateChangedData "CONNECTING" EmptyString));
     (Events.EventStateChanged, Events.DStateChanged (Events.mkStateChangedData "CONNECTED" "192.168.1.100:31415"))].

#[global] Arguments ex_ack : simpl never.
#[global] Arguments ex_hello : simpl never.

(** [Run] starts the goroutines with it. *)
Lemma ex_live_run key :
  New (mkConfig (Some ex_capture) (Some (ex_listening key)) true true Transport.ModeListen 0) = Ok (ex_new key) /\
  connectPhase [Transport.mkWait false (Transport.RData (ex_hello key) ex_peer) None] [] false (ex_new key)
  = (ex_live key, Some (Ok true)).
Proof.
  split; [done|]. unfold connectPhase.
  destruct (TransportProps.handshake_run (ex_connecting key) (ex_listening key) ex_peer ex_peer ex_rnd 0 0)
    as [H _]; try done. cbn [replicate app] in H.
  assert (TransportProps.connectedL ex_rnd ex_peer (ex_listening key) = transport (ex_live key)) as Ht.
  { unfold TransportProps.connectedL, ex_live. cbn [transport]. f_equal.
    unfold TransportProps.ackOf. rewrite encode_state.
    unfold ex_codec, ResetRecvNonce, set_sendNonce, ex_listening, NewCodec. cbn. by destruct (length key). }
  rewrite BridgeProps.setState_transport. change (mode _) with Transport.ModeListen. cbn [bool_decide decide].
  change (transport (ex_new key)) with (ex_listening key). fold (ex_hello key) in H.
  destruct (bool_decide _) eqn:Hm; [|by apply bool_decide_eq_false in Hm]. rewrite H, Ht. done.
Qed.

Lemma ex_connected key : connected_bridge (ex_live key) ex_peer.
Proof. constructor; try done. by eexists. Qed.

Lemma ex_is_bye : is_bye (NewCodec []) [MsgBye].
Proof.
  split; [pose proof recvBufSize_big; cbn; lia|].
  exists (NewCodec []), (zeroMessage MsgBye). split; [by apply Decode_insecure_bye|reflexivity].
Qed.

(** An idle bridge that is shut down. *)
Definition ex_shutdown : list label :=
  [LCancel; LCapture CCtx; LSend SCtx; LRecv RStart; LRecv RTop; LInject ICtx; LPing PCtx;
   LStdin DCtx; LRun UWake; LRun UDecide; LRun (UBye None); LRun UCloseDone; LRun UCloseTransport;
   LRun UCloseCapture; LRun UWait].

Lemma ex_shutdown_steps buf :
  exists s, steps ex_shutdown (startWith buf (ex_live [])) = Some s /\ runPc_ s = RunReturn (Ok tt).
Proof.
  eexists. split.
  - do 15 run_step. reflexivity.
  - reflexivity.
Qed.

Lemma bridge_invariant_witness :
  exists s, reachable (ex_live []) s /\ runPc_ s = RunReturn (Ok tt) /\
    (length (framesToSend (br s)) <= 256)%nat.
Proof.
  destruct (ex_shutdown_steps (make_bytes recvBufSize)) as (s & E & Hr).
  apply steps_rtc in E. exists s. split; [exact E|]. split; [exact Hr|].
  apply (bridge_invariant (ex_live []) s); [|exact E]. repeat split.
Defined.

Lemma run_returns_only_when_cancelled_witness : exists s, reachable (ex_live []) s /\ ctx s = true.
Proof.
  destruct (ex_shutdown_steps (make_bytes recvBufSize)) as (s & E & Hr).
  apply steps_rtc in E. exists s. split; [exact E|].
  apply (run_returns_only_when_cancelled (ex_live []) s (Ok tt)); [repeat split|exact E|exact Hr].
Defined.

(** A frame captured and sent. *)
Definition ex_frame1 : list byte := replicate 20 xaa.
Definition ex_frame2 : list byte := replicate 20 xbb.
Definition ex_forward : list label :=
  [LCapture CReady; LCapture CTop; LCapture (CRead (Capture.PData ex_frame1)); LCapture CPut;
   LSend STake; LSend SEncode; LSend (SWrite None)].

Lemma ex_forward_steps buf :
  exists s, steps ex_forward (startWith buf (ex_live [])) = Some s /\
    Transport.sent (transport (br s)) = [(ex_ack [], ex_peer); (MsgFrame :: ex_frame1, ex_peer)].
Proof.
  eexists. split.
  - do 7 run_step. reflexivity.
  - reflexivity.
Qed.

Lemma queued_frame_intact_witness :
  exists s s1 sl, step (LRecv (RDecode 0)) s = Some s1 /\ bytesOf s1 sl = ex_frame1.
Proof.
  pose proof (ex_connected []) as Hb. destruct (start_awaiting _ _ Hb) as (s0 & E0 & Haw & _ & Hc & _ & _ & _).
  pose proof Haw as []. pose proof recvBufSize_big.
  assert (sys_inv s0) as Hi by (eapply reachable_inv; [apply Hb|by eapply steps_rtc]).
  assert (sys_inv (gotBye s0 (MsgFrame :: ex_frame1) ex_peer)) as Hi1.
  { eapply step_inv; [exact Hi|]. apply step_read_bye; [exact Haw|cbn; lia]. }
  destruct (queued_frame_intact (gotBye s0 (MsgFrame :: ex_frame1) ex_peer) 0 21 ex_peer (NewCodec [])
    (mkMessage MsgFrame ex_frame1 0 [] [] 0)) as (s1 & sl & E1 & _ & H1).
  - exact Hi1.
  - exact aw_fault0.
  - reflexivity.
  - exact aw_peer0.
  - change 21%nat with (length (MsgFrame :: ex_frame1)). cbn [gotBye recvBuf set_recvPc_ set_recvBuf].
    rewrite slice_go_copy by (rewrite aw_buf0; cbn; lia).
    change (codecOf (gotBye s0 (MsgFrame :: ex_frame1) ex_peer)) with (codecOf s0). rewrite Hc.
    apply Decode_insecure_frame; [reflexivity|cbn; unfold MinEthernetFrame, MaxFrameSize; lia].
  - reflexivity.
  - assert (framesToInject (br s0) = []) as Hq.
    { change s0 with (default s0 (Some s0)). rewrite <- E0. reflexivity. }
    change (br (gotBye s0 (MsgFrame :: ex_frame1) ex_peer)) with (br s0).
    rewrite Hq. cbn. unfold ChannelBufferSize. lia.
  - exists (gotBye s0 (MsgFrame :: ex_frame1) ex_peer), s1, sl. split; [exact E1|].
    exact (H1 [] s1 ltac:(constructor) eq_refl).
Defined.

Lemma shutdown_double_close_witness : exists s2 s3,
  fault s2 = None /\ step (LRun UCloseDone) s2 = Some s3 /\ fault s3 = Some DoubleClose.
Proof.
  destruct (shutdown_double_close (ex_live []) ex_peer [MsgBye]) as (s1 & s2 & s3 & _ & _ & _ & _ & Hf & _ & E & H);
    [apply ex_connected|exact ex_is_bye|]. exists s2, s3. exact (conj Hf (conj E H)).
Defined.

Lemma disconnect_nil_handle_witness : exists s1 s2,
  runPc_ s1 = RunWait true /\ step (LCapture (CRead Capture.PTimeout)) s1 = Some s2 /\ fault s2 = Some NilHandleCall.
Proof.
  destruct (disconnect_nil_handle (ex_live []) ex_peer [MsgBye] Capture.PTimeout)
    as (s1 & s2 & _ & _ & _ & Hr & _ & E & H); [apply ex_connected|exact ex_is_bye|].
  exists s1, s2. exact (conj Hr (conj E H)).
Defined.

Lemma nonce_inversion_witness :
  exists s wp wf r', Transport.sent (transport (br s)) = [(ex_ack ex_key, ex_peer); (wp, ex_peer); (wf, ex_peer)] /\
    Decode wf r' = (r', Err ErrReplayDetected).
Proof.
  destruct (nonce_inversion (ex_live ex_key) ex_peer (NewCodec ex_key) ex_frame1 7)
    as (s & wp & wf & r' & _ & Hs & _ & _ & Hd);
    [apply ex_connected|reflexivity|reflexivity|unfold is_i64; lia|done|cbn; lia|cbn; lia|cbn; lia
    |cbn; lia|].
  exists s, wp, wf, r'. exact (conj Hs Hd).
Defined.

(** Enter at an idle bridge without an interval. *)
Lemma enter_prints_nothing_witness :
  exists s, reachable (ex_live []) s /\ stdinPc_ s = StdinSelect /\ statsEvents (br s) = [].
Proof.
  assert (reachable (ex_live []) (start (ex_live []))) as Hr.
  { eapply rtc_l; [exists (LStdin DEnter); reflexivity|].
    eapply rtc_l; [exists (LStdin DForward); reflexivity|]. apply rtc_refl. }
  exists (start (ex_live [])). split; [exact Hr|]. split; [reflexivity|].
  apply (enter_prints_nothing (ex_live [])); [reflexivity|exact Hr].
Defined.

End BridgeClaims.
