(* ===== verification/Session.v ===== *)
(** * Two bridges: what the receiver accepts is what the sender captured

    The sending side stamps its frames with growing nonces and sends them in
    that order, whatever its goroutines do in between; the receiving side
    accepts only datagrams under the key, each nonce once and growing.  With a
    network that may drop, repeat and reorder, and add what has no valid HMAC,
    but does not send the receiver its own datagrams, the frames the receiver
    accepts are therefore a subsequence of the frames the sender captured. *)

From Stdlib Require Import Sorted.
From S2P Require Import Prelude Sha256 Protocol ProtocolProps Transport TransportProps.
From S2P Require Import Capture Bridge BridgeProps BridgeRun BridgeRunProps BridgeClaims.
Import Protocol ProtocolProps Bridge BridgeRun BridgeRunProps BridgeClaims.

Module Session.

#[local] Opaque recvBufSize.

(** ** The order of nonces on the wire *)

Definition isFrame (w : list byte) : bool :=
  match w with t :: _ => bool_decide (t = MsgFrame) | [] => false end.
Definition isHandshakeW (w : list byte) : bool :=
  match w with t :: _ => isHandshake t | [] => false end.

Section sender.
Context `{M : Mac}.

(** A datagram this codec produced outside the handshake, before now. *)
Definition stamped (c : Codec) (w : list byte) : Prop :=
  exists t n p, w = signedPart t n p ++ mac (key c) (signedPart t n p) /\ isHandshake t = false /\
    1 <= n <= sendNonce c /\ is_u64 n.

Abbreviation sentOf s := (Transport.sent (transport (br s))).

Definition frameNonces (ds : list (list byte * Transport.UDPAddr)) : list Z :=
  omap (fun d => if isFrame (fst d) then Some (wireNonce (fst d)) else None) ds.

Definition sent_ok (c : Codec) (ds : list (list byte * Transport.UDPAddr)) : Prop :=
  Forall (fun d => isHandshakeW (fst d) = true \/ stamped c (fst d)) ds.

(** The nonces of the frames sent grow; a frame about to be sent has a later
    one; what other goroutines are about to send is not a frame. *)
Record tx_order (s : Sys) : Prop := {
  to_secure : secureMode (codecOf s) = true;
  to_pos : 0 <= sendNonce (codecOf s);
  to_sent : sent_ok (codecOf s) (sentOf s);
  to_send : forall f w, sendPc_ s = SendWrite f w ->
    stamped (codecOf s) w /\ isFrame w = true /\ Forall (fun n => n < wireNonce w) (frameNonces (sentOf s));
  to_recv : forall w, recvPc_ s = RecvSend w -> stamped (codecOf s) w /\ isFrame w = false;
  to_ping : forall w, pingPc_ s = PingSend w -> stamped (codecOf s) w /\ isFrame w = false;
  to_sorted : StronglySorted Z.lt (frameNonces (sentOf s));
}.

(** The codec kept its key and took at most one nonce. *)
Definition grown (c c' : Codec) : Prop :=
  same_key c' c /\ sendNonce c <= sendNonce c' <= sendNonce c + 1.

Lemma grown_refl c : grown c c.
Proof. split; [done|lia]. Qed.

Lemma stamped_grown c c' w : grown c c' -> stamped c w -> stamped c' w.
Proof.
  intros [[Hk _] Hn] (t & n & p & -> & Ht & Hb & Hu). exists t, n, p. rewrite Hk. split_and!; try done; lia.
Qed.

Lemma sent_ok_grown c c' ds : grown c c' -> sent_ok c ds -> sent_ok c' ds.
Proof.
  intros Hg H. eapply Forall_impl; [exact H|]. intros d [Hh|Hs]; [by left|right]. by eapply stamped_grown.
Qed.

(** A change that sends at most one datagram, stamped and not a frame. *)
Definition calm (b b' : Bridge) : Prop :=
  grown (Transport.codec (transport b)) (Transport.codec (transport b')) /\
  (Transport.sent (transport b') = Transport.sent (transport b) \/
   exists w a, Transport.sent (transport b') = Transport.sent (transport b) ++ [(w, a)] /\
     stamped (Transport.codec (transport b')) w /\ isFrame w = false).

Lemma frameNonces_app ds ds' : frameNonces (ds ++ ds') = frameNonces ds ++ frameNonces ds'.
Proof. apply omap_app. Qed.

Lemma calm_sent b b' : calm b b' ->
  frameNonces (Transport.sent (transport b')) = frameNonces (Transport.sent (transport b)) /\
  (sent_ok (Transport.codec (transport b)) (Transport.sent (transport b)) ->
   sent_ok (Transport.codec (transport b')) (Transport.sent (transport b'))).
Proof.
  intros [Hg [->|(w & a & -> & Hs & Hf)]].
  - split; [done|]. by apply sent_ok_grown.
  - rewrite frameNonces_app. unfold frameNonces at 2. csimpl. rewrite Hf. rewrite app_nil_r.
    split; [done|]. intros H. apply Forall_app. split; [by eapply sent_ok_grown|].
    constructor; [by right|constructor].
Qed.

(** The invariant after a step that took at most one nonce. *)
Definition ordered (s s' : Sys) : Prop :=
  tx_order s' /\ sendNonce (codecOf s') <= sendNonce (codecOf s) + 1.

Lemma order_calm s s' :
  tx_order s -> calm (br s) (br s') ->
  (sendPc_ s' = sendPc_ s \/ forall f w, sendPc_ s' <> SendWrite f w) ->
  (recvPc_ s' = recvPc_ s \/ forall w, recvPc_ s' = RecvSend w -> stamped (codecOf s') w /\ isFrame w = false) ->
  (pingPc_ s' = pingPc_ s \/ forall w, pingPc_ s' = PingSend w -> stamped (codecOf s') w /\ isFrame w = false) ->
  ordered s s'.
Proof.
  intros [H1 H2 H3 H4 H5 H6 H7] Hc Hsp Hrp Hpp. destruct (calm_sent _ _ Hc) as [Hn Hs].
  destruct Hc as [Hg _]. pose proof Hg as [[_ Hm] Hb]. split; [|lia]. constructor.
  - congruence.
  - lia.
  - by apply Hs.
  - intros f w E. rewrite Hn. destruct Hsp as [Hsp|Hsp]; [|by destruct (Hsp f w)]. rewrite Hsp in E.
    destruct (H4 f w E) as (? & ? & ?). split_and!; try done. by eapply stamped_grown.
  - intros w E. destruct Hrp as [Hrp|Hrp]; [|by apply Hrp]. rewrite Hrp in E.
    destruct (H5 w E) as (? & ?). split; [|done]. by eapply stamped_grown.
  - intros w E. destruct Hpp as [Hpp|Hpp]; [|by apply Hpp]. rewrite Hpp in E.
    destruct (H6 w E) as (? & ?). split; [|done]. by eapply stamped_grown.
  - by rewrite Hn.
Qed.

Lemma calm_same b b' : transport b' = transport b -> calm b b'.
Proof. intros E. unfold calm. rewrite E. split; [apply grown_refl|by left]. Qed.

Lemma calm_codec b c : grown (Transport.codec (transport b)) c -> calm b (upd_transport (Transport.set_codec c) b).
Proof. intros H. split; [exact H|by left]. Qed.

(** What encoding does to a codec that does not wrap. *)
Lemma encode_stamped t p c : secureMode c = true -> 0 <= sendNonce c -> sendNonce c + 1 < 2 ^ 64 ->
  isHandshake t = false ->
  grown c (encode t p c).1 /\ stamped (encode t p c).1 (encode t p c).2 /\
  isFrame (encode t p c).2 = bool_decide (t = MsgFrame) /\
  wireNonce (encode t p c).2 = sendNonce c + 1.
Proof.
  intros Hs Hp Hw Ht. rewrite encode_secure by done. cbv zeta. cbn [fst snd].
  assert (u64 (sendNonce c + 1) = sendNonce c + 1) as -> by (apply Z.mod_small; lia).
  assert (is_u64 (sendNonce c + 1)) as Hu by (unfold is_u64; lia).
  split_and!; [split; [done|simpl; lia]| |done|by apply wireNonce_signed].
  exists t, (sendNonce c + 1), p. simpl. split_and!; try done; lia.
Qed.

(** The codec has a nonce left. *)
Definition room (s : Sys) : Prop := sendNonce (codecOf s) + 1 < 2 ^ 64.

Lemma calm_encodeMsg t p s b' w : tx_order s -> room s -> isHandshake t = false -> t <> MsgFrame ->
  encodeMsg (encode t p) (br s) = (b', w) ->
  calm (br s) b' /\ stamped (Transport.codec (transport b')) w /\ isFrame w = false.
Proof.
  intros [Hs Hp _ _ _ _ _] Hr Ht Hf. unfold encodeMsg.
  destruct (encode_stamped t p (codecOf s) Hs Hp Hr Ht) as (Hg & Hst & Hfr & _).
  destruct (encode t p (codecOf s)) as [c w'] eqn:Ee. simpl in *. intros [= <- <-].
  split; [by apply calm_codec|]. split; [done|]. by rewrite Hfr, bool_decide_eq_false_2.
Qed.

Lemma calm_sendMsg w io b b' r : stamped (Transport.codec (transport b)) w -> isFrame w = false ->
  sendMsg w io b = (b', r) -> calm b b'.
Proof.
  intros Hw Hf. unfold sendMsg. destruct (Transport.Send w io (transport b)) as [t r'] eqn:E.
  intros [= <- <-]. apply Send_sent in E as [Ec [[_ ->]|[_ [a Es]]]]; [by apply calm_same|].
  unfold calm. cbn. rewrite Ec, Es. split; [apply grown_refl|]. right. by exists w, a.
Qed.

Lemma calm_SendBye io s : tx_order s -> room s ->
  calm (br s) (upd_transport (fun t => fst (Transport.SendBye io t)) (br s)).
Proof.
  intros [Hs Hp _ _ _ _ _] Hr. unfold calm, upd_transport. cbn. unfold Transport.SendBye.
  case_match; [split; [apply grown_refl|by left]|]. unfold EncodeBye.
  destruct (encode_stamped MsgBye [] (codecOf s) Hs Hp Hr eq_refl) as (Hg & Hst & Hfr & _).
  destruct (encode MsgBye [] (codecOf s)) as [c bye] eqn:Ee. simpl in *. unfold Transport.writeToUDP.
  repeat case_match; simplify_eq/=; (split; [done|]); try (by left).
  right. eexists _, _. split; [done|]. by rewrite Hfr.
Qed.

Lemma calm_Close b : calm b (upd_transport (fun t => fst (Transport.Close None t)) b).
Proof. unfold calm, upd_transport. cbn. unfold Transport.Close. case_match; (split; [apply grown_refl|by left]). Qed.

Lemma calm_setState st b : calm b (setState st b).
Proof. apply calm_same. unfold setState. by case_bool_decide. Qed.
Lemma calm_handlePong ts now b : calm b (handlePong ts now b).
Proof. apply calm_same; unfold handlePong; by repeat case_match. Qed.
Lemma calm_handleBye b b' : handleBye b = Some b' -> calm b b'.
Proof.
  unfold handleBye, doneOnceClose, closeDone, setState. intros E.
  apply calm_same; repeat case_match; by simplify_eq/=.
Qed.
Lemma calm_pingCheck now b b' r : pingCheck now b = (b', r) -> calm b b'.
Proof. intros ->%BridgeProps.pingCheck_same. by apply calm_same. Qed.
Lemma calm_doneOnceClose b b' : doneOnceClose b = Some b' -> calm b b'.
Proof. intros ->%BridgeProps.doneOnceClose_same. by apply calm_same. Qed.
Lemma calm_emitStats r b : calm b (emitStats r b).
Proof. rewrite BridgeProps.emitStats_same. by apply calm_same. Qed.

Lemma grown_Decode data c c' r : Decode data c = (c', r) -> grown c c'.
Proof.
  intros E. pose proof (TransportProps.Decode_same_key _ _ _ _ E) as Hk.
  pose proof (Decode_state data c) as H1. rewrite E in H1. simpl in H1. subst c'.
  split; [done|]. destruct (decode_state data c) as [->|(n & _ & -> & _)]; simpl; lia.
Qed.

(** One step of a goroutine that does not send a frame. *)
Ltac calm_step :=
  eapply order_calm; [eassumption|try (by apply calm_same)|by left|first [by left | by right]|first [by left | by right]].

Lemma captureLoop_order l s s' : tx_order s -> captureLoop l s = Some s' -> ordered s s'.
Proof. intros H E. destruct l; unfold captureLoop in E; step_cases E; calm_step. Qed.

Lemma injectLoop_order l s s' : tx_order s -> injectLoop l s = Some s' -> ordered s s'.
Proof. intros H E. destruct l; unfold injectLoop in E; step_cases E; calm_step. Qed.

Lemma statsLoop_order l s s' : tx_order s -> statsLoop l s = Some s' -> ordered s s'.
Proof. intros H E. destruct l; unfold statsLoop in E; step_cases E; calm_step. apply calm_emitStats. Qed.

Lemma stdinLoop_order l s s' : tx_order s -> stdinLoop l s = Some s' -> ordered s s'.
Proof. intros H E. destruct l; unfold stdinLoop in E; step_cases E; calm_step. Qed.

Lemma dispatch_calm msg now s :
  transport (br (dispatch msg now s)) = transport (br s) /\ sendPc_ (dispatch msg now s) = sendPc_ s /\
  pingPc_ (dispatch msg now s) = pingPc_ s /\ forall w, recvPc_ s <> RecvSend w -> recvPc_ (dispatch msg now s) <> RecvSend w.
Proof.
  unfold dispatch. repeat case_bool_decide; try done.
  - split_and!; try done. unfold handlePong. cbn. by repeat case_match.
  - destruct (handleBye (br s)) as [b|] eqn:E; [|done]. split_and!; try done. cbn.
    unfold handleBye, doneOnceClose, closeDone, setState in E. repeat case_match; by simplify_eq/=.
Qed.

Lemma recvLoop_order l s s' : tx_order s -> room s -> recvLoop l s = Some s' -> ordered s s'.
Proof.
  intros H Hr E. destruct l; unfold recvLoop in E; step_cases E; try (by calm_step).
  - unfold recvInto. destruct (Transport.Recv _ _ _) as [[]| |]; try case_match; calm_step.
  - apply grown_Decode in Heqp. set (s1 := upd_br _ s). destruct (dispatch_calm a now s1) as (Ht & Hs & Hp & Hw).
    eapply order_calm; [exact H| |by left|right; intros w Hd; by destruct (Hw w (ltac:(cbn; congruence)))|by left].
    unfold calm. rewrite Ht. by apply calm_codec.
  - apply grown_Decode in Heqp. calm_step. by apply calm_codec.
  - apply grown_Decode in Heqp. calm_step. by apply calm_codec.
  - unfold EncodePong in Heqp. apply (calm_encodeMsg _ _ s) in Heqp as (Hc & Hst & Hf); [|done..].
    eapply order_calm; [eassumption|done|by left| |by left]. right. intros w [= <-]. done.
  - destruct (to_recv _ H _ Heqr) as [Hst Hf]. calm_step. by eapply calm_sendMsg.
Qed.

Lemma pingLoop_order l s s' : tx_order s -> room s -> pingLoop l s = Some s' -> ordered s s'.
Proof.
  intros H Hr E. destruct l; unfold pingLoop in E; step_cases E; try (by calm_step).
  - calm_step. by eapply calm_pingCheck.
  - calm_step. by eapply calm_pingCheck.
  - unfold EncodePing in Heqp0. apply (calm_encodeMsg _ _ s) in Heqp0 as (Hc & Hst & Hf); [|done..].
    eapply order_calm; [eassumption|done|by left|by left|]. right. intros w [= <-]. done.
  - destruct (to_ping _ H _ Heqp) as [Hst Hf]. calm_step. by eapply calm_sendMsg.
  - calm_step. apply calm_setState.
  - calm_step. by apply calm_doneOnceClose.
Qed.

Lemma run_order l s s' : tx_order s -> room s -> run l s = Some s' -> ordered s s'.
Proof.
  intros H Hr E. destruct l; unfold run in E; step_cases E; try (by calm_step); calm_step; cbn;
    auto using calm_SendBye, calm_Close, calm_setState.
  unfold closeDone in Heqo. case_match; simplify_eq. by apply calm_same.
Qed.

(** The nonces of the frames sent are not later than the counter. *)
Lemma frameNonces_bound c ds : sent_ok c ds -> Forall (fun n => n <= sendNonce c) (frameNonces ds).
Proof.
  induction 1 as [|[w a] ds Hd _ IH]; [constructor|]. unfold frameNonces. csimpl.
  destruct (isFrame w) eqn:Hf; [|exact IH]. constructor; [|exact IH]. simpl in Hd.
  destruct Hd as [Hh|(t & n & p & -> & _ & Hn & Hu)].
  - exfalso. destruct w as [|t w]; [done|]. simpl in *. apply bool_decide_eq_true in Hf. by subst.
  - rewrite wireNonce_signed by done. lia.
Qed.

Lemma sorted_snoc l (n : Z) : StronglySorted Z.lt l -> Forall (fun m => m < n) l -> StronglySorted Z.lt (l ++ [n]).
Proof.
  induction 1 as [|m l Hl IH Hm]; intros Hn; [by repeat constructor|].
  apply Forall_cons in Hn as [Hmn Hn]. simpl. constructor; [by apply IH|].
  apply Forall_app. split; [done|by constructor].
Qed.

(** Encoding the next frame gives it the next nonce. *)
Lemma encode_order f s b' r : tx_order s -> room s -> encodeFrame f (br s) = (b', r) ->
  calm (br s) b' /\ forall w, r = Ok w ->
    stamped (Transport.codec (transport b')) w /\ isFrame w = true /\
    Forall (fun n => n < wireNonce w) (frameNonces (Transport.sent (transport b'))).
Proof.
  intros [Hs Hp Hsent _ _ _ _] Hr. unfold encodeFrame, EncodeFrame.
  destruct (_ || _); [intros [= <- <-]; split; [apply calm_codec, grown_refl|done]|].
  destruct (encode_stamped MsgFrame f (codecOf s) Hs Hp Hr eq_refl) as (Hg & Hst & Hfr & Hn).
  destruct (encode MsgFrame f (codecOf s)) as [c w'] eqn:Ee. simpl in *. intros [= <- <-].
  split; [by apply calm_codec|]. intros w [= <-]. split_and!; try done. rewrite Hn.
  eapply Forall_impl; [by apply frameNonces_bound|]. simpl. lia.
Qed.

Lemma send_order f w io s b' r : tx_order s -> sendPc_ s = SendWrite f w -> sendMsg w io (br s) = (b', r) ->
  ordered s (set_sendPc_ SendSelect (set_br b' s)) /\
  codecOf (set_sendPc_ SendSelect (set_br b' s)) = codecOf s.
Proof.
  intros H Hp. destruct (to_send _ H _ _ Hp) as (Hst & Hf & Hlt). unfold sendMsg.
  destruct (Transport.Send w io (transport (br s))) as [t r'] eqn:E. intros [= <- <-].
  apply Send_sent in E as [Ec [[_ ->]|[_ [a Es]]]].
  { split; [|done]. eapply order_calm; [exact H|by apply calm_same|by right|by left|by left]. }
  destruct H as [H1 H2 H3 _ H5 H6 H7].
  split; [|done]. split; [|cbn; rewrite Ec; lia]. constructor; cbn; rewrite ?Ec, ?Es; try done.
  - apply Forall_app. split; [done|]. constructor; [by right|constructor].
  - rewrite frameNonces_app. unfold frameNonces at 2. csimpl. rewrite Hf. by apply sorted_snoc.
Qed.

Lemma sendLoop_order l s s' : tx_order s -> room s -> sendLoop l s = Some s' -> ordered s s'.
Proof.
  intros H Hr E. destruct l; unfold sendLoop in E; step_cases E.
  - eapply order_calm; [exact H|by apply calm_same|by right|by left|by left].
  - eapply order_calm; [exact H|by apply calm_same|by right|by left|by left].
  - destruct (encode_order _ _ _ _ H Hr Heqp) as [Hc Hw]. destruct (Hw _ eq_refl) as (Hst & Hf & Hlt).
    pose proof (order_calm s (set_sendPc_ SendSelect (set_br b s)) H Hc ltac:(by right) ltac:(by left) ltac:(by left))
      as [[K1 K2 K3 _ K5 K6 K7] Hb].
    split; [|exact Hb]. constructor; try done. intros g w [= <- <-]. done.
  - destruct (encode_order _ _ _ _ H Hr Heqp) as [Hc _].
    eapply order_calm; [exact H|done|by right|by left|by left].
  - destruct (encode_order _ _ _ _ H Hr Heqp) as [Hc _].
    eapply order_calm; [exact H|done|by right|by left|by left].
  - destruct (send_order _ _ _ _ _ _ H Heqs0 Heqp) as [[H' _] Hcod].
    destruct (order_calm _ (set_sendPc_ SendSelect (upd_br (countTx frame) (set_br b s))) H'
      ltac:(by apply calm_same) ltac:(by left) ltac:(by left) ltac:(by left)) as [? Hb].
    split; [done|]. cbn in *. rewrite Hcod. lia.
  - by destruct (send_order _ _ _ _ _ _ H Heqs0 Heqp).
  - by destruct (send_order _ _ _ _ _ _ H Heqs0 Heqp).
Qed.

Lemma step_order l s s' : tx_order s -> room s -> step l s = Some s' -> ordered s s'.
Proof.
  intros H Hr E. unfold step in E. destruct (fault s); [done|].
  destruct l as [|cap|l|l|l|l|l|l|l|l]; cbn in E;
    eauto using captureLoop_order, sendLoop_order, recvLoop_order, injectLoop_order, pingLoop_order,
      statsLoop_order, stdinLoop_order, run_order.
  - injection E as <-. calm_step.
  - unfold SetCapture in E. destruct (capture (br s)); [injection E as <-; calm_step|].
    cbn in E. destruct (captureReady (br s)); injection E as <-; calm_step.
Qed.

Lemma steps_order ls : forall s s', tx_order s -> sendNonce (codecOf s) + Z.of_nat (length ls) < 2 ^ 64 ->
  steps ls s = Some s' -> tx_order s'.
Proof.
  induction ls as [|l ls IH]; intros s s' H Hn E; cbn [steps] in E; [by simplify_eq|].
  destruct (step l s) as [s1|] eqn:E1; cbn [mbind option_bind] in E; [|done].
  assert (room s) as Hr by (unfold room; simpl length in Hn; lia).
  destruct (step_order _ _ _ H Hr E1) as [H1 Hb]. eapply IH; [exact H1| |exact E]. simpl length in Hn. lia.
Qed.

End sender.

(** ** What the receiver accepts *)

Section receiver.
Context `{M : Mac}.

(** The frame the receiving goroutine hands on at a step, if it does. *)
Definition acceptedFrame (l : label) (s : Sys) : option (list byte) :=
  match l, recvPc_ s with
  | LRecv (RDecode _), RecvDecode n addr =>
      if bool_decide (recvPeer s ≠ None) && negb (addrEqual (Some addr) (recvPeer s)) then None else
      match (Decode (slice 0 n (recvBuf s)) (codecOf s)).2 with
      | Ok msg => if bool_decide (Type_ msg = MsgFrame) then Some (Frame msg) else None
      | _ => None
      end
  | _, _ => None
  end.

Fixpoint acceptedFrames (ls : list label) (s : Sys) : list (list byte) :=
  match ls with
  | [] => []
  | l :: ls' =>
      match step l s with
      | None => []
      | Some s' => option_list (acceptedFrame l s) ++ acceptedFrames ls' s'
      end
  end.

(** The datagrams the network delivers during a schedule, as the buffer takes
    them. *)
Definition received (ls : list label) : list (list byte) :=
  omap (fun l => match l with
                 | LRecv (RRead (Transport.RData w _)) => Some (take recvBufSize w)
                 | _ => None
                 end) ls.

(** A datagram with a valid HMAC under the key of a codec. *)
Definition authentic (c : Codec) (w : list byte) : Prop :=
  exists t n p, is_u64 n /\ w = signedPart t n p ++ mac (key c) (signedPart t n p).

(** The receiving part of the codec is untouched. *)
Definition rx_same (c c' : Codec) : Prop := same_key c' c /\ recvNonce c' = recvNonce c.

Lemma rx_refl c : rx_same c c.
Proof. done. Qed.

Lemma rx_encode t p c : rx_same c (encode t p c).1.
Proof. unfold encode, nextNonce. by destruct (secureMode c). Qed.

Lemma rx_transport b b' : transport b' = transport b ->
  rx_same (Transport.codec (transport b)) (Transport.codec (transport b')).
Proof. by intros ->. Qed.

Lemma rx_sendMsg w io b b' r : sendMsg w io b = (b', r) ->
  rx_same (Transport.codec (transport b)) (Transport.codec (transport b')).
Proof.
  unfold sendMsg. destruct (Transport.Send _ _ _) as [t r'] eqn:E. intros [= <- <-].
  apply Send_sent in E as [E _]. unfold rx_same. cbn. by rewrite E.
Qed.

Lemma rx_encodeMsg t p b b' w : encodeMsg (encode t p) b = (b', w) ->
  rx_same (Transport.codec (transport b)) (Transport.codec (transport b')).
Proof.
  unfold encodeMsg. pose proof (rx_encode t p (Transport.codec (transport b))) as H.
  destruct (encode t p _) as [c w']. by intros [= <- <-].
Qed.

Lemma rx_encodeFrame f b b' r : encodeFrame f b = (b', r) ->
  rx_same (Transport.codec (transport b)) (Transport.codec (transport b')).
Proof.
  unfold encodeFrame, EncodeFrame. destruct (_ || _); [by intros [= <- <-]|].
  pose proof (rx_encode MsgFrame f (Transport.codec (transport b))) as H.
  destruct (encode MsgFrame f _) as [c w']. by intros [= <- <-].
Qed.

Lemma rx_SendBye io t : rx_same (Transport.codec t) (Transport.codec (Transport.SendBye io t).1).
Proof.
  unfold Transport.SendBye. case_match; [done|]. unfold EncodeBye.
  pose proof (rx_encode MsgBye [] (Transport.codec t)) as He. destruct (encode MsgBye [] _) as [c w].
  unfold Transport.writeToUDP. repeat case_match; by simplify_eq/=.
Qed.

(** Only decoding touches the receiving part of the codec. *)
Lemma step_rx l s s' : (forall now, l <> LRecv (RDecode now)) -> step l s = Some s' ->
  rx_same (codecOf s) (codecOf s').
Proof.
  intros Hl E. unfold step in E. destruct (fault s); [done|].
  destruct l as [|cap|l|l|l|l|l|l|l|l]; cbn in E.
  - by injection E as <-.
  - unfold SetCapture in E. destruct (capture (br s)); [by injection E as <-|].
    cbn in E. destruct (captureReady (br s)); by injection E as <-.
  - destruct l; unfold captureLoop in E; by step_cases E.
  - destruct l; unfold sendLoop in E; step_cases E; try done;
      first [by eapply rx_encodeFrame in Heqp | by eapply rx_sendMsg in Heqp].
  - destruct l; try (by destruct (Hl now)); unfold recvLoop in E; step_cases E; try done.
    + unfold recvInto. destruct (Transport.Recv _ _ _) as [[]| |]; try case_match; done.
    + by eapply rx_encodeMsg in Heqp.
    + by eapply rx_sendMsg in Heqp.
  - destruct l; unfold injectLoop in E; by step_cases E.
  - destruct l; unfold pingLoop in E; step_cases E; try done.
    + by apply BridgeProps.pingCheck_same in Heqp0 as ->.
    + by apply BridgeProps.pingCheck_same in Heqp0 as ->.
    + by eapply rx_encodeMsg in Heqp0.
    + by eapply rx_sendMsg in Heqp0.
    + apply rx_transport, BridgeProps.setState_transport.
    + by apply BridgeProps.doneOnceClose_same in Heqo as ->.
  - destruct l; unfold statsLoop in E; step_cases E; try done. cbn. by rewrite BridgeProps.emitStats_same.
  - destruct l; unfold stdinLoop in E; by step_cases E.
  - destruct l; unfold run in E; step_cases E; try done; cbn.
    + apply rx_SendBye.
    + unfold closeDone in Heqo. case_match; by simplify_eq.
    + unfold Transport.Close. by case_match.
    + apply rx_transport, BridgeProps.setState_transport.
    + apply rx_transport, BridgeProps.setState_transport.
Qed.

(** A property of the datagram the receiving goroutine is about to decode. *)
Definition pending (P : list byte -> Prop) (s : Sys) : Prop :=
  forall n a, recvPc_ s = RecvDecode n a -> P (slice 0 n (recvBuf s)).

Lemma pending_keep P s s' : pending P s -> recvBuf s' = recvBuf s ->
  (recvPc_ s' = recvPc_ s \/ forall n a, recvPc_ s' <> RecvDecode n a) -> pending P s'.
Proof.
  intros H Hb [Hp|Hp] n a E; [|by destruct (Hp n a)]. rewrite Hb. apply (H n a). by rewrite <-Hp.
Qed.

Lemma dispatch_pending P msg now s : pending P s -> pending P (dispatch msg now s).
Proof.
  intros H. unfold dispatch. repeat case_bool_decide; try (apply (pending_keep _ s); [done|done|by right]).
  destruct (handleBye (br s)); (apply (pending_keep _ s); [done|done|]); [by right|by left].
Qed.

Lemma recvInto_pending (P : list byte -> Prop) r s : length (recvBuf s) = recvBufSize ->
  Forall P (received [LRecv (RRead r)]) -> pending P (recvInto r s).
Proof.
  intros Hl HP n a. unfold recvInto.
  destruct (Transport.Recv recvBufSize r (transport (br s))) as [[|e|data addr]|e|] eqn:E; cbn;
    try (by destruct (ctx s)).
  intros [= <- <-]. unfold Transport.Recv, Transport.conn_read in E.
  destruct (Transport.closed _); [done|]. destruct (Transport.conn _), r; simplify_eq.
  unfold received in HP. csimpl in HP. apply Forall_cons in HP as [HP _].
  by rewrite slice_go_copy by (rewrite length_take; lia).
Qed.

Lemma step_pending P l s s' : sys_inv s -> pending P s -> Forall P (received [l]) -> step l s = Some s' ->
  pending P s'.
Proof.
  intros Hi H HP E. unfold step in E. destruct (fault s); [done|].
  destruct l as [|cap|l|l|l|l|l|l|l|l]; cbn in E.
  - injection E as <-. apply (pending_keep _ s); [done|done|by left].
  - destruct (SetCapture _ _) as [b []]; injection E as <-; (apply (pending_keep _ s); [done|done|by left]).
  - destruct l; unfold captureLoop in E; step_cases E; (apply (pending_keep _ s); [done|done|by left]).
  - destruct l; unfold sendLoop in E; step_cases E; (apply (pending_keep _ s); [done|done|by left]).
  - destruct l; unfold recvLoop in E; step_cases E; try (apply (pending_keep _ s); [done|done|by right]).
    + apply recvInto_pending; [apply Hi|done].
    + apply dispatch_pending, (pending_keep _ s); [done|done|by left].
    + apply (pending_keep _ s); [done|done|by left].
  - destruct l; unfold injectLoop in E; step_cases E; (apply (pending_keep _ s); [done|done|by left]).
  - destruct l; unfold pingLoop in E; step_cases E; (apply (pending_keep _ s); [done|done|by left]).
  - destruct l; unfold statsLoop in E; step_cases E; (apply (pending_keep _ s); [done|done|by left]).
  - destruct l; unfold stdinLoop in E; step_cases E; (apply (pending_keep _ s); [done|done|by left]).
  - destruct l; unfold run in E; step_cases E; (apply (pending_keep _ s); [done|done|by left]).
Qed.

(** The frames on the wire with their nonces. *)
Definition stampedFrames (c : Codec) (ds : list (list byte * Transport.UDPAddr)) : list (Z * list byte) :=
  omap (fun d => f ← wireFrame c (fst d); Some (wireNonce (fst d), f)) ds.

Lemma stampedFrames_fst c ds : fst <$> stampedFrames c ds = frameNonces ds.
Proof.
  induction ds as [|[w a] ds IH]; [done|]. unfold stampedFrames, frameNonces. csimpl.
  destruct w as [|t w]; simpl; [exact IH|]. case_bool_decide; simpl; [f_equal|]; exact IH.
Qed.

Lemma stampedFrames_snd c ds : snd <$> stampedFrames c ds = wireFrames c ds.
Proof.
  induction ds as [|[w a] ds IH]; [done|]. unfold stampedFrames, wireFrames. csimpl.
  destruct (wireFrame c w); simpl; [f_equal|]; exact IH.
Qed.

Lemma fmap_sublist {A B} (f : A -> B) l k : l `sublist_of` k -> f <$> l `sublist_of` f <$> k.
Proof. induction 1; csimpl; by constructor. Qed.

Definition later {A} (r : Z) (F : list (Z * A)) : list (Z * A) := filter (fun x => r < fst x) F.

Lemma later_mono {A} (F : list (Z * A)) r n : r <= n -> later n F `sublist_of` later r F.
Proof.
  intros Hr. unfold later. induction F as [|[m g] F IH]; [done|]. rewrite !filter_cons. simpl.
  destruct (decide (n < m)); [rewrite decide_True by lia; by apply sublist_skip|].
  destruct (decide (r < m)); [by apply sublist_cons|done].
Qed.

(** Taking a larger nonce out of a sorted list leaves the later ones. *)
Lemma later_take {A} (F : list (Z * A)) n f r : StronglySorted Z.lt (fst <$> F) -> (n, f) ∈ F -> r < n ->
  f :: (snd <$> later n F) `sublist_of` snd <$> later r F.
Proof.
  unfold later. induction F as [|[m g] F IH]; intros Hs Hin Hr; [by apply not_elem_of_nil in Hin|].
  rewrite fmap_cons in Hs. apply StronglySorted_inv in Hs as [Hs Hm]. rewrite !filter_cons. simpl.
  apply elem_of_cons in Hin as [[= -> ->]|Hin].
  - rewrite decide_False by lia. rewrite decide_True by lia. csimpl.
    apply sublist_skip, fmap_sublist. apply (later_mono F). lia.
  - rewrite Forall_fmap, Forall_forall in Hm. specialize (Hm _ Hin). simpl in Hm.
    rewrite decide_False by lia. destruct (decide (r < m)); csimpl; [apply sublist_cons|]; by apply IH.
Qed.

(** ** The receiver against the datagrams of the sender *)

(** Every datagram is one of [ds] or has no valid HMAC. *)
Definition unforged (c : Codec) (ds : list (list byte * Transport.UDPAddr)) (w : list byte) : Prop :=
  authentic c w -> exists a, (w, a) ∈ ds.

Lemma wireFrame_signed c t n p sig : secureMode c = true -> length sig = 32%nat ->
  wireFrame c (signedPart t n p ++ sig) = if bool_decide (t = MsgFrame) then Some p else None.
Proof.
  intros Hs Hl. unfold wireFrame, payloadOff, IsSecure. rewrite Hs, signed_app.
  case_bool_decide; [|done]. f_equal. change (t :: be_put 8 n ++ p ++ sig) with ([t] ++ be_put 8 n ++ p ++ sig).
  rewrite app_assoc. apply slice_app_mid; unfold NonceSize, HMACSize; len.
Qed.

(** What decoding one datagram does to the nonces yet to come. *)
Lemma Decode_unforged c r ds w r' o :
  secureMode r = true -> same_key c r -> sent_ok c ds -> 0 <= recvNonce r -> unforged c ds w ->
  Decode w r = (r', o) ->
  same_key r' r /\ recvNonce r <= recvNonce r' /\
  forall msg, o = Ok msg -> Type_ msg = MsgFrame ->
    recvNonce r < recvNonce r' /\ (recvNonce r', Frame msg) ∈ stampedFrames c ds.
Proof.
  intros Hs Hk Hds H0 Hw E. split; [by eapply TransportProps.Decode_same_key|].
  unfold Decode in E. unfold_prog. pose proof Hk as [Hkey Hmode].
  destruct (decode_secure_cases w r Hs) as [[Hd _]|(t & n & p & sig & -> & Hsig & Hn & Hd)].
  { rewrite Hd in E. simplify_eq. split; [lia|done]. }
  rewrite Hd in E. unfold verifyHMAC, computeHMAC in E. case_bool_decide as Hmac; simpl in E; [|by simplify_eq; split; [lia|]].
  destruct (isHandshake t) eqn:Ht.
  { simplify_eq/=. split; [lia|]. intros msg Hp HT. apply parsePayload_type in Hp.
    rewrite <-Hp, HT in Ht. done. }
  destruct Hw as [a Ha].
  { exists t, n, p. split; [done|]. unfold same_key in Hk. by rewrite Hkey, Hmac. }
  assert (1 <= n) as Hn1.
  { unfold sent_ok in Hds. rewrite Forall_forall in Hds. destruct (Hds _ Ha) as [Hh|(t' & n' & p' & Hw' & _ & Hb & Hu)].
    - simpl in Hh. unfold signedPart in Hh. simpl in Hh. congruence.
    - cbn [fst] in Hw'. apply (f_equal wireNonce) in Hw'. rewrite !wireNonce_signed in Hw' by done. lia. }
  rewrite (proj2 (Z.ltb_lt 0 n)) in E by lia. simpl in E.
  clear Hd. destruct (Z.leb_spec n (recvNonce r)); [by injection E as <- <-; split; [lia|]|].
  injection E as <- <-. cbn [recvNonce set_recvNonce]. split; [lia|]. intros msg Hp HT. split; [lia|].
  pose proof (parsePayload_type _ _ _ Hp) as Htt. rewrite HT in Htt. subst t.
  destruct (parse_frame _ _ _ Hp HT) as [Hf _].
  unfold stampedFrames. apply list_elem_of_omap.
  exists (signedPart MsgFrame n p ++ sig, a). split; [done|]. cbn [fst].
  rewrite wireNonce_signed, wireFrame_signed by congruence. rewrite Hf. done.
Qed.

Lemma acceptedFrame_decode l s f : acceptedFrame l s = Some f ->
  exists now n a msg, l = LRecv (RDecode now) /\ recvPc_ s = RecvDecode n a /\
    (Decode (slice 0 n (recvBuf s)) (codecOf s)).2 = Ok msg /\ Type_ msg = MsgFrame /\ f = Frame msg.
Proof.
  unfold acceptedFrame. intros E. repeat (case_match; try done). case_bool_decide; simplify_eq. eauto 10.
Qed.

(** The codec after a decoding step. *)
Lemma step_decode_codec now s s' : step (LRecv (RDecode now)) s = Some s' ->
  codecOf s' = codecOf s /\ acceptedFrame (LRecv (RDecode now)) s = None \/
  exists n a, recvPc_ s = RecvDecode n a /\ codecOf s' = (Decode (slice 0 n (recvBuf s)) (codecOf s)).1.
Proof.
  intros E. unfold step in E. destruct (fault s); [done|]. cbn in E. unfold acceptedFrame.
  destruct (recvPc_ s) as [| | |n a| | |] eqn:Hp; try done.
  destruct (_ && _); [left; by injection E as <-|]. right. exists n, a. split; [done|].
  destruct (Decode _ _) as [c r]. injection E as <-. simpl. destruct r as [msg|e|]; [|done|done].
  by rewrite (proj1 (dispatch_calm msg now _)).
Qed.

Lemma decode_or_not (l : label) :
  (exists now, l = LRecv (RDecode now)) \/ forall now, l <> LRecv (RDecode now).
Proof. destruct l as [|?|?|?|[]|?|?|?|?|?]; first [by right|by left; eexists]. Qed.

Lemma steps_same_key ls : forall s s', steps ls s = Some s' -> same_key (codecOf s') (codecOf s).
Proof.
  induction ls as [|l ls IH]; intros s s' E; cbn [steps] in E; [by simplify_eq|].
  destruct (step l s) as [s1|] eqn:E1; cbn [mbind option_bind] in E; [|done].
  assert (same_key (codecOf s1) (codecOf s)) as Hk.
  { destruct (decode_or_not l) as [[now ->]|Hl]; [|by apply (step_rx _ _ _ Hl)].
    destruct (step_decode_codec _ _ _ E1) as [[-> _]|(n & a & _ & ->)]; [done|].
    apply TransportProps.Decode_keys. }
  apply IH in E. destruct E, Hk. split; congruence.
Qed.

(** What a step does to the window, and which frame it accepts. *)
Lemma step_window c ds l s s' : sent_ok c ds ->
  secureMode (codecOf s) = true -> same_key c (codecOf s) -> 0 <= recvNonce (codecOf s) ->
  pending (unforged c ds) s -> step l s = Some s' ->
  same_key (codecOf s') (codecOf s) /\ recvNonce (codecOf s) <= recvNonce (codecOf s') /\
  forall f, acceptedFrame l s = Some f ->
    recvNonce (codecOf s) < recvNonce (codecOf s') /\ (recvNonce (codecOf s'), f) ∈ stampedFrames c ds.
Proof.
  intros Hds Hs Hk H0 Hp E.
  destruct (decode_or_not l) as [[now ->]|Hl].
  - destruct (step_decode_codec _ _ _ E) as [[-> ->]|(n & a & Hpc & ->)]; [by split_and!; [|lia|]|].
    destruct (Decode (slice 0 n (recvBuf s)) (codecOf s)) as [r' o] eqn:Ed. cbn [fst].
    destruct (Decode_unforged c (codecOf s) ds _ _ _ Hs Hk Hds H0 (Hp n a Hpc) Ed) as (Hk' & Hle & Hf).
    split_and!; try done. intros f (now' & n' & a' & msg & [= <-] & Hpc' & Hd & HT & ->)%acceptedFrame_decode.
    rewrite Hpc in Hpc'. injection Hpc' as <- <-. rewrite Ed in Hd. by apply Hf.
  - destruct (step_rx _ _ _ Hl E) as [Hk' ->]. split_and!; [done|lia|].
    intros f (now & n & a & msg & Hd & _)%acceptedFrame_decode. by destruct (Hl now).
Qed.

(** The frames accepted from here on are among those of the sender with a
    nonce later than the window. *)
Lemma accepted_later c ds ls : forall s, sent_ok c ds -> StronglySorted Z.lt (frameNonces ds) ->
  secureMode (codecOf s) = true -> same_key c (codecOf s) -> 0 <= recvNonce (codecOf s) ->
  sys_inv s -> pending (unforged c ds) s -> Forall (unforged c ds) (received ls) ->
  acceptedFrames ls s `sublist_of` snd <$> later (recvNonce (codecOf s)) (stampedFrames c ds).
Proof.
  induction ls as [|l ls IH]; intros s Hds Hsort Hs Hk H0 Hi Hp Hr; [apply sublist_nil_l|].
  assert (received (l :: ls) = received [l] ++ received ls) as Hcons.
  { unfold received. cbn [omap list_omap]. by case_match. }
  rewrite Hcons in Hr. apply Forall_app in Hr as [Hr1 Hr2].
  cbn [acceptedFrames]. destruct (step l s) as [s1|] eqn:E; [|apply sublist_nil_l].
  destruct (step_window c ds l s s1 Hds Hs Hk H0 Hp E) as (Hk1 & Hle & Hf).
  assert (acceptedFrames ls s1 `sublist_of` snd <$> later (recvNonce (codecOf s1)) (stampedFrames c ds)) as IH'.
  { apply IH; try done; [destruct Hk1; congruence|destruct Hk, Hk1; split; congruence|lia
      |by eapply step_inv|by eapply step_pending]. }
  destruct (acceptedFrame l s) as [f|]; simpl.
  - destruct (Hf f eq_refl) as [Hlt Hin]. etrans; [apply sublist_skip, IH'|].
    apply later_take; [by rewrite stampedFrames_fst|done|done].
  - etrans; [exact IH'|]. by apply fmap_sublist, later_mono.
Qed.

(** ** The two bridges *)

(** A bridge whose connection is established with a key: what it sent so far
    belongs to the handshake or was stamped, no frame was sent, and the nonces
    are counters. *)
Definition secured (b : Bridge) : Prop :=
  fresh_bridge b /\ secureMode (Transport.codec (transport b)) = true /\
  0 <= sendNonce (Transport.codec (transport b)) /\ 0 <= recvNonce (Transport.codec (transport b)) /\
  sent_ok (Transport.codec (transport b)) (Transport.sent (transport b)) /\
  Forall (fun d => isFrame (fst d) = false) (Transport.sent (transport b)).

Lemma no_frames c ds : Forall (fun d => isFrame (fst d) = false) ds ->
  frameNonces ds = [] /\ wireFrames c ds = [].
Proof.
  induction 1 as [|[w a] ds Hw _ (IH1 & IH2)]; [done|]. unfold frameNonces, wireFrames. csimpl.
  cbn [fst] in Hw. rewrite Hw. split; [exact IH1|].
  assert (wireFrame c w = None) as ->; [|exact IH2].
  destruct w as [|t w]; [done|]. unfold isFrame in Hw. unfold wireFrame. by rewrite Hw.
Qed.

Lemma secured_order b : secured b -> tx_order (start b).
Proof.
  intros (_ & Hs & Hp & _ & Hok & Hh). destruct (no_frames (Transport.codec (transport b)) _ Hh) as (Hn & _).
  constructor; cbn; try done. rewrite Hn. constructor.
Qed.

End receiver.

End Session.
