(* ===== verification/BridgeTraffic.v ===== *)
(** * The bridge: what it sends, accepts and counts

    The frames on the wire against the frames captured, and the four counters
    of the statistics against the frames sent and accepted, in every schedule
    of the goroutines. *)

From S2P Require Import Prelude Sha256 Protocol ProtocolProps Transport TransportProps.
From S2P Require Import Capture Bridge BridgeProps BridgeRun BridgeRunProps BridgeClaims Session.
Import Protocol ProtocolProps Bridge BridgeRun BridgeRunProps BridgeClaims Session.

Module BridgeTraffic.

#[local] Opaque recvBufSize.

(** ** Specification *)

Definition packetsIn (fs : list (list byte)) : Z := Z.of_nat (length fs).
Definition bytesIn (fs : list (list byte)) : Z := Z.of_nat (length (concat fs)).

(** A 64-bit counter that went from [a] to [a'] by [n]. *)
Definition adds (n a a' : Z) : Prop := u64 a' = u64 (a + n) /\ (is_u64 a -> is_u64 a').

(** The counters after the frames [tx] were sent and [rx] accepted. *)
Record counted (tx rx : list (list byte)) (s s' : Stats) : Prop := {
  ct_txPackets : adds (packetsIn tx) (TxPackets s) (TxPackets s');
  ct_txBytes : adds (bytesIn tx) (TxBytes s) (TxBytes s');
  ct_rxPackets : adds (packetsIn rx) (RxPackets s) (RxPackets s');
  ct_rxBytes : adds (bytesIn rx) (RxBytes s) (RxBytes s');
}.

Record counters_ok (s : Stats) : Prop := {
  ok_txPackets : is_u64 (TxPackets s);
  ok_txBytes : is_u64 (TxBytes s);
  ok_rxPackets : is_u64 (RxPackets s);
  ok_rxBytes : is_u64 (RxBytes s);
}.

(** ** Lemmas: counting *)

Lemma packetsIn_app fs gs : packetsIn (fs ++ gs) = packetsIn fs + packetsIn gs.
Proof. unfold packetsIn. rewrite length_app. lia. Qed.
Lemma bytesIn_app fs gs : bytesIn (fs ++ gs) = bytesIn fs + bytesIn gs.
Proof. unfold bytesIn. rewrite concat_app, length_app. lia. Qed.

Lemma adds_0 a : adds 0 a a.
Proof. unfold adds. by rewrite Z.add_0_r. Qed.
Lemma adds_u64 n a : adds n a (u64 (a + n)).
Proof. split; [apply wrap_wrap|]. intros _. apply (wrap_bound 64). lia. Qed.
Lemma adds_trans m n a b c : adds m a b -> adds n b c -> adds (m + n) a c.
Proof.
  unfold adds, wrap. intros [E1 H1] [E2 H2]. split; [|by auto].
  rewrite E2, <- Zplus_mod_idemp_l, E1, Zplus_mod_idemp_l. f_equal. lia.
Qed.
Lemma adds_exact n a a' : adds n a a' -> is_u64 a -> a' = u64 (a + n).
Proof. intros [E H] Ha. rewrite <- E. symmetry. apply Z.mod_small. by apply H. Qed.

Lemma counted_trans tx rx tx' rx' s1 s2 s3 :
  counted tx rx s1 s2 -> counted tx' rx' s2 s3 -> counted (tx ++ tx') (rx ++ rx') s1 s3.
Proof. intros [] []. constructor; rewrite ?packetsIn_app, ?bytesIn_app; by eapply adds_trans. Qed.

Lemma counted_same s s' : TxPackets s' = TxPackets s -> TxBytes s' = TxBytes s ->
  RxPackets s' = RxPackets s -> RxBytes s' = RxBytes s -> counted [] [] s s'.
Proof. intros E1 E2 E3 E4. constructor; rewrite ?E1, ?E2, ?E3, ?E4; apply adds_0. Qed.

Lemma counted_ok tx rx s s' : counted tx rx s s' -> counters_ok s -> counters_ok s'.
Proof. intros [[_ ?] [_ ?] [_ ?] [_ ?]] []. constructor; auto. Qed.

Section traffic.
Context `{M : Mac}.

(** ** Lemmas: what a step does to the counters and the wire *)

Lemma setState_stats st b : stats (setState st b) = stats b.
Proof. by rewrite BridgeProps.setState_same. Qed.
Lemma sendMsg_stats w io b b' r : sendMsg w io b = (b', r) -> stats b' = stats b.
Proof. unfold sendMsg. destruct (Transport.Send _ _ _). by intros [= <- _]. Qed.
Lemma encodeMsg_stats enc b b' w : encodeMsg enc b = (b', w) -> stats b' = stats b.
Proof. unfold encodeMsg. destruct (enc _). by intros [= <- _]. Qed.
Lemma encodeFrame_stats f b b' r : encodeFrame f b = (b', r) -> stats b' = stats b.
Proof. unfold encodeFrame. destruct (EncodeFrame _ _). by intros [= <- _]. Qed.

(** The two steps that count. *)
Definition counts (l : label) : bool :=
  match l with LSend (SWrite _) | LRecv (RDecode _) => true | _ => false end.

Lemma step_stats l s s' : counts l = false -> step l s = Some s' -> stats (br s') = stats (br s).
Proof.
  intros Hl E. unfold step in E. destruct (fault s); [done|].
  destruct l as [|cap|l|l|l|l|l|l|l|l]; cbn in E.
  - by injection E as <-.
  - unfold SetCapture in E. destruct (capture (br s)); [by injection E as <-|].
    cbn in E. destruct (captureReady (br s)); by injection E as <-.
  - destruct l; unfold captureLoop in E; by step_cases E.
  - destruct l; try done; unfold sendLoop in E; step_cases E; try done; by eapply encodeFrame_stats.
  - destruct l; try done; unfold recvLoop in E; step_cases E; try done;
      first [by eapply encodeMsg_stats|by eapply sendMsg_stats|unfold recvInto; by repeat case_match].
  - destruct l; unfold injectLoop in E; by step_cases E.
  - destruct l; unfold pingLoop in E; step_cases E; try done; cbn;
      first [by eapply encodeMsg_stats|by eapply sendMsg_stats|apply setState_stats
            |by apply BridgeProps.pingCheck_same in Heqp0 as ->|by apply BridgeProps.doneOnceClose_same in Heqo as ->].
  - destruct l; unfold statsLoop in E; step_cases E; try done. cbn. by rewrite BridgeProps.emitStats_same.
  - destruct l; unfold stdinLoop in E; by step_cases E.
  - destruct l; unfold run in E; step_cases E; try done; cbn; try apply setState_stats.
    unfold closeDone in Heqo. by case_match; simplify_eq.
Qed.

(** Only the sender puts frames on the wire. *)
Lemma step_wire l s s' : tx_wf s -> counts l = false -> step l s = Some s' ->
  wireFrames (codecOf s) (sentBy (br s')) = wireFrames (codecOf s) (sentBy (br s)).
Proof.
  intros (_ & H2 & H3) Hl E. unfold step in E. destruct (fault s); [done|].
  destruct l as [|cap|l|l|l|l|l|l|l|l]; cbn in E.
  - by injection E as <-.
  - unfold SetCapture in E. destruct (capture (br s)); [by injection E as <-|].
    cbn in E. destruct (captureReady (br s)); by injection E as <-.
  - destruct l; unfold captureLoop in E; by step_cases E.
  - destruct l; try done; unfold sendLoop in E; step_cases E; try done; cbn;
      unfold encodeFrame in Heqp; destruct (EncodeFrame _ _); by simplify_eq.
  - destruct l; try done; unfold recvLoop in E; step_cases E; try done; cbn.
    + unfold recvInto. by repeat case_match.
    + unfold encodeMsg in Heqp. destruct (EncodePong _ _). by simplify_eq.
    + by apply quiet_sendMsg in Heqp as (_ & ? & _).
  - destruct l; unfold injectLoop in E; by step_cases E.
  - destruct l; unfold pingLoop in E; step_cases E; try done; cbn.
    + by apply BridgeProps.pingCheck_same in Heqp0 as ->.
    + by apply BridgeProps.pingCheck_same in Heqp0 as ->.
    + unfold encodeMsg in Heqp0. destruct (EncodePing _ _). by simplify_eq.
    + by apply quiet_sendMsg in Heqp0 as (_ & ? & _).
    + by rewrite BridgeProps.setState_transport.
    + by apply BridgeProps.doneOnceClose_same in Heqo as ->.
  - destruct l; unfold statsLoop in E; step_cases E; try done. cbn. by rewrite BridgeProps.emitStats_same.
  - destruct l; unfold stdinLoop in E; by step_cases E.
  - destruct l; unfold run in E; step_cases E; try done; cbn; rewrite ?BridgeProps.setState_transport; try done.
    + apply (quiet_SendBye io (br s)).
    + unfold closeDone in Heqo. by case_match; simplify_eq.
    + apply (quiet_Close (br s)).
Qed.

(** Handling a message counts the frame it has, if any. *)
Lemma handlePong_counts ts now b : counted [] [] (stats b) (stats (handlePong ts now b)).
Proof.
  unfold handlePong. destruct (pendingPing b =? 0); [by apply counted_same|].
  destruct (negb _); [by apply counted_same|]. cbv zeta. unfold emit, upd_stats. cbn [stats set_stats set_emitted].
  apply counted_same; unfold AddRTTSample; cbv zeta; (destruct (_ <? _)%nat; [|done]); by destruct (rttSamples _).
Qed.

Lemma dispatch_counts msg now s :
  counted [] (if bool_decide (Type_ msg = MsgFrame) then [Frame msg] else []) (stats (br s)) (stats (br (dispatch msg now s))).
Proof.
  unfold dispatch. repeat case_bool_decide; try congruence; try (by apply counted_same).
  - constructor; cbn; try apply adds_0; [apply (adds_u64 1)|].
    assert (bytesIn [Frame msg] = Z.of_nat (length (Frame msg))) as -> by (unfold bytesIn; cbn; by rewrite app_nil_r).
    apply adds_u64.
  - by apply handlePong_counts.
  - destruct (handleBye (br s)) as [b|] eqn:E; [|by apply counted_same].
    unfold handleBye in E. apply BridgeProps.doneOnceClose_same in E as ->. cbn. rewrite setState_stats.
    by apply counted_same.
Qed.

Lemma decode_counts now s s' : step (LRecv (RDecode now)) s = Some s' ->
  sentBy (br s') = sentBy (br s) /\
  counted [] (option_list (acceptedFrame (LRecv (RDecode now)) s)) (stats (br s)) (stats (br s')).
Proof.
  intros E. unfold step in E. destruct (fault s); [done|]. cbn in E. unfold recvLoop in E. unfold acceptedFrame.
  destruct (recvPc_ s) as [| | |n a| | |]; try done. destruct (_ && _); [simplify_eq; split; [done|by apply counted_same]|].
  destruct (Decode _ _) as [c o]. cbn [snd]. destruct o as [msg|e|]; injection E as <-;
    [|split; [done|by apply counted_same]..].
  rewrite dispatch_sent. split; [done|]. set (s1 := upd_br _ s).
  pose proof (dispatch_counts msg now s1) as H. by case_bool_decide.
Qed.

(** Writing a frame counts it if the write succeeds. *)
Lemma write_counts io s s' : tx_wf s -> step (LSend (SWrite io)) s = Some s' ->
  exists ds, sentBy (br s') = sentBy (br s) ++ ds /\
    counted (wireFrames (codecOf s) ds) [] (stats (br s)) (stats (br s')).
Proof.
  intros (H1 & _) E. unfold step in E. destruct (fault s); [done|]. cbn in E. unfold sendLoop in E.
  destruct (sendPc_ s) as [| |f w|]; try done. unfold sendMsg in E.
  destruct (Transport.Send w io (transport (br s))) as [t r] eqn:Es. apply Send_sent in Es as [_ Es].
  injection E as <-. destruct r as [[]|e|]; destruct Es as [[Hr Ht]|[Hr [a Hs]]]; try done; cbn.
  - exists [(w, a)]. split; [done|]. unfold wireFrames. csimpl. rewrite H1.
    constructor; cbn; try apply adds_0; [apply (adds_u64 1)|].
    assert (bytesIn [f] = Z.of_nat (length f)) as -> by (unfold bytesIn; cbn; by rewrite app_nil_r). apply adds_u64.
  - exists []. rewrite app_nil_r, Ht. split; [done|]. by apply counted_same.
  - exists []. rewrite app_nil_r, Ht. split; [done|]. by apply counted_same.
Qed.

Lemma step_counted l s s' : tx_wf s -> step l s = Some s' ->
  exists ds, sentBy (br s') = sentBy (br s) ++ ds /\
    counted (wireFrames (codecOf s) ds) (option_list (acceptedFrame l s)) (stats (br s)) (stats (br s')).
Proof.
  intros Hw E. destruct (counts l) eqn:Hl.
  - destruct l as [|cap|l|l|l|l|l|l|l|l]; try done; destruct l; try done.
    + by apply (write_counts io).
    + destruct (decode_counts _ _ _ E) as [Hs Hc]. exists []. by rewrite app_nil_r.
  - destruct (step_sent _ _ _ E) as [ds Hs]. exists ds. split; [done|].
    assert (wireFrames (codecOf s) ds = []) as ->.
    { pose proof (step_wire _ _ _ Hw Hl E) as H. rewrite Hs in H. unfold wireFrames in *. rewrite omap_app in H.
      apply (app_inv_head (omap (wireFrame (codecOf s) ∘ fst) (sentBy (br s)))). by rewrite app_nil_r. }
    assert (acceptedFrame l s = None) as -> by (destruct l as [|cap|l|l|l|l|l|l|l|l]; try done; by destruct l).
    apply counted_same; by rewrite (step_stats _ _ _ Hl E).
Qed.

Lemma steps_counted ls : forall s s', tx_wf s -> steps ls s = Some s' ->
  exists ds, sentBy (br s') = sentBy (br s) ++ ds /\
    counted (wireFrames (codecOf s) ds) (acceptedFrames ls s) (stats (br s)) (stats (br s')).
Proof.
  induction ls as [|l ls IH]; intros s s' Hw E; cbn [steps] in E.
  - simplify_eq. exists []. rewrite app_nil_r. split; [done|]. by apply counted_same.
  - destruct (step l s) as [s1|] eqn:E1; cbn [mbind option_bind] in E; [|done].
    destruct (step_counted _ _ _ Hw E1) as (ds1 & Hs1 & Hc1).
    destruct (IH s1 s') as (ds2 & Hs2 & Hc2); [by eapply step_tx|done|].
    exists (ds1 ++ ds2). rewrite Hs2, Hs1, <- app_assoc. split; [done|]. cbn [acceptedFrames]. rewrite E1.
    assert (wireFrames (codecOf s) (ds1 ++ ds2) = wireFrames (codecOf s) ds1 ++ wireFrames (codecOf s1) ds2) as ->.
    { rewrite (wireFrames_key (codecOf s) (codecOf s1)) by (apply (steps_same_key [l]); cbn; by rewrite E1).
      apply omap_app. }
    by eapply counted_trans.
Qed.

(** The counters are in range in every state reached. *)
Lemma reachable_counters b s : counters_ok (stats b) -> reachable b s -> counters_ok (stats (br s)).
Proof.
  intros Ho Hr. cut (tx_wf s /\ counters_ok (stats (br s))); [by intros []|]. revert s Hr.
  apply (rtc_ind_r (fun s => tx_wf s /\ counters_ok (stats (br s)))); [done|].
  intros s s' _ [l E] [Hw Hc]. split; [by eapply step_tx|].
  destruct (step_counted _ _ _ Hw E) as (ds & _ & H). by eapply counted_ok.
Qed.

(** ** Claims *)

(** C7. Captured frames go out in order: in every schedule, the datagrams sent
    since the goroutines started follow those of the handshake, and the frames
    of the FRAME datagrams among them are a subsequence of the frames captured:
    each at most once and unchanged, in the order of capture. *)
Theorem forward_fifo (b : Bridge) (ls : list label) (s : Sys) :
  fresh_bridge b -> steps ls (start b) = Some s ->
  exists ds, Transport.sent (transport (br s)) = Transport.sent (transport b) ++ ds /\
    wireFrames (codecOf s) ds `sublist_of` capturedFrames ls.
Proof.
  intros (Hq & _) E. destruct (steps_tx ls (start b) s) as [_ H]; [done|done|].
  destruct (steps_sent _ _ _ E) as [ds Hs]. cbn in Hs. exists ds. split; [done|].
  unfold txLine at 2 in H. cbn in H. rewrite Hq, !app_nil_r in H.
  apply (sublist_app_cancel (wireFrames (Transport.codec (transport b)) (Transport.sent (transport b)))).
  etrans; [|exact H]. unfold txLine. rewrite Hs. unfold wireFrames at 3. rewrite omap_app.
  fold (wireFrames (codecOf s) (Transport.sent (transport b))). fold (wireFrames (codecOf s) ds).
  rewrite !(wireFrames_key (Transport.codec (transport b)) (codecOf s)) by (by apply (steps_same_key ls (start b))).
  by apply sublist_inserts_r.
Qed.

(** C16. The counters are exact: in every schedule of the goroutines of a new
    bridge the sent packets and bytes are those of the frames in the FRAME
    datagrams written since the start, and the received ones those of the frames
    accepted, each counted once, modulo 2^64. *)
Theorem counters_exact (b : Bridge) (ls : list label) (s : Sys) :
  stats b = zeroStats -> steps ls (start b) = Some s ->
  exists ds, Transport.sent (transport (br s)) = Transport.sent (transport b) ++ ds /\
    TxPackets (stats (br s)) = u64 (packetsIn (wireFrames (codecOf s) ds)) /\
    TxBytes (stats (br s)) = u64 (bytesIn (wireFrames (codecOf s) ds)) /\
    RxPackets (stats (br s)) = u64 (packetsIn (acceptedFrames ls (start b))) /\
    RxBytes (stats (br s)) = u64 (bytesIn (acceptedFrames ls (start b))).
Proof.
  intros Hz E. destruct (steps_counted ls (start b) s) as (ds & Hs & [C1 C2 C3 C4]); [done|done|].
  exists ds. split; [done|]. cbn [start startWith br] in C1, C2, C3, C4. rewrite Hz in C1, C2, C3, C4.
  rewrite (wireFrames_key _ (codecOf s) ds (steps_same_key _ _ _ E)). cbn [start startWith br].
  split_and!; by apply (adds_exact _ 0).
Qed.

End traffic.

(** ** Witnesses *)

Lemma forward_fifo_witness :
  exists s ds, Transport.sent (transport (br s)) = (ex_ack [], ex_peer) :: ds /\ length ds = 1%nat /\
    wireFrames (codecOf s) ds `sublist_of` [ex_frame1].
Proof.
  destruct (ex_forward_steps (make_bytes recvBufSize)) as (s & E & Hs).
  destruct (forward_fifo (ex_live []) ex_forward s) as (ds & Hd & H); [repeat split|exact E|].
  exists s, ds. split; [exact Hd|]. split; [|exact H]. rewrite Hd in Hs. injection Hs as ->. reflexivity.
Defined.

Lemma counters_exact_witness :
  exists s ds, Transport.sent (transport (br s)) = (ex_ack [], ex_peer) :: ds /\ length ds = 1%nat /\
    TxPackets (stats (br s)) = u64 (packetsIn (wireFrames (codecOf s) ds)) /\ RxPackets (stats (br s)) = 0.
Proof.
  destruct (ex_forward_steps (make_bytes recvBufSize)) as (s & E & Hs).
  destruct (counters_exact (ex_live []) ex_forward s eq_refl E) as (ds & Hd & H1 & _ & H2 & _).
  exists s, ds. split; [exact Hd|]. split; [rewrite Hd in Hs; injection Hs as ->; reflexivity|].
  split; [exact H1|]. rewrite H2. reflexivity.
Defined.

End BridgeTraffic.
