(* ===== verification/Shutdown.v ===== *)
(** * Shutting down

    When [Run] can still return after its context is cancelled.  A few states
    are doomed: no schedule makes [Run] return, the goroutine that is to go on
    panics or calls a method on a nil handle.  From every other state with a
    cancelled context [Run] can return. *)

From S2P Require Import Prelude Sha256 Protocol ProtocolProps Transport TransportProps.
From S2P Require Import Capture Bridge BridgeProps BridgeRun BridgeRunProps BridgeClaims Session.
Import Protocol ProtocolProps Bridge BridgeRun BridgeRunProps BridgeClaims Session.

Module Shutdown.

#[local] Opaque recvBufSize.

Section shutdown.
Context `{M : Mac}.

(** ** Doomed states *)

(** The receiving goroutine is about to handle a BYE. *)
Definition pendingBye (s : Sys) : bool :=
  match recvPc_ s with
  | RecvDecode n addr =>
      negb (bool_decide (recvPeer s ≠ None) && negb (addrEqual (Some addr) (recvPeer s))) &&
      match snd (Decode (slice 0 n (recvBuf s)) (codecOf s)) with
      | Ok msg => bool_decide (Type_ msg = MsgBye)
      | _ => false
      end
  | _ => false
  end.

(** The pinging goroutine has given the peer up and is about to close [done]. *)
Definition pingGivesUp (s : Sys) : bool :=
  match pingPc_ s with PingReport _ | PingState | PingClose => true | _ => false end.

(** [Run] has decided that the shutdown is its own, before and after it closes
    [done]. *)
Definition deciding (p : runPc) : bool := match p with RunBye | RunCloseDone => true | _ => false end.
Definition hasClosed (p : runPc) : bool :=
  match p with RunCloseTransport false | RunCloseCapture false | RunWait false => true | _ => false end.

Definition nilHandle (s : Sys) : bool :=
  match capture (br s) with
  | Some c => match Capture.handle c with Capture.HandleNil => true | Capture.HandleOpen => false end
  | None => false
  end.

(** A goroutine is about to call a method on the handle. *)
Definition atHandle (s : Sys) : bool :=
  match capturePc s with CapRead => true | _ => false end ||
  match injectPc s with InjWrite _ => true | _ => false end.

(** [done] is closed although [Run] is about to close it; a BYE or the pinging
    goroutine is about to close it although [Run] does; the handle is gone and
    about to be used. *)
Definition doomed (s : Sys) : bool :=
  deciding (runPc_ s) && done (br s) ||
  (deciding (runPc_ s) || hasClosed (runPc_ s)) && (pendingBye s || pingGivesUp s) ||
  nilHandle s && atHandle s.

(** ** What a step leaves alone *)

Lemma decode_rx data c c' : rx_same c c' -> snd (decode data c') = snd (decode data c).
Proof.
  intros [[Hk Hs] Hr]. destruct (secureMode c) eqn:Hm.
  - destruct (decide (length data < 41)%nat) as [Hl|Hl]; [by rewrite !decode_secure_short by congruence|].
    destruct (wire_split data) as (t & nb & p & sig & -> & Hnb & Hsig); [lia|].
    rewrite !decode_secure_wire by congruence. unfold verifyHMAC, computeHMAC. rewrite Hk, Hr. by repeat case_match.
  - destruct data as [|t p]; [by rewrite !decode_empty|]. by rewrite !decode_insecure by congruence.
Qed.

Lemma Decode_rx data c c' : rx_same c c' -> snd (Decode data c') = snd (Decode data c).
Proof.
  intros H%(decode_rx data). unfold Decode. unfold_prog.
  destruct (decode data c) as [c1 o1], (decode data c') as [c2 o2]. simpl in H. subst. by destruct o1.
Qed.

(** The fields of the bridge a shutdown is about. *)
Definition guts (b : Bridge) : option Capture.Capture * bool * bool := (capture b, done b, doneOnce b).

(** [done] closed through [doneOnce]. *)
Definition closedOnce (b b' : Bridge) : Prop :=
  done b = false /\ doneOnce b = false /\ guts b' = (capture b, true, true).

Lemma guts_setState st b : guts (setState st b) = guts b.
Proof. unfold setState. by case_bool_decide. Qed.
Lemma guts_sendMsg w io b b' r : sendMsg w io b = (b', r) -> guts b' = guts b.
Proof. unfold sendMsg. destruct (Transport.Send _ _ _). by intros [= <- _]. Qed.
Lemma guts_encodeMsg enc b b' w : encodeMsg enc b = (b', w) -> guts b' = guts b.
Proof. unfold encodeMsg. destruct (enc _). by intros [= <- _]. Qed.
Lemma guts_encodeFrame f b b' r : encodeFrame f b = (b', r) -> guts b' = guts b.
Proof. unfold encodeFrame. destruct (EncodeFrame _ _). by intros [= <- _]. Qed.
Lemma guts_handlePong ts now b : guts (handlePong ts now b) = guts b.
Proof. unfold handlePong. by repeat case_match. Qed.

Lemma guts_doneOnceClose b b' : doneOnceClose b = Some b' -> guts b' = guts b \/ closedOnce b b'.
Proof.
  unfold doneOnceClose, closeDone, closedOnce. intros E. repeat case_match; simplify_eq; [by left|right]. by cbn in *.
Qed.

Lemma guts_closedOnce b1 b b' : guts b1 = guts b -> guts b' = guts b1 \/ closedOnce b1 b' -> guts b' = guts b \/ closedOnce b b'.
Proof. unfold closedOnce, guts. intros [= E1 E2 E3] [H|H]; [left; congruence|right; by rewrite E1, E2, E3 in H]. Qed.

Lemma guts_handleBye b b' : handleBye b = Some b' -> guts b' = guts b \/ closedOnce b b'.
Proof.
  unfold handleBye. intros E%guts_doneOnceClose. eapply guts_closedOnce; [|done]. apply guts_setState.
Qed.

Lemma guts_pingCheck now b b' r : pingCheck now b = (b', r) -> guts b' = guts b.
Proof. by intros ->%BridgeProps.pingCheck_same. Qed.
Lemma guts_emitStats r b : guts (emitStats r b) = guts b.
Proof. by rewrite BridgeProps.emitStats_same. Qed.

Lemma guts_dispatch msg now s : fault (dispatch msg now s) = None ->
  guts (br (dispatch msg now s)) = guts (br s) \/ closedOnce (br s) (br (dispatch msg now s)).
Proof.
  unfold dispatch. repeat case_bool_decide; cbn; try (by left); [intros _; left; apply guts_handlePong|].
  destruct (handleBye (br s)) as [b|] eqn:E; cbn; [intros _; by apply guts_handleBye|done].
Qed.

(** What a step does to them: nothing, [done] is closed once, or [Run] closes
    it or the capture, or the capture is set. *)
Definition gutsStep (l : label) (s s' : Sys) : Prop :=
  match l with
  | LRun UCloseDone => done (br s) = false /\ guts (br s') = (capture (br s), true, doneOnce (br s))
  | LRun UCloseCapture => guts (br s') = (Capture.Close <$> capture (br s), done (br s), doneOnce (br s))
  | LSetCapture cap =>
      guts (br s') = (Some (default cap (capture (br s))), done (br s), doneOnce (br s))
  | LRecv (RDecode _) | LPing PClose => guts (br s') = guts (br s) \/ closedOnce (br s) (br s')
  | _ => guts (br s') = guts (br s)
  end.

Lemma step_guts l s s' : step l s = Some s' -> fault s' = None -> gutsStep l s s'.
Proof.
  intros E Hf. unfold step in E. destruct (fault s) eqn:Hf0; [done|].
  destruct l as [|cap|l|l|l|l|l|l|l|l]; cbn in E.
  - by injection E as <-.
  - unfold SetCapture in E. unfold gutsStep, guts. destruct (capture (br s)) eqn:Ec; [injection E as <-; cbn; by rewrite Ec|].
    cbn in E. destruct (captureReady (br s)); by injection E as <-.
  - destruct l; unfold captureLoop in E; by step_cases E.
  - destruct l; unfold sendLoop in E; step_cases E; try done; cbn;
      first [by eapply guts_encodeFrame|by eapply guts_sendMsg|etrans; [|by eapply guts_sendMsg]; done].
  - destruct l; unfold recvLoop in E; step_cases E; try done; cbn; eauto using guts_encodeMsg, guts_sendMsg.
    + unfold recvInto. repeat case_match; done.
    + by apply guts_dispatch in Hf.
  - destruct l; unfold injectLoop in E; by step_cases E.
  - destruct l; unfold pingLoop in E; step_cases E; try done; cbn; eauto using guts_encodeMsg, guts_sendMsg, guts_pingCheck, guts_setState, guts_doneOnceClose.
  - destruct l; unfold statsLoop in E; step_cases E; try done. apply guts_emitStats.
  - destruct l; unfold stdinLoop in E; by step_cases E.
  - destruct l; unfold run in E; step_cases E; try done; cbn; try apply guts_setState.
    unfold closeDone in Heqo. destruct (done (br s)); by simplify_eq.
Qed.

(** What only the goroutine of a program counter changes. *)
Lemma step_frames l s s' : step l s = Some s' ->
  match l with LRun _ => True | _ => runPc_ s' = runPc_ s end /\
  match l with LCapture _ => True | _ => capturePc s' = capturePc s end /\
  match l with LInject _ => True | _ => injectPc s' = injectPc s end /\
  match l with LPing _ => True | _ => pingPc_ s' = pingPc_ s end /\
  match l with
  | LRecv _ => True
  | _ => recvPc_ s' = recvPc_ s /\ recvBuf s' = recvBuf s /\ recvPeer s' = recvPeer s
  end.
Proof.
  intros E. unfold step in E. destruct (fault s); [done|].
  destruct l as [|cap|l|l|l|l|l|l|l|l]; cbn in E.
  - by injection E as <-.
  - unfold SetCapture in E. destruct (capture (br s)); [by injection E as <-|].
    cbn in E. destruct (captureReady (br s)); by injection E as <-.
  - destruct l; unfold captureLoop in E; by step_cases E.
  - destruct l; unfold sendLoop in E; by step_cases E.
  - assert (forall msg now s0, runPc_ (dispatch msg now s0) = runPc_ s0 /\ capturePc (dispatch msg now s0) = capturePc s0 /\
      injectPc (dispatch msg now s0) = injectPc s0 /\ pingPc_ (dispatch msg now s0) = pingPc_ s0) as Hd
      by (intros; unfold dispatch; repeat case_bool_decide; try done; by case_match).
    destruct l; unfold recvLoop in E; step_cases E; try done.
    + unfold recvInto. repeat case_match; done.
    + edestruct Hd as (-> & -> & -> & ->). done.
  - destruct l; unfold injectLoop in E; by step_cases E.
  - destruct l; unfold pingLoop in E; by step_cases E.
  - destruct l; unfold statsLoop in E; by step_cases E.
  - destruct l; unfold stdinLoop in E; by step_cases E.
  - destruct l; unfold run in E; by step_cases E.
Qed.

Lemma closedOnce_capture b b' : guts b' = guts b \/ closedOnce b b' ->
  capture b' = capture b /\ (done b = true -> done b' = true).
Proof. unfold closedOnce, guts. intros [[= ? ? ?]|(? & ? & [= ? ? ?])]; split; congruence. Qed.

Lemma guts_same b b' : guts b' = guts b -> capture b' = capture b /\ done b' = done b /\ doneOnce b' = doneOnce b.
Proof. by intros [= ? ? ?]. Qed.

(** [done] stays closed, and a capture that is set stays the same or is closed. *)
Lemma gutsStep_mono l s s' : gutsStep l s s' ->
  (done (br s) = true -> done (br s') = true) /\
  (forall c, capture (br s) = Some c -> capture (br s') = Some c \/ capture (br s') = Some (Capture.Close c)).
Proof.
  unfold gutsStep. intros H.
  assert (guts (br s') = guts (br s) \/ closedOnce (br s) (br s') ->
    (done (br s) = true -> done (br s') = true) /\
    (forall c, capture (br s) = Some c -> capture (br s') = Some c \/ capture (br s') = Some (Capture.Close c))) as H0
    by (intros [-> ?]%closedOnce_capture; auto).
  destruct l as [|cap|l|l|l|l|l|l|l|l]; try (by apply H0; auto).
  - injection H as H1 H2 H3. rewrite H1, H2. split; [done|]. intros c ->. by left.
  - destruct l; apply H0; auto.
  - destruct l; apply H0; auto.
  - destruct l; try (by apply H0; auto).
    + destruct H as [_ [= H1 H2 H3]]. rewrite H1, H2. split; [done|auto].
    + injection H as H1 H2 H3. rewrite H1, H2. split; [done|]. intros c ->. by right.
Qed.

Lemma nilHandle_step l s s' : step l s = Some s' -> fault s' = None -> nilHandle s = true -> nilHandle s' = true.
Proof.
  intros E Hf. destruct (gutsStep_mono _ _ _ (step_guts _ _ _ E Hf)) as [_ Hg]. unfold nilHandle.
  destruct (capture (br s)) as [c|] eqn:Ec; [|done]. destruct (Hg c eq_refl) as [-> | ->]; [done|by intros _].
Qed.

Lemma pendingBye_step l s s' : step l s = Some s' -> match l with LRecv _ => False | _ => True end ->
  pendingBye s' = pendingBye s.
Proof.
  intros E Hl. destruct (step_frames _ _ _ E) as (_ & _ & _ & _ & Hr).
  assert (recvPc_ s' = recvPc_ s /\ recvBuf s' = recvBuf s /\ recvPeer s' = recvPeer s) as (H1 & H2 & H3)
    by (by destruct l).
  assert (rx_same (codecOf s) (codecOf s')) as Hx by (apply (step_rx l); [by destruct l|done]).
  unfold pendingBye. rewrite H1, H2, H3. destruct (recvPc_ s); try done.
  by rewrite (Decode_rx _ _ _ Hx).
Qed.

Lemma pingGivesUp_step l s s' : step l s = Some s' -> match l with LPing _ => False | _ => True end ->
  pingGivesUp s' = pingGivesUp s.
Proof.
  intros E Hl. destruct (step_frames _ _ _ E) as (_ & _ & _ & Hp & _). unfold pingGivesUp.
  assert (pingPc_ s' = pingPc_ s) as -> by (by destruct l). done.
Qed.

(** ** Who closed [done] *)

Record shut_inv (s : Sys) : Prop := {
  shut_closed : hasClosed (runPc_ s) = true -> done (br s) = true /\ doneOnce (br s) = false;
  shut_open : done (br s) = true -> doneOnce (br s) = false -> hasClosed (runPc_ s) = true \/ runPc_ s = RunReturn (Ok tt);
  shut_return : forall r, runPc_ s = RunReturn r -> allExited s = true;
}.

Lemma allExited_stable l s s' : step l s = Some s' -> allExited s = true -> allExited s' = true.
Proof.
  intros E Ha. unfold allExited in Ha. repeat case_match; try done; simplify_eq;
    unfold step in E; destruct (fault s); try done;
    (destruct l as [|cap|l|l|l|l|l|l|l|l]; cbn in E;
     [|unfold SetCapture in E; repeat case_match|destruct l; unfold captureLoop in E|destruct l; unfold sendLoop in E
     |destruct l; unfold recvLoop in E|destruct l; unfold injectLoop in E|destruct l; unfold pingLoop in E
     |destruct l; unfold statsLoop in E|destruct l; unfold stdinLoop in E|destruct l; unfold run in E]);
    step_cases E; try done; unfold allExited; cbn; repeat case_match; congruence.
Qed.

Lemma gutsStep_done l s s' : gutsStep l s s' -> match l with LRun UCloseDone => False | _ => True end ->
  done (br s') = done (br s) /\ doneOnce (br s') = doneOnce (br s) \/
  done (br s) = false /\ doneOnce (br s') = true.
Proof.
  intros H Hl. unfold gutsStep in H.
  assert (guts (br s') = guts (br s) \/ closedOnce (br s) (br s') ->
    done (br s') = done (br s) /\ doneOnce (br s') = doneOnce (br s) \/
    done (br s) = false /\ doneOnce (br s') = true) as H0.
  { intros [(_ & ? & ?)%guts_same|(? & _ & [= _ _ ?])]; auto. }
  destruct l as [|cap|l|l|l|l|l|l|l|l]; try (by apply H0; auto); [|destruct l; apply H0; auto..|].
  - injection H as _ H1 H2. by left.
  - destruct l; try done; try (by apply H0; auto). injection H as _ H1 H2. by left.
Qed.

(** [Run] closing [done] finds [doneOnce] unused. *)
Lemma shut_closeDone s s' : sys_inv s -> step (LRun UCloseDone) s = Some s' -> fault s' = None -> shut_inv s'.
Proof.
  intros Hi E Hf. unfold step in E. destruct (fault s); [done|]. cbn in E. destruct (runPc_ s); try done.
  unfold closeDone in E. destruct (done (br s)) eqn:Hd; injection E as <-; [done|].
  constructor; cbn; [intros _|by left|done]. split; [done|].
  destruct (doneOnce (br s)) eqn:Hx; [|done]. apply (inv_once _ Hi) in Hx. congruence.
Qed.

(** The other steps of [Run] keep the guts. *)
Lemma shut_run l s s' : shut_inv s -> step (LRun l) s = Some s' -> l <> UCloseDone ->
  done (br s') = done (br s) -> doneOnce (br s') = doneOnce (br s) -> shut_inv s'.
Proof.
  intros [Hc Ho Hr] E Hl H1 H2. pose proof (allExited_stable _ _ _ E) as Ha.
  unfold step in E. destruct (fault s); [done|]. cbn in E.
  constructor; rewrite ?H1, ?H2; clear H1 H2; destruct l; try done; cbn in E;
    (destruct (runPc_ s) as [| | | |[]|[]|[]|] eqn:Hp; try done; repeat case_match; try done; injection E as <-;
     cbn in Hc, Ho, Ha |- *; try done; try (by intros; destruct Ho); auto).
Qed.

Lemma shut_step l s s' : sys_inv s -> shut_inv s -> step l s = Some s' -> fault s' = None -> shut_inv s'.
Proof.
  intros Hi Hs E Hf. pose proof (step_guts _ _ _ E Hf) as Hg. pose proof (allExited_stable _ _ _ E) as Ha.
  destruct (match l with LRun _ => true | _ => false end) eqn:Hl.
  - destruct l as [| | | | | | | | |l]; try done. destruct l; try (by eapply shut_closeDone);
      (eapply shut_run; [done..| |]; try (by apply guts_same in Hg as (_ & ? & ?)); by injection Hg as _ ? ?).
  - destruct (step_frames _ _ _ E) as [Hrun _].
    assert (runPc_ s' = runPc_ s) as Hp by (by destruct l). clear Hrun.
    destruct Hs as [Hc Ho Hr]. destruct (gutsStep_done _ _ _ Hg) as [[H1 H2]|[H1 H2]]; [by destruct l|..];
      constructor; rewrite Hp; rewrite ?H1, ?H2; eauto; [|done].
    intros Hx%Hc. destruct Hx. congruence.
Qed.

Lemma shut_start b : fresh_bridge b -> shut_inv (start b).
Proof. intros (_ & _ & Ho & Hd). constructor; cbn; [done| |done]. congruence. Qed.

Lemma reachable_shut b s : fresh_bridge b -> reachable b s -> fault s = None -> shut_inv s.
Proof.
  intros Hb. apply (rtc_ind_r (fun s => fault s = None -> shut_inv s)); [intros _; by apply shut_start|].
  intros x y Hx [l E] IH Hf. assert (fault x = None) as Hfx by (unfold step in E; by destruct (fault x)).
  eapply shut_step; [by eapply reachable_inv|by apply IH|done|done].
Qed.

(** ** Doom is final *)

Lemma doomed_cases s : doomed s = true <->
  deciding (runPc_ s) = true /\ done (br s) = true \/
  (deciding (runPc_ s) = true \/ hasClosed (runPc_ s) = true) /\ (pendingBye s = true \/ pingGivesUp s = true) \/
  nilHandle s = true /\ atHandle s = true.
Proof. unfold doomed. rewrite !orb_true_iff, !andb_true_iff, !orb_true_iff. tauto. Qed.

(** The steps of [Run] from a state where the shutdown is its own. *)
Lemma run_deciding l s s' : step l s = Some s' -> fault s' = None -> deciding (runPc_ s) = true ->
  deciding (runPc_ s') = true \/ done (br s) = false /\ hasClosed (runPc_ s') = true /\ l = LRun UCloseDone.
Proof.
  intros E Hf Hd. destruct (step_frames _ _ _ E) as [Hr _].
  destruct l; try (left; by rewrite Hr). unfold step in E. destruct (fault s); [done|]. cbn in E.
  unfold run, closeDone in E. destruct l, (runPc_ s) eqn:Hp; try done; [injection E as <-; by left|].
  destruct (done (br s)); injection E as <-; [done|]. by right.
Qed.

Lemma run_hasClosed l s s' : step l s = Some s' -> hasClosed (runPc_ s) = true ->
  hasClosed (runPc_ s') = true \/ allExited s = true.
Proof.
  intros E Hd. destruct (step_frames _ _ _ E) as [Hr _].
  destruct l; try (left; by rewrite Hr). unfold step in E. destruct (fault s); [done|]. cbn in E.
  unfold run in E. destruct l, (runPc_ s) as [| | | |[]|[]|[]|] eqn:Hp; try done;
    repeat case_match; try done; injection E as <-; auto.
Qed.

Lemma setState_closing b : done (setState StateDisconnected b) = done b /\
  doneOnce (setState StateDisconnected b) = doneOnce b.
Proof. unfold setState. by case_bool_decide. Qed.

Lemma pendingBye_recv s : pendingBye s = true -> exists n a, recvPc_ s = RecvDecode n a.
Proof. unfold pendingBye. destruct (recvPc_ s); try done. eauto. Qed.

Lemma exited_not_pending s : allExited s = true -> pendingBye s = false /\ pingGivesUp s = false /\ atHandle s = false.
Proof. unfold allExited, pendingBye, pingGivesUp, atHandle. by repeat case_match. Qed.

Lemma dispatch_bye msg now s : Type_ msg = MsgBye ->
  dispatch msg now s = match handleBye (br s) with
                       | None => set_fault (Some DoubleClose) s
                       | Some b => set_br b (set_recvPc_ RecvTop s)
                       end.
Proof. intros H. unfold dispatch. by rewrite H. Qed.

(** The step that handles the BYE closes [done], or panics. *)
Lemma bye_closes l s s' : sys_inv s -> step (LRecv l) s = Some s' -> fault s' = None -> pendingBye s = true ->
  done (br s') = true /\ (done (br s) = true -> doneOnce (br s) = true).
Proof.
  intros Hi E Hf Hp. destruct (pendingBye_recv _ Hp) as (n & a & Hr). unfold pendingBye in Hp. rewrite Hr in Hp.
  unfold step in E. destruct (fault s); [done|]. cbn in E. unfold recvLoop in E. rewrite Hr in E. destruct l; try done.
  apply andb_true_iff in Hp as [Hn Hp]. destruct (_ && _) in E, Hn; [done|]. clear Hn.
  destruct (Decode _ _) as [c o]. cbn in Hp. destruct o as [msg| |]; [|done..]. apply bool_decide_eq_true in Hp.
  injection E as <-. rewrite dispatch_bye in * by done. cbn in Hf |- *. pose proof (inv_once _ Hi) as Ho1.
  destruct (handleBye _) as [b|] eqn:Eb; [|done]. unfold handleBye, doneOnceClose, closeDone in Eb.
  destruct (setState_closing (upd_transport (Transport.set_codec c) (br s))) as [Hd Ho]. cbn in Hd, Ho |- *.
  rewrite Ho in Eb. destruct (doneOnce (br s)) eqn:Eo; cbn in Eb.
  - injection Eb as <-. rewrite Hd. auto.
  - rewrite Hd in Eb. destruct (done (br s)); [done|]. by injection Eb as <-.
Qed.

(** So does the last step of giving up. *)
Lemma giving_closes l s s' : sys_inv s -> step (LPing l) s = Some s' -> fault s' = None -> pingGivesUp s = true ->
  pingGivesUp s' = true \/ done (br s') = true /\ (done (br s) = true -> doneOnce (br s) = true).
Proof.
  intros Hi E Hf Hp. unfold pingGivesUp in *. unfold step in E. destruct (fault s); [done|]. cbn in E. unfold pingLoop in E.
  destruct (pingPc_ s); try done; destruct l; try done; try (injection E as <-; by left). right.
  pose proof (inv_once _ Hi) as Ho. unfold doneOnceClose, closeDone in E. cbn in E.
  destruct (doneOnce (br s)) eqn:Eo; [injection E as <-; auto|]. destruct (done (br s)); injection E as <-; [done|]. by split.
Qed.

(** The handle is used. *)
Lemma atHandle_step l s s' : sys_inv s -> step l s = Some s' -> fault s' = None -> nilHandle s = true ->
  atHandle s = true -> atHandle s' = true.
Proof.
  intros Hi E Hf Hn Ha. destruct (step_frames _ _ _ E) as (_ & Hc & Hj & _). unfold atHandle in *.
  pose proof (inv_slices _ Hi) as Hs. pose proof (inv_buf _ Hi) as Hb.
  apply orb_true_iff in Ha as [Ha|Ha]; [destruct (capturePc s) eqn:Hp|destruct (injectPc s) as [| |sl|] eqn:Hp]; try done.
  - destruct l; try (by rewrite Hc). exfalso. unfold step in E. destruct (fault s); [done|]. cbn in E.
    unfold captureLoop in E. rewrite Hp in E. destruct l; try done. unfold nilHandle in Hn.
    destruct (capture (br s)) as [c|]; [|done]. unfold Capture.ReadPacket in E. destruct (Capture.handle c); [|done].
    by injection E as <-.
  - destruct l; try (by rewrite Hj, orb_true_r). exfalso. unfold step in E. destruct (fault s); [done|]. cbn in E.
    unfold injectLoop in E. rewrite Hp in E. destruct l; try done. unfold nilHandle in Hn.
    destruct (capture (br s)) as [c|]; [|done]. unfold Capture.WritePacket in E.
    destruct (Nat.ltb_spec (length (bytesOf s sl)) 14) as [Hl|Hl];
      [|destruct (Capture.handle c); [|done]; by injection E as <-].
    cbn in Hs. apply Forall_app in Hs as [_ Hs]. apply Forall_inv in Hs.
    unfold bytesOf in Hl. destruct Hs as [Hs1 Hs2]. unfold MinEthernetFrame in Hs2. rewrite length_slice in Hl; lia.
Qed.

(** Someone else about to close [done] stays so, or has closed it. *)
Lemma pending_step l s s' : sys_inv s -> step l s = Some s' -> fault s' = None ->
  pendingBye s = true \/ pingGivesUp s = true ->
  (pendingBye s' = true \/ pingGivesUp s' = true) \/
  runPc_ s' = runPc_ s /\ done (br s') = true /\ (done (br s) = true -> doneOnce (br s) = true).
Proof.
  intros Hi E Hf H. destruct (step_frames _ _ _ E) as [Hr _].
  destruct l as [|cap|l|l|l|l|l|l|l|l];
    try (left; by rewrite (pendingBye_step _ _ _ E I), (pingGivesUp_step _ _ _ E I)).
  - destruct H as [H|H]; [right; split; [done|by apply (bye_closes l)]|].
    left; right. by rewrite (pingGivesUp_step _ _ _ E I).
  - destruct H as [H|H]; [left; left; by rewrite (pendingBye_step _ _ _ E I)|].
    destruct (giving_closes _ _ _ Hi E Hf H) as [?|?]; auto.
Qed.

Lemma doomed_step l s s' : sys_inv s -> shut_inv s -> step l s = Some s' -> fault s' = None ->
  doomed s = true -> doomed s' = true.
Proof.
  intros Hi Hs E Hf. rewrite !doomed_cases. destruct (gutsStep_mono _ _ _ (step_guts _ _ _ E Hf)) as [Hd _].
  intros [[H1 H2]|[[Hr Hp]|[Hn Ha]]].
  - destruct (run_deciding _ _ _ E Hf H1) as [H|[H _]]; [auto|congruence].
  - destruct (pending_step _ _ _ Hi E Hf Hp) as [Hp'|(Hr' & Hc & Ho)].
    + right; left. split; [|done].
      destruct Hr as [Hr|Hr]; [destruct (run_deciding _ _ _ E Hf Hr) as [?|(_ & ? & _)]; auto|].
      destruct (run_hasClosed _ _ _ E Hr) as [?|Hx]; [auto|]. apply (allExited_stable _ _ _ E) in Hx.
      apply exited_not_pending in Hx as (Hx & Hy & _). destruct Hp'; congruence.
    + rewrite Hr'. destruct Hr as [Hr|Hr]; [auto|].
      destruct (shut_closed _ Hs Hr) as [H1 H2]. specialize (Ho H1). congruence.
  - right; right. split; [by eapply nilHandle_step|by eapply atHandle_step].
Qed.

Lemma doomed_not_returned s r : shut_inv s -> doomed s = true -> runPc_ s <> RunReturn r.
Proof.
  intros Hs Hd Hr. destruct (exited_not_pending s (shut_return _ Hs _ Hr)) as (H1 & H2 & H3).
  apply doomed_cases in Hd. rewrite Hr, H1, H2, H3 in Hd.
  by destruct Hd as [[? _]|[[_ [?|?]]|[_ ?]]].
Qed.

Lemma doomed_steps ls : forall s s', sys_inv s -> shut_inv s -> steps ls s = Some s' -> fault s' = None ->
  doomed s = true -> shut_inv s' /\ doomed s' = true.
Proof.
  induction ls as [|l ls IH]; intros s s' Hi Hs E Hf Hd; [by injection E as <-|].
  cbn in E. destruct (step l s) as [s1|] eqn:E1; [|done]. cbn in E.
  assert (fault s1 = None) as Hf1.
  { destruct ls; cbn in E; [by injection E as <-|]. unfold step in E at 1. by destruct (fault s1). }
  apply (IH s1); [by eapply step_inv|by eapply shut_step|done|done|by eapply doomed_step].
Qed.

(** ** Out of every other state *)

Definition capLeft (p : capPc) : nat := match p with CapExit => 0 | CapWaitReady | CapTop => 1 | _ => 2 end.
Definition sendLeft (p : sendPc) : nat :=
  match p with SendExit => 0 | SendSelect => 1 | SendWrite _ _ => 2 | SendEncode _ => 3 end.
Definition recvLeft (p : recvPc) : nat :=
  match p with RecvExit => 0 | RecvTop => 1 | RecvStart | RecvRead | RecvSend _ => 2 | RecvPong _ => 3 | RecvDecode _ _ => 4 end.
Definition injLeft (p : injPc) : nat := match p with InjExit => 0 | InjWrite _ => 2 | _ => 1 end.
Definition pingLeft (p : pingPc) : nat :=
  match p with PingExit => 0 | PingSelect => 1 | PingSend _ | PingClose => 2 | PingEncode _ | PingState => 3 | PingReport _ => 4 end.
Definition statsLeft (p : statsPc) : nat := match p with StatsPrint read => 8 - Nat.min 6 (length read) | StatsSelect => 1 | _ => 0 end.
Definition stdinLeft (p : stdinPc) : nat := match p with StdinExit => 0 | StdinSelect => 1 | StdinForward => 9 end.
Definition runLeft (p : runPc) : nat :=
  match p with
  | RunSelect => 7 | RunDecide => 6 | RunBye => 5 | RunCloseDone => 4 | RunCloseTransport _ => 3
  | RunCloseCapture _ => 2 | RunWait _ => 1 | RunReturn _ => 0
  end.

(** How many steps are left at most when the goroutines only wind up. *)
Definition remaining (s : Sys) : nat :=
  capLeft (capturePc s) + sendLeft (sendPc_ s) + recvLeft (recvPc_ s) + injLeft (injectPc s) + pingLeft (pingPc_ s) +
  statsLeft (statsPc_ s) + stdinLeft (stdinPc_ s) + runLeft (runPc_ s).

Ltac left_drop E := unfold remaining; cbn; rewrite E; cbn; lia.

(** A step of the goroutines, not of the outside. *)
Definition own (l : label) : bool := match l with LCancel | LSetCapture _ => false | _ => true end.

(** A step that winds up. *)
Definition winds (s : Sys) : Prop :=
  exists l s', own l = true /\ step l s = Some s' /\ fault s' = None /\ ctx s' = true /\ doomed s' = false /\ (remaining s' < remaining s)%nat.

Lemma doomed_none s : doomed s = false ->
  (deciding (runPc_ s) = true -> done (br s) = false) /\
  (deciding (runPc_ s) || hasClosed (runPc_ s) = true -> pendingBye s = false /\ pingGivesUp s = false) /\
  (nilHandle s = true -> atHandle s = false).
Proof.
  unfold doomed.
  by destruct (deciding _), (hasClosed _), (pendingBye s), (pingGivesUp s), (nilHandle s), (done (br s)), (atHandle s); intros.
Qed.

(** A step of another goroutine that keeps the guts does not doom. *)
Lemma doomed_kept s s' : guts (br s') = guts (br s) -> runPc_ s' = runPc_ s ->
  (pendingBye s' = true -> pendingBye s = true) -> (pingGivesUp s' = true -> pingGivesUp s = true) ->
  (atHandle s' = true -> atHandle s = true) -> doomed s = false -> doomed s' = false.
Proof.
  intros (Hc & Hd & _)%guts_same Hr Hp Hg Ha. rewrite <- !not_true_iff_false, !doomed_cases. unfold nilHandle.
  rewrite Hc, Hd, Hr. tauto.
Qed.

Section winding.
Variable s : Sys.
Hypothesis Hctx : ctx s = true.
Hypothesis Hfault : fault s = None.
Hypothesis Hdoom : doomed s = false.

Lemma winds_by l s' : own l = true -> step l s = Some s' -> fault s' = None -> ctx s' = true -> (remaining s' < remaining s)%nat ->
  guts (br s') = guts (br s) -> runPc_ s' = runPc_ s ->
  (pendingBye s' = true -> pendingBye s = true) -> (pingGivesUp s' = true -> pingGivesUp s = true) ->
  (atHandle s' = true -> atHandle s = true) -> winds s.
Proof. intros. exists l, s'. split_and!; [done..|by eapply doomed_kept|done]. Qed.

(** A step of a goroutine that neither reads the buffer nor uses the handle. *)
Lemma winds_apart l s' : step l s = Some s' -> fault s' = None -> ctx s' = true -> (remaining s' < remaining s)%nat ->
  guts (br s') = guts (br s) ->
  match l with
  | LSend _ | LStats _ | LStdin _ => True
  | LPing _ => pingGivesUp s' = true -> pingGivesUp s = true
  | _ => False
  end -> winds s.
Proof.
  intros E Hf Hc Hl Hg Hk. destruct (step_frames _ _ _ E) as (Hr & Hcp & Hj & _).
  apply (winds_by l s'); try done; [by destruct l|by destruct l| | |].
  - by rewrite (pendingBye_step l s s') by (by destruct l).
  - destruct l; try done; by rewrite (pingGivesUp_step _ _ _ E I).
  - unfold atHandle. by destruct l; try done; rewrite Hcp, Hj.
Qed.

Lemma send_winds : sendPc_ s <> SendExit -> winds s.
Proof.
  intros Hp. destruct (sendPc_ s) as [|f|f w|] eqn:E; [| | |done].
  - eapply (winds_apart (LSend SCtx)); [unfold step, goStep, sendLoop; by rewrite Hfault, E, Hctx|done..| |done|done].
    left_drop E.
  - destruct (encodeFrame f (br s)) as [b r] eqn:Ef.
    eapply (winds_apart (LSend SEncode)); [unfold step, goStep, sendLoop; by rewrite Hfault, E, Ef|by destruct r..| | |done].
    + destruct r; left_drop E.
    + apply guts_encodeFrame in Ef. by destruct r.
  - destruct (sendMsg w None (br s)) as [b r] eqn:Ef.
    eapply (winds_apart (LSend (SWrite None))); [unfold step, goStep, sendLoop; by rewrite Hfault, E, Ef|by destruct r..| | |done].
    + destruct r; left_drop E.
    + apply guts_sendMsg in Ef. by destruct r.
Qed.

Lemma stdin_winds : stdinPc_ s <> StdinExit -> winds s.
Proof.
  intros Hp. destruct (stdinPc_ s) eqn:E; [| |done].
  - eapply (winds_apart (LStdin DCtx)); [unfold step, goStep, stdinLoop; by rewrite Hfault, E, Hctx|done..| |done|done].
    left_drop E.
  - eapply (winds_apart (LStdin DForward)); [unfold step, goStep, stdinLoop; by rewrite Hfault, E|..| |done]; cbn;
      try (by destruct (statsPc_ s)). unfold remaining. destruct (statsPc_ s) eqn:Es; cbn; rewrite E, ?Es; cbn; lia.
Qed.

Lemma stats_winds : statsPc_ s = StatsSelect \/ (exists read, statsPc_ s = StatsPrint read) -> winds s.
Proof.
  intros [E|[read E]].
  - eapply (winds_apart (LStats TCtx)); [unfold step, goStep, statsLoop; by rewrite Hfault, E, Hctx|done..| |done|done].
    left_drop E.
  - destruct (Nat.ltb_spec (length read) 6) as [Hl|Hl].
    + eapply (winds_apart (LStats TLoad));
        [unfold step, goStep, statsLoop; by rewrite Hfault, E, (proj2 (Nat.ltb_lt _ _) Hl)|done..| |done|done].
      unfold remaining. cbn -[Nat.min]. rewrite E. cbn -[Nat.min]. rewrite length_app. cbn -[Nat.min]. lia.
    + eapply (winds_apart (LStats TPrint));
        [unfold step, goStep, statsLoop; by rewrite Hfault, E, (proj2 (Nat.ltb_ge _ _) Hl)|done..| |apply guts_emitStats|done].
      unfold remaining. cbn -[Nat.min]. rewrite E. cbn -[Nat.min]. lia.
Qed.

(** The goroutine that is about to use the handle finds one. *)
Lemma handle_open c : atHandle s = true -> capture (br s) = Some c -> Capture.handle c = Capture.HandleOpen.
Proof.
  intros Ha Hc. destruct (doomed_none _ Hdoom) as (_ & _ & Hn). unfold nilHandle in Hn. rewrite Hc in Hn.
  destruct (Capture.handle c); [specialize (Hn eq_refl); congruence|done].
Qed.

(** A step of one of the two goroutines that use it, to a point where they do not. *)
Lemma winds_handle l s' : step l s = Some s' -> fault s' = None -> ctx s' = true -> (remaining s' < remaining s)%nat ->
  guts (br s') = guts (br s) ->
  match l with
  | LCapture _ => capturePc s' <> CapRead
  | LInject _ => forall sl, injectPc s' <> InjWrite sl
  | _ => False
  end -> winds s.
Proof.
  intros E Hf Hc Hl Hg Hk. destruct (step_frames _ _ _ E) as (Hr & Hcp & Hj & _).
  apply (winds_by l s'); try done; [by destruct l|by destruct l| | |].
  - by rewrite (pendingBye_step l s s') by (by destruct l).
  - by rewrite (pingGivesUp_step l s s') by (by destruct l).
  - unfold atHandle. destruct l; try done.
    + rewrite Hj. destruct (capturePc s'); try done; by intros ->%orb_true_iff || (cbn; intros ->; apply orb_true_r).
    + rewrite Hcp. destruct (injectPc s') as [| |sl|]; try (by destruct (Hk sl)); by rewrite orb_false_r; intros ->.
Qed.

Lemma capture_winds : capturePc s <> CapExit -> winds s.
Proof.
  intros Hp. destruct (capturePc s) as [| | |f|] eqn:E; [| | | |done].
  - eapply (winds_handle (LCapture CCtx)); [unfold step, goStep, captureLoop; by rewrite Hfault, E, Hctx|done..| |done|done].
    left_drop E.
  - eapply (winds_handle (LCapture CTop)); [unfold step, goStep, captureLoop; by rewrite Hfault, E, Hctx|done..| |done|done].
    left_drop E.
  - assert (atHandle s = true) as Ha by (unfold atHandle; by rewrite E).
    pose proof (fun c => handle_open c Ha) as Ho. destruct (capture (br s)) as [c|] eqn:Ec.
    + eapply (winds_handle (LCapture (CRead Capture.PTimeout)));
        [unfold step, goStep, captureLoop, Capture.ReadPacket; by rewrite Hfault, E, Ec, (Ho c)|done..| |done|done].
      left_drop E.
    + eapply (winds_handle (LCapture (CRead Capture.PTimeout)));
        [unfold step, goStep, captureLoop; by rewrite Hfault, E, Ec|done..| |done|done].
      left_drop E.
  - eapply (winds_handle (LCapture CPut)); [unfold step, goStep, captureLoop; by rewrite Hfault, E|done..| |done|done].
    left_drop E.
Qed.

Lemma inject_winds : injectPc s <> InjExit -> winds s.
Proof.
  intros Hp. destruct (injectPc s) as [| |sl|] eqn:E; [| | |done].
  - eapply (winds_handle (LInject ICtx)); [unfold step, goStep, injectLoop; by rewrite Hfault, E, Hctx|done..| |done|done].
    left_drop E.
  - eapply (winds_handle (LInject ICtx)); [unfold step, goStep, injectLoop; by rewrite Hfault, E, Hctx|done..| |done|done].
    left_drop E.
  - assert (atHandle s = true) as Ha by (unfold atHandle; rewrite E; apply orb_true_r).
    pose proof (fun c => handle_open c Ha) as Ho. destruct (capture (br s)) as [c|] eqn:Ec.
    + specialize (Ho c eq_refl). destruct (length (bytesOf s sl) <? 14)%nat eqn:El;
        (eapply (winds_handle (LInject (IWrite None)));
        [unfold step, goStep, injectLoop, Capture.WritePacket; by rewrite Hfault, E, Ec, El, ?Ho|done..| |done|done]);
        left_drop E.
    + eapply (winds_handle (LInject (IWrite None)));
        [unfold step, goStep, injectLoop; by rewrite Hfault, E, Ec|done..| |done|done].
      left_drop E.
Qed.

(** A step that may close [done], of a goroutine that then no longer will. *)
Lemma winds_closing l s' : own l = true -> step l s = Some s' -> fault s' = None -> ctx s' = true ->
  (remaining s' < remaining s)%nat ->
  guts (br s') = guts (br s) \/ closedOnce (br s) (br s') /\ (pendingBye s = true \/ pingGivesUp s = true) ->
  runPc_ s' = runPc_ s -> atHandle s' = atHandle s ->
  (pendingBye s' = true -> pendingBye s = true) -> (pingGivesUp s' = true -> pingGivesUp s = true) -> winds s.
Proof.
  intros Ho E Hf Hc Hl Hg Hr Ha Hp Hq. exists l, s'. split_and!; [done..| |done].
  destruct Hg as [Hg|[Hg Hx]]; [eapply doomed_kept; [done..|by rewrite Ha|done]|].
  destruct (doomed_none _ Hdoom) as (H1 & H2 & H3). apply not_true_iff_false. rewrite doomed_cases, Hr, Ha.
  destruct (closedOnce_capture _ _ (or_intror Hg)) as [Hcap _].
  assert (nilHandle s' = nilHandle s) as -> by (unfold nilHandle; by rewrite Hcap).
  assert (deciding (runPc_ s) || hasClosed (runPc_ s) = false) as [Hd Hh]%orb_false_iff.
  { destruct (_ || _) eqn:Eo; [|done]. destruct (H2 eq_refl). destruct Hx; congruence. }
  rewrite Hd, Hh. intros [[? _]|[[[?|?] _]|[Hy Hz]]]; try done. specialize (H3 Hy). congruence.
Qed.

Lemma winds_recv l s' : step (LRecv l) s = Some s' -> fault s' = None -> ctx s' = true -> (remaining s' < remaining s)%nat ->
  guts (br s') = guts (br s) \/ closedOnce (br s) (br s') /\ pendingBye s = true ->
  (forall n a, recvPc_ s' <> RecvDecode n a) -> winds s.
Proof.
  intros E Hf Hc Hl Hg Hk. destruct (step_frames _ _ _ E) as (Hr & Hcp & Hj & _).
  apply (winds_closing (LRecv l) s'); try done.
  - destruct Hg as [?|[? ?]]; auto.
  - unfold atHandle. by rewrite Hcp, Hj.
  - unfold pendingBye at 1. destruct (recvPc_ s') as [| | |n a| | |]; try done. by destruct (Hk n a).
  - by rewrite (pingGivesUp_step _ _ _ E I).
Qed.

Hypothesis Hinv : sys_inv s.
Hypothesis Hshut : shut_inv s.

Lemma not_returned r : allExited s = false -> runPc_ s <> RunReturn r.
Proof. intros Hp Hr. apply (shut_return _ Hshut) in Hr. congruence. Qed.

(** Whoever is about to close [done] can. *)
Lemma doneOnceClose_total b : done b = done (br s) -> doneOnce b = doneOnce (br s) -> allExited s = false ->
  pendingBye s = true \/ pingGivesUp s = true ->
  exists b', doneOnceClose b = Some b' /\ (guts b' = guts b \/ closedOnce b b').
Proof.
  intros Hd Ho Hx Hp. unfold doneOnceClose, closeDone, closedOnce. rewrite Ho. destruct (doneOnce (br s)) eqn:Eo; [eauto|].
  cbn. rewrite Hd. destruct (done (br s)) eqn:Ed.
  - destruct (doomed_none _ Hdoom) as (_ & H & _).
    destruct (shut_open _ Hshut Ed Eo) as [Hc|Hc]; [|by apply not_returned in Hc].
    rewrite Hc, orb_true_r in H. destruct (H eq_refl). destruct Hp; congruence.
  - eexists. split; [done|]. right. by split_and!.
Qed.

Lemma ping_winds : pingPc_ s <> PingExit -> winds s.
Proof.
  intros Hp. assert (allExited s = false) as Hx by (unfold allExited; by repeat case_match).
  destruct (pingPc_ s) as [|ts|w|missed| | |] eqn:E; [| | | | | |done].
  - eapply (winds_apart (LPing PCtx)); [unfold step, goStep, pingLoop; by rewrite Hfault, E, Hctx|done..| |done|done].
    left_drop E.
  - destruct (encodeMsg (EncodePing ts) (br s)) as [b w] eqn:Ef.
    eapply (winds_apart (LPing PEncode)); [unfold step, goStep, pingLoop; by rewrite Hfault, E, Ef|done..| | |done].
    + left_drop E.
    + by apply guts_encodeMsg in Ef.
  - destruct (sendMsg w None (br s)) as [b r] eqn:Ef.
    eapply (winds_apart (LPing (PSend None))); [unfold step, goStep, pingLoop; by rewrite Hfault, E, Ef|done..| | |done].
    + left_drop E.
    + by apply guts_sendMsg in Ef.
  - eapply (winds_apart (LPing PReport)); [unfold step, goStep, pingLoop; by rewrite Hfault, E|done..| |done|].
    + left_drop E.
    + intros _. unfold pingGivesUp. by rewrite E.
  - eapply (winds_apart (LPing PState)); [unfold step, goStep, pingLoop; by rewrite Hfault, E|done..| |apply guts_setState|].
    + left_drop E.
    + intros _. unfold pingGivesUp. by rewrite E.
  - assert (pingGivesUp s = true) as Hg by (unfold pingGivesUp; by rewrite E).
    destruct (doneOnceClose_total (br s)) as (b' & Hb & Hc); auto.
    assert (step (LPing PClose) s = Some (set_pingPc_ PingSelect (set_br b' s))) as Es
      by (unfold step, goStep, pingLoop; by rewrite Hfault, E, Hb).
    apply (winds_closing (LPing PClose) _ eq_refl Es); [done|done|left_drop E|destruct Hc; auto|done|done| |done].
    by rewrite (pendingBye_step _ _ _ Es I).
Qed.

Lemma dispatch_other msg now s0 : Type_ msg <> MsgBye ->
  fault (dispatch msg now s0) = fault s0 /\ guts (br (dispatch msg now s0)) = guts (br s0).
Proof. intros H. unfold dispatch. repeat case_bool_decide; try done. cbn. split; [done|]. apply guts_handlePong. Qed.

Lemma dispatch_pcs msg now s0 : ctx (dispatch msg now s0) = ctx s0 /\ sendPc_ (dispatch msg now s0) = sendPc_ s0 /\
  pingPc_ (dispatch msg now s0) = pingPc_ s0 /\ statsPc_ (dispatch msg now s0) = statsPc_ s0 /\
  stdinPc_ (dispatch msg now s0) = stdinPc_ s0 /\
  (fault (dispatch msg now s0) = None -> recvPc_ (dispatch msg now s0) = RecvTop \/ exists ts, recvPc_ (dispatch msg now s0) = RecvPong ts).
Proof.
  unfold dispatch. repeat case_bool_decide; cbn; try (split_and!; eauto; done).
  destruct (handleBye (br s0)); cbn; split_and!; auto. done.
Qed.

(** Handling a decoded message winds up. *)
Lemma dispatch_winds n a c msg : recvPc_ s = RecvDecode n a ->
  (Type_ msg = MsgBye -> pendingBye s = true) ->
  step (LRecv (RDecode 0)) s = Some (dispatch msg 0 (upd_br (upd_transport (Transport.set_codec c)) s)) -> winds s.
Proof.
  intros Hp Hb E. set (s0 := upd_br _ s) in *. destruct (step_frames _ _ _ E) as (Hr & Hcp & Hj & _).
  destruct (dispatch_pcs msg 0 s0) as (Hc & H1 & H2 & H3 & H4 & Hpc).
  assert (fault (dispatch msg 0 s0) = None /\
    (guts (br (dispatch msg 0 s0)) = guts (br s) \/ closedOnce (br s) (br (dispatch msg 0 s0)) /\ pendingBye s = true))
    as [Hf Hg].
  { destruct (decide (Type_ msg = MsgBye)) as [Ht|Ht]; [|by destruct (dispatch_other msg 0 s0 Ht) as [-> ->]; auto].
    rewrite dispatch_bye by done. unfold handleBye. destruct (setState_closing (br s0)) as [Hd Ho].
    destruct (doneOnceClose_total (setState StateDisconnected (br s0))) as (b & -> & Hb');
      [done|done|unfold allExited; by rewrite Hp; repeat case_match|auto|]. split; [done|]. cbn.
    destruct (guts_closedOnce (setState StateDisconnected (br s0)) (br s) b (guts_setState _ _) Hb'); auto. }
  apply (winds_recv (RDecode 0) (dispatch msg 0 s0)); try done; [by rewrite Hc| |intros; by destruct (Hpc Hf) as [->|[? ->]]].
  unfold remaining. rewrite Hr, Hcp, Hj, H1, H2, H3, H4. destruct (Hpc Hf) as [->|[? ->]]; cbn; rewrite Hp; cbn; lia.
Qed.

Lemma decode_winds n a : recvPc_ s = RecvDecode n a -> winds s.
Proof.
  intros Hp. destruct (step (LRecv (RDecode 0)) s) as [s'|] eqn:E.
  2: { unfold step, goStep, recvLoop in E. rewrite Hfault, Hp in E. destruct (_ && _) in E; [done|]. by destruct (Decode _ _). }
  pose proof (inv_fault _ (step_inv _ _ _ Hinv E)) as Hd. pose proof E as E0.
  unfold step, goStep, recvLoop in E. rewrite Hfault, Hp in E.
  assert (pendingBye s = _) as Hb by (unfold pendingBye; rewrite Hp; reflexivity).
  destruct (_ && _) in E, Hb.
  - injection E as <-. apply (winds_recv _ _ E0); [done..| |by left|done]. left_drop Hp.
  - destruct (Decode _ _) as [c o]. destruct o as [msg|e|]; injection E as <-; cbn in Hb, Hd.
    + apply (dispatch_winds n a c msg); [done| |done]. intros Ht. rewrite Hb. by apply bool_decide_eq_true.
    + apply (winds_recv _ _ E0); [done..| |by left|done]. left_drop Hp.
    + done.
Qed.

Lemma recv_winds : recvPc_ s <> RecvExit -> winds s.
Proof.
  intros Hp. destruct (recvPc_ s) as [| | |n a|ts|w|] eqn:E; [| | |by eapply decode_winds| | |done].
  - eapply (winds_recv RStart); [unfold step, goStep, recvLoop; by rewrite Hfault, E|done..| |by left|done]. left_drop E.
  - eapply (winds_recv RTop); [unfold step, goStep, recvLoop; by rewrite Hfault, E, Hctx|done..| |by left|done]. left_drop E.
  - assert (forall s', step (LRecv (RRead Transport.RTimeout)) s = Some s' -> s' = set_recvPc_ RecvTop s \/ s' = set_recvPc_ RecvExit s) as Hx.
    { intros s'. unfold step, goStep, recvLoop, recvInto, Transport.Recv, Transport.conn_read. rewrite Hfault, E, Hctx.
      destruct (Transport.closed _); [intros [= <-]; auto|]. destruct (Transport.conn _); intros [= <-]; auto. }
    destruct (step (LRecv (RRead Transport.RTimeout)) s) as [s'|] eqn:Es;
      [|unfold step, goStep, recvLoop in Es; by rewrite Hfault, E in Es].
    destruct (Hx s' eq_refl) as [-> | ->]; (apply (winds_recv _ _ Es); [done..| |by left|done]); left_drop E.
  - destruct (encodeMsg (EncodePong ts) (br s)) as [b w] eqn:Ef. apply guts_encodeMsg in Ef as Hg.
    eapply (winds_recv REncode); [unfold step, goStep, recvLoop; by rewrite Hfault, E, Ef|done..| |by left|done]. left_drop E.
  - destruct (sendMsg w None (br s)) as [b r] eqn:Ef. apply guts_sendMsg in Ef as Hg.
    eapply (winds_recv (RSend None)); [unfold step, goStep, recvLoop; by rewrite Hfault, E, Ef|done..| |by left|done]. left_drop E.
Qed.

(** With the other goroutines gone, [Run] goes to its end. *)
Lemma run_winds : allExited s = true -> (forall r, runPc_ s <> RunReturn r) -> winds s.
Proof.
  intros Ha Hr. destruct (doomed_none _ Hdoom) as (Hd & _ & _).
  assert (forall l s', step (LRun l) s = Some s' -> fault s' = None -> ctx s' = true -> (remaining s' < remaining s)%nat ->
    (deciding (runPc_ s') = true -> done (br s') = false) -> winds s) as H.
  { intros l s' E Hf Hc Hl Hx. exists (LRun l), s'. split_and!; [done..| |done]. apply not_true_iff_false.
    apply (allExited_stable _ _ _ E) in Ha. apply exited_not_pending in Ha as (Hp & Hq & Hh).
    rewrite doomed_cases, Hp, Hq, Hh. intros [[? ?]|[[_ [?|?]]|[_ ?]]]; [|done..]. rewrite Hx in *; done. }
  destruct (runPc_ s) as [| | | |p|p|p|r] eqn:E; [..|by destruct (Hr r)].
  - eapply (H UWake); [unfold step, goStep, run; by rewrite Hfault, E, Hctx|done..| |done]. left_drop E.
  - eapply (H UDecide); [unfold step, goStep, run; by rewrite Hfault, E|done..| |]; cbn.
    + unfold remaining. cbn. rewrite E. destruct (done (br s)); cbn; lia.
    + by destruct (done (br s)).
  - eapply (H (UBye None)); [unfold step, goStep, run; by rewrite Hfault, E|done..| |by intros _; apply Hd]. left_drop E.
  - eapply (H UCloseDone); [unfold step, goStep, run, closeDone; by rewrite Hfault, E, Hd|done..| |done]. left_drop E.
  - eapply (H UCloseTransport); [unfold step, goStep, run; by rewrite Hfault, E|done..| |done]. left_drop E.
  - eapply (H UCloseCapture); [unfold step, goStep, run; by rewrite Hfault, E|done..| |done]. left_drop E.
  - eapply (H UWait); [unfold step, goStep, run; by rewrite Hfault, E, Ha|done..| |done]. left_drop E.
Qed.

Lemma winds_or_returned : winds s \/ exists r, runPc_ s = RunReturn r.
Proof.
  destruct (allExited s) eqn:Ha.
  - destruct (runPc_ s) eqn:Hr; [left; apply run_winds; [done|congruence]..|eauto].
  - left. unfold allExited in Ha.
    destruct (recvPc_ s) eqn:?; try (apply recv_winds; congruence).
    destruct (capturePc s) eqn:?; try (apply capture_winds; congruence).
    destruct (injectPc s) eqn:?; try (apply inject_winds; congruence).
    destruct (sendPc_ s) eqn:?; try (apply send_winds; congruence).
    destruct (pingPc_ s) eqn:?; try (apply ping_winds; congruence).
    destruct (stdinPc_ s) eqn:?; try (apply stdin_winds; congruence).
    destruct (statsPc_ s) eqn:?; try (apply stats_winds; eauto); done.
Qed.

End winding.

Lemma winds_up n : forall s, (remaining s <= n)%nat -> ctx s = true -> fault s = None -> doomed s = false -> sys_inv s ->
  shut_inv s -> exists ls s' r, steps ls s = Some s' /\ fault s' = None /\ runPc_ s' = RunReturn r /\
    (length ls <= n)%nat /\ Forall (fun l => own l = true) ls.
Proof.
  induction n as [|n IH]; intros s Hn Hc Hf Hd Hi Hs.
  - destruct (winds_or_returned s Hc Hf Hd Hi Hs) as [(l & s' & _ & _ & _ & _ & _ & ?)|[r Hr]]; [lia|].
    exists [], s, r. by split_and!.
  - destruct (winds_or_returned s Hc Hf Hd Hi Hs) as [(l & s1 & Ho & E & Hf1 & Hc1 & Hd1 & Hl)|[r Hr]].
    + destruct (IH s1) as (ls & s' & r & E' & Hf' & Hr & Hlen & Hos); [lia|done..|by eapply step_inv|by eapply shut_step|].
      exists (l :: ls), s', r. split_and!; [by eapply steps_cons|done|done|cbn; lia|by constructor].
    + exists [], s, r. split_and!; [done..|cbn; lia|constructor].
Qed.

(** A cancelled context stays cancelled. *)
Lemma step_ctx l s s' : step l s = Some s' -> ctx s = true -> ctx s' = true.
Proof.
  intros E H. unfold step in E. destruct (fault s); [done|].
  destruct l as [|cap|l|l|l|l|l|l|l|l]; cbn in E; [by injection E as <-|..].
  - unfold SetCapture in E. destruct (capture (br s)); [by injection E as <-|].
    cbn in E. destruct (captureReady (br s)); by injection E as <-.
  - destruct l; unfold captureLoop in E; by step_cases E.
  - destruct l; unfold sendLoop in E; by step_cases E.
  - destruct l; unfold recvLoop in E; step_cases E; try done.
    + unfold recvInto. repeat case_match; done.
    + by rewrite (proj1 (dispatch_pcs _ _ _)).
  - destruct l; unfold injectLoop in E; by step_cases E.
  - destruct l; unfold pingLoop in E; by step_cases E.
  - destruct l; unfold statsLoop in E; by step_cases E.
  - destruct l; unfold stdinLoop in E; by step_cases E.
  - destruct l; unfold run in E; by step_cases E.
Qed.

Lemma steps_ctx ls : forall s s', steps ls s = Some s' -> ctx s = true -> ctx s' = true.
Proof.
  induction ls as [|l ls IH]; intros s s' E H; cbn in E; [by simplify_eq|].
  destruct (step l s) as [s1|] eqn:E1; [|done]. eapply IH; [exact E|]. by eapply step_ctx.
Qed.

Lemma remaining_bound s : (remaining s <= 39)%nat.
Proof.
  unfold remaining.
  assert (capLeft (capturePc s) <= 2)%nat by (destruct (capturePc s); cbn; lia).
  assert (sendLeft (sendPc_ s) <= 3)%nat by (destruct (sendPc_ s); cbn; lia).
  assert (recvLeft (recvPc_ s) <= 4)%nat by (destruct (recvPc_ s); cbn; lia).
  assert (injLeft (injectPc s) <= 2)%nat by (destruct (injectPc s); cbn; lia).
  assert (pingLeft (pingPc_ s) <= 4)%nat by (destruct (pingPc_ s); cbn; lia).
  assert (statsLeft (statsPc_ s) <= 8)%nat by (destruct (statsPc_ s); cbn -[Nat.min]; lia).
  assert (stdinLeft (stdinPc_ s) <= 9)%nat by (destruct (stdinPc_ s); cbn; lia).
  assert (runLeft (runPc_ s) <= 7)%nat by (destruct (runPc_ s); cbn; lia). lia.
Qed.

End shutdown.

(** ** Claims *)

Section claims.
Context `{M : Mac}.

(** C6. Once its context is cancelled, [Run] can return, within 39 steps of its
    goroutines and nothing more from outside, from exactly the states that are
    not doomed: from those that are, no schedule, whatever the network and the
    capture do, makes [Run] return. *)
Theorem shutdown_returns (b : Bridge) (s : Sys) :
  fresh_bridge b -> reachable b s -> ctx s = true -> fault s = None ->
  (doomed s = false ->
   exists ls s' r, steps ls s = Some s' /\ fault s' = None /\ runPc_ s' = RunReturn r /\
     (length ls <= 39)%nat /\ Forall (fun l => own l = true) ls) /\
  (doomed s = true ->
   forall ls s' r, steps ls s = Some s' -> fault s' = None -> runPc_ s' <> RunReturn r).
Proof.
  intros Hb Hr Hc Hf. pose proof (reachable_inv _ _ Hb Hr) as Hi. pose proof (reachable_shut _ _ Hb Hr Hf) as Hs. split.
  - intros Hd. apply winds_up; auto using remaining_bound.
  - intros Hd ls s' r E Hf'. destruct (doomed_steps ls s s' Hi Hs E Hf' Hd) as [Hs' Hd'].
    by apply doomed_not_returned.
Qed.

End claims.

(** ** Witness *)

(** A bridge that is idle when it is cancelled, and one whose capture goroutine
    is at its read when [Run] has closed the capture. *)
Definition ex_closing : list label :=
  [LCapture CReady; LCapture CTop; LCancel; LRun UWake; LRun UDecide; LRun (UBye None); LRun UCloseDone;
   LRun UCloseTransport; LRun UCloseCapture].

Lemma ex_closing_run : exists s, steps ex_closing (start (ex_live [])) = Some s /\
  ctx s = true /\ fault s = None /\ doomed s = true.
Proof. eexists. split; [unfold ex_closing; repeat run_step; reflexivity|]. by repeat split. Qed.

Lemma ex_cancelled_run : exists s, steps [LCancel] (start (ex_live [])) = Some s /\
  ctx s = true /\ fault s = None /\ doomed s = false.
Proof. eexists. split; [repeat run_step; reflexivity|]. by repeat split. Qed.

Lemma shutdown_returns_witness :
  (exists ls s r, steps (LCancel :: ls) (start (ex_live [])) = Some s /\ runPc_ s = RunReturn r) /\
  (exists s, steps ex_closing (start (ex_live [])) = Some s /\
   forall ls s' r, steps ls s = Some s' -> fault s' = None -> runPc_ s' <> RunReturn r).
Proof.
  assert (fresh_bridge (ex_live [])) as Hb by apply (ex_connected []). split.
  - destruct ex_cancelled_run as (s & E & Hc & Hf & Hd).
    destruct (proj1 (shutdown_returns _ s Hb (steps_rtc _ _ _ E) Hc Hf) Hd) as (ls & s' & r & E' & _ & Hr & _).
    exists ls, s', r. split; [|exact Hr]. change (LCancel :: ls) with ([LCancel] ++ ls). by rewrite steps_app, E.
  - destruct ex_closing_run as (s & E & Hc & Hf & Hd). exists s. split; [exact E|].
    exact (proj2 (shutdown_returns _ s Hb (steps_rtc _ _ _ E) Hc Hf) Hd).
Defined.

End Shutdown.
