(* ===== verification/BridgeEvents.v ===== *)
(** * The bridge: the numbers in its events

    The counters and round trips of a statistics or latency event, read back
    from the text in the event file, are the bridge's own, to the nanosecond:
    the division to floating-point milliseconds and the shortest decimal text
    lose nothing.  The line that is logged rounds to milliseconds. *)

From Stdlib Require Import Ascii.
From S2P Require Import Prelude GoFloat GoLib Json JsonWrite GoDecimal FloatText FloatExact GoTime Events EventsProps.
From S2P Require Import Sha256 Protocol Transport Capture Bridge BridgeProps BridgeRun BridgeRunProps BridgeClaims Session BridgeTraffic.
Import GoFloat GoLib Json JsonWrite GoDecimal FloatText FloatExact GoTime Events EventsProps.
Import Bridge BridgeProps BridgeRun BridgeRunProps BridgeClaims BridgeTraffic.

Module BridgeEvents.

#[local] Opaque recvBufSize.

(** ** Specification: reading the payloads *)


(** A number of milliseconds, in nanoseconds. *)
Definition readMs (v : jval) : option Z := match v with JNum t => readNs t | _ => None end.

(** The keys of an object, in order, and the values. *)
Definition fields (ks : list string) (v : jval) : option (list jval) :=
  match v with
  | JObj kvs => if bool_decide (kvs.*1 = chars <$> ks) then Some kvs.*2 else None
  | _ => None
  end.


Definition readLatency (v : jval) : option (Z * bool * bool) :=
  fs ← fields ["rtt_ms"; "is_spike"; "exceeds_threshold"]%string v;
  match fs with
  | [rtt; JBool spike; JBool exceeds] => rtt ← readMs rtt; Some (rtt, spike, exceeds)
  | _ => None
  end.

(** A reader of the file finds one more event, of type [ty] and with data that
    [p] holds of, once the event is written. *)
Definition addsEvent (ty : string) (p : jval -> Prop) (e : EventType * Data) : Prop :=
  forall now j, timeText now <> None -> encErr j = false -> complete (output j) ->
  exists v, readEvents (jsonEmit e.1 e.2 now None j) = readEvents j ++ [(chars ty, v)] /\ p v.


(** ** Lemmas *)


Lemma ms_reads d : - 2 ^ 52 < d < 2 ^ 52 -> exists t, float (toMs d) = Some (JNum t) /\ readNs t = Some d.
Proof.
  intros Hd. destruct (ms_roundtrip d Hd) as (t & Ht & Hr). exists t. split; [|done].
  unfold float, toMs. change Millisecond with 1000000. by rewrite Ht.
Qed.

Lemma adds_expected ty p t d : (exists v, expected (t, d) = Some (chars ty, v) /\ p v) -> addsEvent ty p (t, d).
Proof.
  intros (v & He & Hp) now j Ht Hj Hc. exists v. split; [|done].
  destruct (jsonEmit_reads t d now None j) as (_ & _ & H); [by intros _|].
  destruct (H Hj eq_refl Ht) as [_ Hr]. cbn [fst snd]. by rewrite Hr, He.
Qed.



(** ** Claims *)




(** C19. The latency event: a pong that answers the pending ping makes the bridge
    emit the round trip, and the line in the file says it to the nanosecond,
    with whether it is above the alert threshold and whether it is a spike
    against the round trip before. *)
Theorem latency_event_exact (ts now : Z) (b : Bridge) :
  ts <> 0 -> pendingPing b = ts -> - 2 ^ 52 < now - ts < 2 ^ 52 ->
  exists e, emitted (handlePong ts now b) = emitted b ++ [e] /\
    addsEvent "latency" (fun v => exists spike, readLatency v = Some (now - ts, spike, RTTAlertThreshold <? now - ts) /\
      (spike = true <-> CheckRTTSpike (AddRTTSample (now - ts) (SetLastRTT (GetRTTCurrent (stats b)) (stats b))) <> None)) e.
Proof.
  intros H0 Hp Hr. assert (i64 (now - ts) = now - ts) as Hi by (apply (swrap_small 64); lia).
  unfold handlePong. rewrite Hp, Z.eqb_refl, (proj2 (Z.eqb_neq _ _)), Hi by done. cbn zeta.
  eexists. split; [reflexivity|]. apply adds_expected. destruct (ms_reads _ Hr) as (t & Ht & R).
  eexists. split; [unfold expected, dataJson; cbn [fst snd RTTMs]; rewrite Ht; reflexivity|].
  eexists. split.
  - unfold readLatency. match goal with |- context [fields ?ks ?v] => assert (fields ks v = Some
      [JNum t; JBool _; JBool (RTTAlertThreshold <? now - ts)]) as -> by reflexivity end.
    cbn -[readNs]. by rewrite R.
  - by rewrite bool_decide_eq_true.
Qed.

(** The line that is logged says the round trip, below a second, to the nearest
    millisecond. *)
Lemma stats_line_rtt (tp tb rp rb cur : Z) : 0 <= cur < 999500000 ->
  exists k, 2 * Z.abs (k * Millisecond - cur) <= Millisecond /\
    statsLine [tp; tb; rp; rb; cur] = String.concat EmptyString
      ["TX: "; formatNumber tp; " pkts ("; formatBytes tb; ") | RX: "; formatNumber rp; " pkts ("; formatBytes rb;
       ") | RTT: "; if (k =? 0)%Z then "0s" else String.append (fmt_d k) "ms"]%string.
Proof.
  intros Hr. destruct (Round_nearest cur Millisecond) as (k & Hk & Hn); [unfold Millisecond; lia..|].
  exists k. split; [done|]. unfold statsLine. rewrite Hk. do 12 f_equal. unfold Millisecond in *.
  destruct (Z.eqb_spec k 0) as [-> |Hz]; [done|]. change 1000000 with (10 ^ 6) at 1.
  rewrite durationText_ms, <- chars_append by lia. apply String.string_of_list_ascii_of_string.
Qed.

(** ** Witnesses *)

(** A bridge that prints statistics, with some counted. *)
Definition ex_counting : Bridge :=
  mkBridge None false (transport (ex_live [])) (mkStats 3 210 2 (2 ^ 64 - 1) 1234567 1200000 [1165433; 1234567] 2400000 1165433)
    Transport.ModeListen 30 StateConnected [] [] false false 100 0 [].



Lemma latency_event_exact_witness : exists e v,
  emitted (handlePong 100 1234667 ex_counting) = [e] /\
  readEvents (jsonEmit e.1 e.2 (ex_now 3) None (NewJSONLineWriter true)) = [(chars "latency", v)] /\
  exists spike, readLatency v = Some (1234567, spike, false).
Proof.
  destruct (latency_event_exact 100 1234667 ex_counting) as (e & He & H); [lia|reflexivity|lia|].
  destruct (H (ex_now 3) (NewJSONLineWriter true)) as (v & Hv & spike & Hr & _);
    [vm_compute; discriminate|reflexivity|by left|].
  exists e, v. split; [exact He|]. split; [exact Hv|]. exists spike. exact Hr.
Defined.

End BridgeEvents.
