(* ===== verification/SessionClaims.v ===== *)
(** * Two bridges: what a session guarantees

    Under every schedule and every network that makes no HMACs and does not
    send the receiver its own datagrams, the frames the receiver accepts are a
    subsequence of the frames the sender captured; and there is a schedule in
    which all of them arrive: each frame injected before the next datagram is
    read.  When the next datagram is read first, the frame is overwritten. *)

From S2P Require Import Prelude Sha256 Protocol ProtocolProps Transport TransportProps.
From S2P Require Import Capture Bridge BridgeProps BridgeRun BridgeRunProps BridgeClaims Session BridgeTraffic.
Import Protocol ProtocolProps Bridge BridgeRun BridgeRunProps BridgeClaims Session BridgeTraffic.

Module SessionClaims.

(** The largest FRAME datagram fits in the receive buffer. *)
Lemma recvBufSize_datagram : (1555 <= recvBufSize)%nat.
Proof. unfold recvBufSize. lia. Qed.

#[local] Opaque recvBufSize.
#[local] Arguments EncodeFrame : simpl never.
#[local] Arguments encode : simpl never.
#[local] Arguments Capture.ReadPacket : simpl never.

Definition legal (f : list byte) : Prop := (MinEthernetFrame <= length f <= MaxFrameSize)%nat.

Section live.
Context `{M : Mac}.

(** ** The sending side *)

(** The capturing and the sending goroutine at their loops, nothing queued. *)
Record sending (s : Sys) (a : Transport.UDPAddr) : Prop := {
  sd_fault : fault s = None;
  sd_ctx : ctx s = false;
  sd_cap : capturePc s = CapTop;
  sd_send : sendPc_ s = SendSelect;
  sd_queue : framesToSend (br s) = [];
  sd_open : exists cap, capture (br s) = Some cap /\ Capture.handle cap = Capture.HandleOpen;
  sd_conn : Transport.conn (transport (br s)) = Transport.ConnOpen;
  sd_connected : Transport.connected (transport (br s)) = true;
  sd_closed : Transport.closed (transport (br s)) = false;
  sd_peer : Transport.peerAddr (transport (br s)) = Some a;
}.

(** The receiving and the injecting goroutine at their loops, nothing queued. *)
Record taking (s : Sys) (a : Transport.UDPAddr) : Prop := {
  tk_fault : fault s = None;
  tk_ctx : ctx s = false;
  tk_recv : recvPc_ s = RecvTop;
  tk_peer : recvPeer s = Some a;
  tk_conn : Transport.conn (transport (br s)) = Transport.ConnOpen;
  tk_closed : Transport.closed (transport (br s)) = false;
  tk_buf : length (recvBuf s) = recvBufSize;
  tk_inject : injectPc s = InjSelect;
  tk_queue : framesToInject (br s) = [];
  tk_open : exists cap, capture (br s) = Some cap /\ Capture.handle cap = Capture.HandleOpen;
}.

(** What sending leaves to the receiving side: its goroutines, its buffer and
    queue, and the receiving part of the codec. *)
Definition apart (s s' : Sys) : Prop :=
  (forall a, taking s a -> taking s' a) /\ injected s' = injected s /\ rx_same (codecOf s) (codecOf s') /\
  state (br s') = state (br s) /\ runPc_ s' = runPc_ s.

Definition forwardOne (f : list byte) : list label :=
  [LCapture CTop; LCapture (CRead (Capture.PData f)); LCapture CPut;
   LSend STake; LSend SEncode; LSend (SWrite None)].

Lemma ReadPacket_frame f cap : legal f -> Capture.handle cap = Capture.HandleOpen ->
  Capture.ReadPacket (Capture.PData f) cap = Capture.HRet (Some f).
Proof.
  intros Hf Hh. unfold Capture.ReadPacket. rewrite Hh. unfold legal, MinEthernetFrame in Hf.
  rewrite (proj2 (Nat.eqb_neq _ _)) by lia.
  by rewrite go_copy_full by (unfold make_bytes; by rewrite ?length_replicate).
Qed.

Lemma EncodeFrame_legal f c : legal f ->
  EncodeFrame f c = ((encode MsgFrame f c).1, Ok (encode MsgFrame f c).2).
Proof.
  intros Hf. unfold EncodeFrame, legal in *.
  rewrite (proj2 (Nat.ltb_ge _ _)), (proj2 (Nat.ltb_ge _ _)) by lia. simpl. by destruct (encode _ _ _).
Qed.

(** One frame goes from the handle to the wire. *)
Lemma forward_one s a f : sending s a -> legal f ->
  exists s', steps (forwardOne f) s = Some s' /\ sending s' a /\
    codecOf s' = (encode MsgFrame f (codecOf s)).1 /\
    Transport.sent (transport (br s')) = Transport.sent (transport (br s)) ++ [((encode MsgFrame f (codecOf s)).2, a)] /\
    apart s s'.
Proof.
  intros [Hf Hx Hc Hs Hq (cap & Hcap & Hh) Hcn Hco Hcl Hp] Hl.
  pose proof (ReadPacket_frame f cap Hl Hh) as Hr. pose proof (EncodeFrame_legal f (codecOf s) Hl) as He.
  destruct s as [b cx buf rp cp sp rpc ip pp stp sdp rup inj flt].
  destruct b as [bc cr t st md si sta fts fti dn don ppg mp em].
  destruct t as [cn pa tmd c ch cd tc sn]. cbn in Hf, Hx, Hc, Hs, Hq, Hcap, Hcn, Hco, Hcl, Hp, He. subst.
  eexists. split.
  - run_step. eapply steps_cons; [cbn; flatten; rewrite Hr; reflexivity|]. do 2 run_step.
    eapply steps_cons; [cbn; flatten; unfold encodeFrame; flatten; rewrite He; reflexivity|].
    run_step. reflexivity.
  - flatten. split; [constructor; cbn; eauto|]. split; [done|]. split; [done|].
    split; [intros a' []; by constructor|]. split; [done|]. split; [apply rx_encode|done].
Qed.

(** The datagrams of a list of frames, and the codec after them. *)
Fixpoint frameStream (fs : list (list byte)) (c : Codec) : list (list byte) * Codec :=
  match fs with
  | [] => ([], c)
  | f :: fs' =>
      let '(c1, w) := encode MsgFrame f c in
      let '(ws, c2) := frameStream fs' c1 in (w :: ws, c2)
  end.

Lemma apart_trans s1 s2 s3 : apart s1 s2 -> apart s2 s3 -> apart s1 s3.
Proof.
  intros (H1 & H2 & [[H3 H3'] H3''] & H4 & H5) (K1 & K2 & [[K3 K3'] K3''] & K4 & K5).
  split_and!; [by auto|congruence|split; [split; congruence|congruence]|congruence..].
Qed.

Lemma forward_all fs : forall s a, sending s a -> Forall legal fs ->
  exists s', steps (fs ≫= forwardOne) s = Some s' /\
    Transport.sent (transport (br s')) =
      Transport.sent (transport (br s)) ++ ((fun w => (w, a)) <$> (frameStream fs (codecOf s)).1) /\
    apart s s'.
Proof.
  induction fs as [|f fs IH]; intros s a Hs Hl; [exists s; split; [done|by rewrite app_nil_r]|].
  apply Forall_cons in Hl as [Hf Hl]. destruct (forward_one s a f Hs Hf) as (s1 & E1 & Hs1 & Hc1 & Hd1 & Ha1).
  destruct (IH s1 a Hs1 Hl) as (s2 & E2 & Hd2 & Ha2). exists s2.
  rewrite bind_cons, steps_app, E1. split; [exact E2|]. split; [|by eapply apart_trans].
  rewrite Hd2, Hd1, <-app_assoc, Hc1. f_equal. simpl.
  destruct (encode MsgFrame f (codecOf s)) as [c w]. simpl. by destruct (frameStream fs c).
Qed.

Lemma captured_forward fs : Forall legal fs -> capturedFrames (fs ≫= forwardOne) = fs.
Proof.
  induction 1 as [|f fs Hf _ IH]; [done|]. rewrite bind_cons. unfold capturedFrames in *. rewrite omap_app, IH.
  csimpl. rewrite (proj2 (Nat.eqb_neq _ _)); [done|]. unfold legal, MinEthernetFrame in Hf. lia.
Qed.

(** ** The receiving side *)

Definition deliverOne (a : Transport.UDPAddr) (w : list byte) : list label := recvDatagram w a ++ injectOne.

(** What receiving leaves to the sending side. *)
Definition kept (s s' : Sys) : Prop :=
  Transport.sent (transport (br s')) = Transport.sent (transport (br s)) /\ state (br s') = state (br s) /\
  runPc_ s' = runPc_ s /\ fault s' = fault s.

(** The receiving goroutine at its loop. *)
Record hearing (s : Sys) (a : Transport.UDPAddr) : Prop := {
  hr_fault : fault s = None;
  hr_ctx : ctx s = false;
  hr_recv : recvPc_ s = RecvTop;
  hr_peer : recvPeer s = Some a;
  hr_conn : Transport.conn (transport (br s)) = Transport.ConnOpen;
  hr_closed : Transport.closed (transport (br s)) = false;
  hr_buf : length (recvBuf s) = recvBufSize;
}.

(** A FRAME datagram received and its frame queued. *)
Definition queued (s : Sys) (a : Transport.UDPAddr) (c : Codec) (w f : list byte) : Sys :=
  upd_br (handleFrame (mkSlice (payloadOff c) (length f)))
    (set_recvPc_ RecvTop (upd_br (upd_transport (Transport.set_codec c))
      (set_recvPc_ (RecvDecode (length w) a) (set_recvBuf (go_copy (recvBuf s) 0 (length w) w) (set_recvPc_ RecvRead s))))).

Lemma queue_one s a w f c : hearing s a -> (length w <= recvBufSize)%nat ->
  Decode w (codecOf s) = (c, Ok (mkMessage MsgFrame f 0 [] [] 0)) ->
  steps (recvDatagram w a) s = Some (queued s a c w f) /\ hearing (queued s a c w f) a /\
  bytesOf (queued s a c w f) (mkSlice (payloadOff c) (length f)) = f /\ payloadOff c = payloadOff (codecOf s) /\ legal f.
Proof.
  intros [Hf Hx Hp Ha Hc Hcl Hb] Hw Hd. destruct (Decode_frame _ _ _ _ Hd eq_refl) as (Hfr & Hoff & Hlen). cbn [Frame] in *.
  pose proof (payloadOff_Decode _ _ _ _ Hd) as Hpo. split_and!; try done.
  - unfold recvDatagram, queued.
    eapply steps_cons; [unfold step, goStep, recvLoop; by rewrite Hf, Hp, Hx|].
    eapply steps_cons; [by apply step_read|]. eapply steps_cons; [|reflexivity].
    set (s1 := set_recvPc_ (RecvDecode _ _) _).
    rewrite (step_decode s1 0 (length w) a c (mkMessage MsgFrame f 0 [] [] 0)); [done|done|done|done|].
    assert (slice 0 (length w) (recvBuf s1) = w) as -> by (apply slice_go_copy; cbn; lia). done.
  - constructor; try done. cbn. rewrite length_go_copy by lia. done.
  - unfold bytesOf. cbn [off len]. change (recvBuf (queued s a c w f)) with (go_copy (recvBuf s) 0 (length w) w).
    rewrite <-(slice_slice0 _ _ _ (length w)) by lia. rewrite slice_go_copy by lia. rewrite Hpo. congruence.
Qed.

(** One FRAME datagram is decoded and its frame injected. *)
Lemma deliver_one s a w f c : taking s a -> (length w <= recvBufSize)%nat ->
  Decode w (codecOf s) = (c, Ok (mkMessage MsgFrame f 0 [] [] 0)) ->
  exists s', steps (deliverOne a w) s = Some s' /\ taking s' a /\ codecOf s' = c /\ injected s' = injected s ++ [f] /\
    kept s s'.
Proof.
  intros [Hf Hx Hp Ha Hc Hcl Hb Hi Hq (cap & Hcap & Hh)] Hw Hd. unfold deliverOne. rewrite steps_app.
  destruct (queue_one s a w f c) as (-> & Hs3 & Hbytes & _ & Hlen); [by constructor|done|done|].
  set (s3 := queued s a c w f) in *. cbn [mbind option_bind].
  rewrite (inject_one s3 (mkSlice (payloadOff c) (length f)) [] cap); try done.
  - eexists. split; [reflexivity|]. split; [|split; [done|split; [by rewrite Hbytes|done]]].
    destruct Hs3. constructor; try done. by exists cap.
  - cbn. unfold trySend. by rewrite Hq.
  - rewrite Hbytes. unfold legal, MinEthernetFrame in Hlen. lia.
Qed.

(** ** The codecs *)

(** The receiver's window is behind the sender's counter, which has [n] nonces
    left; without a key nothing is required. *)
Definition in_step (n : nat) (c r : Codec) : Prop :=
  same_key c r /\
  (secureMode c = true -> 0 <= sendNonce c /\ recvNonce r <= sendNonce c /\ sendNonce c + Z.of_nat n < 2 ^ 64).

Lemma Decode_next_frame n f c r : legal f -> in_step (S n) c r ->
  exists r', Decode (encode MsgFrame f c).2 r = (r', Ok (mkMessage MsgFrame f 0 [] [] 0)) /\
    in_step n (encode MsgFrame f c).1 r'.
Proof.
  intros Hf [Hk Hn]. pose proof Hk as [Hkey Hmode]. destruct (secureMode c) eqn:Hs.
  - destruct (Hn eq_refl) as (H0 & Hle & Hlt).
    assert (u64 (sendNonce c + 1) = sendNonce c + 1) as Hu by (apply Z.mod_small; lia).
    pose proof (Decode_sent_secure c r (AFrame f) Hk Hs Hf) as Hd. cbv zeta in Hd. rewrite encode_secure by done.
    cbv zeta. cbn [fst snd]. rewrite Hu in *. exists (set_recvNonce (sendNonce c + 1) r).
    split; [apply Hd; right; right; lia|]. split; [done|]. cbn. lia.
  - rewrite encode_insecure by done. cbn [fst snd]. exists r. split; [by apply Decode_insecure_frame|].
    split; [done|]. congruence.
Qed.

Lemma encode_fits f c : legal f -> (length (encode MsgFrame f c).2 <= recvBufSize)%nat.
Proof.
  intros Hf. rewrite length_encode. unfold legal, MaxFrameSize in Hf.
  pose proof recvBufSize_datagram. destruct (secureMode c); lia.
Qed.

(** The stream of datagrams, delivered in order. *)
Lemma deliver_all fs : forall s a c, taking s a -> Forall legal fs -> in_step (length fs) c (codecOf s) ->
  exists s', steps ((frameStream fs c).1 ≫= deliverOne a) s = Some s' /\ injected s' = injected s ++ fs /\ kept s s'.
Proof.
  induction fs as [|f fs IH]; intros s a c Hs Hl Hc; [exists s; split; [done|by rewrite app_nil_r]|].
  apply Forall_cons in Hl as [Hf Hl]. destruct (Decode_next_frame _ f c (codecOf s) Hf Hc) as (r' & Hd & Hr').
  pose proof (encode_fits f c Hf) as Hfit. cbn [frameStream].
  destruct (encode MsgFrame f c) as [c1 w] eqn:Ee. cbn [fst snd] in *.
  destruct (deliver_one s a w f r' Hs Hfit Hd) as (s1 & E1 & Hs1 & Hc1 & Hi1 & Hk1). subst r'.
  destruct (IH s1 a c1 Hs1 Hl Hr') as (s2 & E2 & Hi2 & Hk2).
  destruct (frameStream fs c1) as [ws c2]. cbn [fst] in *. exists s2.
  rewrite bind_cons, steps_app, E1. split; [exact E2|]. split; [by rewrite Hi2, Hi1, <-app_assoc|].
  destruct Hk1 as (? & ? & ? & ?), Hk2 as (? & ? & ? & ?). split_and!; congruence.
Qed.

Lemma received_deliver fs c a : Forall legal fs ->
  received ((frameStream fs c).1 ≫= deliverOne a) = (frameStream fs c).1.
Proof.
  intros Hl. revert c. induction Hl as [|f fs Hf _ IH]; intros c; [done|]. cbn [frameStream].
  pose proof (encode_fits f c Hf) as Hfit. destruct (encode MsgFrame f c) as [c1 w]. specialize (IH c1).
  destruct (frameStream fs c1) as [ws c2]. cbn [fst snd] in *. rewrite bind_cons. unfold received in *.
  rewrite omap_app, IH. unfold deliverOne, recvDatagram, injectOne. csimpl. by rewrite take_ge.
Qed.

(** C26. A queued frame is overwritten by the next datagram: when two FRAME
    datagrams of one length, as a peer with the same key (or, without keys, any
    peer) encodes them, arrive before the first is injected, both are accepted,
    the second frame is injected twice and the first never. *)
Theorem frame_overwritten (b : Bridge) (a : Transport.UDPAddr) (c c1 c2 : Codec) (f1 f2 w1 w2 : list byte)
    (Hb : connected_bridge b a) (Hc : in_step 2 c (Transport.codec (transport b)))
    (Hf1 : legal f1) (Hf2 : legal f2) (Hl : length f2 = length f1)
    (E1 : encode MsgFrame f1 c = (c1, w1)) (E2 : encode MsgFrame f2 c1 = (c2, w2)) :
  exists s,
    steps ([LRecv RStart; LInject IReady] ++ recvDatagram w1 a ++ recvDatagram w2 a ++ injectOne ++ injectOne) (start b)
      = Some s /\ fault s = None /\ injected s = [f2; f2].
Proof.
  rewrite steps_app, (receiving_steps b a Hb). cbn [mbind option_bind].
  destruct Hb as [(_ & Hqi & _) Hco _ Hcl _ (cap & Hcap & Hh) _].
  assert (hearing (receiving b a) a) as Hs0 by (constructor; first [apply length_replicate|done]).
  pose proof (encode_fits f1 c Hf1) as W1. pose proof (encode_fits f2 c1 Hf2) as W2.
  destruct (Decode_next_frame 1 f1 c _ Hf1 Hc) as (r1 & D1 & Hc1). rewrite E1 in D1, Hc1, W1. cbn [fst snd] in *.
  destruct (Decode_next_frame 0 f2 c1 r1 Hf2 Hc1) as (r2 & D2 & _). rewrite E2 in D2, W2. cbn [fst snd] in *.
  destruct (queue_one (receiving b a) a w1 f1 r1 Hs0 W1 D1) as (Q1 & Hs1 & _ & Hp1 & _).
  rewrite steps_app, Q1. cbn [mbind option_bind]. set (s1 := queued (receiving b a) a r1 w1 f1) in *.
  destruct (queue_one s1 a w2 f2 r2 Hs1 W2 D2) as (Q2 & Hs2 & Hb2 & Hp2 & _).
  rewrite steps_app, Q2. cbn [mbind option_bind]. set (s2 := queued s1 a r2 w2 f2) in *.
  assert (mkSlice (payloadOff r1) (length f1) = mkSlice (payloadOff r2) (length f2)) as Hsl by (by rewrite Hp2, Hl).
  destruct (inject_two s2 (mkSlice (payloadOff r1) (length f1)) (mkSlice (payloadOff r2) (length f2)) cap)
    as (s & E & Hfs & Hi);
    [apply Hs2|done|cbn; by rewrite Hqi|exact Hcap|exact Hh|rewrite ?Hsl, Hb2; unfold legal, MinEthernetFrame in Hf2; lia..|].
  exists s. split; [exact E|]. split; [done|]. by rewrite Hi, Hsl, Hb2.
Qed.

(** ** The session *)

Lemma sending_start b a : connected_bridge b a ->
  exists s, steps [LCapture CReady] (start b) = Some s /\ sending s a /\ codecOf s = Transport.codec (transport b) /\
    Transport.sent (transport (br s)) = Transport.sent (transport b).
Proof.
  intros [(Hq & _) Hc Hco Hcl Hp Hcap Hr]. eexists. split.
  - eapply steps_cons; [|reflexivity]. unfold step, goStep, captureLoop. cbn. by rewrite Hr.
  - split; [by constructor|done].
Qed.

Lemma taking_start b a : connected_bridge b a -> taking (receiving b a) a.
Proof.
  intros [(_ & Hq & _) Hc Hco Hcl Hp Hcap Hr]. constructor; first [apply length_replicate|done].
Qed.

(** ** The connection phase secures the bridge *)

(** A transport with a key that sent nothing but handshake and stamped
    messages, with at most [k] nonces used. *)
Definition wired (K : list byte) (k : Z) (t : Transport.Transport) : Prop :=
  key (Transport.codec t) = K /\ secureMode (Transport.codec t) = true /\ 0 <= sendNonce (Transport.codec t) <= k /\
  0 <= recvNonce (Transport.codec t) /\ sent_ok (Transport.codec t) (Transport.sent t) /\
  Forall (fun d => isFrame (fst d) = false) (Transport.sent t).

(** A change of the codec that keeps what was sent. *)
Lemma wired_codec K k k' t c : wired K k t -> grown (Transport.codec t) c -> 0 <= recvNonce c -> k + 1 <= k' ->
  wired K k' (Transport.set_codec c t).
Proof.
  intros (HK & Hs & Hn & Hr & Hok & Hf) Hg H0 Hk. pose proof Hg as [[HK' Hm] Hb]. split_and!; cbn; try done; try lia.
  - congruence.
  - congruence.
  - by eapply sent_ok_grown.
Qed.

Lemma Decode_recvNonce data c c' r : 0 <= recvNonce c -> Decode data c = (c', r) -> 0 <= recvNonce c'.
Proof.
  intros H E. pose proof (Decode_state data c) as Hd. rewrite E in Hd. cbn in Hd. subst c'.
  destruct (decode_state data c) as [->|(n & Hn & -> & _)]; [done|]. cbn. unfold is_u64 in Hn. lia.
Qed.

(** A message of the handshake, or a BYE, encoded and written. *)
Lemma wired_write K k t m p a io t' e : wired K k t -> k + 1 < 2 ^ 64 -> m <> MsgFrame ->
  Transport.writeToUDP (encode m p (Transport.codec t)).2 a io
    (Transport.set_codec (encode m p (Transport.codec t)).1 t) = (t', e) -> wired K (k + 1) t'.
Proof.
  intros Hw Hk Hm E. pose proof Hw as (HK & Hs & Hn & Hr & Hok & Hf).
  assert (grown (Transport.codec t) (encode m p (Transport.codec t)).1 /\
    isFrame (encode m p (Transport.codec t)).2 = false /\
    (isHandshakeW (encode m p (Transport.codec t)).2 = true \/
     stamped (encode m p (Transport.codec t)).1 (encode m p (Transport.codec t)).2)) as (Hg & Hfr & Hst).
  { destruct (isHandshake m) eqn:Hh.
    - rewrite encode_secure by done. cbv zeta. cbn [fst snd].
      assert (u64 (sendNonce (Transport.codec t) + 1) = sendNonce (Transport.codec t) + 1) as ->
        by (apply Z.mod_small; lia).
      split_and!; [split; [done|cbn; lia]|cbn; by rewrite bool_decide_eq_false_2|by left].
    - destruct (encode_stamped m p (Transport.codec t) Hs ltac:(lia) ltac:(lia) Hh) as (Hg & Hst & Hfr & _).
      split_and!; [done| |by right]. by rewrite Hfr, bool_decide_eq_false_2. }
  pose proof (rx_encode m p (Transport.codec t)) as [_ Hrn].
  set (c1 := (encode m p (Transport.codec t)).1) in *. set (w := (encode m p (Transport.codec t)).2) in *.
  assert (wired K (k + 1) (Transport.set_codec c1 t)) as Hw1 by (apply (wired_codec K k); [done|done|lia|lia]).
  unfold Transport.writeToUDP in E. destruct (Transport.conn _); simplify_eq; try done.
  destruct a as [a|], io as [e'|]; simplify_eq; try done.
  destruct Hw1 as (H0 & H1 & H2 & H3 & H4 & H5).
  split; [exact H0|].
  split; [exact H1|]. split; [exact H2|]. split; [exact H3|].
  split; (apply Forall_app; split; [done|constructor; [done|constructor]]).
Qed.

(** Fields the nonces do not depend on. *)
Lemma wired_same K k t t' : wired K k t -> Transport.codec t' = Transport.codec t ->
  Transport.sent t' = Transport.sent t -> wired K k t'.
Proof. unfold wired. intros H E1 E2. by rewrite E1, E2. Qed.

Lemma wired_mono K k k' t : wired K k t -> k <= k' -> wired K k' t.
Proof. intros (H0 & H1 & H2 & H3) Hk. split; [done|]. split; [done|]. split; [lia|done]. Qed.

Lemma wired_Decode K k t data c r : wired K k t -> Decode data (Transport.codec t) = (c, r) ->
  wired K k (Transport.set_codec c t).
Proof.
  intros (HK & Hs & Hn & Hr & Hok & Hf) E. pose proof (Decode_recvNonce _ _ _ _ Hr E).
  pose proof (grown_Decode _ _ _ _ E) as Hg. pose proof Hg as [[HK' Hm] _].
  pose proof (Decode_state data (Transport.codec t)) as Hd. rewrite E in Hd. cbn in Hd.
  assert (sendNonce c = sendNonce (Transport.codec t)) as Hsn
    by (subst c; by destruct (decode_state data (Transport.codec t)) as [->|(n & _ & -> & _)]).
  split; [cbn; congruence|]. split; [cbn; congruence|]. split; [cbn; lia|]. split; [done|]. split; [by eapply sent_ok_grown|done].
Qed.

Lemma wired_reset K k t : wired K k t -> wired K k (Transport.set_codec (ResetRecvNonce (Transport.codec t)) t).
Proof.
  intros (HK & Hs & Hn & Hr & Hok & Hf). split; [done|]. split; [done|]. split; [done|]. split; [cbn; lia|]. split; [|done].
  eapply sent_ok_grown; [|exact Hok]. split; [done|cbn; lia].
Qed.

Lemma waitBody_wired K k i t t' o : wired K k t -> k + 1 < 2 ^ 64 -> Transport.waitBody i t = (t', o) -> wired K (k + 1) t'.
Proof.
  intros Hw Hk E. unfold Transport.waitBody in E.
  destruct (Transport.w_ctx i); [simplify_eq; apply (wired_mono K k); [done|lia]|].
  destruct (Transport.conn_read t (Transport.w_read i)) as [|e|data addr]; [by simplify_eq; apply (wired_mono K k); [|lia]..|].
  destruct (Decode _ (Transport.codec t)) as [c [msg|e|]] eqn:Ed; pose proof (wired_Decode _ _ _ _ _ _ Hw Ed) as Hw1;
    [|by simplify_eq; apply (wired_mono K k); [|lia]..].
  case_bool_decide.
  - unfold EncodeBye in E. destruct (encode MsgBye [] _) as [c1 bye] eqn:Ee.
    destruct (Transport.writeToUDP _ _ _ _) as [t1 e1] eqn:Ew. simplify_eq.
    eapply (wired_write K k (Transport.set_codec c t) MsgBye []); [done|done|done|]. by rewrite Ee.
  - cbv zeta in E. set (t2 := Transport.set_codec (ResetRecvNonce _) _) in E.
    assert (wired K k t2) as Hw2 by (apply wired_reset; by eapply wired_same; [exact Hw1|..]).
    clearbody t2. unfold EncodeHelloAck in E.
    destruct (encode MsgHelloAck _ (Transport.codec t2)) as [c1 ack] eqn:Ee.
    destruct (Transport.writeToUDP _ _ _ _) as [t3 e3] eqn:Ew.
    assert (wired K (k + 1) t3) as Hw3.
    { eapply (wired_write K k t2 MsgHelloAck); [done|done|done|]. by rewrite Ee. }
    destruct e3; simplify_eq; [done|]. by eapply wired_same.
Qed.

Lemma wait_wired ins : forall K k t t' o, wired K k t -> k + Z.of_nat (length ins) < 2 ^ 64 ->
  loop Transport.waitBody ins t = (t', o) -> wired K (k + Z.of_nat (length ins)) t'.
Proof.
  induction ins as [|i ins IH]; intros K k t t' o Hw Hk E; cbn [loop length] in *.
  { simplify_eq. apply (wired_mono K k); [done|lia]. }
  destruct (Transport.waitBody i t) as [t1 r] eqn:Eb.
  apply (waitBody_wired K k) in Eb; [|done|lia].
  destruct r; [|by simplify_eq; apply (wired_mono K (k + 1)); [|lia]..].
  apply (IH K (k + 1)) in E; [|done|lia]. by eapply wired_mono; [exact E|lia].
Qed.

Lemma hsBody_wired K k i t : wired K k t -> wired K k (Transport.hsBody i t).1.
Proof.
  intros Hw. unfold Transport.hsBody. destruct (negb _); [done|]. destruct (Transport.h_ctx i); [done|].
  destruct (Transport.conn_read _ _) as [|e|data addr]; [done..|]. destruct (negb _); [done|].
  destruct (Decode _ (Transport.codec t)) as [c [msg|e|]] eqn:Ed; pose proof (wired_Decode _ _ _ _ _ _ Hw Ed) as Hw1;
    [|done..].
  case_bool_decide; [done|]. destruct (_ && _); [done|]. cbn [fst].
  by eapply wired_same; [apply (wired_reset _ _ _ Hw1)|..].
Qed.

Lemma attempt_wired K k a t t' o : wired K k t -> k + 1 < 2 ^ 64 ->
  Transport.attemptHandshake a t = (t', o) -> wired K (k + 1) t'.
Proof.
  intros Hw Hk E. unfold Transport.attemptHandshake, EncodeHello in E.
  destruct (Transport.a_rand a) as [r|].
  - cbv zeta in E. set (pl := go_copy _ 2 _ r) in E. set (ch := slice _ _ pl) in E. clearbody pl ch.
    destruct (encode MsgHello pl (Transport.codec t)) as [c hello] eqn:Ee. cbn in E.
    destruct (Transport.writeToUDP _ _ _ _) as [t1 e1] eqn:Ew.
    assert (wired K (k + 1) t1) as Hw1.
    { assert (wired K k (Transport.set_challenge ch t)) as Hw0 by (by eapply wired_same; [exact Hw|..]).
      eapply (wired_write K k _ MsgHello pl); [exact Hw0|done|done|]. cbn. rewrite Ee. exact Ew. }
    destruct e1; simplify_eq; [done|].
    pose proof (loop_inv (wired K (k + 1)) _ (Transport.a_loop a) t1 (fun i s => hsBody_wired _ _ i s) Hw1) as Hl.
    by rewrite E in Hl.
  - simplify_eq. apply (wired_mono K k); [|lia]. by eapply wired_same; [exact Hw|..].
Qed.

Lemma connect_wired ins : forall K k t n ds t' n' ds' o, wired K k t -> k + Z.of_nat (length ins) < 2 ^ 64 ->
  loop Transport.connectBody ins (t, n, ds) = ((t', n', ds'), o) -> wired K (k + Z.of_nat (length ins)) t'.
Proof.
  induction ins as [|i ins IH]; intros K k t n ds t' n' ds' o Hw Hk E; cbn [loop length] in *.
  { simplify_eq. apply (wired_mono K k); [done|lia]. }
  unfold Transport.connectBody at 1 in E.
  destruct (Transport.c_ctx i); [simplify_eq; apply (wired_mono K k); [done|lia]|].
  destruct (Transport.attemptHandshake _ t) as [t1 r] eqn:Ea. apply (attempt_wired K k) in Ea; [|done|lia].
  assert (wired K (k + Z.of_nat (S (length ins))) t1) as Hw1 by (apply (wired_mono K (k + 1)); [done|lia]).
  destruct r as [[u|e|]|]; [by simplify_eq| |by simplify_eq..].
  destruct (Transport.backoffDelay n) as [d|e'|]; [|by simplify_eq..].
  destruct (Transport.c_ctx_delay i); [by simplify_eq|].
  apply (IH K (k + 1)) in E; [|by apply wired_reset|lia]. apply (wired_mono K (k + 1 + Z.of_nat (length ins))); [done|lia].
Qed.

(** A new bridge with a key, once connected, is [secured], with that key, its
    counters as they were and at most one nonce used for each input. *)
Lemma connectPhase_secured K wi ci cx b b' :
  let k := sendNonce (Transport.codec (transport b)) + Z.of_nat (length wi) + Z.of_nat (length ci) in
  fresh_bridge b -> wired K (sendNonce (Transport.codec (transport b))) (transport b) -> k < 2 ^ 64 ->
  connectPhase wi ci cx b = (b', Some (Ok true)) ->
  secured b' /\ key (Transport.codec (transport b')) = K /\ stats b' = stats b /\
  sendNonce (Transport.codec (transport b')) <= k.
Proof.
  intros k Hf Hw Hk E. unfold connectPhase in E.
  pose proof (setState_fresh StateConnecting b Hf) as Hf0. set (b0 := setState StateConnecting b) in *.
  assert (transport b0 = transport b) as Ht0 by apply BridgeProps.setState_transport. rewrite Ht0 in E.
  destruct (if bool_decide _ then _ else _) as [t r] eqn:Et.
  assert (wired K k t) as (H0 & H1 & H2 & H3 & H4 & H5).
  { subst k. case_bool_decide.
    - unfold Transport.WaitForPeer in Et. case_bool_decide; [simplify_eq; eapply wired_mono; [exact Hw|lia]|].
      eapply wired_mono; [eapply (wait_wired wi); [exact Hw|lia|exact Et]|lia].
    - destruct (Transport.Connect ci (transport b)) as [[[t1 n1] d1] r1] eqn:Ec. simplify_eq.
      unfold Transport.Connect in Ec. case_bool_decide; [simplify_eq; eapply wired_mono; [exact Hw|lia]|].
      eapply wired_mono; [eapply (connect_wired ci); [exact Hw|lia|exact Ec]|lia]. }
  destruct r as [[u|e|]|]; simplify_eq; [|by destruct cx].
  unfold secured. rewrite BridgeProps.setState_transport, setState_stats. cbn [stats set_transport transport].
  split; [|split; [done|split; [apply setState_stats|lia]]]. split; [by apply setState_fresh|].
  split; [done|]. split; [lia|]. split; [lia|]. by split.
Qed.

(** What [secured] bridges with one key make of each other's datagrams. *)
Lemma secured_pair (bA bB : Bridge) (lsA lsB : list label) (sA sB : Sys)
    (HA : secured bA) (HB : secured bB) (H0 : RxPackets (stats bB) = 0)
    (Hkey : same_key (Transport.codec (transport bA)) (Transport.codec (transport bB)))
    (Hlen : sendNonce (Transport.codec (transport bA)) + Z.of_nat (length lsA) < 2 ^ 64)
    (EA : steps lsA (start bA) = Some sA) (EB : steps lsB (start bB) = Some sB)
    (Hnet : Forall (unforged (codecOf sA) (Transport.sent (transport (br sA)))) (received lsB)) :
  acceptedFrames lsB (start bB) `sublist_of` capturedFrames lsA /\
  RxPackets (stats (br sB)) = u64 (Z.of_nat (length (acceptedFrames lsB (start bB)))).
Proof.
  split.
  2:{ destruct (steps_counted lsB (start bB) sB) as (_ & _ & [_ _ Hrx _]); [done|done|]. cbn in Hrx. rewrite H0 in Hrx.
      by apply (adds_exact _ 0). }
  pose proof (steps_order _ _ _ (secured_order _ HA) Hlen EA) as [HsA _ Hsent _ _ _ Hsort].
  pose proof (steps_same_key _ _ _ EA : same_key (codecOf sA) (Transport.codec (transport bA))) as HkA.
  destruct HB as (HfB & HsB & _ & HrB & _). destruct HA as (HfA & _ & _ & _ & _ & HhA).
  etrans; [apply (accepted_later (codecOf sA) _ lsB (start bB) Hsent Hsort)|]; try done.
  - destruct HkA, Hkey. split; cbn; congruence.
  - by apply start_inv.
  - etrans; [apply fmap_sublist, sublist_filter|]. rewrite stampedFrames_snd.
    destruct (steps_tx lsA (start bA) sA) as [_ Htx]; [done|done|].
    etrans; [|etrans; [exact Htx|]].
    + unfold txLine. by apply sublist_inserts_r.
    + unfold txLine. cbn. destruct HfA as (-> & _).
      destruct (no_frames (Transport.codec (transport bA)) _ HhA) as (_ & ->). done.
Qed.

(** C1. End to end: two bridges with one key, under any schedules of their
    goroutines and any network that delivers to the second only datagrams of
    the first or ones without a valid HMAC, in any order and any number of
    times.  The frames the second bridge accepts are a subsequence of the
    frames the first captured (in order, unchanged, none twice), and its
    receive counter is their number. *)
Theorem end_to_end (bA bB : Bridge) (lsA lsB : list label) (sA sB : Sys)
    (HA : secured bA) (HB : secured bB) (H0 : RxPackets (stats bB) = 0)
    (Hkey : same_key (Transport.codec (transport bA)) (Transport.codec (transport bB)))
    (Hlen : sendNonce (Transport.codec (transport bA)) + Z.of_nat (length lsA) < 2 ^ 64)
    (EA : steps lsA (start bA) = Some sA) (EB : steps lsB (start bB) = Some sB)
    (Hnet : Forall (unforged (codecOf sA) (Transport.sent (transport (br sA)))) (received lsB)) :
  acceptedFrames lsB (start bB) `sublist_of` capturedFrames lsA /\
  RxPackets (stats (br sB)) = u64 (Z.of_nat (length (acceptedFrames lsB (start bB)))).
Proof. by apply (secured_pair bA bB lsA lsB sA sB). Qed.

(** A schedule for each side in which every frame is forwarded. *)
Lemma session_run (bA bB : Bridge) (aA aB : Transport.UDPAddr) (fs : list (list byte)) :
  connected_bridge bA aB -> connected_bridge bB aA -> Forall legal fs ->
  in_step (length fs) (Transport.codec (transport bA)) (Transport.codec (transport bB)) ->
  exists lsA sA lsB sB ws,
    steps lsA (start bA) = Some sA /\ capturedFrames lsA = fs /\ length lsA = (1 + 6 * length fs)%nat /\
    Transport.sent (transport (br sA)) = Transport.sent (transport bA) ++ ((fun w => (w, aB)) <$> ws) /\
    steps lsB (start bB) = Some sB /\ received lsB = ws /\ length ws = length fs /\ injected sB = fs.
Proof.
  intros HA HB Hfs Hc. destruct (sending_start bA aB HA) as (s0 & E0 & Hs0 & Hc0 & Hd0).
  destruct (forward_all fs s0 aB Hs0 Hfs) as (sA & EA & HdA & _).
  destruct (deliver_all fs (receiving bB aA) aA (Transport.codec (transport bA)) (taking_start _ _ HB) Hfs Hc)
    as (sB & EB & HiB & _).
  exists ([LCapture CReady] ++ (fs ≫= forwardOne)), sA,
    ([LRecv RStart; LInject IReady] ++ ((frameStream fs (Transport.codec (transport bA))).1 ≫= deliverOne aA)),
    sB, (frameStream fs (Transport.codec (transport bA))).1.
  rewrite !steps_app, E0, (receiving_steps bB aA HB). split_and!; try done.
  - by apply captured_forward.
  - rewrite length_app. cbn [length]. f_equal. clear. induction fs as [|f fs IH]; [done|].
    rewrite bind_cons, length_app, IH. cbn [length forwardOne]. lia.
  - by rewrite HdA, Hd0, Hc0.
  - by apply received_deliver.
  - generalize (Transport.codec (transport bA)). clear. induction fs as [|f fs IH]; intros c; [done|].
    cbn [frameStream]. destruct (encode MsgFrame f c) as [c1 w]. specialize (IH c1).
    destruct (frameStream fs c1). cbn in *. by rewrite IH.
Qed.

(** The bridge does its job: from two connected bridges whose codecs are in
    step, any list of legal Ethernet frames captured at the first is sent, and
    the datagrams, delivered in order, make the second inject exactly those
    frames in that order. *)
Theorem session_delivers (bA bB : Bridge) (aA aB : Transport.UDPAddr) (fs : list (list byte))
    (HA : connected_bridge bA aB) (HB : connected_bridge bB aA) (Hfs : Forall legal fs)
    (Hc : in_step (length fs) (Transport.codec (transport bA)) (Transport.codec (transport bB))) :
  exists lsA sA lsB sB ws,
    steps lsA (start bA) = Some sA /\ capturedFrames lsA = fs /\
    Transport.sent (transport (br sA)) = Transport.sent (transport bA) ++ ((fun w => (w, aB)) <$> ws) /\
    steps lsB (start bB) = Some sB /\ received lsB = ws /\ injected sB = fs.
Proof.
  destruct (session_run bA bB aA aB fs HA HB Hfs Hc)
    as (lsA & sA & lsB & sB & ws & EA & Hcap & _ & Hs & EB & Hr & _ & Hi).
  by exists lsA, sA, lsB, sB, ws.
Qed.

End live.

(** ** Witnesses *)

(** The bridge of the examples used its first nonce for the handshake. *)
Lemma ex_secured : secured (ex_live ex_key).
Proof.
  unfold secured. split; [by repeat split|]. split; [done|]. split; [done|]. split; [done|].
  assert (isHandshakeW (ex_ack ex_key) = true /\ isFrame (ex_ack ex_key) = false) as [H1 H2].
  { unfold ex_ack, TransportProps.ackOf. rewrite encode_secure by done. done. }
  split; (constructor; [by first [left|idtac]|constructor]).
Qed.

Lemma ex_in_step n : Z.of_nat n + 1 < 2 ^ 64 -> in_step n (ex_codec ex_key) (ex_codec ex_key).
Proof. intros H. split; [done|]. intros _. cbn. lia. Qed.

Lemma ex_legal f : length f = 20%nat -> legal f.
Proof. unfold legal, MinEthernetFrame, MaxFrameSize. lia. Qed.

Lemma session_delivers_witness :
  exists lsB sB, steps lsB (start (ex_live ex_key)) = Some sB /\ injected sB = [ex_frame1; ex_frame2].
Proof.
  destruct (session_delivers (ex_live ex_key) (ex_live ex_key) ex_peer ex_peer [ex_frame1; ex_frame2])
    as (lsA & sA & lsB & sB & ws & _ & _ & _ & EB & _ & Hi).
  - apply ex_connected.
  - apply ex_connected.
  - constructor; [apply ex_legal; reflexivity|constructor; [apply ex_legal; reflexivity|constructor]].
  - apply ex_in_step. reflexivity.
  - exists lsB, sB. exact (conj EB Hi).
Defined.

Lemma frame_overwritten_witness : exists w1 w2 s,
  steps ([LRecv RStart; LInject IReady] ++ recvDatagram w1 ex_peer ++ recvDatagram w2 ex_peer ++ injectOne ++ injectOne)
    (start (ex_live ex_key)) = Some s /\ injected s = [ex_frame2; ex_frame2].
Proof.
  destruct (encode MsgFrame ex_frame1 (ex_codec ex_key)) as [c1 w1] eqn:E1.
  destruct (encode MsgFrame ex_frame2 c1) as [c2 w2] eqn:E2. exists w1, w2.
  destruct (frame_overwritten (ex_live ex_key) ex_peer (ex_codec ex_key) c1 c2 ex_frame1 ex_frame2 w1 w2)
    as (s & E & _ & H);
    [apply ex_connected|apply ex_in_step; reflexivity|apply ex_legal; reflexivity|apply ex_legal; reflexivity|reflexivity
    |exact E1|exact E2|]. exists s. exact (conj E H).
Defined.

Lemma end_to_end_witness :
  exists lsA lsB, capturedFrames lsA = [ex_frame1] /\ length (received lsB) = 1%nat /\
    acceptedFrames lsB (start (ex_live ex_key)) `sublist_of` capturedFrames lsA.
Proof.
  destruct (session_run (ex_live ex_key) (ex_live ex_key) ex_peer ex_peer [ex_frame1])
    as (lsA & sA & lsB & sB & ws & EA & Hcap & HlA & Hs & EB & Hr & Hlw & _);
    [apply ex_connected|apply ex_connected|constructor; [apply ex_legal; reflexivity|constructor]
    |apply ex_in_step; reflexivity|].
  exists lsA, lsB. split; [exact Hcap|]. split; [rewrite Hr; exact Hlw|].
  apply (end_to_end (ex_live ex_key) (ex_live ex_key) lsA lsB sA sB).
  - exact ex_secured.
  - exact ex_secured.
  - reflexivity.
  - exact (conj eq_refl eq_refl).
  - rewrite HlA. reflexivity.
  - exact EA.
  - exact EB.
  - rewrite Hr, Hs. clear. apply Forall_forall. intros w Hw _. exists ex_peer.
    apply elem_of_app. right. apply list_elem_of_fmap. exists w. split; [reflexivity|exact Hw].
Defined.

End SessionClaims.
