(* ===== verification/Main.v ===== *)
(** * The program: runBridge of cmd/xbslink-ng/main.go

    Start-up (log level, emitter, saved configuration, MAC address, interface,
    codec, capture), console discovery in the foreground and in the
    background, and the reconnection loop around [bridge.Run].  The operating
    system and libpcap are a [World]; one iteration of the loop is run on what
    the network, the signals and the scheduler do during it. *)

From stdpp Require Import gmap strings.
From Stdlib Require Import Ascii.
From S2P Require Import Prelude Sha256 GoLib Protocol Transport Capture Events Bridge BridgeRun.
From S2P Require Import Logging Json Config Discovery GoFlag Cli.
Import GoLib.

Module Main.

#[local] Existing Instance Transport.Mode_eq_dec.

(** ** The world *)

Record World := mkWorld {
  pcap : Capture.Pcap;
  host : Config.Host;
  (** [os.IsNotExist] of [os.Stat] *)
  notExist : string -> bool;
  (** the error of [os.OpenFile] for appending, creating the file or not *)
  openFile : string -> bool -> option string;
}.

(** Every error ends the process with exit code 1. *)
Inductive merr :=
| ErrLevel
| ErrEmitter (e : string)
| ErrNpcap
| ErrMAC (e : Capture.cerr)
| ErrInterface (e : Capture.cerr)
| ErrCapture (e : Capture.cerr)
| ErrDiscovery
| ErrTransport (e : Transport.terr)
| ErrBridge (e : Bridge.berr)
| ErrRun (e : Bridge.berr).

Definition mapErr {E A} (f : E -> merr) (o : outcome E A) : outcome merr A :=
  match o with
  | Ok a => Ok a
  | Err e => Err (f e)
  | Panic => Panic
  end.

(** ** Start-up *)

(** Where events go: nowhere, or a writer of JSON lines on a stream or file. *)
Inductive Emitter := ENop | EStdout | EStderr | EFile (path : string) (create : bool).

Definition createEmitter (w : World) (output : string) : outcome merr Emitter :=
  if bool_decide (output = EmptyString) then Ok ENop else
  if bool_decide (output = "stdout"%string) then Ok EStdout else
  if bool_decide (output = "stderr"%string) then Ok EStderr else
  let create := notExist w output in
  match openFile w output create with
  | Some e => Err (ErrEmitter e)
  | None => Ok (EFile output create)
  end.

Definition getBackoffDelay (attempt : Z) : outcome merr Z :=
  let backoffs := [1 * Transport.Second; 2 * Transport.Second; 5 * Transport.Second; 10 * Transport.Second] in
  if attempt <? Z.of_nat (length backoffs) then
    (if attempt <? 0 then Panic else go_index backoffs (Z.to_nat attempt))
  else Ok (10 * Transport.Second).

(** The address of the flag, else the saved one, else none. *)
Definition chooseMAC (xboxMACStr : string) (cfg : Config.Config) : outcome merr (option HardwareAddr) :=
  if bool_decide (xboxMACStr ≠ EmptyString)
  then mac ← mapErr ErrMAC (Capture.ParseMAC xboxMACStr); Ok (Some mac)
  else Ok (Config.GetXboxMAC cfg).

(** [[]byte(key)]. *)
Definition keyBytes (key : string) : list byte :=
  if bool_decide (key = EmptyString) then [] else String.list_byte_of_string key.

Section program.
Context `{U : Unicode} `{M : Mac}.

Definition openCapture (w : World) (ps : Cli.Params) (mac : HardwareAddr) : outcome merr Capture.Capture :=
  mapErr ErrCapture (Capture.New (pcap w) (Capture.mkConfig (Cli.ifaceName ps) mac true)).

(** What start-up leaves behind. *)
Record Started := mkStarted {
  level : Logging.Level;
  emitter : Emitter;
  codec : Protocol.Codec;
  cap : option Capture.Capture;
  needsDiscovery : bool;
  cfg : Config.Config;
}.

Definition setup (w : World) (fs : Config.files) (ps : Cli.Params) : outcome merr Started :=
  match Logging.ParseLevel (Cli.logLevelStr ps) with
  | (_, false) => Err ErrLevel
  | (level, true) =>
      em ← createEmitter w (Cli.eventsOutput ps);
      _ ← (if bool_decide (Capture.GOOS (pcap w) = "windows"%string) then
             match Capture.CheckNpcapInstalled (pcap w) with Some _ => Err ErrNpcap | None => Ok tt end
           else Ok tt);
      let cfg := match Config.Load (host w) fs with Ok c => c | _ => Config.mkConfig EmptyString end in
      mac ← chooseMAC (Cli.xboxMACStr ps) cfg;
      _ ← mapErr ErrInterface (Capture.FindInterface (pcap w) (Cli.ifaceName ps));
      cap ← (match mac with
             | None => Ok None
             | Some m => c ← openCapture w ps m; Ok (Some c)
             end);
      Ok (mkStarted level em (Protocol.NewCodec (keyBytes (Cli.key ps))) cap (bool_decide (mac = None)) cfg)
  end.

(** ** Discovery *)

Definition discoveryEvent (mac : HardwareAddr) : Events.EventType * Events.Data :=
  (Events.EventDiscovery, Events.DDiscovery (Events.mkDiscoveryData (mac_String mac))).

(** The address found, if discovery ended well; no result: still listening. *)
Definition runForegroundDiscovery (w : World) (ifaceName : string) (ins : list Discovery.disc_in)
    : option (option HardwareAddr) :=
  match Discovery.Discover (pcap w) ifaceName ins with
  | None => None
  | Some (Ok r) => Some (Some (Discovery.MAC r))
  | Some _ => Some None
  end.

(** Saving the address; a failure is logged only. *)
Definition remember (w : World) (mac : HardwareAddr) (cfg : Config.Config) (fs : Config.files)
    : Config.Config * Config.files :=
  let cfg := Config.SetXboxMAC mac cfg in
  (cfg, snd (Config.Save (host w) cfg fs)).

(** Discovery before the loop, in connect mode: what start-up left, the files,
    and the discovery event if one was emitted. *)
Definition discoverFirst (w : World) (ps : Cli.Params) (ins : list Discovery.disc_in)
    (fs : Config.files) (st : Started)
    : option (outcome merr (Started * Config.files * list (Events.EventType * Events.Data))) :=
  if needsDiscovery st && bool_decide (Cli.mode ps = Transport.ModeConnect) then
    match runForegroundDiscovery w (Cli.ifaceName ps) ins with
    | None => None
    | Some None => Some (Err ErrDiscovery)
    | Some (Some mac) =>
        let '(cfg, fs) := remember w mac (cfg st) fs in
        Some (c ← openCapture w ps mac;
              Ok (mkStarted (level st) (emitter st) (codec st) (Some c) false cfg, fs, [discoveryEvent mac]))
    end
  else Some (Ok (st, fs, [])).

(** The goroutine of listen mode: the capture it hands to the bridge, the
    configuration and files, and the discovery event if one was emitted. *)
Definition runBackgroundDiscovery (w : World) (ps : Cli.Params) (ins : list Discovery.disc_in)
    (cfg : Config.Config) (fs : Config.files)
    : option Capture.Capture * Config.Config * Config.files * list (Events.EventType * Events.Data) :=
  match Discovery.Discover (pcap w) (Cli.ifaceName ps) ins with
  | Some (Ok r) =>
      let mac := Discovery.MAC r in
      let '(cfg, fs) := remember w mac cfg fs in
      (match openCapture w ps mac with Ok c => Some c | _ => None end, cfg, fs, [discoveryEvent mac])
  | _ => (None, cfg, fs, [])
  end.

(** ** The reconnection loop *)

(** The variables of the loop.  [cap] is shared with the bridge, so it is the
    capture the bridge left; [delays] has the backoffs slept. *)
Record Loop := mkLoop {
  attempt : Z;
  lcodec : Protocol.Codec;
  lcap : option Capture.Capture;
  appDone : bool;
  delays : list Z;
  lcfg : Config.Config;
  lfiles : Config.files;
  levents : list (Events.EventType * Events.Data);
  ldiscovered : list (Events.EventType * Events.Data);
}.

Definition set_appDone (v : bool) (m : Loop) : Loop :=
  mkLoop (attempt m) (lcodec m) (lcap m) v (delays m) (lcfg m) (lfiles m) (levents m) (ldiscovered m).
Definition closeCap (m : Loop) : Loop :=
  mkLoop (attempt m) (lcodec m) (Capture.Close <$> lcap m) (appDone m) (delays m) (lcfg m) (lfiles m)
    (levents m) (ldiscovered m).
Definition retry (ds : list Z) (m : Loop) : Loop :=
  mkLoop (i64 (attempt m + 1)) (lcodec m) (lcap m) (appDone m) (delays m ++ ds) (lcfg m) (lfiles m)
    (levents m) (ldiscovered m).
Definition resetNonce (m : Loop) : Loop :=
  mkLoop (attempt m) (Protocol.ResetRecvNonce (lcodec m)) (lcap m) (appDone m) (delays m) (lcfg m)
    (lfiles m) (levents m) (ldiscovered m).

(** How the process ends: [runBridge] returns, it exits with an error, or it
    crashes. *)
Inductive ending := MDone | MExit (e : merr) | MCrash.

(** One iteration: the signal before it; the network; what background
    discovery reads; the inputs and the schedule of [Run], before and after
    the capture is handed over; the signals after [Run] and during backoff. *)
Record iter_in := mkIter {
  i_sig : bool;
  i_net : Transport.NetEnv;
  i_disc : list Discovery.disc_in;
  i_wait : list Transport.wait_in;
  i_connect : list Transport.connect_in;
  i_ctxErr : bool;
  i_before : list BridgeRun.label;
  i_after : list BridgeRun.label;
  i_sigAfter : bool;
  i_sigDelay : bool;
}.

(** The steps that are not calls of [SetCapture]. *)
Definition ownSteps (ls : list BridgeRun.label) : list BridgeRun.label :=
  List.filter (fun l => match l with BridgeRun.LSetCapture _ => false | _ => true end) ls.

Definition schedule (i : iter_in) (bg : option Capture.Capture) : list BridgeRun.label :=
  ownSteps (i_before i) ++
  match bg with Some c => [BridgeRun.LSetCapture c] | None => [] end ++
  ownSteps (i_after i).

(** The loop's variables after [Run]. *)
Definition afterRun (m : Loop) (b : Bridge.Bridge) (ctx : bool) (cfg : Config.Config) (fs : Config.files)
    (found : list (Events.EventType * Events.Data)) : Loop :=
  mkLoop (attempt m) (Transport.codec (Bridge.transport b))
    (match lcap m with Some _ => Bridge.capture b | None => None end)
    ctx (delays m) cfg fs (levents m ++ Bridge.emitted b) (ldiscovered m ++ found).

(** What follows [Run]. *)
Definition decide_ (mode : Transport.Mode) (sigDelay : bool) (r : outcome Bridge.berr unit) (m : Loop)
    : Loop * ctl ending :=
  if appDone m then (closeCap m, Return MDone) else
  match r with
  | Err Bridge.ErrPeerDisconnected =>
      let m := resetNonce m in
      if bool_decide (mode = Transport.ModeConnect) then
        match getBackoffDelay (attempt m) with
        | Ok delay => if sigDelay then (closeCap (set_appDone true m), Return MDone) else (retry [delay] m, Next)
        | _ => (m, Return MCrash)
        end
      else (retry [] m, Next)
  | Err e => (closeCap m, Return (MExit (ErrRun e)))
  | Ok _ => (closeCap m, Return MDone)
  | Panic => (m, Return MCrash)
  end.

Definition iterate (w : World) (ps : Cli.Params) (needs : bool) (i : iter_in) (m : Loop)
    : Loop * ctl ending :=
  let m := set_appDone (appDone m || i_sig i) m in
  if appDone m then (closeCap m, Return MDone) else
  match Transport.New (i_net i) (Transport.mkConfig (Cli.mode ps) (Cli.port ps) (Cli.peerAddr ps)
          (Some (lcodec m)) true) with
  | Err e => (closeCap m, Return (MExit (ErrTransport e)))
  | Panic => (m, Return MCrash)
  | Ok t =>
      match Bridge.New (Bridge.mkConfig (lcap m) (Some t) true true (Cli.mode ps) (Cli.statsInterval ps)) with
      | Err e => (closeCap m, Return (MExit (ErrBridge e)))
      | Panic => (m, Return MCrash)
      | Ok b =>
          let '(bg, cfg, fs, found) :=
            if needs && bool_decide (Cli.mode ps = Transport.ModeListen)
            then runBackgroundDiscovery w ps (i_disc i) (lcfg m) (lfiles m)
            else (None, lcfg m, lfiles m, []) in
          let '(b, ctx, out) := BridgeRun.Run (i_wait i) (i_connect i) (i_ctxErr i) (schedule i bg) b in
          let m := afterRun m b (ctx || i_sigAfter i) cfg fs found in
          match out with
          | BridgeRun.Blocked => (m, Waiting)
          | BridgeRun.Crashed => (m, Return MCrash)
          | BridgeRun.Returned r => decide_ (Cli.mode ps) (i_sigDelay i) r m
          end
      end
  end.

(** The variables before the first iteration. *)
Definition enter (st : Started) (fs : Config.files) (found : list (Events.EventType * Events.Data)) : Loop :=
  mkLoop 0 (codec st) (cap st) false [] (cfg st) fs [] found.

(** How far the program got: it exited during start-up, discovery is still
    listening, it crashed before the loop, or it reached the loop, which ended
    or is still running when its inputs end. *)
Inductive progress :=
| Failed (e : merr)
| Listening
| CrashedEarly
| Looped (m : Loop) (e : option ending).

Definition runBridge (w : World) (fs : Config.files) (ps : Cli.Params) (disc : list Discovery.disc_in)
    (ins : list iter_in) : progress :=
  match setup w fs ps with
  | Err e => Failed e
  | Panic => CrashedEarly
  | Ok st =>
      match discoverFirst w ps disc fs st with
      | None => Listening
      | Some (Err e) => Failed e
      | Some Panic => CrashedEarly
      | Some (Ok (st, fs, found)) =>
          let '(m, e) := loop (iterate w ps (needsDiscovery st)) ins (enter st fs found) in Looped m e
      end
  end.

End program.

End Main.
