(* ===== verification/MainProps.v ===== *)
(** * The program: properties of start-up and of the reconnection loop *)

From stdpp Require Import gmap strings.
From Stdlib Require Import Ascii.
From S2P Require Import Prelude Sha256 GoLib Protocol Transport TransportProps Capture Events Bridge.
From S2P Require Import BridgeProps BridgeRun BridgeRunProps BridgeClaims Logging Json Config Discovery GoFlag Cli Main.
Import GoLib Main.

Module MainProps.

#[local] Existing Instance Transport.Mode_eq_dec.

Section loop.
Context `{U : Unicode} `{M : Mac}.

(** ** Run, as the loop sees it *)

Lemma connectPhase_fresh wi ci cx b b' r : BridgeRunProps.fresh_bridge b ->
  Bridge.connectPhase wi ci cx b = (b', r) -> BridgeRunProps.fresh_bridge b'.
Proof.
  intros H. unfold Bridge.connectPhase.
  assert (forall t, BridgeRunProps.fresh_bridge (Bridge.set_transport t (Bridge.setState Bridge.StateConnecting b)))
    as Ht by (intros t; by apply (BridgeRunProps.setState_fresh Bridge.StateConnecting) in H).
  destruct (if bool_decide _ then _ else _) as [t [[u|e|]|]]; intros; simplify_eq; try apply Ht.
  apply BridgeRunProps.setState_fresh, Ht.
Qed.

Lemma New_fresh cfg b : Bridge.New cfg = Ok b -> BridgeRunProps.fresh_bridge b.
Proof. unfold Bridge.New. intros E. go_cases. by repeat split. Qed.

(** [Run] returns before its context is done only when connecting failed. *)
Lemma Run_returned wi ci cx ls b b' ctx r : BridgeRunProps.fresh_bridge b ->
  BridgeRun.Run wi ci cx ls b = (b', ctx, BridgeRun.Returned r) ->
  ctx = true \/ exists e, r = Err (Bridge.ErrConnection e).
Proof.
  intros Hf. unfold BridgeRun.Run. destruct (Bridge.connectPhase wi ci cx b) as [b1 o] eqn:E.
  pose proof (connectPhase_fresh _ _ _ _ _ _ Hf E) as Hf1.
  destruct o as [[[]|e|]|]; [| | |done|done].
  - destruct (BridgeRun.steps ls (BridgeRun.start b1)) as [s|] eqn:Es; [|done].
    intros H. left. apply BridgeClaims.steps_rtc in Es.
    destruct (BridgeRun.fault s); [done|].
    destruct (BridgeRun.runPc_ s) as [| | | | | | |r'] eqn:Er; try done. simplify_eq.
    destruct (BridgeRunProps.reachable_inv b1 s Hf1 Es) as [? ? ? ? ? Hexit Hret].
    apply Hexit. by apply (Hret r).
  - intros; simplify_eq. left. unfold Bridge.connectPhase in E.
    destruct (if bool_decide _ then _ else _) as [t [[u|e|]|]]; simplify_eq. by destruct ctx.
  - intros; simplify_eq. right. unfold Bridge.connectPhase in E.
    destruct (if bool_decide _ then _ else _) as [t [[u|e'|]|]]; simplify_eq.
    destruct ctx; simplify_eq. eauto.
Qed.

Lemma decide_never_next md sd r m :
  appDone m = true \/ (exists e, r = Err (Bridge.ErrConnection e)) -> snd (decide_ md sd r m) <> Next.
Proof. unfold decide_. intros [->|[e ->]]; [done|]. by destruct (appDone m). Qed.

Lemma iterate_never_next w ps needs i m : snd (iterate w ps needs i m) <> Next.
Proof.
  unfold iterate. destruct (appDone (set_appDone _ m)); [done|].
  destruct (Transport.New _ _) as [t|e|]; [|done|done].
  destruct (Bridge.New _) as [b|e|] eqn:Eb; [|done|done]. apply New_fresh in Eb.
  destruct (if needs && _ then _ else _) as [[[bg cfg] fs] found].
  destruct (BridgeRun.Run _ _ _ _ b) as [[b' ctx] [r| |]] eqn:Er; [|done|done].
  apply decide_never_next. destruct (Run_returned _ _ _ _ _ _ _ _ Eb Er) as [->|He]; [by left|by right].
Qed.

(** C5. The reconnection loop runs its body once: whatever the peer, the network,
    the user and the scheduler do, the process is at the end of its first
    iteration as it is at the end of any number of them. *)
Theorem never_reconnects (w : World) (fs : Config.files) (ps : Cli.Params)
    (disc : list Discovery.disc_in) (i : iter_in) (ins : list iter_in) :
  runBridge w fs ps disc (i :: ins) = runBridge w fs ps disc [i].
Proof.
  unfold runBridge. destruct (setup w fs ps) as [st|e|]; [|done|done].
  destruct (discoverFirst w ps disc fs st) as [[[[st' fs'] found]|e|]|]; try done.
  simpl. pose proof (iterate_never_next w ps (needsDiscovery st') i (enter st' fs' found)) as H.
  by destruct (iterate _ _ _ _ _) as [m [|r|]].
Qed.

(** ** The capture is released *)

Definition released (m : Loop) : Prop :=
  match lcap m with Some c => Capture.handle c = Capture.HandleNil | None => True end.

Lemma closeCap_released m : released (closeCap m).
Proof. unfold released, closeCap. simpl. by destruct (lcap m). Qed.

#[local] Hint Resolve closeCap_released : core.

Lemma iterate_released w ps needs i m m' e :
  iterate w ps needs i m = (m', Return e) -> e <> MCrash -> released m'.
Proof.
  unfold iterate. intros H He. destruct (appDone (set_appDone _ m)); [by simplify_eq|].
  destruct (Transport.New _ _) as [t|x|]; [|by simplify_eq..].
  destruct (Bridge.New _) as [b|x|]; [|by simplify_eq..].
  destruct (if needs && _ then _ else _) as [[[bg cfg] fs] found].
  destruct (BridgeRun.Run _ _ _ _ b) as [[b' ctx] [r| |]]; [|by simplify_eq..].
  unfold decide_ in H. repeat (case_match; simplify_eq; try done).
Qed.

(** When the program ends other than by a crash, whether by a signal, an
    error or a normal stop, the capture it opened is closed. *)
Theorem ends_released (w : World) (fs : Config.files) (ps : Cli.Params)
    (disc : list Discovery.disc_in) (ins : list iter_in) (m : Loop) (e : ending)
    (H : runBridge w fs ps disc ins = Looped m (Some e)) (He : e <> MCrash) : released m.
Proof.
  unfold runBridge in H. destruct (setup w fs ps) as [st|x|]; [|done|done].
  destruct (discoverFirst w ps disc fs st) as [[[[st' fs'] found]|x|]|]; try done.
  destruct (loop _ ins _) as [m1 o] eqn:El. simplify_eq.
  destruct (loop_return (fun _ => True) _ _ _ _ _ (fun _ _ _ => I) I El) as (i & s0 & _ & _ & E).
  by eapply iterate_released.
Qed.

(** ** The address *)

Lemma New_opened p c cap : Capture.New p c = Ok cap ->
  Capture.xboxMAC cap = Capture.cfgXboxMAC c /\ length (Capture.cfgXboxMAC c) = 6%nat /\
  Capture.handle cap = Capture.HandleOpen /\
  Capture.SetBPFFilter p (String.append "ether src " (mac_String (Capture.cfgXboxMAC c))) = None.
Proof.
  unfold Capture.New, mbind, outcome_bind, Capture.guard_call. intros E. go_cases; reflect_all; done.
Qed.

Lemma openCapture_Ok w ps mac c : openCapture w ps mac = Ok c ->
  Capture.xboxMAC c = mac /\ length mac = 6%nat /\ Capture.handle c = Capture.HandleOpen /\
  Capture.SetBPFFilter (pcap w) (String.append "ether src " (mac_String mac)) = None.
Proof.
  unfold openCapture, mapErr. destruct (Capture.New _ _) as [c'|e|] eqn:E; intros; simplify_eq.
  by apply New_opened in E.
Qed.

(** The parts of start-up that do not depend on the configuration. *)
Lemma setup_parts w fs ps st : setup w fs ps = Ok st ->
  exists mac, chooseMAC (Cli.xboxMACStr ps) (cfg st) = Ok mac /\
    needsDiscovery st = bool_decide (mac = None) /\
    codec st = Protocol.NewCodec (keyBytes (Cli.key ps)) /\
    cfg st = match Config.Load (host w) fs with Ok c => c | _ => Config.mkConfig EmptyString end /\
    match mac with None => cap st = None | Some m => exists c, openCapture w ps m = Ok c /\ cap st = Some c end /\
    forall fs' mac' c', chooseMAC (Cli.xboxMACStr ps)
      (match Config.Load (host w) fs' with Ok c => c | _ => Config.mkConfig EmptyString end) = Ok (Some mac') ->
      openCapture w ps mac' = Ok c' ->
      setup w fs' ps = Ok (mkStarted (level st) (emitter st) (codec st) (Some c') false
        (match Config.Load (host w) fs' with Ok c => c | _ => Config.mkConfig EmptyString end)).
Proof.
  unfold setup. destruct (Logging.ParseLevel _) as [lv []]; [|done].
  destruct (createEmitter _ _) as [em|e|]; [|done|done]. cbn [mbind outcome_bind].
  destruct (if bool_decide _ then _ else _) as [u|e|]; [|done|done]. cbn [mbind outcome_bind].
  destruct (chooseMAC _ _) as [mac|e|] eqn:Em; [|done|done]. cbn [mbind outcome_bind].
  destruct (mapErr ErrInterface _) as [iface|e|]; [|done|done]. cbn [mbind outcome_bind].
  intros E. exists mac. destruct mac as [m|].
  - destruct (openCapture w ps m) as [c|e|] eqn:Ec; simplify_eq/=. split_and!; try done; [by exists c|].
    intros fs' mac' c' -> Hc'. cbn [mbind outcome_bind]. by rewrite Hc'.
  - simplify_eq/=. split_and!; try done. intros fs' mac' c' -> Hc'. cbn [mbind outcome_bind]. by rewrite Hc'.
Qed.

(** C25. A program that starts uses the address of the flag if there is one, else
    the saved one, and then that address has six bytes, the kernel accepted the
    filter [ether src] with its text, and the capture for it is open; with
    neither it has no capture and goes to discovery.  Its codec is secure
    exactly when a key was given. *)
Theorem setup_spec (w : World) (fs : Config.files) (ps : Cli.Params) (st : Started)
    (H : setup w fs ps = Ok st) :
  (Protocol.IsSecure (codec st) = true <-> Cli.key ps <> EmptyString) /\
  match (if bool_decide (Cli.xboxMACStr ps = EmptyString) then Config.GetXboxMAC (cfg st)
         else match Capture.ParseMAC (Cli.xboxMACStr ps) with Ok m => Some m | _ => None end) with
  | Some mac => needsDiscovery st = false /\ length mac = 6%nat /\
      Capture.SetBPFFilter (pcap w) (String.append "ether src " (mac_String mac)) = None /\
      exists c, cap st = Some c /\ Capture.xboxMAC c = mac /\ Capture.handle c = Capture.HandleOpen
  | None => needsDiscovery st = true /\ cap st = None
  end.
Proof.
  destruct (setup_parts _ _ _ _ H) as (mac & Hm & Hn & Hc & _ & Hcap & _). split.
  - rewrite Hc. clear Hn. unfold keyBytes. case_bool_decide as Hk; [by rewrite Hk|]. split; [done|intros _].
    destruct (Cli.key ps) as [|a k]; done.
  - assert ((if bool_decide (Cli.xboxMACStr ps = EmptyString) then Config.GetXboxMAC (cfg st)
         else match Capture.ParseMAC (Cli.xboxMACStr ps) with Ok m => Some m | _ => None end) = mac) as ->.
    { unfold chooseMAC, mapErr in Hm. destruct (decide (Cli.xboxMACStr ps = EmptyString)) as [Hx|Hx].
      - rewrite bool_decide_eq_true_2 by done.
        rewrite bool_decide_eq_false_2 in Hm by (by intros []). congruence.
      - rewrite bool_decide_eq_false_2 by done. rewrite bool_decide_eq_true_2 in Hm by done.
        destruct (Capture.ParseMAC _); simpl in Hm; congruence. }
    destruct mac as [m|]; [|done]. destruct Hcap as (c & Ho & Hs).
    apply openCapture_Ok in Ho as (? & ? & ? & ?). split_and!; eauto.
Qed.

(** C20. A console that was discovered is remembered: after discovery in connect
    mode with a working file system, the next start with the same arguments
    opens the same capture without discovery. *)
Theorem discovered_remembered (w : World) (fs fs' : Config.files) (ps : Cli.Params) (path : string)
    (disc : list Discovery.disc_in) (st st' : Started) (evs : list (Events.EventType * Events.Data))
    (Hh : Config.healthy (host w) path) (Hx : Cli.xboxMACStr ps = EmptyString)
    (Hs : setup w fs ps = Ok st) (Hn : needsDiscovery st = true) (Hmd : Cli.mode ps = Transport.ModeConnect)
    (Hd : discoverFirst w ps disc fs st = Some (Ok (st', fs', evs))) :
  setup w fs' ps = Ok st' /\ needsDiscovery st' = false /\
  exists mac c, cap st' = Some c /\ Capture.xboxMAC c = mac /\ Config.GetXboxMAC (cfg st') = Some mac /\
    evs = [discoveryEvent mac].
Proof.
  destruct (setup_parts _ _ _ _ Hs) as (_ & _ & _ & _ & _ & _ & Hnext).
  unfold discoverFirst in Hd. rewrite Hn, bool_decide_eq_true_2 in Hd by done. simpl in Hd.
  destruct (runForegroundDiscovery _ _ _) as [[mac|]|]; [|done|done].
  unfold remember in Hd. rewrite (Config.Save_healthy _ path) in Hd by done. simpl in Hd.
  destruct (openCapture w ps mac) as [c|e|] eqn:Ec; simplify_eq/=.
  pose proof Ec as Hlen. apply openCapture_Ok in Hlen as (Hm & Hlen & _).
  assert (macLen (length mac) = true) as Hml by (by rewrite Hlen).
  set (fs1 := <[path := _]> fs).
  assert (Config.Load (host w) fs1 = Ok (Config.SetXboxMAC mac (cfg st))) as Hload.
  { destruct Hh as (Hp & Hr & _). subst fs1.
    by rewrite Config.Load_file, Config.unmarshal_marshal by (done || apply Config.mac_String_ascii). }
  split_and!; [|done|].
  - rewrite (Hnext fs1 mac c); rewrite ?Hload; [done| |done].
    unfold chooseMAC. rewrite bool_decide_eq_false_2 by (by intros []).
    by rewrite Config.GetXboxMAC_Set.
  - exists mac, c. split_and!; try done. by apply Config.GetXboxMAC_Set.
Qed.

(** C40. A saved address of 8 or 20 bytes passes [GetXboxMAC], which is documented
    to drop invalid ones; the capture then refuses it, and the program cannot
    start without the flag: it does not fall back to discovery. *)
Theorem saved_long_mac_blocks (w : World) (fs : Config.files) (ps : Cli.Params) (c : Config.Config)
    (mac : HardwareAddr) (Hx : Cli.xboxMACStr ps = EmptyString) (Hl : Config.Load (host w) fs = Ok c)
    (Hg : Config.GetXboxMAC c = Some mac) (Hlen : length mac <> 6%nat) (st : Started) :
  setup w fs ps <> Ok st.
Proof.
  intros H. destruct (setup_parts _ _ _ _ H) as (m & Hm & _ & _ & Hc & Hcap & _).
  rewrite Hl in Hc. rewrite Hc in Hm. unfold chooseMAC in Hm.
  rewrite bool_decide_eq_false_2, Hg in Hm by (by intros []). simplify_eq.
  destruct Hcap as (cp & Ho & _). by apply openCapture_Ok in Ho as (_ & ? & _).
Qed.

(** The program's backoff table is the transport's. *)
Theorem backoff_agrees (n : nat) :
  getBackoffDelay (Z.of_nat n) = mapErr ErrTransport (Transport.backoffDelay n).
Proof.
  unfold getBackoffDelay, Transport.backoffDelay. cbn [length].
  destruct (Z.ltb_spec (Z.of_nat n) (Z.of_nat 4)) as [Hn|Hn].
  - rewrite (proj2 (Z.ltb_ge _ _)) by lia. rewrite Nat2Z.id.
    by destruct n as [|[|[|[|n]]]]; [..|lia].
  - destruct (Nat.leb_spec (length Transport.connectBackoff) n) as [Hl|Hl]; [done|simpl in Hl; lia].
Qed.

End loop.

(** ** Examples *)

Definition ex_world : World :=
  mkWorld Capture.ex_pcap (Config.ex_host Config.WriteOk) (fun _ => true) (fun _ _ => None).

Definition ex_params : Cli.Params :=
  Cli.mkParams Transport.ModeConnect 0 "10.0.0.1:31415" "eth0" EmptyString EmptyString "info" 0 EmptyString.

(** A short read, then a packet of a console. *)
Definition ex_packet : list byte := replicate 6 xff ++ Capture.ex_mac ++ replicate 8 x00.
Definition ex_disc : list Discovery.disc_in :=
  [Discovery.mkDisc false (Capture.PData [x00]) 1; Discovery.mkDisc false (Capture.PData ex_packet) 2].

#[local] Existing Instance Capture.ex_unicode.

Definition ex_started : Started :=
  mkStarted 2 ENop (Protocol.NewCodec []) None true (Config.mkConfig EmptyString).

Definition ex_found : Started :=
  mkStarted 2 ENop (Protocol.NewCodec []) (Some (Capture.mkCapture Capture.HandleOpen Capture.ex_mac "eth0"))
    false (Config.SetXboxMAC Capture.ex_mac (Config.mkConfig EmptyString)).

Definition ex_files : Config.files :=
  <[Config.ex_path := Config.marshal (Config.SetXboxMAC Capture.ex_mac (Config.mkConfig EmptyString))]> ∅.

Lemma setup_spec_witness :
  needsDiscovery ex_found = false /\ cap ex_found <> None.
Proof.
  destruct (setup_spec ex_world ex_files ex_params ex_found eq_refl) as [_ (Hn & _ & _ & c & Hc & _)].
  split; [exact Hn|]. rewrite Hc. discriminate.
Defined.

Lemma discovered_remembered_witness : setup ex_world ex_files ex_params = Ok ex_found.
Proof.
  exact (proj1 (discovered_remembered ex_world ∅ ex_files ex_params Config.ex_path ex_disc ex_started ex_found
    [discoveryEvent Capture.ex_mac] Config.ex_healthy eq_refl eq_refl eq_refl eq_refl eq_refl)).
Defined.

Definition ex_long : Config.Config := Config.mkConfig "00:00:5e:ef:10:00:00:01".

Lemma saved_long_mac_blocks_witness :
  Config.GetXboxMAC ex_long = Some [x00; x00; x5e; xef; x10; x00; x00; x01] /\
  forall st, setup ex_world (<[Config.ex_path := Config.marshal ex_long]> ∅) ex_params <> Ok st.
Proof.
  split; [reflexivity|].
  apply (saved_long_mac_blocks ex_world _ ex_params ex_long [x00; x00; x5e; xef; x10; x00; x00; x01]);
    [reflexivity|reflexivity|reflexivity|discriminate].
Defined.

(** A peer address that does not resolve. *)
Definition ex_iter : iter_in :=
  mkIter false (Transport.mkNetEnv (fun _ => None) (fun _ => inl "no such host"%string)) [] [] [] false [] [] false false.

Lemma ends_released_witness :
  exists m, runBridge ex_world ex_files ex_params [] [ex_iter] =
      Looped m (Some (MExit (ErrTransport (Transport.ErrResolve "no such host")))) /\
    lcap m <> None /\ released m.
Proof.
  eexists. split; [reflexivity|]. split; [discriminate|].
  eapply (ends_released ex_world ex_files ex_params [] [ex_iter]); [reflexivity|discriminate].
Defined.

End MainProps.
