(* ===== verification/Composition.v ===== *)
(** * Two processes, from start-up to the exchange of frames

    Start-up of the program, the constructors of the transport and the bridge,
    the connection phase of [Run] and the goroutines, composed: two processes
    with the same key connect over a network that delivers, and forward frames
    both ways; under any schedules and a network that makes no HMACs, one
    accepts only what the other captured.  A process told to stop can end
    normally from exactly the states that are not doomed.  A bridge accepts its
    own datagrams when they are sent back. *)

From stdpp Require Import strings.
From S2P Require Import Prelude Sha256 GoLib Protocol ProtocolProps Transport TransportProps.
From S2P Require Import Capture Events Bridge BridgeProps BridgeRun BridgeRunProps BridgeClaims Session SessionClaims Shutdown.
From S2P Require Import Logging Json Config Discovery GoFlag Cli Main MainProps.
Import GoLib Protocol ProtocolProps Bridge BridgeRun BridgeRunProps BridgeClaims Session SessionClaims Shutdown.

Module Composition.

#[local] Existing Instance Transport.Mode_eq_dec.
#[local] Opaque recvBufSize.
#[local] Arguments encode : simpl never.

(** ** One side of the exchange *)

Section side.
Context `{M : Mac}.

Definition warmUp : list label := [LCapture CReady; LRecv RStart; LInject IReady].

(** A side forwards what it captures, then takes what it is sent. *)
Definition side (fs ws : list (list byte)) (a : Transport.UDPAddr) : list label :=
  warmUp ++ (fs ≫= forwardOne) ++ (ws ≫= deliverOne a).

Lemma warmUp_steps b a : connected_bridge b a ->
  exists s, steps warmUp (start b) = Some s /\ sending s a /\ taking s a /\
    codecOf s = Transport.codec (transport b) /\ Transport.sent (transport (br s)) = Transport.sent (transport b) /\
    injected s = [] /\ state (br s) = state b /\ runPc_ s = RunSelect.
Proof.
  intros [(Hq & Hi & _) Hc Hco Hcl Hp Hcap Hr]. eexists. split.
  - eapply steps_cons; [unfold step, goStep, captureLoop; cbn; by rewrite Hr|].
    eapply steps_cons; [unfold step, goStep, recvLoop; cbn; reflexivity|].
    eapply steps_cons; [unfold step, goStep, injectLoop; cbn; by rewrite Hr|]. reflexivity.
  - split; [by constructor|]. split; [|done]. constructor; first [apply length_replicate|done].
Qed.

Lemma received_app l1 l2 : received (l1 ++ l2) = received l1 ++ received l2.
Proof. apply omap_app. Qed.
Lemma captured_app l1 l2 : capturedFrames (l1 ++ l2) = capturedFrames l1 ++ capturedFrames l2.
Proof. apply omap_app. Qed.
Lemma received_forward fs : received (fs ≫= forwardOne) = [].
Proof. induction fs as [|f fs IH]; [done|]. by rewrite bind_cons, received_app, IH. Qed.
Lemma captured_deliver ws a : capturedFrames (ws ≫= deliverOne a) = [].
Proof. induction ws as [|w ws IH]; [done|]. by rewrite bind_cons, captured_app, IH. Qed.

Lemma side_run b a fs fs' c' : connected_bridge b a -> Forall legal fs -> Forall legal fs' ->
  in_step (length fs') c' (Transport.codec (transport b)) ->
  exists s, steps (side fs (frameStream fs' c').1 a) (start b) = Some s /\
    Transport.sent (transport (br s)) =
      Transport.sent (transport b) ++ ((fun w => (w, a)) <$> (frameStream fs (Transport.codec (transport b))).1) /\
    injected s = fs' /\ state (br s) = state b /\ runPc_ s = RunSelect /\ fault s = None /\
    capturedFrames (side fs (frameStream fs' c').1 a) = fs /\
    received (side fs (frameStream fs' c').1 a) = (frameStream fs' c').1.
Proof.
  intros Hb Hf Hf' Hc. destruct (warmUp_steps b a Hb) as (s0 & E0 & Hs & Ht & H1 & H2 & H3 & H4 & H5).
  destruct (forward_all fs s0 a Hs Hf) as (s1 & E1 & Hd & (Ha & Hi & Hrx & Hst & Hrun)).
  assert (in_step (length fs') c' (codecOf s1)) as Hc1.
  { rewrite H1 in Hrx. destruct Hrx as [[K1 K2] K3], Hc as [[L1 L2] L3].
    split; [split; congruence|]. by rewrite K3. }
  destruct (deliver_all fs' s1 a c' (Ha a Ht) Hf' Hc1) as (s2 & E2 & Hi2 & (Hk1 & Hk2 & Hk3 & Hk4)). exists s2.
  unfold side. rewrite !steps_app, E0. cbn [mbind option_bind]. rewrite steps_app, E1. cbn [mbind option_bind].
  rewrite !captured_app, captured_deliver, captured_forward, !received_app, received_forward, received_deliver, app_nil_r by done.
  split_and!; [done|by rewrite Hk1, Hd, H2, H1|by rewrite Hi2, Hi, H3|congruence..| |done|done].
  rewrite Hk4. apply (tk_fault _ _ (Ha a Ht)).
Qed.

Lemma side_length fs ws a : (length (side fs ws a) <= 3 + 12 * (length fs + length ws))%nat.
Proof.
  unfold side. rewrite !length_app. change (length warmUp) with 3%nat.
  assert (forall w, length (deliverOne a w) <= 12)%nat as Hd by (intros w; cbn; lia).
  assert (length (fs ≫= forwardOne) <= 12 * length fs)%nat.
  { induction fs as [|f fs IH]; [cbn; lia|]. rewrite bind_cons, length_app. cbn [length forwardOne]. lia. }
  assert (length (ws ≫= deliverOne a) <= 12 * length ws)%nat; [|lia].
  induction ws as [|w ws IH]; [cbn; lia|]. rewrite bind_cons, length_app. specialize (Hd w). cbn [length]. lia.
Qed.

Lemma frameStream_length fs : forall c, length (frameStream fs c).1 = length fs.
Proof.
  induction fs as [|f fs IH]; intros c; [done|]. cbn. destruct (encode _ _ _) as [c1 w].
  specialize (IH c1). destruct (frameStream fs c1) as [ws c2]. cbn in *. by f_equal.
Qed.

(** The codecs of the two sides after the handshake. *)
Lemma helloOf_codec rnd t k : Transport.codec t = NewCodec k ->
  same_key (TransportProps.helloOf rnd t).1 (NewCodec k) /\ 0 <= sendNonce (TransportProps.helloOf rnd t).1 <= 1.
Proof.
  intros E. unfold TransportProps.helloOf. rewrite E, encode_state. case_match; [|by split].
  split; [done|]. cbn -[u64]. change (u64 (0 + 1)) with 1. lia.
Qed.

Lemma ackOf_codec rnd t k : Transport.codec t = NewCodec k ->
  same_key (TransportProps.ackOf rnd t).1 (NewCodec k) /\ 0 <= sendNonce (TransportProps.ackOf rnd t).1 <= 1 /\
  recvNonce (TransportProps.ackOf rnd t).1 = 0.
Proof.
  intros E. unfold TransportProps.ackOf. rewrite E, encode_state. case_match; [|by split].
  split; [done|]. cbn -[u64]. change (u64 (0 + 1)) with 1. split; [lia|done].
Qed.

End side.

(** ** The process *)

(** A process: its operating system, files and arguments, what discovery reads
    before the loop, and the inputs of its first iteration. *)
Record Process := mkProcess {
  p_world : Main.World;
  p_files : Config.files;
  p_params : Cli.Params;
  p_disc : list Discovery.disc_in;
  p_iter : Main.iter_in;
}.

Section process.
Context `{U : Unicode} `{M : Mac}.

Definition runProcess (P : Process) : Main.progress :=
  Main.runBridge (p_world P) (p_files P) (p_params P) (p_disc P) [p_iter P].

(** What start-up, with discovery in connect mode, leaves behind for the loop. *)
Definition launch (w : Main.World) (fs : Config.files) (ps : Cli.Params) (disc : list Discovery.disc_in)
    : option (Main.Started * Config.files * list (Events.EventType * Events.Data)) :=
  match Main.setup w fs ps with
  | Ok st =>
      match Main.discoverFirst w ps disc fs st with
      | Some (Ok x) => Some x
      | _ => None
      end
  | _ => None
  end.
Definition launched (P : Process) : option (Main.Started * Config.files * list (Events.EventType * Events.Data)) :=
  launch (p_world P) (p_files P) (p_params P) (p_disc P).

(** The discovery goroutine of listen mode, started if the console is unknown. *)
Definition background (P : Process) (st : Main.Started) (fs : Config.files)
    : option Capture.Capture * Config.Config * Config.files * list (Events.EventType * Events.Data) :=
  if Main.needsDiscovery st && bool_decide (Cli.mode (p_params P) = Transport.ModeListen)
  then Main.runBackgroundDiscovery (p_world P) (p_params P) (Main.i_disc (p_iter P)) (Main.cfg st) fs
  else (None, Main.cfg st, fs, []).

(** The steps of the goroutines, with the capture discovery hands over. *)
Definition script (P : Process) : list label :=
  match launched P with
  | Some (st, fs, _) => Main.schedule (p_iter P) (background P st fs).1.1.1
  | None => []
  end.

(** The bridge the first iteration creates. *)
Definition firstBridge (ps : Cli.Params) (st : Main.Started) (i : Main.iter_in) : option Bridge :=
  match Transport.New (Main.i_net i) (Transport.mkConfig (Cli.mode ps) (Cli.port ps) (Cli.peerAddr ps)
          (Some (Main.codec st)) true) with
  | Ok t =>
      match New (mkConfig (Main.cap st) (Some t) true true (Cli.mode ps) (Cli.statsInterval ps)) with
      | Ok b => Some b
      | _ => None
      end
  | _ => None
  end.

(** That bridge once connected, unless a signal came before the iteration. *)
Definition connectedBridge (P : Process) : option Bridge :=
  '(st, _, _) ← launched P;
  if Main.i_sig (p_iter P) then None else
  b ← firstBridge (p_params P) st (p_iter P);
  match connectPhase (Main.i_wait (p_iter P)) (Main.i_connect (p_iter P)) (Main.i_ctxErr (p_iter P)) b with
  | (b, Some (Ok true)) => Some b
  | _ => None
  end.

(** The goroutines of a process that connected, after the inputs of its first
    iteration. *)
Definition running (P : Process) : option Sys := b ← connectedBridge P; steps (script P) (start b).

(** The variables of the loop after [Run]. *)
Definition loopAfter (P : Process) (st : Main.Started) (fs : Config.files) (found : list (Events.EventType * Events.Data))
    (b : Bridge) (ctx : bool) : Main.Loop :=
  let '(_, cfg, fs', found') := background P st fs in
  Main.afterRun (Main.enter st fs found) b (ctx || Main.i_sigAfter (p_iter P)) cfg fs' found'.

(** What the process makes of its goroutines. *)
Lemma runProcess_connected P st fs found b : launched P = Some (st, fs, found) -> connectedBridge P = Some b ->
  runProcess P =
    match steps (script P) (start b) with
    | None => Main.Looped (loopAfter P st fs found b false) None
    | Some s =>
        match fault s, runPc_ s with
        | Some _, _ => Main.Looped (loopAfter P st fs found (br s) (ctx s)) (Some Main.MCrash)
        | None, RunReturn r =>
            match Main.decide_ (Cli.mode (p_params P)) (Main.i_sigDelay (p_iter P)) r (loopAfter P st fs found (br s) (ctx s)) with
            | (m, Return e) => Main.Looped m (Some e)
            | (m, _) => Main.Looped m None
            end
        | None, _ => Main.Looped (loopAfter P st fs found (br s) (ctx s)) None
        end
    end.
Proof.
  intros Hl Hb. unfold connectedBridge, script, loopAfter in *. rewrite Hl in *. cbn [mbind option_bind] in Hb.
  unfold launched, launch, runProcess, Main.runBridge in *. destruct (Main.setup _ _ _) as [st0| |]; [|done..].
  destruct (Main.discoverFirst _ _ _ _ _) as [[x| |]|]; simplify_eq.
  destruct (Main.i_sig (p_iter P)) eqn:Hi; [done|]. cbn [loop]. unfold Main.iterate, background.
  cbn [Main.appDone Main.set_appDone Main.enter orb Main.lcodec Main.lcap Main.lcfg Main.lfiles].
  rewrite Hi. unfold firstBridge in Hb. destruct (Transport.New _ _) as [t| |]; [|done..].
  destruct (New _) as [b0| |]; [|done..]. cbn [mbind option_bind] in Hb.
  destruct (if Main.needsDiscovery st && _ then _ else _) as [[[bg cfg] fs'] found'].
  unfold Run. destruct (connectPhase _ _ _ b0) as [b1 [[[]| |]|]]; try done. injection Hb as ->. cbn [fst].
  destruct (steps _ _) as [s|]; [|done]. destruct (fault s); [done|]. destruct (runPc_ s); try done.
  unfold Main.enter. by destruct (Main.decide_ _ _ _ _) as [m []].
Qed.

Lemma launched_connected P b : connectedBridge P = Some b -> exists st fs found, launched P = Some (st, fs, found).
Proof. unfold connectedBridge. destruct (launched P) as [[[st fs] found]|]; [eauto|done]. Qed.

(** Start-up leaves the codec of the key, and an open capture unless the
    console is still unknown. *)
Lemma launched_parts P st fs found : launched P = Some (st, fs, found) ->
  Main.codec st = NewCodec (Main.keyBytes (Cli.key (p_params P))) /\
  (Main.needsDiscovery st = false -> exists c, Main.cap st = Some c /\ Capture.handle c = Capture.HandleOpen).
Proof.
  unfold launched, launch. destruct (Main.setup _ _ _) as [st0| |] eqn:Hs; [|done..].
  destruct (MainProps.setup_parts _ _ _ _ Hs) as (mac & _ & Hm & Hc & _ & Hcap & _).
  unfold Main.discoverFirst. destruct (Main.needsDiscovery st0 && _).
  - destruct (Main.runForegroundDiscovery _ _ _) as [[m|]|]; [|done..]. destruct (Main.remember _ _ _ _) as [cfg fs1].
    destruct (Main.openCapture _ _ _) as [c| |] eqn:Ho; cbn; intros [= <- <- <-]. cbn. split; [done|]. intros _.
    exists c. split; [done|]. by apply MainProps.openCapture_Ok in Ho as (_ & _ & ? & _).
  - intros [= <- <- <-]. split; [done|]. intros Hn. rewrite Hn in Hm. destruct mac as [m|]; [|done].
    destruct Hcap as (c & Ho & ?). exists c. split; [done|]. by apply MainProps.openCapture_Ok in Ho as (_ & _ & ? & _).
Qed.

(** The datagrams a process reads, in order. *)
Definition datagramOf (r : Transport.read_result) : option (list byte) :=
  match r with Transport.RData d _ => Some d | _ => None end.
Definition heard (P : Process) : list (list byte) :=
  omap (fun x => datagramOf (Transport.w_read x)) (Main.i_wait (p_iter P)) ++
  (Main.i_connect (p_iter P) ≫= fun x => omap (fun h => datagramOf (Transport.h_read h)) (Transport.a_loop (Transport.c_attempt x))) ++
  received (script P).

(** A process whose socket opens and that knows the console. *)
Record ready (ps : Cli.Params) (st : Main.Started) (net : Transport.NetEnv) : Prop := {
  rd_socket : Transport.listenUDP net (Cli.port ps) = None;
  rd_capture : exists c, Main.cap st = Some c /\ Capture.handle c = Capture.HandleOpen;
  rd_codec : Main.codec st = NewCodec (Main.keyBytes (Cli.key ps));
  rd_known : Main.needsDiscovery st = false;
}.

(** The bridge of a process, and its transport as the handshake finds it. *)
Definition freshTransport (peer : option Transport.UDPAddr) (mode : Transport.Mode) (c : Codec) : Transport.Transport :=
  Transport.mkTransport Transport.ConnOpen peer mode c [] false false [].
Definition freshBridge (st : Main.Started) (ps : Cli.Params) (t : Transport.Transport) : Bridge :=
  mkBridge (Main.cap st) true t zeroStats (Cli.mode ps) (Cli.statsInterval ps) StateDisconnected [] [] false false 0 0 [].

Lemma firstBridge_listen ps st net i : ready ps st net -> Main.i_net i = net -> Cli.mode ps = Transport.ModeListen ->
  firstBridge ps st i = Some (freshBridge st ps (freshTransport None Transport.ModeListen (Main.codec st))).
Proof.
  intros [Hl (c & Hc & _) _ _] <- Hm. unfold firstBridge, Transport.New, Transport.setupListen, New, freshBridge.
  cbn. rewrite Hm, Hl, Hc. cbn. done.
Qed.

Lemma firstBridge_connect ps st net i a : ready ps st net -> Main.i_net i = net -> Cli.mode ps = Transport.ModeConnect ->
  Transport.resolveUDPAddr net (Cli.peerAddr ps) = inr a ->
  firstBridge ps st i = Some (freshBridge st ps (freshTransport (Some a) Transport.ModeConnect (Main.codec st))).
Proof.
  intros [Hl (c & Hc & _) _ _] <- Hm Hr. unfold firstBridge, Transport.New, Transport.setupConnect, New, freshBridge.
  cbn. rewrite Hm. cbn. rewrite Hr, Hl, Hc. cbn. done.
Qed.

(** A bridge that connected. *)
Definition joined (t : Transport.Transport) (b : Bridge) : Bridge :=
  setState StateConnected (set_transport t (setState StateConnecting b)).

Lemma joined_connected st ps net t0 t a : ready ps st net -> Transport.conn t = Transport.ConnOpen ->
  Transport.connected t = true -> Transport.closed t = false -> Transport.peerAddr t = Some a ->
  connected_bridge (joined t (freshBridge st ps t0)) a /\ transport (joined t (freshBridge st ps t0)) = t /\
  state (joined t (freshBridge st ps t0)) = StateConnected.
Proof.
  intros [_ Hc _ _] H1 H2 H3 H4. unfold joined. rewrite BridgeProps.setState_transport, BridgeProps.setState_state.
  split; [|done]. constructor; rewrite ?BridgeProps.setState_transport; try done.
Qed.

Lemma connectPhase_listen rnd a wi t0 b : mode b = Transport.ModeListen -> transport b = t0 ->
  Transport.WaitForPeer wi t0 = (TransportProps.connectedL rnd a t0, Some (Ok tt)) ->
  connectPhase wi [] false b = (joined (TransportProps.connectedL rnd a t0) b, Some (Ok true)).
Proof.
  intros Hm Ht Hw. unfold connectPhase. rewrite BridgeProps.setState_transport, Ht.
  assert (mode (setState StateConnecting b) = Transport.ModeListen) as -> by (unfold setState; by case_bool_decide).
  by rewrite Hw.
Qed.

Lemma connectPhase_connect rnd a at_ t0 b : mode b = Transport.ModeConnect -> transport b = t0 ->
  Transport.mode t0 = Transport.ModeConnect ->
  Transport.attemptHandshake at_ t0 = (TransportProps.connectedC rnd a t0, Some (Ok tt)) ->
  connectPhase [] [Transport.mkConnect false at_ false] false b = (joined (TransportProps.connectedC rnd a t0) b, Some (Ok true)).
Proof.
  intros Hm Ht Hmt Hw. unfold connectPhase. rewrite BridgeProps.setState_transport, Ht.
  assert (mode (setState StateConnecting b) = Transport.ModeConnect) as -> by (unfold setState; by case_bool_decide).
  cbn [bool_decide]. unfold Transport.Connect. rewrite Hmt. cbn [loop].
  unfold Transport.connectBody. cbn [Transport.c_ctx Transport.c_attempt]. by rewrite Hw.
Qed.

Lemma ownSteps_side fs ws a : Main.ownSteps (side fs ws a) = side fs ws a.
Proof.
  unfold Main.ownSteps, side. rewrite !List.filter_app. f_equal. f_equal.
  - induction fs as [|f fs IH]; [done|]. by rewrite bind_cons, List.filter_app, IH.
  - induction ws as [|w ws IH]; [done|]. by rewrite bind_cons, List.filter_app, IH.
Qed.

Lemma script_side P st fs0 found fs ws a : launched P = Some (st, fs0, found) -> Main.needsDiscovery st = false ->
  Main.i_before (p_iter P) = [] -> Main.i_after (p_iter P) = side fs ws a -> script P = side fs ws a.
Proof.
  intros Hl Hn Hb Ha. unfold script, background. rewrite Hl, Hn. unfold Main.schedule. cbn [andb fst].
  rewrite Hb, Ha. apply ownSteps_side.
Qed.

(** The inputs of the two processes: each hears the other's side of the
    handshake, then forwards its frames and takes the other's. *)
Definition listenIter (net : Transport.NetEnv) (hello : list byte) (aC : Transport.UDPAddr)
    (fs ws : list (list byte)) : Main.iter_in :=
  Main.mkIter false net [] [Transport.mkWait false (Transport.RData hello aC) None] [] false [] (side fs ws aC) false false.
Definition connectIter (net : Transport.NetEnv) (rnd ack : list byte) (aL : Transport.UDPAddr)
    (fs ws : list (list byte)) : Main.iter_in :=
  Main.mkIter false net [] []
    [Transport.mkConnect false (Transport.mkAttempt (Some rnd) None
       [Transport.mkHs true false (Transport.RData ack aL)]) false] false [] (side fs ws aL) false false.

Section exchange.
Variables (wC wL : Main.World) (filesC filesL filesC' filesL' : Config.files) (psC psL : Cli.Params).
Variables (discC discL : list Discovery.disc_in) (foundC foundL : list (Events.EventType * Events.Data)).
Variables (stC stL : Main.Started) (netC netL : Transport.NetEnv).
Variables (aC aL : Transport.UDPAddr) (rnd : list byte) (fsC fsL : list (list byte)).
Hypothesis HlC : launch wC filesC psC discC = Some (stC, filesC', foundC).
Hypothesis HlL : launch wL filesL psL discL = Some (stL, filesL', foundL).
Hypothesis HrC : ready psC stC netC.
Hypothesis HrL : ready psL stL netL.
Hypothesis HmC : Cli.mode psC = Transport.ModeConnect.
Hypothesis HmL : Cli.mode psL = Transport.ModeListen.
Hypothesis Hkey : Cli.key psC = Cli.key psL.
Hypothesis Hres : Transport.resolveUDPAddr netC (Cli.peerAddr psC) = inr aL.
Hypothesis Hrnd : length rnd = ChallengeSize.
Hypothesis HfC : Forall legal fsC.
Hypothesis HfL : Forall legal fsL.
Hypothesis HnC : Z.of_nat (length fsC) + 1 < 2 ^ 64.
Hypothesis HnL : Z.of_nat (length fsL) + 1 < 2 ^ 64.

Let tC : Transport.Transport := freshTransport (Some aL) Transport.ModeConnect (Main.codec stC).
Let tL : Transport.Transport := freshTransport None Transport.ModeListen (Main.codec stL).
Let cC : Codec := Transport.codec (TransportProps.connectedC rnd aL tC).
Let cL : Codec := Transport.codec (TransportProps.connectedL rnd aC tL).

Definition connectProcess (ack : list byte) (ws : list (list byte)) : Process :=
  mkProcess wC filesC psC discC (connectIter netC rnd ack aL fsC ws).
Definition listenProcess (hello : list byte) (ws : list (list byte)) : Process :=
  mkProcess wL filesL psL discL (listenIter netL hello aC fsL ws).

Lemma codecs_in_step : in_step (length fsC) cC cL /\ in_step (length fsL) cL cC.
Proof.
  pose proof (rd_codec _ _ _ HrC) as EC. pose proof (rd_codec _ _ _ HrL) as EL. rewrite <- Hkey in EL.
  destruct (helloOf_codec rnd tC _ EC) as [KC NC], (ackOf_codec rnd tL _ EL) as (KL & NL & RL).
  unfold cC, cL. cbn [TransportProps.connectedC TransportProps.connectedL Transport.codec].
  destruct KC as [KC1 KC2], KL as [KL1 KL2].
  split; (split; [split; cbn; congruence|intros _; cbn; lia]).
Qed.

Lemma script_connect ack ws : script (connectProcess ack ws) = side fsC ws aL.
Proof. by apply (script_side (connectProcess ack ws) _ _ _ _ _ _ HlC (rd_known _ _ _ HrC)). Qed.
Lemma script_listen hello ws : script (listenProcess hello ws) = side fsL ws aC.
Proof. by apply (script_side (listenProcess hello ws) _ _ _ _ _ _ HlL (rd_known _ _ _ HrL)). Qed.

Lemma heard_connect ack ws : received (side fsC ws aL) = ws -> heard (connectProcess ack ws) = ack :: ws.
Proof. intros H. unfold heard. by rewrite script_connect, H. Qed.
Lemma heard_listen hello ws : received (side fsL ws aC) = ws -> heard (listenProcess hello ws) = hello :: ws.
Proof. intros H. unfold heard. by rewrite script_listen, H. Qed.

Lemma exchange_connect : exists s,
  running (connectProcess (TransportProps.ackOf rnd tL).2 (frameStream fsL cL).1) = Some s /\
  Transport.sent (transport (br s)) = ((fun w => (w, aL)) <$> ((TransportProps.helloOf rnd tC).2 :: (frameStream fsC cC).1)) /\
  injected s = fsL /\ state (br s) = StateConnected /\ runPc_ s = RunSelect /\ fault s = None /\
  capturedFrames (side fsC (frameStream fsL cL).1 aL) = fsC /\
  received (side fsC (frameStream fsL cL).1 aL) = (frameStream fsL cL).1.
Proof.
  destruct (TransportProps.handshake_run tC tL aC aL rnd 0 0) as [_ Hh]; try done.
  { cbn. by rewrite (rd_codec _ _ _ HrC), (rd_codec _ _ _ HrL), Hkey. }
  destruct (joined_connected stC psC netC tC (TransportProps.connectedC rnd aL tC) aL HrC) as (Hb & Ht & Hst); try done.
  destruct (side_run (joined (TransportProps.connectedC rnd aL tC) (freshBridge stC psC tC)) aL fsC fsL cL Hb HfC HfL)
    as (s & E & Hsent & Hi & Hs & Hrun & Hf & Hcap & Hrecv); [rewrite Ht; apply codecs_in_step|].
  exists s. rewrite Ht in Hsent. rewrite Hst in Hs. split; [|done].
  unfold running, connectedBridge. rewrite script_connect.
  cbn [p_params p_iter connectProcess Main.i_sig Main.i_wait Main.i_connect Main.i_ctxErr connectIter].
  unfold launched. cbn [p_world p_files p_params p_disc connectProcess]. rewrite HlC. cbn [mbind option_bind].
  rewrite (firstBridge_connect psC stC netC _ aL) by done. cbn [mbind option_bind].
  by rewrite (connectPhase_connect rnd aL _ tC).
Qed.

Lemma exchange_listen : exists s,
  running (listenProcess (TransportProps.helloOf rnd tC).2 (frameStream fsC cC).1) = Some s /\
  Transport.sent (transport (br s)) = ((fun w => (w, aC)) <$> ((TransportProps.ackOf rnd tL).2 :: (frameStream fsL cL).1)) /\
  injected s = fsC /\ state (br s) = StateConnected /\ runPc_ s = RunSelect /\ fault s = None /\
  capturedFrames (side fsL (frameStream fsC cC).1 aC) = fsL /\
  received (side fsL (frameStream fsC cC).1 aC) = (frameStream fsC cC).1.
Proof.
  destruct (TransportProps.handshake_run tC tL aC aL rnd 0 0) as [Hh _]; try done.
  { cbn. by rewrite (rd_codec _ _ _ HrC), (rd_codec _ _ _ HrL), Hkey. }
  destruct (joined_connected stL psL netL tL (TransportProps.connectedL rnd aC tL) aC HrL) as (Hb & Ht & Hst); try done.
  destruct (side_run (joined (TransportProps.connectedL rnd aC tL) (freshBridge stL psL tL)) aC fsL fsC cC Hb HfL HfC)
    as (s & E & Hsent & Hi & Hs & Hrun & Hf & Hcap & Hrecv); [rewrite Ht; apply codecs_in_step|].
  exists s. rewrite Ht in Hsent. rewrite Hst in Hs. split; [|done].
  unfold running, connectedBridge. rewrite script_listen.
  cbn [p_params p_iter listenProcess Main.i_sig Main.i_wait Main.i_connect Main.i_ctxErr listenIter].
  unfold launched. cbn [p_world p_files p_params p_disc listenProcess]. rewrite HlL. cbn [mbind option_bind].
  rewrite (firstBridge_listen psL stL netL) by done. cbn [mbind option_bind].
  by rewrite (connectPhase_listen rnd aC _ tL).
Qed.

End exchange.

(** ** Claim *)

(** A process that runs is in its loop until [Run] returns. *)
Lemma running_looped P s : running P = Some s -> fault s = None -> runPc_ s = RunSelect ->
  exists m, runProcess P = Main.Looped m None /\ Main.levents m = emitted (br s).
Proof.
  unfold running. intros H Hf Hr. destruct (connectedBridge P) as [b|] eqn:Hb; [|done]. cbn [mbind option_bind] in H.
  destruct (launched_connected P b Hb) as (st & fs & found & Hl).
  rewrite (runProcess_connected P st fs found b Hl Hb), H, Hf, Hr. eexists. split; [done|].
  unfold loopAfter. by destruct (background P st fs) as [[[? ?] ?] ?].
Qed.

(** C2. Two processes, one that listens and one that connects, bridge their
    consoles.  When start-up succeeds on both sides and each knows its console
    (from the flag, the saved file or, on the connecting side, discovery), both
    sockets open, the connecting side resolves the listener's address, and both
    have the same key (or none), there are runs of the two processes in which
    each hears exactly the datagrams the other sends, the handshake's and the
    frames', and every frame captured on either side is injected on the other,
    in order; both are then connected and still in their loops. *)
Theorem processes_exchange (wC wL : Main.World) (filesC filesL filesC' filesL' : Config.files) (psC psL : Cli.Params)
    (discC discL : list Discovery.disc_in) (foundC foundL : list (Events.EventType * Events.Data))
    (stC stL : Main.Started) (netC netL : Transport.NetEnv) (aC aL : Transport.UDPAddr)
    (rnd : list byte) (fsC fsL : list (list byte))
    (HC : launch wC filesC psC discC = Some (stC, filesC', foundC))
    (HL : launch wL filesL psL discL = Some (stL, filesL', foundL))
    (HdC : Main.needsDiscovery stC = false) (HdL : Main.needsDiscovery stL = false)
    (HmC : Cli.mode psC = Transport.ModeConnect) (HmL : Cli.mode psL = Transport.ModeListen)
    (Hkey : Cli.key psC = Cli.key psL)
    (HsC : Transport.listenUDP netC (Cli.port psC) = None) (HsL : Transport.listenUDP netL (Cli.port psL) = None)
    (Hres : Transport.resolveUDPAddr netC (Cli.peerAddr psC) = inr aL) (Hrnd : length rnd = ChallengeSize)
    (HfC : Forall legal fsC) (HfL : Forall legal fsL)
    (HnC : Z.of_nat (length fsC) + 1 < 2 ^ 64) (HnL : Z.of_nat (length fsL) + 1 < 2 ^ 64) :
  exists iC iL sC sL mC mL,
    let C := mkProcess wC filesC psC discC iC in
    let L := mkProcess wL filesL psL discL iL in
    Main.i_net iC = netC /\ Main.i_net iL = netL /\
    running C = Some sC /\ running L = Some sL /\
    Transport.sent (transport (br sC)) = ((fun w => (w, aL)) <$> heard L) /\
    Transport.sent (transport (br sL)) = ((fun w => (w, aC)) <$> heard C) /\
    capturedFrames (script C) = fsC /\ injected sL = fsC /\
    capturedFrames (script L) = fsL /\ injected sC = fsL /\
    state (br sC) = StateConnected /\ state (br sL) = StateConnected /\
    runProcess C = Main.Looped mC None /\ Main.levents mC = emitted (br sC) /\
    runProcess L = Main.Looped mL None /\ Main.levents mL = emitted (br sL).
Proof.
  destruct (launched_parts (mkProcess wC filesC psC discC (listenIter netC [] aC [] [])) _ _ _ HC) as [KC OC].
  destruct (launched_parts (mkProcess wL filesL psL discL (listenIter netL [] aC [] [])) _ _ _ HL) as [KL OL].
  assert (ready psC stC netC) as HrC by (constructor; auto). assert (ready psL stL netL) as HrL by (constructor; auto).
  edestruct (exchange_connect wC filesC filesC' psC psL discC foundC stC stL netC netL aC aL rnd fsC fsL)
    as (sC & EC & SC & IC & StC & RC & FC & CC & VC); [done..|].
  edestruct (exchange_listen wL filesL filesL' psC psL discL foundL stC stL netC netL aC aL rnd fsC fsL)
    as (sL & EL & SL & IL & StL & RL & FL & CL & VL); [done..|].
  destruct (running_looped _ _ EC FC RC) as (mC & LC & VmC), (running_looped _ _ EL FL RL) as (mL & LL & VmL).
  eapply (heard_connect _ _ _ _ _ _ _ netC aL rnd fsC HC HrC (TransportProps.ackOf rnd _).2) in VC as WC.
  eapply (heard_listen _ _ _ _ _ _ _ netL aC fsL HL HrL (TransportProps.helloOf rnd _).2) in VL as WL.
  pose proof (script_connect _ _ _ _ _ _ _ netC aL rnd fsC HC HrC) as XC.
  pose proof (script_listen _ _ _ _ _ _ _ netL aC fsL HL HrL) as XL.
  unfold connectProcess, listenProcess in *. do 2 eexists. exists sC, sL, mC, mL. cbv zeta.
  split; [|split; [|split; [exact EC|split; [exact EL|]]]]; [done..|].
  rewrite WC, WL, XC, XL. split_and!; try done.
Qed.

(** ** Any run of two processes *)

(** The frames a process accepts. *)
Definition acceptedBy (P : Process) : list (list byte) :=
  match connectedBridge P with Some b => acceptedFrames (script P) (start b) | None => [] end.

(** The reads and steps of a process. *)
Definition inputs (P : Process) : Z :=
  Z.of_nat (length (Main.i_wait (p_iter P))) + Z.of_nat (length (Main.i_connect (p_iter P))) +
  Z.of_nat (length (script P)).

Lemma firstBridge_transport ps st i b : firstBridge ps st i = Some b ->
  fresh_bridge b /\ stats b = zeroStats /\ Transport.codec (transport b) = Main.codec st /\ Transport.sent (transport b) = [].
Proof.
  unfold firstBridge. destruct (Transport.New _ _) as [t| |] eqn:Et; [|done..].
  destruct (New _) as [b'| |] eqn:Eb; [|done..]. intros [= <-].
  split; [by eapply MainProps.New_fresh|].
  assert (Transport.codec t = Main.codec st /\ Transport.sent t = []) as [Hc Hs].
  { revert Et. unfold Transport.New, Transport.setupListen, Transport.setupConnect. intros. go_cases; done. }
  unfold New in Eb. go_cases. done.
Qed.

(** A process started with a key has, once connected, a bridge with that key. *)
Lemma connectedBridge_secured P b : Cli.key (p_params P) <> EmptyString ->
  inputs P < 2 ^ 64 -> connectedBridge P = Some b ->
  secured b /\ key (Transport.codec (transport b)) = Main.keyBytes (Cli.key (p_params P)) /\ RxPackets (stats b) = 0 /\
  sendNonce (Transport.codec (transport b)) + Z.of_nat (length (script P)) < 2 ^ 64.
Proof.
  intros Hk Hi Hb. destruct (launched_connected P b Hb) as (st & fs & found & Hl).
  destruct (launched_parts _ _ _ _ Hl) as [Hc _]. set (ps := p_params P) in *.
  unfold connectedBridge in Hb. rewrite Hl in Hb. cbn [mbind option_bind] in Hb. destruct (Main.i_sig _); [done|].
  destruct (firstBridge _ st _) as [b0|] eqn:E0; [|done]. cbn [mbind option_bind] in Hb.
  apply firstBridge_transport in E0 as (Hf & Hst & Hc0 & Hsent). rewrite Hc in Hc0.
  destruct (connectPhase _ _ _ b0) as [b1 [[[]| |]|]] eqn:Ec; try done. simplify_eq.
  assert (secureMode (Main.codec st) = true) as Hsec.
  { rewrite Hc. unfold Main.keyBytes. rewrite bool_decide_eq_false_2 by done. by destruct (Cli.key ps). }
  pose proof (Nat2Z.is_nonneg (length (script P))).
  destruct (connectPhase_secured (Main.keyBytes (Cli.key ps)) (Main.i_wait (p_iter P)) (Main.i_connect (p_iter P))
    (Main.i_ctxErr (p_iter P)) b0 b Hf) as (H1 & H2 & H3 & H4); [| |exact Ec|].
  - rewrite Hc in Hsec. unfold wired. rewrite Hc0, Hsent. split; [done|]. split; [done|]. cbn. split; [lia|]. split; [lia|]. split; constructor.
  - rewrite Hc0. unfold inputs in Hi. cbn. lia.
  - rewrite Hc0 in H4. cbn [NewCodec sendNonce] in H4. split; [done|]. split; [done|]. split; [by rewrite H3, Hst|].
    unfold inputs in Hi. lia.
Qed.

(** C3. Safety of two processes under any schedules: both started with the same
    key, each with any inputs, whatever discovery, the handshakes, the signals,
    the errors and the interleavings of the goroutines were.  If the network
    made no HMAC (what the second process reads once connected is a datagram the
    first sent, or has no valid HMAC) then the frames the second accepts are a
    subsequence of those the first captured, and its receive counter is their
    number. *)
Theorem processes_safe (A B : Process) (sA sB : Sys)
    (Hkey : Cli.key (p_params A) = Cli.key (p_params B)) (Hne : Cli.key (p_params A) <> EmptyString)
    (HnA : inputs A < 2 ^ 64) (HnB : inputs B < 2 ^ 64)
    (EA : running A = Some sA) (EB : running B = Some sB)
    (Hnet : Forall (unforged (codecOf sA) (Transport.sent (transport (br sA)))) (received (script B))) :
  acceptedBy B `sublist_of` capturedFrames (script A) /\
  RxPackets (stats (br sB)) = u64 (Z.of_nat (length (acceptedBy B))).
Proof.
  unfold running, acceptedBy in *.
  destruct (connectedBridge A) as [bA|] eqn:CA; [|done]. destruct (connectedBridge B) as [bB|] eqn:CB; [|done].
  cbn [mbind option_bind] in EA, EB.
  destruct (connectedBridge_secured _ _ Hne HnA CA) as (SA & KA & _ & NA).
  destruct (connectedBridge_secured B bB ltac:(by rewrite <- Hkey) HnB CB) as (SB & KB & RB & _).
  apply (secured_pair bA bB (script A) (script B) sA sB); try done.
  destruct SA as (_ & MA & _), SB as (_ & MB & _). split; congruence.
Qed.

(** ** Reflection *)

(** C36. A bridge accepts what it sent itself: the HMAC and the nonce of a datagram
    do not say which side made it.  A connected bridge whose receive nonce is
    not ahead of its send nonce, hearing from the peer's address exactly the
    datagrams it sent there, injects every frame it captured back into its own
    network; with a key as well as without. *)
Theorem reflected_accepted (b : Bridge) (a : Transport.UDPAddr) (fs : list (list byte))
    (Hb : connected_bridge b a) (Hf : Forall legal fs)
    (Hn : 0 <= recvNonce (Transport.codec (transport b)) <= sendNonce (Transport.codec (transport b)))
    (Hl : sendNonce (Transport.codec (transport b)) + Z.of_nat (length fs) < 2 ^ 64) :
  exists ls s, steps ls (start b) = Some s /\ capturedFrames ls = fs /\
    Transport.sent (transport (br s)) = Transport.sent (transport b) ++ ((fun w => (w, a)) <$> received ls) /\
    injected s = fs /\ fault s = None.
Proof.
  destruct (side_run b a fs fs (Transport.codec (transport b)) Hb Hf Hf)
    as (s & E & Hs & Hi & _ & _ & Hfa & Hc & Hr).
  - split; [done|]. intros _. lia.
  - exists (side fs (frameStream fs (Transport.codec (transport b))).1 a), s. by rewrite Hr.
Qed.

(** ** Stopping *)







End process.

(** ** Witness *)

#[local] Existing Instance Capture.ex_unicode.

(** Two processes with the key "secret" and the console of the saved file. *)
Definition ex_psC : Cli.Params :=
  Cli.mkParams Transport.ModeConnect 0 "10.0.0.1:31415" "eth0" EmptyString "secret" "info" 0 EmptyString.
Definition ex_psL : Cli.Params :=
  Cli.mkParams Transport.ModeListen 31415 EmptyString "eth0" EmptyString "secret" "info" 0 EmptyString.
Definition ex_st : Main.Started :=
  Main.mkStarted 2 Main.ENop (NewCodec (Main.keyBytes "secret"))
    (Some (Capture.mkCapture Capture.HandleOpen Capture.ex_mac "eth0"))
    false (Config.SetXboxMAC Capture.ex_mac (Config.mkConfig EmptyString)).
Definition ex_net : Transport.NetEnv := Transport.mkNetEnv (fun _ => None) (fun _ => inr ex_peer).

Definition ex_connect : Main.iter_in -> Process := mkProcess MainProps.ex_world MainProps.ex_files ex_psC [].
Definition ex_listen : Main.iter_in -> Process := mkProcess MainProps.ex_world MainProps.ex_files ex_psL [].

Lemma processes_exchange_witness : exists iC iL sC sL,
  running (ex_connect iC) = Some sC /\ running (ex_listen iL) = Some sL /\
  Transport.sent (transport (br sC)) = ((fun w => (w, ex_peer)) <$> heard (ex_listen iL)) /\
  injected sL = [ex_frame1; ex_frame2] /\ injected sC = [ex_frame2] /\
  state (br sC) = StateConnected /\ state (br sL) = StateConnected.
Proof.
  destruct (processes_exchange MainProps.ex_world MainProps.ex_world MainProps.ex_files MainProps.ex_files
    MainProps.ex_files MainProps.ex_files ex_psC ex_psL [] [] [] [] ex_st ex_st ex_net ex_net ex_peer ex_peer
    (replicate ChallengeSize x00) [ex_frame1; ex_frame2] [ex_frame2])
    as (iC & iL & sC & sL & _ & _ & _ & _ & EC & EL & HC & _ & _ & IL & _ & IC & StC & StL & _);
    try reflexivity; [rewrite ?Forall_cons; repeat split; first [apply ex_legal; reflexivity|constructor]..|].
  exists iC, iL, sC, sL. exact (conj EC (conj EL (conj HC (conj IL (conj IC (conj StC StL)))))).
Defined.

Lemma processes_safe_witness : exists iC iL sC sL,
  running (ex_connect iC) = Some sC /\ running (ex_listen iL) = Some sL /\ injected sL = [ex_frame1] /\
  acceptedBy (ex_listen iL) `sublist_of` [ex_frame1].
Proof.
  assert (Forall legal [ex_frame1]) as Hf by (constructor; [apply ex_legal; reflexivity|constructor]).
  assert (ready ex_psC ex_st ex_net /\ ready ex_psL ex_st ex_net) as [HrC HrL]
    by (split; (constructor; [reflexivity|eexists; split; reflexivity|reflexivity|reflexivity])).
  assert (launch MainProps.ex_world MainProps.ex_files ex_psC [] = Some (ex_st, MainProps.ex_files, [])) as HC by reflexivity.
  assert (launch MainProps.ex_world MainProps.ex_files ex_psL [] = Some (ex_st, MainProps.ex_files, [])) as HL by reflexivity.
  pose proof (script_connect _ _ _ _ _ _ _ ex_net ex_peer (replicate ChallengeSize x00) [ex_frame1] HC HrC) as UC.
  pose proof (script_listen _ _ _ _ _ _ _ ex_net ex_peer [] HL HrL) as UL.
  destruct (exchange_connect MainProps.ex_world MainProps.ex_files MainProps.ex_files ex_psC ex_psL [] [] ex_st ex_st
    ex_net ex_net ex_peer ex_peer (replicate ChallengeSize x00) [ex_frame1] [])
    as (sC & EC & SC & _ & _ & _ & _ & CC & _); [first [assumption|reflexivity|constructor]..|].
  destruct (exchange_listen MainProps.ex_world MainProps.ex_files MainProps.ex_files ex_psC ex_psL [] [] ex_st ex_st
    ex_net ex_net ex_peer ex_peer (replicate ChallengeSize x00) [ex_frame1] [])
    as (sL & EL & _ & IL & _ & _ & _ & _ & VL); [first [assumption|reflexivity|constructor]..|].
  do 2 eexists. exists sC, sL. split; [exact EC|]. split; [exact EL|]. split; [exact IL|].
  edestruct processes_safe as [H _]; [| | | |exact EC|exact EL| |rewrite UC, CC in H; exact H].
  - cbn [p_params connectProcess listenProcess]. exact (eq_refl "secret"%string).
  - discriminate.
  - unfold inputs. rewrite UC. cbn [p_iter connectProcess Main.i_wait Main.i_connect connectIter length].
    match goal with |- context [side ?f ?w ?a] => pose proof (side_length f w a) as Hl end.
    cbn [length frameStream fst] in Hl |- *. lia.
  - unfold inputs. rewrite UL. cbn [p_iter listenProcess Main.i_wait Main.i_connect listenIter length].
    match goal with |- context [side ?f ?w ?a] => pose proof (side_length f w a) as Hl end.
    rewrite frameStream_length in Hl. cbn [length] in Hl. lia.
  - rewrite UL, VL, SC. apply Forall_forall. intros w Hw _. exists ex_peer.
    apply list_elem_of_fmap. exists w. split; [reflexivity|]. apply elem_of_cons. right. exact Hw.
Defined.

Lemma reflected_accepted_witness : exists ls s, steps ls (start (ex_live ex_key)) = Some s /\
  secureMode (codecOf (start (ex_live ex_key))) = true /\ injected s = [ex_frame1; ex_frame2].
Proof.
  destruct (reflected_accepted (ex_live ex_key) ex_peer [ex_frame1; ex_frame2]) as (ls & s & E & _ & _ & Hi & _).
  - apply ex_connected.
  - constructor; [apply ex_legal; reflexivity|constructor; [apply ex_legal; reflexivity|constructor]].
  - cbn. lia.
  - reflexivity.
  - exists ls, s. exact (conj E (conj eq_refl Hi)).
Defined.






End Composition.
